(* ===== verification/_CoqProject ===== *)
-Q . S2P
Prelude.v
Text.v
OrdMap.v
Types.v
Error.v
Optional.v
Seconds.v
ConnectionParams.v
Acl.v
Native.v
Results.v
Multi.v
ToString.v
Configuration.v
ConfigurationSpec.v
ConfigurationTheory.v
Regex.v
Registry.v
Startup.v
Server.v
ServerTheory.v
Ensemble.v
Group.v
World.v
ConnectionZk.v
Watcher.v
Commit.v
Runs.v
WatcherRefinement.v
Registration.v
Protocol.v
Lifecycle.v
Outcomes.v
Fence.v
Stale.v
StateWatch.v
Destruction.v
Client.v
Contract.v
BuildConfig.v
Pipe.v
Subprocess.v
Descriptors.v
ServerLoop.v
ServerProcess.v
