(* ===== verification/Prelude.v ===== *)
(** * Verification of ZooKeeper C++ (zkpp)

    The program is a C++ client library for ZooKeeper (src/zk) and a helper that
    runs ZooKeeper servers on the local machine (src/zk/server). Paths below are
    relative to src/zk.

    ** The program and the files that model it

    The client side. [client] (client.cpp) forwards each operation to a [connection]
    and waits for the session in [connect]. [connection_zk] (connection_zk.cpp) turns
    each operation into an asynchronous call of the ZooKeeper C client: it allocates a
    promise or a watcher, passes its address as the context of a completion callback,
    and returns the future. Completions, watch notifications and session events arrive
    on threads of the C client. [commit] encodes a transaction into arrays of C
    structures that live until its completion.

    - Types.v: types.hpp, types.cpp. Ids and versions, [stat], [create_mode],
      [event_type], [state].
    - Error.v: error.hpp, error.cpp. Codes, the class hierarchy as an inductive type
      with a [base_class] function, [throw_error]; the exceptions of the program as
      values ([exn]) and results that are values, exceptions or undefined ([mres]).
    - Acl.v: acl.hpp, acl.cpp. Results.v: results.hpp, results.cpp. Multi.v: multi.hpp,
      multi.cpp. ToString.v: the [to_string] functions of all value types and their
      [std::hash]. Optional.v: optional.hpp.
    - Seconds.v, ConnectionParams.v: connection.cpp (class [connection_params]) and the
      constructor of [connection_zk]. Seconds.v has what the standard library does for
      them: [stod], durations of [double], printing of [double], over [SpecFloat].
    - Native.v: the adaptors at the top of connection_zk.cpp. The constants of the C
      client are the class [ZooConsts].
    - World.v: promises, futures and heap objects, and the monad of computations on
      them (return, throw, undefined behaviour).
    - ConnectionZk.v: connection.cpp (class [connection]) and connection_zk.cpp, each
      operation and callback a computation on the world. Commit.v: [commit] and its
      completion. Runs.v: their effects as equations.
    - Protocol.v: the step relation of a connection and its environment, and the
      invariant. Lifecycle.v: its preservation and the properties. Outcomes.v: where the
      outcome of a future comes from. Fence.v: completions that run before their call has
      returned. Stale.v: the protocol with the watches the C client holds, and
      notifications for watchers that are gone.
      Destruction.v: the destructor, after the last answers of the C client.
    - Watcher.v: the threads that meet inside one watcher, cut into atomic actions.
      WatcherRefinement.v: they refine the operations of ConnectionZk.v.
      Registration.v: a call of [watch] and the threads of the C client that may complete
      and notify it before it has filed its watcher, with the mutex and the owners of the
      watcher. StateWatch.v: the threads that register state watches and deliver session
      events, with the mutex of their list.
    - Client.v: client.cpp. The interface of a connection is the class [Connection];
      what [connect] relies on is the class [SessionSource], which the connection of
      Protocol.v discharges. Contract.v: the operations of a client from the call to the
      outcome, against what client.hpp documents.
    - BuildConfig.v: config.hpp, buffer.hpp, future.hpp, exceptions.hpp and exceptions.cpp
      as programs on the state of the preprocessor, which choose the types behind
      [buffer], [future] and [exception_ptr]; and the build settings that set their macros
      (CMakeLists.txt, cmake/modules/ConfigurationSetting.cmake, in the root of the
      repository).

    The server side. [server_group] writes settings for an ensemble and starts a
    [server] for each; a server runs Java in a [subprocess] with three pipes, in a
    worker thread that copies its output and ends it on [shutdown].

    - Configuration.v: server/configuration.cpp, the lines of the file and the settings
      that point into them. ConfigurationSpec.v: the abstract view, a map from keys to
      settings, and what a list of lines says about it. ConfigurationTheory.v: the
      refinement and the properties.
    - Registry.v: server/classpath.cpp and server/package_registry.cpp. Startup.v:
      server/classpath_registration_template.cpp.in, which the build fills in for each
      package.
    - Server.v, ServerTheory.v: what a server is started with (server/server.cpp) and
      server/server_group.cpp. Ensemble.v: the error paths of [make_ensemble]. Group.v:
      the groups and the servers they own, over their life.
    - Pipe.v: server/detail/pipe.cpp, close.cpp, event_handle.cpp. Subprocess.v:
      server/detail/subprocess.cpp. Descriptors.v: the descriptors of a subprocess from its
      constructor to its destructor. ServerLoop.v: the worker thread and [shutdown] of
      server/server.cpp. ServerProcess.v: [run_process] as a whole, from the arguments to
      the last copying, over one kernel.
    - Regex.v: the two regular expressions of the program, read from their literals into
      a syntax tree with a meaning, against the matchers of ConnectionParams.v and
      Configuration.v.

    Shared: this file (strings, results, [switch], machine integers, tactics and
    hints), Text.v (searching, splitting, printing and reading of text), OrdMap.v (a
    [std::map] as a sorted association list).

    ** What the theorems show

    - Connection (Lifecycle.v, Stale.v, Outcomes.v): in every state reachable by API calls,
      completions, notifications, session events and closes, in any order, the callbacks of
      the C client find their contexts alive, never throw and never store twice, provided
      the allocator does not reuse an address the C client holds for a watch; if it does, a
      notification can delete the context of another call. A future that waits has an owner
      that will satisfy it; an outcome never changes, and was stored by the one action it
      belongs to; [close] settles every watch; an operation the C client refuses leaves
      nothing behind; session events reach exactly the state watches registered before them;
      when the connection is destroyed no future is left waiting (Destruction.v). The
      operations tolerate a completion that runs before the call has returned, with the
      exception of [load_fence], which then uses a deleted promise (Fence.v).
    - Client (Contract.v): each operation sends its request once, and its future ends with
      the converted answer or with the exception that is documented for the code.
    - Watcher (Watcher.v): the two atomic flags of a watcher are enough, for every
      interleaving of any number of event threads with the one data thread, and each
      interleaving ends like the operations run one after the other in some order
      (WatcherRefinement.v), which is what Protocol.v takes for granted. No event is lost
      to a watch that is still being filed (Registration.v). State watches and session
      events in several threads end like the calls one after the other, in the order in
      which they reached the list (StateWatch.v).
    - Transactions (Commit.v): the encoding loops stay within their arrays, fill them,
      and each operation reads back its own data; a failure carries the index of the operation that failed; a success has
      one well-formed part per operation.
    - Connecting (Client.v, ConnectionParams.v): [connect] comes to an end once the session
      is connected and changes no more, with a client only if it was established, and how
      it fails; connection strings are parsed as the source says on every input, with the
      exact exceptions, and printing is inverted by parsing. The matchers decide the
      patterns of the source, with the same captures (Regex.v).
    - Configuration (ConfigurationTheory.v): loading means what the lines say; setters
      change their own setting and line only; saving and loading is the identity on
      whatever was built from clean values; no access is out of range.
    - Servers (ServerTheory.v, ServerLoop.v, Pipe.v, Subprocess.v): an ensemble is
      consistent and can be started and connected to; shutting down ends in every
      interleaving in which no two calls join the worker at once, as soon as the child
      stops printing; pipes transfer exactly, though [write] spins on a full one; a child gets exactly its descriptors and is
      seen off; everything it printed is copied before the worker returns
      (ServerProcess.v); a subprocess leaks no descriptor, also when its constructor fails
      (Descriptors.v). [make_ensemble] fails with the error of the first action that is
      refused and has done exactly the ones before it (Ensemble.v); a server runs as long
      as one group owns it, and is started once (Group.v).
    - Registry (Registry.v): any sequence of operations, with registrations and the
      registry destroyed at any time, answers as a map from versions to class paths does.
      The order in which the generated files register their packages does not matter
      (Startup.v).
    - Build (BuildConfig.v): every setting of the build gives the types it names, with
      exceptions of the same library; a build fails for a macro with two definitions, and
      where CUSTOM lacks a macro or names a type that fails the static assertions.
    - Text (ToString.v): IDs, enumerations, flags and events are told apart by their text.
    - Errors, rules, adaptors, class paths: the remaining properties of Error.v, Acl.v,
      Native.v and Registry.v.

    ** Conventions, bounds and fuel

    A [std::string] is a list of 8-bit characters; integers are [Z] with wrap-around
    written out ([u16], [u32], [i32], [i64]) where it can happen. Exceptions are values;
    dereferencing a dead object, indexing out of range and converting a number that does
    not fit are the value [MUndef], so that safety is a theorem. Addresses of new objects and
    return codes of the C client are arguments of the operations, with the guard that a new
    address is not in use.

    Loops that are not structural have fuel: [split_each_substr] and the whitelist
    parser the length of their text, since each round removes a character;
    [partition_point] the length of its range; the loops on pipes and processes a bound
    given in the statement, by the bytes to move and the interruptions, or the refusals of
    the child, still to come. Where fuel is an argument, the theorem says that this much
    gives a result.

    Assumptions on code that is not in the repository are guards of a step relation
    ([step] in Protocol.v, [cstep] in Stale.v), classes with a concrete instance ([ZooConsts],
    [PipeKernel], [PipeSupply], [EventKernel], [FdKernel], [ProcKernel], [SpawnKernel],
    [ServeKernel]) or arguments ([stat],
    [mkdir], whether a stream could be written, the traits of a type). Threads interleave at the actions the
    code makes atomic; the relaxed orderings of the flags of a watcher are taken as
    sequentially consistent, since each flag is only used on its own.

    ** Not modelled

    Exhaustion of memory; the C client itself beyond the guards, such as the protocol of its
    sessions over several reconnections; the alias in string_view.hpp, the forward
    declarations of forwards.hpp and the static assertions of results.cpp, which the
    compiler decides; the [std::shared_ptr] by which clients share a connection; [std::vector] and iterators behind the classes that only
    forward to them; locales (the classic one is assumed) and the format flags of iostreams;
    the test programs, which are clients of the library, and the rest of the build files.
    Values are printed and kept for a [buffer] that is the default [std::vector<char>]. Two
    threads that use [_handle] at once, one of them in [close], are a data race in the source
    and have no behaviour here. A file that could be opened but not written to the end counts
    as not written. *)

From stdpp Require Export base list gmap strings sorting.
From Stdlib Require Export Ascii ZArith Lia.

(** ** Strings

    A [std::string] (and the [string_view]s and [char] ranges the library passes
    around) is a list of 8-bit characters. *)

Abbreviation str := (list ascii).

Inductive Istr :=
| Inil
| Icons (a : ascii) (l : Istr).

Definition str_of_bytes (l : list Byte.byte) : Istr :=
  fold_right (fun b s => Icons (ascii_of_byte b) s) Inil l.

Fixpoint bytes_of_str (s : Istr) : list Byte.byte :=
  match s with
  | Inil => []
  | Icons a l => byte_of_ascii a :: bytes_of_str l
  end.

Declare Scope str_scope.
Delimit Scope str_scope with str.
#[warnings="-via-type-remapping,-via-type-mismatch"]
String Notation list str_of_bytes bytes_of_str
  (via Istr mapping [[nil] => Inil, [cons] => Icons]) : str_scope.
#[global] Open Scope str_scope.

(** ** Results of code that may throw

    [Throw e] is an exception of type [E] leaving a function; [Ok a] a normal
    return. *)

Inductive result (E A : Type) :=
| Ok (a : A)
| Throw (e : E).
Arguments Ok {E A} a.
Arguments Throw {E A} e.

Definition result_bind {E A B} (m : result E A) (k : A -> result E B) : result E B :=
  match m with
  | Ok a => k a
  | Throw e => Throw e
  end.

Definition is_ok {E A} (m : result E A) : bool :=
  match m with Ok _ => true | Throw _ => false end.

#[global] Instance result_eq_dec {E A} `{EqDecision E, EqDecision A} :
  EqDecision (result E A).
Proof. solve_decision. Defined.

Declare Scope zk_scope.
Delimit Scope zk_scope with zk.
Notation "x <-! m ; k" := (result_bind m (fun x => k))
  (at level 100, m at level 90, k at level 200, right associativity) : zk_scope.
#[global] Open Scope zk_scope.

(** ** The [switch] statement on integers

    [switch x cases d] is the value of the first case whose label is [x], and
    [d] when there is none: a C++ [switch] over an [enum class] whose value may
    be any integer of the underlying type. *)

Fixpoint switch {A} (x : Z) (cases : list (Z * A)) (d : A) : A :=
  match cases with
  | [] => d
  | (k, v) :: rest => if (x =? k)%Z then v else switch x rest d
  end.

(** ** Machine integers *)

Definition wrap_u (w z : Z) : Z := (z mod 2 ^ w)%Z.

Definition wrap_s (w z : Z) : Z :=
  ((z + 2 ^ (w - 1)) mod 2 ^ w - 2 ^ (w - 1))%Z.

Definition u16 (z : Z) : Z := wrap_u 16 z.
Definition u32 (z : Z) : Z := wrap_u 32 z.
Definition u64 (z : Z) : Z := wrap_u 64 z.
Definition i32 (z : Z) : Z := wrap_s 32 z.
Definition i64 (z : Z) : Z := wrap_s 64 z.

Definition INT64_MAX : Z := 9223372036854775807.
Definition INT64_MIN : Z := -9223372036854775808.
Definition INT32_MAX : Z := 2147483647.
Definition INT32_MIN : Z := -2147483648.

(** ** Tactics and hint databases *)

Create HintDb zk discriminated.
Create HintDb zk_rw.

(** Turn boolean tests among the hypotheses into propositions. *)
Ltac bool_prop :=
  repeat match goal with
  | H : (_ && _)%bool = true |- _ => apply andb_prop in H; destruct H
  | H : (_ || _)%bool = false |- _ => apply orb_false_iff in H; destruct H
  | H : negb _ = true |- _ => apply negb_true_iff in H
  | H : negb _ = false |- _ => apply negb_false_iff in H
  | H : (_ =? _)%Z = true |- _ => apply Z.eqb_eq in H
  | H : (_ =? _)%Z = false |- _ => apply Z.eqb_neq in H
  | H : (_ <? _)%Z = true |- _ => apply Z.ltb_lt in H
  | H : (_ <? _)%Z = false |- _ => apply Z.ltb_ge in H
  | H : (_ <=? _)%Z = true |- _ => apply Z.leb_le in H
  | H : (_ <=? _)%Z = false |- _ => apply Z.leb_gt in H
  | H : Ascii.eqb _ _ = true |- _ => apply Ascii.eqb_eq in H
  | H : Ascii.eqb _ _ = false |- _ => apply Ascii.eqb_neq in H
  | H : bool_decide _ = true |- _ => apply bool_decide_eq_true in H
  | H : bool_decide _ = false |- _ => apply bool_decide_eq_false in H
  end.

(** Prove a decidable closed proposition by computing its decision. *)
Ltac vm_decide := apply (bool_decide_unpack _); vm_compute; exact I.

(** Case analysis on the scrutinee of a [match] or [if] of the goal. *)
Ltac case_goal :=
  match goal with
  | |- context [if ?b then _ else _] => let E := fresh "E" in destruct b eqn:E
  | |- context [match ?x with _ => _ end] => let E := fresh "E" in destruct x eqn:E
  end.

(** The same on a hypothesis. *)
Ltac case_hyp H :=
  match type of H with
  | context [if ?b then _ else _] => let E := fresh "E" in destruct b eqn:E
  | context [match ?x with _ => _ end] => let E := fresh "E" in destruct x eqn:E
  end.

(** ** Shared lemmas *)

Lemma result_bind_ok {E A B} (m : result E A) (k : A -> result E B) b :
  result_bind m k = Ok b <-> exists a, m = Ok a /\ k a = Ok b.
Proof.
  destruct m as [a|e]; simpl; split.
  - intros H; exists a; auto.
  - intros (a' & [= ->] & H); exact H.
  - discriminate.
  - intros (a' & H & _); discriminate.
Qed.

Lemma switch_in {A} x (cases : list (Z * A)) d v :
  NoDup cases.*1 -> (x, v) ∈ cases -> switch x cases d = v.
Proof.
  induction cases as [|[k w] rest IH]; simpl; intros Hnd Hin.
  - by apply not_elem_of_nil in Hin.
  - apply NoDup_cons in Hnd as [Hk Hnd].
    apply elem_of_cons in Hin as [[= -> ->]|Hin].
    + by rewrite Z.eqb_refl.
    + destruct (Z.eqb_spec x k) as [->|_]; [|auto].
      exfalso; apply Hk. by apply (list_elem_of_fmap_2 fst) in Hin.
Qed.

Lemma switch_not_in {A} x (cases : list (Z * A)) d :
  x ∉ cases.*1 -> switch x cases d = d.
Proof.
  induction cases as [|[k w] rest IH]; simpl; intros Hn; [done|].
  apply not_elem_of_cons in Hn as [Hne Hn].
  destruct (Z.eqb_spec x k); [congruence | auto].
Qed.

(** Whatever a [switch] returns is a case's value or the default. *)
Lemma switch_cases {A} x (cases : list (Z * A)) d :
  (exists v, (x, v) ∈ cases /\ switch x cases d = v) \/
  (x ∉ cases.*1 /\ switch x cases d = d).
Proof.
  induction cases as [|[k w] rest IH]; simpl.
  - right; split; [apply not_elem_of_nil | done].
  - destruct (Z.eqb_spec x k) as [->|Hne].
    + left; exists w; split; [apply list_elem_of_here | done].
    + destruct IH as [(v & Hin & Hv)|[Hn Hd]].
      * left; exists v; split; [by apply list_elem_of_further | done].
      * right; split; [|done]. by apply not_elem_of_cons.
Qed.

(** A measure of a list of threads, of which one takes a step. *)
Lemma sum_insert {A} (g : A -> nat) (l : list A) (i : nat) x y :
  l !! i = Some x -> (sum_list_with g (<[i := y]> l) + g x = sum_list_with g l + g y)%nat.
Proof.
  revert i; induction l as [|z l IH]; intros [|i] Hi; cbn in *; try done.
  - injection Hi as ->. lia.
  - rewrite <- !Nat.add_assoc. f_equal. exact (IH i Hi).
Qed.

Lemma wrap_u_small w z : (0 <= z < 2 ^ w)%Z -> wrap_u w z = z.
Proof. apply Z.mod_small. Qed.

Lemma wrap_u_range w z : (0 < w)%Z -> (0 <= wrap_u w z < 2 ^ w)%Z.
Proof. intros; apply Z.mod_pos_bound; apply Z.pow_pos_nonneg; lia. Qed.

Lemma wrap_s_small w z :
  (0 < w)%Z -> (- 2 ^ (w - 1) <= z < 2 ^ (w - 1))%Z -> wrap_s w z = z.
Proof.
  intros Hw Hz; unfold wrap_s.
  assert (2 ^ w = 2 * 2 ^ (w - 1))%Z as ->.
  { rewrite <- Z.pow_succ_r by lia. f_equal; lia. }
  rewrite Z.mod_small; lia.
Qed.

Lemma i64_small z : (INT64_MIN <= z <= INT64_MAX)%Z -> i64 z = z.
Proof. unfold INT64_MIN, INT64_MAX; intros; apply wrap_s_small; lia. Qed.

Lemma i32_small z : (INT32_MIN <= z <= INT32_MAX)%Z -> i32 z = z.
Proof. unfold INT32_MIN, INT32_MAX; intros; apply wrap_s_small; lia. Qed.

(** ** Counting *)

Definition b2n (b : bool) : nat := if b then 1 else 0.

Fixpoint count {A} (p : A -> bool) (l : list A) : nat :=
  match l with
  | [] => 0
  | x :: rest => b2n (p x) + count p rest
  end.

Lemma count_insert {A} (p : A -> bool) l (i : nat) x y :
  l !! i = Some x -> count p (<[i := y]> l) + b2n (p x) = count p l + b2n (p y).
Proof.
  revert i; induction l as [|z l IH]; intros [|i] H; cbn in *; try done.
  - injection H as ->. lia.
  - rewrite <- !Nat.add_assoc. f_equal. exact (IH i H).
Qed.

Lemma count_zero {A} (p : A -> bool) l : count p l = 0 <-> Forall (fun x => p x = false) l.
Proof.
  induction l as [|x l IH]; cbn; [done|]. rewrite Forall_cons, <- IH.
  destruct (p x); cbn; split; intuition lia || done.
Qed.

Lemma count_lookup {A} (p : A -> bool) l (i : nat) x :
  l !! i = Some x -> p x = true -> 0 < count p l.
Proof.
  intros Hi Hp. destruct (count p l) eqn:E; [|lia].
  apply count_zero in E. rewrite Forall_lookup in E. specialize (E i x Hi). congruence.
Qed.
