(* ===== verification/Text.v ===== *)
(** * Text: the C and C++ string functions the library relies on

    Decimal printing ([std::to_string], [operator<<] on integers), decimal
    parsing ([std::atol], [std::atoi]), [std::isspace], [std::find],
    [std::getline], the comma-joining loops that recur in the sources, and the
    lexicographic order of [std::string].

    [atol] is glibc's: [strtol] in base 10, which skips white space, takes an
    optional sign, reads digits up to the first other character and saturates
    to the range of [long]; [atoi] is its conversion to [int]. *)

From S2P Require Import Prelude.
Local Open Scope Z_scope.

(** ** Characters *)

Definition code_of (c : ascii) : Z := Z.of_N (N_of_ascii c).

Definition is_digit (c : ascii) : bool := (48 <=? code_of c) && (code_of c <=? 57).

Definition digit_val (c : ascii) : Z := code_of c - 48.

Definition digit_char (d : Z) : ascii := ascii_of_N (Z.to_N (48 + d)).

(** [std::isspace] in the "C" locale: space, and the codes 9 to 13. *)
Definition isspace (c : ascii) : bool :=
  (code_of c =? 32) || ((9 <=? code_of c) && (code_of c <=? 13)).

(** ** Decimal printing *)

Fixpoint udigits (fuel : nat) (n : Z) : str :=
  match fuel with
  | O => []
  | S f => if n <? 10 then [digit_char n]
           else udigits f (n / 10) ++ [digit_char (n mod 10)]
  end.

Definition print_uint (n : Z) : str := udigits (S (Z.to_nat (Z.log2 n))) n.

Definition print_int (z : Z) : str :=
  if z <? 0 then "-"%char :: print_uint (- z) else print_uint z.

(** ** Decimal parsing *)

Fixpoint drop_spaces (s : str) : str :=
  match s with
  | c :: t => if isspace c then drop_spaces t else s
  | [] => []
  end.

Fixpoint read_digits (acc : Z) (s : str) : Z :=
  match s with
  | c :: t => if is_digit c then read_digits (acc * 10 + digit_val c) t else acc
  | [] => acc
  end.

Definition clamp_long (z : Z) : Z := Z.max INT64_MIN (Z.min INT64_MAX z).

Definition atol (s : str) : Z :=
  clamp_long
    match drop_spaces s with
    | c :: t => if Ascii.eqb c "-" then - read_digits 0 t
                else if Ascii.eqb c "+" then read_digits 0 t
                else read_digits 0 (c :: t)
    | [] => 0
    end.

Definition atoi (s : str) : Z := i32 (atol s).

(** ** Searching and splitting *)

(** Everything before the first [c], and what starts at it. *)
Fixpoint break_at (p : ascii -> bool) (s : str) : str * str :=
  match s with
  | [] => ([], [])
  | c :: t => if p c then ([], s) else let '(a, b) := break_at p t in (c :: a, b)
  end.

(** [s.find(prefix) == 0] *)
Fixpoint starts_with (prefix s : str) : bool :=
  match prefix, s with
  | [], _ => true
  | c :: p, d :: t => Ascii.eqb c d && starts_with p t
  | _ :: _, [] => false
  end.

Definition newline : ascii := ascii_of_N 10.

(** The lines [std::getline] extracts until it fails: a final line without a
    newline counts, the empty rest after a final newline does not. *)
Fixpoint getlines_go (cur : str) (s : str) : list str :=
  match s with
  | [] => match cur with [] => [] | _ => [cur] end
  | c :: t => if Ascii.eqb c newline then cur :: getlines_go [] t
              else getlines_go (cur ++ [c]) t
  end.

Definition getlines (s : str) : list str := getlines_go [] s.

(** [for (line : lines) os << line << std::endl;] *)
Fixpoint unlines (ls : list str) : str :=
  match ls with
  | [] => []
  | l :: rest => l ++ newline :: unlines rest
  end.

(** ** The joining loop

    [bool first = true; for (x : xs) { if (first) first = false; else os << sep;
    os << x; }], with the stream as an accumulator. *)

Fixpoint join_loop (sep : str) (first : bool) (os : str) (xs : list str) : str :=
  match xs with
  | [] => os
  | x :: rest => join_loop sep false ((if first then os else os ++ sep) ++ x) rest
  end.

Definition join (sep : str) (xs : list str) : str := join_loop sep true [] xs.

(** The reference definition of joining. *)
Fixpoint intercalate (sep : str) (xs : list str) : str :=
  match xs with
  | [] => []
  | [x] => x
  | x :: rest => x ++ sep ++ intercalate sep rest
  end.

(** ** The order of [std::string]: lexicographic on unsigned characters *)

Fixpoint str_compare (a b : str) : comparison :=
  match a, b with
  | [], [] => Eq
  | [], _ :: _ => Lt
  | _ :: _, [] => Gt
  | c :: s, d :: t => match Z.compare (code_of c) (code_of d) with
                      | Eq => str_compare s t
                      | r => r
                      end
  end.

Definition str_ltb (a b : str) : bool :=
  match str_compare a b with Lt => true | _ => false end.

Definition str_eqb (a b : str) : bool := bool_decide (a = b).

(** * Lemmas *)

Lemma code_of_range c : 0 <= code_of c < 256.
Proof.
  unfold code_of. pose proof (N_ascii_bounded c). lia.
Qed.

Lemma code_of_inj c d : code_of c = code_of d -> c = d.
Proof.
  unfold code_of; intros H. apply N2Z.inj in H.
  rewrite <- (ascii_N_embedding c), <- (ascii_N_embedding d). by f_equal.
Qed.

Lemma code_of_digit_char d : 0 <= d < 10 -> code_of (digit_char d) = 48 + d.
Proof.
  intros; unfold code_of, digit_char. rewrite N_ascii_embedding; lia.
Qed.

Lemma digit_char_is_digit d : 0 <= d < 10 -> is_digit (digit_char d) = true.
Proof.
  intros; unfold is_digit. rewrite code_of_digit_char by lia.
  apply andb_true_intro; split; apply Z.leb_le; lia.
Qed.

Lemma digit_val_char d : 0 <= d < 10 -> digit_val (digit_char d) = d.
Proof. intros; unfold digit_val. rewrite code_of_digit_char; lia. Qed.

Lemma is_digit_not_space c : is_digit c = true -> isspace c = false.
Proof.
  unfold is_digit, isspace; intros H; bool_prop.
  apply orb_false_iff; split; [apply Z.eqb_neq; lia|].
  apply andb_false_iff; right; apply Z.leb_gt; lia.
Qed.

Lemma is_digit_char_range c a :
  is_digit c = true -> is_digit a = false -> c <> a.
Proof. intros ? ? ->; congruence. Qed.

(** ** Printing and parsing *)

Lemma udigits_all_digits f n : 0 <= n -> Forall (fun c => is_digit c = true) (udigits f n).
Proof.
  revert n; induction f as [|f IH]; intros n Hn; simpl; [constructor|].
  destruct (Z.ltb_spec n 10).
  - repeat constructor. apply digit_char_is_digit; lia.
  - apply Forall_app; split; [apply IH, Z.div_pos; lia|].
    repeat constructor. apply digit_char_is_digit. apply Z.mod_pos_bound; lia.
Qed.

Lemma udigits_nonempty f n : udigits (S f) n <> [].
Proof.
  simpl; destruct (n <? 10); [done|]. by destruct (udigits f (n / 10)).
Qed.

Lemma read_digits_app acc ds rest :
  Forall (fun c => is_digit c = true) ds ->
  read_digits acc (ds ++ rest) = read_digits (read_digits acc ds) rest.
Proof.
  revert acc; induction ds as [|c ds IH]; intros acc H; simpl; [done|].
  inv H. rewrite H2. by apply IH.
Qed.

Lemma read_udigits f n : 0 <= n < 2 ^ Z.of_nat f -> read_digits 0 (udigits f n) = n.
Proof.
  revert n; induction f as [|f IH]; intros n Hn.
  - simpl in *; lia.
  - cbn [udigits]. destruct (Z.ltb_spec n 10).
    + cbn [read_digits]. rewrite digit_char_is_digit, digit_val_char by lia. lia.
    + rewrite Nat2Z.inj_succ, Z.pow_succ_r in Hn by lia.
      assert (0 <= n / 10 < 2 ^ Z.of_nat f) as Hq.
      { split; [apply Z.div_pos; lia|]. apply Z.div_lt_upper_bound; lia. }
      rewrite read_digits_app by (apply udigits_all_digits; lia).
      rewrite IH by done. cbn [read_digits].
      pose proof (Z.mod_pos_bound n 10 ltac:(lia)).
      rewrite digit_char_is_digit, digit_val_char by lia.
      pose proof (Z.div_mod n 10). lia.
Qed.

Lemma print_uint_digits n : 0 <= n -> Forall (fun c => is_digit c = true) (print_uint n).
Proof. apply udigits_all_digits. Qed.

Lemma print_uint_nonempty n : print_uint n <> [].
Proof. apply udigits_nonempty. Qed.

Lemma read_print_uint n : 0 <= n -> read_digits 0 (print_uint n) = n.
Proof.
  intros Hn. apply read_udigits. split; [done|].
  rewrite Nat2Z.inj_succ, Z2Nat.id by apply Z.log2_nonneg.
  destruct (decide (n = 0)) as [->|]; [simpl; lia|].
  apply Z.log2_spec; lia.
Qed.

Lemma read_print_uint_app n rest :
  0 <= n -> match rest with c :: _ => is_digit c = false | [] => True end ->
  read_digits 0 (print_uint n ++ rest) = n.
Proof.
  intros Hn Hr. rewrite read_digits_app by by apply print_uint_digits.
  rewrite read_print_uint by done. destruct rest; simpl; [done|]. by rewrite Hr.
Qed.

Lemma print_uint_head n :
  0 <= n -> exists c t, print_uint n = c :: t /\ is_digit c = true.
Proof.
  intros Hn. pose proof (print_uint_digits n Hn) as H.
  destruct (print_uint n) eqn:E; [by apply print_uint_nonempty in E|].
  inv H. eauto.
Qed.

Lemma clamp_long_id z : INT64_MIN <= z <= INT64_MAX -> clamp_long z = z.
Proof. unfold clamp_long; lia. Qed.

Lemma atol_print_uint n rest :
  0 <= n <= INT64_MAX ->
  match rest with c :: _ => is_digit c = false | [] => True end ->
  atol (print_uint n ++ rest) = n.
Proof.
  intros Hn Hr. pose proof (read_print_uint_app n rest ltac:(lia) Hr) as Hread.
  destruct (print_uint_head n ltac:(lia)) as (c & t & E & Hc).
  unfold atol. rewrite E in Hread |- *. cbn [app drop_spaces] in *.
  rewrite is_digit_not_space by done.
  destruct (Ascii.eqb_spec c "-"); [by subst|].
  destruct (Ascii.eqb_spec c "+"); [by subst|].
  rewrite Hread. apply clamp_long_id. unfold INT64_MIN; lia.
Qed.

Lemma atol_print_int z : INT64_MIN <= z <= INT64_MAX -> atol (print_int z) = z.
Proof.
  intros Hz. unfold print_int. destruct (Z.ltb_spec z 0) as [Hneg|].
  - unfold atol. cbn [drop_spaces]. change (isspace "-") with false.
    cbv iota. change (Ascii.eqb "-" "-") with true. cbv iota.
    rewrite read_print_uint by lia.
    rewrite clamp_long_id; unfold INT64_MIN, INT64_MAX in *; lia.
  - rewrite <- (app_nil_r (print_uint z)). apply atol_print_uint; [lia | done].
Qed.

Lemma atol_range s : INT64_MIN <= atol s <= INT64_MAX.
Proof. unfold atol, clamp_long, INT64_MIN, INT64_MAX; lia. Qed.

Lemma print_uint_inj m n : 0 <= m -> 0 <= n -> print_uint m = print_uint n -> m = n.
Proof.
  intros Hm Hn H. rewrite <- (read_print_uint m), <- (read_print_uint n) by done.
  by rewrite H.
Qed.

(** ** Splitting *)

Lemma break_at_app p s : let '(a, b) := break_at p s in s = a ++ b.
Proof.
  induction s as [|c t IH]; simpl; [done|]. destruct (p c); [done|].
  destruct (break_at p t). simpl. by f_equal.
Qed.

Lemma break_at_spec p a b :
  Forall (fun c => p c = false) a ->
  match b with c :: _ => p c = true | [] => True end ->
  break_at p (a ++ b) = (a, b).
Proof.
  induction a as [|c a IH]; intros Ha Hb; simpl.
  - destruct b as [|c b]; simpl; [done|]. by rewrite Hb.
  - inv Ha. rewrite H1, IH by done. done.
Qed.

Lemma break_at_inv p s a b :
  break_at p s = (a, b) ->
  s = a ++ b /\ Forall (fun c => p c = false) a /\
  match b with c :: _ => p c = true | [] => True end.
Proof.
  revert a b; induction s as [|c t IH]; intros a b; simpl.
  - intros [= <- <-]; auto.
  - destruct (p c) eqn:E; [intros [= <- <-]; auto|].
    destruct (break_at p t) as [a' b'] eqn:Eb. intros [= <- <-].
    destruct (IH a' b' eq_refl) as (-> & Ha & Hb). auto.
Qed.

Lemma break_at_none p s : Forall (fun c => p c = false) s -> break_at p s = (s, []).
Proof. intros H. rewrite <- (app_nil_r s) at 1. by apply break_at_spec. Qed.

Lemma starts_with_app p s : starts_with p (p ++ s) = true.
Proof. induction p; simpl; [done|]. by rewrite Ascii.eqb_refl. Qed.

Lemma starts_with_inv p s : starts_with p s = true -> exists t, s = p ++ t.
Proof.
  revert s; induction p as [|c p IH]; intros s H; simpl in *; [by exists s|].
  destruct s as [|d t]; [done|]. bool_prop. subst.
  destruct (IH t H0) as [u ->]. by exists u.
Qed.

Lemma getlines_go_line cur l t :
  newline ∉ l -> getlines_go cur (l ++ newline :: t) = (cur ++ l) :: getlines_go [] t.
Proof.
  revert cur; induction l as [|c l IH]; intros cur Hn; cbn [app getlines_go].
  - rewrite Ascii.eqb_refl. by rewrite app_nil_r.
  - apply not_elem_of_cons in Hn as [Hc Hn].
    destruct (Ascii.eqb_spec c newline); [by subst|].
    rewrite IH by done. by rewrite <- app_assoc.
Qed.

(** Text made of newline-terminated lines splits back into those lines. *)
Lemma getlines_unlines ls :
  Forall (fun l => newline ∉ l) ls -> getlines (unlines ls) = ls.
Proof.
  unfold getlines. induction 1 as [|l ls Hl _ IH]; [done|].
  cbn [unlines]. rewrite getlines_go_line by done. by rewrite IH.
Qed.

(** ** Joining *)

Lemma join_loop_false sep os xs :
  join_loop sep false os xs = os ++ mjoin ((fun x => sep ++ x) <$> xs).
Proof.
  revert os; induction xs as [|x xs IH]; intros os.
  - simpl. by rewrite app_nil_r.
  - cbn [join_loop fmap list_fmap mjoin list_join]. by rewrite IH, <- !app_assoc.
Qed.

Lemma intercalate_cons sep x xs :
  intercalate sep (x :: xs) = x ++ mjoin ((fun y => sep ++ y) <$> xs).
Proof.
  revert x; induction xs as [|y xs IH]; intros x.
  - simpl. by rewrite app_nil_r.
  - change (intercalate sep (x :: y :: xs)) with (x ++ sep ++ intercalate sep (y :: xs)).
    rewrite IH. cbn [fmap list_fmap mjoin list_join]. by rewrite <- !app_assoc.
Qed.

(** The loop with a [first] flag computes the reference joining. *)
Lemma join_intercalate sep xs : join sep xs = intercalate sep xs.
Proof.
  unfold join. destruct xs as [|x xs]; [done|].
  cbn [join_loop]. rewrite join_loop_false, intercalate_cons. done.
Qed.

(** ** The order on strings *)

Lemma str_compare_refl a : str_compare a a = Eq.
Proof. induction a as [|c a IH]; simpl; [done|]. by rewrite Z.compare_refl. Qed.

Lemma str_compare_eq a b : str_compare a b = Eq -> a = b.
Proof.
  revert b; induction a as [|c a IH]; intros [|d b]; simpl; try done.
  destruct (Z.compare_spec (code_of c) (code_of d)) as [H| |]; try done.
  apply code_of_inj in H as ->. intros ?; f_equal; auto.
Qed.

Lemma str_compare_antisym a b : str_compare b a = CompOpp (str_compare a b).
Proof.
  revert b; induction a as [|c a IH]; intros [|d b]; simpl; try done.
  rewrite (Z.compare_antisym (code_of c) (code_of d)).
  destruct (Z.compare (code_of c) (code_of d)); simpl; auto.
Qed.

Lemma str_compare_trans a b c :
  str_compare a b = Lt -> str_compare b c = Lt -> str_compare a c = Lt.
Proof.
  revert b c; induction a as [|x a IH]; intros [|y b] [|z c]; simpl; try done.
  destruct (Z.compare_spec (code_of x) (code_of y)),
    (Z.compare_spec (code_of y) (code_of z)),
    (Z.compare_spec (code_of x) (code_of z)); try done; try lia; eauto.
Qed.

Lemma str_ltb_irrefl a : str_ltb a a = false.
Proof. unfold str_ltb. by rewrite str_compare_refl. Qed.

Lemma str_ltb_trans a b c : str_ltb a b = true -> str_ltb b c = true -> str_ltb a c = true.
Proof.
  unfold str_ltb. destruct (str_compare a b) eqn:E1; try done.
  destruct (str_compare b c) eqn:E2; try done. by rewrite (str_compare_trans a b c).
Qed.

Lemma str_ltb_total a b : str_ltb a b = false -> str_ltb b a = false -> a = b.
Proof.
  unfold str_ltb. rewrite (str_compare_antisym a b).
  destruct (str_compare a b) eqn:E; try done. intros _ _. by apply str_compare_eq.
Qed.
