(* ===== verification/OrdMap.v ===== *)
(** * OrdMap: [std::map] and [std::set]

    The ordered containers of the C++ standard library as association lists in
    strictly increasing key order. [insert] does not overwrite (as
    [std::map::insert] and [emplace]); [assign] does (as [operator[]] followed by
    an assignment); iteration is the list itself. A [std::set] is a map to
    [unit]. *)

From S2P Require Import Prelude Text.

(** What a key type promises: a decidable strict total order. *)
Class OrdKey (K : Type) := {
  key_ltb : K -> K -> bool;
  key_ltb_irrefl : forall a, key_ltb a a = false;
  key_ltb_trans : forall a b c,
    key_ltb a b = true -> key_ltb b c = true -> key_ltb a c = true;
  key_ltb_total : forall a b, key_ltb a b = false -> key_ltb b a = false -> a = b;
}.

#[global] Instance OrdKey_Z : OrdKey Z.
Proof.
  refine {| key_ltb := Z.ltb |}.
  - intros; apply Z.ltb_irrefl.
  - intros a b c H1 H2; bool_prop; apply Z.ltb_lt; lia.
  - intros a b H1 H2; bool_prop; lia.
Defined.

#[global] Instance OrdKey_str : OrdKey str := {|
  key_ltb := str_ltb;
  key_ltb_irrefl := str_ltb_irrefl;
  key_ltb_trans := str_ltb_trans;
  key_ltb_total := str_ltb_total;
|}.

Section ordmap.
Context {K : Type} `{!OrdKey K}.

Section ops.
Context {V : Type}.

Fixpoint om_find (k : K) (m : list (K * V)) : option V :=
  match m with
  | [] => None
  | (k', v) :: rest => if key_ltb k k' then None
                       else if key_ltb k' k then om_find k rest
                       else Some v
  end.

Fixpoint om_insert (k : K) (v : V) (m : list (K * V)) : list (K * V) :=
  match m with
  | [] => [(k, v)]
  | (k', v') :: rest => if key_ltb k k' then (k, v) :: m
                        else if key_ltb k' k then (k', v') :: om_insert k v rest
                        else m
  end.

Fixpoint om_assign (k : K) (v : V) (m : list (K * V)) : list (K * V) :=
  match m with
  | [] => [(k, v)]
  | (k', v') :: rest => if key_ltb k k' then (k, v) :: m
                        else if key_ltb k' k then (k', v') :: om_assign k v rest
                        else (k', v) :: rest
  end.

Fixpoint om_erase (k : K) (m : list (K * V)) : list (K * V) :=
  match m with
  | [] => []
  | (k', v') :: rest => if key_ltb k k' then m
                        else if key_ltb k' k then (k', v') :: om_erase k rest
                        else rest
  end.

(** Every key of [m] is above [k]. *)
Definition om_above (k : K) (m : list (K * V)) : Prop :=
  Forall (fun kv => key_ltb k kv.1 = true) m.

Fixpoint om_wf (m : list (K * V)) : Prop :=
  match m with
  | [] => True
  | (k, _) :: rest => om_above k rest /\ om_wf rest
  end.

End ops.

(** [std::set<K>]: insertion keeps the first of equal keys. *)
Definition os_insert (k : K) (s : list (K * unit)) : list (K * unit) := om_insert k tt s.
Definition os_of_list (l : list K) : list (K * unit) := foldl (fun s k => os_insert k s) [] l.

(** ** Laws *)

Section laws.
Context {V : Type}.
Implicit Types (k : K) (m : list (K * V)) (v : V).

Lemma key_ltb_asym k k' : key_ltb k k' = true -> key_ltb k' k = false.
Proof.
  intros H. destruct (key_ltb k' k) eqn:E; [|done].
  pose proof (key_ltb_trans _ _ _ H E). by rewrite key_ltb_irrefl in *.
Qed.

Lemma om_above_trans k k' m : key_ltb k k' = true -> om_above k' m -> om_above k m.
Proof. intros H Hm. eapply Forall_impl; [exact Hm|]. intros kv ?. by eapply key_ltb_trans. Qed.

Lemma om_find_above k m : om_above k m -> om_find k m = None.
Proof. intros H; destruct H as [|[k' v] m Hk]; simpl in *; [done|]. by rewrite Hk. Qed.

(** Case analysis on the position of a key. *)
Lemma key_cases k k' :
  (key_ltb k k' = true /\ key_ltb k' k = false /\ k <> k') \/
  (key_ltb k k' = false /\ key_ltb k' k = true /\ k <> k') \/
  (key_ltb k k' = false /\ key_ltb k' k = false /\ k = k').
Proof.
  destruct (key_ltb k k') eqn:E1.
  - left. split_and!; [done|by apply key_ltb_asym|].
    intros ->. by rewrite key_ltb_irrefl in E1.
  - right. destruct (key_ltb k' k) eqn:E2; [left|right].
    + split_and!; [done..|]. intros ->. by rewrite key_ltb_irrefl in E2.
    + split_and!; [done..|]. by apply key_ltb_total.
Qed.

Lemma om_find_insert k v m :
  om_find k (om_insert k v m) = Some (default v (om_find k m)).
Proof.
  induction m as [|[k' v'] m IH]; simpl.
  - by rewrite key_ltb_irrefl.
  - destruct (key_cases k k') as [(E1 & E2 & _)|[(E1 & E2 & _)|(E1 & E2 & ->)]];
      rewrite E1, ?E2; simpl; rewrite ?key_ltb_irrefl, ?E1, ?E2; simpl; auto.
Qed.

Lemma om_find_insert_ne k k' v m :
  k <> k' -> om_wf m -> om_find k' (om_insert k v m) = om_find k' m.
Proof.
  intros Hne. induction m as [|[j w] m IH]; simpl; intros Hwf.
  - destruct (key_cases k' k) as [(E1&E2&?)|[(E1&E2&?)|(E1&E2&?)]];
      rewrite ?E1, ?E2; congruence.
  - destruct Hwf as [Ha Hwf].
    destruct (key_cases k j) as [(E1&E2&?)|[(E1&E2&?)|(E1&E2&->)]]; rewrite E1, ?E2; simpl.
    + destruct (key_cases k' k) as [(F1&F2&?)|[(F1&F2&?)|(F1&F2&?)]];
        rewrite ?F1, ?F2; try congruence.
      assert (key_ltb k' j = true) as -> by by eapply key_ltb_trans. done.
    + by rewrite IH.
    + done.
Qed.

Lemma om_above_insert k j v m :
  key_ltb k j = true -> om_above k m -> om_above k (om_insert j v m).
Proof.
  intros Hj. induction 1 as [|[k' v'] m Hk Hm IH]; simpl; [by repeat constructor|].
  repeat case_goal; repeat constructor; auto.
Qed.

Lemma om_wf_insert k v m : om_wf m -> om_wf (om_insert k v m).
Proof.
  induction m as [|[k' v'] m IH]; simpl; [repeat constructor|]. intros [Ha Hwf].
  destruct (key_cases k k') as [(E1&E2&_)|[(E1&E2&_)|(E1&E2&_)]]; rewrite E1, ?E2; simpl.
  - split; [|done]. constructor; [done|]. by eapply om_above_trans.
  - split; [|auto]. by apply om_above_insert.
  - done.
Qed.

Lemma om_find_assign k v m : om_find k (om_assign k v m) = Some v.
Proof.
  induction m as [|[k' v'] m IH]; simpl.
  - by rewrite key_ltb_irrefl.
  - destruct (key_cases k k') as [(E1 & E2 & _)|[(E1 & E2 & _)|(E1 & E2 & ->)]];
      rewrite E1, ?E2; simpl; rewrite ?key_ltb_irrefl, ?E1, ?E2; simpl; auto.
Qed.

Lemma om_find_assign_ne k k' v m :
  k <> k' -> om_wf m -> om_find k' (om_assign k v m) = om_find k' m.
Proof.
  intros Hne. induction m as [|[j w] m IH]; simpl; intros Hwf.
  - destruct (key_cases k' k) as [(E1&E2&?)|[(E1&E2&?)|(E1&E2&?)]];
      rewrite ?E1, ?E2; congruence.
  - destruct Hwf as [Ha Hwf].
    destruct (key_cases k j) as [(E1&E2&?)|[(E1&E2&?)|(E1&E2&->)]]; rewrite E1, ?E2; simpl.
    + destruct (key_cases k' k) as [(F1&F2&?)|[(F1&F2&?)|(F1&F2&?)]];
        rewrite ?F1, ?F2; try congruence.
      assert (key_ltb k' j = true) as -> by by eapply key_ltb_trans. done.
    + by rewrite IH.
    + destruct (key_cases k' j) as [(F1&F2&?)|[(F1&F2&?)|(F1&F2&?)]];
        rewrite ?F1, ?F2; congruence.
Qed.

Lemma om_above_assign k j v m :
  key_ltb k j = true -> om_above k m -> om_above k (om_assign j v m).
Proof.
  intros Hj. induction 1 as [|[k' v'] m Hk Hm IH]; simpl; [by repeat constructor|].
  repeat case_goal; repeat constructor; auto.
Qed.

Lemma om_wf_assign k v m : om_wf m -> om_wf (om_assign k v m).
Proof.
  induction m as [|[k' v'] m IH]; simpl; [repeat constructor|]. intros [Ha Hwf].
  destruct (key_cases k k') as [(E1&E2&_)|[(E1&E2&_)|(E1&E2&_)]]; rewrite E1, ?E2; simpl.
  - split; [|done]. constructor; [done|]. by eapply om_above_trans.
  - split; [|auto]. by apply om_above_assign.
  - done.
Qed.

Lemma om_above_erase k j m : om_above k m -> om_above k (om_erase j m).
Proof.
  induction 1 as [|[k' v'] m Hk Hm IH]; simpl; [constructor|].
  repeat case_goal; repeat constructor; auto.
Qed.

Lemma om_wf_erase k m : om_wf m -> om_wf (om_erase k m).
Proof.
  induction m as [|[k' v'] m IH]; simpl; [done|]. intros [Ha Hwf].
  repeat case_goal; simpl; auto using om_above_erase.
Qed.

Lemma om_find_erase k m : om_wf m -> om_find k (om_erase k m) = None.
Proof.
  induction m as [|[k' v'] m IH]; simpl; [done|]. intros [Ha Hwf].
  destruct (key_cases k k') as [(E1&E2&_)|[(E1&E2&_)|(E1&E2&->)]]; rewrite E1, ?E2; simpl.
  - by rewrite E1.
  - rewrite E1, E2. auto.
  - by apply om_find_above.
Qed.

Lemma om_find_erase_ne k k' m :
  k <> k' -> om_wf m -> om_find k' (om_erase k m) = om_find k' m.
Proof.
  intros Hne. induction m as [|[j w] m IH]; simpl; [done|]. intros [Ha Hwf].
  destruct (key_cases k j) as [(E1&E2&?)|[(E1&E2&?)|(E1&E2&->)]]; rewrite E1, ?E2; simpl.
  - done.
  - by rewrite IH.
  - destruct (key_cases k' j) as [(F1&F2&?)|[(F1&F2&?)|(F1&F2&?)]];
      rewrite ?F1, ?F2; [|done|congruence].
    apply om_find_above. by eapply om_above_trans.
Qed.

(** Two ordered maps with the same lookups are the same list. *)
Lemma om_ext m1 m2 :
  om_wf m1 -> om_wf m2 -> (forall k, om_find k m1 = om_find k m2) -> m1 = m2.
Proof.
  revert m2. induction m1 as [|[k1 v1] m1 IH]; intros [|[k2 v2] m2]; simpl;
    intros W1 W2 H.
  - done.
  - specialize (H k2). by rewrite key_ltb_irrefl in H.
  - specialize (H k1). by rewrite key_ltb_irrefl in H.
  - destruct W1 as [A1 W1], W2 as [A2 W2].
    destruct (key_cases k1 k2) as [(E1&E2&?)|[(E1&E2&?)|(E1&E2&->)]].
    + specialize (H k1). by rewrite key_ltb_irrefl, E1 in H.
    + specialize (H k2). by rewrite key_ltb_irrefl, E2 in H.
    + pose proof (H k2) as Hk. rewrite key_ltb_irrefl in Hk. injection Hk as ->.
      f_equal. apply IH; [done..|]. intros k. specialize (H k).
      destruct (key_cases k k2) as [(F1&F2&?)|[(F1&F2&?)|(F1&F2&->)]].
      * rewrite !om_find_above; [done|..]; by eapply om_above_trans.
      * by rewrite F1, F2 in H.
      * by rewrite !om_find_above.
Qed.

Lemma om_find_elem k v m : om_wf m -> om_find k m = Some v <-> (k, v) ∈ m.
Proof.
  induction m as [|[k' v'] m IH]; simpl; intros Hwf.
  - split; [done|]. intros H; by apply not_elem_of_nil in H.
  - destruct Hwf as [Ha Hwf]. rewrite elem_of_cons, <- IH by done.
    destruct (key_cases k k') as [(E1&E2&?)|[(E1&E2&?)|(E1&E2&->)]]; rewrite E1, ?E2.
    + split; [done|]. intros [?|H']; [congruence|]. exfalso.
      rewrite om_find_above in H'; [done|]. by eapply om_above_trans.
    + split; [by right|]. intros [?|?]; [congruence|done].
    + rewrite om_find_above by done. split; [intros [= ->]; by left|].
      intros [[= ->]|?]; done.
Qed.

Lemma om_wf_nodup m : om_wf m -> NoDup m.*1.
Proof.
  induction m as [|[k v] m IH]; simpl; [constructor|]. intros [Ha Hwf].
  constructor; [|auto]. intros Hin. apply list_elem_of_fmap in Hin as ([k' v'] & -> & Hin).
  unfold om_above in Ha. rewrite Forall_forall in Ha.
  specialize (Ha _ Hin). simpl in Ha. by rewrite key_ltb_irrefl in Ha.
Qed.

(** A key beyond all others is inserted at the end: iteration order is
    insertion order when keys come in increasing order. *)
Lemma om_insert_last k v m :
  Forall (fun kv => key_ltb kv.1 k = true) m -> om_insert k v m = m ++ [(k, v)].
Proof.
  induction 1 as [|[k' v'] m Hk _ IH]; simpl in *; [done|].
  rewrite key_ltb_asym by done. by rewrite Hk, IH.
Qed.

End laws.

Lemma os_of_list_wf_from s (l : list K) :
  om_wf s -> om_wf (foldl (fun s k => os_insert k s) s l).
Proof. revert s; induction l; simpl; intros; [done|]. by apply IHl, om_wf_insert. Qed.

Lemma os_of_list_wf (l : list K) : om_wf (os_of_list l).
Proof. by apply os_of_list_wf_from. Qed.

(** Re-inserting the elements of a set in iteration order rebuilds it. *)
Lemma os_of_list_elements (s : list (K * unit)) : om_wf s -> os_of_list s.*1 = s.
Proof.
  unfold os_of_list. cut (forall p, om_wf (p ++ s) ->
    foldl (fun s k => os_insert k s) p s.*1 = p ++ s).
  { intros H Hwf. by apply (H []). }
  induction s as [|[k []] s IH]; intros p Hwf; cbn [fmap list_fmap foldl].
  - by rewrite app_nil_r.
  - unfold os_insert at 2. rewrite om_insert_last.
    + change ((k, ()) :: s) with ([(k, ())] ++ s). rewrite app_assoc. apply IH.
      by rewrite <- app_assoc.
    + clear IH. induction p as [|[j u] p IHp]; [constructor|].
      destruct Hwf as [Ha Hwf]. constructor; [|by apply IHp].
      apply Forall_app in Ha as [_ Ha]. by inv Ha.
Qed.

End ordmap.

(** ** The finite map an ordered map stands for *)

Section view.
Context {K V : Type} `{!OrdKey K, !EqDecision K, !Countable K}.
Implicit Types (k : K) (m : list (K * V)) (v : V).

Definition om_view m : gmap K V := list_to_map m.
#[global] Arguments om_view : simpl never.

Lemma om_view_lookup m k : om_wf m -> om_view m !! k = om_find k m.
Proof.
  intros Hwf. pose proof (om_wf_nodup m Hwf) as Hnd. unfold om_view.
  destruct (om_find k m) as [v|] eqn:E.
  - apply elem_of_list_to_map; [done|]. by apply om_find_elem.
  - apply not_elem_of_list_to_map. intros Hin.
    apply list_elem_of_fmap in Hin as ([k' v] & -> & Hin).
    apply (om_find_elem _ _ _ Hwf) in Hin. cbn in E. congruence.
Qed.

Lemma om_view_insert m k v :
  om_wf m -> om_find k m = None -> om_view (om_insert k v m) = <[k := v]> (om_view m).
Proof.
  intros Hwf E. apply map_eq. intros j. rewrite om_view_lookup by by apply om_wf_insert.
  destruct (decide (k = j)) as [<-|Hne].
  - by rewrite lookup_insert_eq, om_find_insert, E.
  - by rewrite lookup_insert_ne, om_find_insert_ne, om_view_lookup.
Qed.

Lemma om_view_erase m k : om_wf m -> om_view (om_erase k m) = delete k (om_view m).
Proof.
  intros Hwf. apply map_eq. intros j. rewrite om_view_lookup by by apply om_wf_erase.
  destruct (decide (k = j)) as [<-|Hne].
  - by rewrite lookup_delete_eq, om_find_erase.
  - by rewrite lookup_delete_ne, om_find_erase_ne, om_view_lookup.
Qed.

Lemma om_view_size m : om_wf m -> base.size (om_view m) = length m.
Proof.
  intros Hwf. unfold om_view. rewrite map_size_list_to_map by by apply om_wf_nodup.
  done.
Qed.

End view.

#[export] Hint Resolve om_wf_insert om_wf_assign om_wf_erase os_of_list_wf : zk.
