(* ===== verification/Types.v ===== *)
(** * Types: src/zk/types.hpp and src/zk/types.cpp

    Strong IDs and versions, [stat], [create_mode] flags, [event_type] and
    [state]. An [enum class] with a fixed underlying type admits every value of
    that type (the adaptors cast raw C integers into them), so the enumerations
    are integers with named constants. *)

From S2P Require Import Prelude Text.
Local Open Scope Z_scope.

(** ** Strong IDs *)

(** [strong_id<TReal, TId>]: the tag plays the part of [TReal]. *)
Record strong_id (tag : Type) := StrongId { sid_value : Z }.
Arguments StrongId {tag} _.
Arguments sid_value {tag} _.

#[global] Instance strong_id_eq_dec tag : EqDecision (strong_id tag).
Proof. solve_decision. Defined.

Inductive version_tag := VersionTag.
Inductive acl_version_tag := AclVersionTag.
Inductive child_version_tag := ChildVersionTag.
Inductive transaction_tag := TransactionTag.

Abbreviation version := (strong_id version_tag).
Abbreviation acl_version := (strong_id acl_version_tag).
Abbreviation child_version := (strong_id child_version_tag).
Abbreviation transaction_id := (strong_id transaction_tag).

Definition sid_eqb {tag} (a b : strong_id tag) : bool := sid_value a =? sid_value b.
Definition sid_ltb {tag} (a b : strong_id tag) : bool := sid_value a <? sid_value b.
Definition sid_leb {tag} (a b : strong_id tag) : bool := sid_value a <=? sid_value b.
Definition sid_neb {tag} (a b : strong_id tag) : bool := negb (sid_value a =? sid_value b).
Definition sid_gtb {tag} (a b : strong_id tag) : bool := sid_value b <? sid_value a.
Definition sid_geb {tag} (a b : strong_id tag) : bool := sid_value b <=? sid_value a.

(** [hash]; [std_hash] is [std::hash<TId>]. *)
Definition sid_hash {tag} (std_hash : Z -> Z) (x : strong_id tag) : Z := std_hash (sid_value x).

(** [basic_version]: a 32-bit version with two reserved values. *)
Definition version_invalid {tag} : strong_id tag := StrongId (-42).
Definition version_any {tag} : strong_id tag := StrongId (-1).

(** [operator++] on an [int32_t] representation. Signed overflow is undefined
    behaviour, so there is no result for the largest value. *)
Definition version_incr {tag} (v : strong_id tag) : option (strong_id tag) :=
  if sid_value v <? INT32_MAX then Some (StrongId (sid_value v + 1)) else None.

Definition version_decr {tag} (v : strong_id tag) : option (strong_id tag) :=
  if INT32_MIN <? sid_value v then Some (StrongId (sid_value v - 1)) else None.

(** The same operators on [transaction_id], whose [size_t] wraps around. *)
Definition transaction_incr (x : transaction_id) : transaction_id := StrongId (u64 (sid_value x + 1)).
Definition transaction_decr (x : transaction_id) : transaction_id := StrongId (u64 (sid_value x - 1)).

Definition print_basic_version {tag} (name : str) (self : strong_id tag) : str :=
  name ++ "(" ++
  (if sid_eqb self version_any then "any"
   else if sid_eqb self version_invalid then "invalid"
   else print_int (sid_value self)) ++ ")".

Definition print_version (self : version) : str := print_basic_version "version" self.
Definition print_acl_version (self : acl_version) : str :=
  print_basic_version "acl_version" self.
Definition print_child_version (self : child_version) : str :=
  print_basic_version "child_version" self.

Definition print_transaction_id (self : transaction_id) : str :=
  "transaction_id(" ++ print_uint (sid_value self) ++ ")".

(** ** stat *)

(** [time_point]s are counts of nanoseconds of the system clock. *)
Record stat := Stat {
  create_transaction : transaction_id;
  modified_transaction : transaction_id;
  child_modified_transaction : transaction_id;
  create_time : Z;
  modified_time : Z;
  stat_data_version : version;
  stat_child_version : child_version;
  stat_acl_version : acl_version;
  ephemeral_owner : Z;
  data_size : Z;
  children_count : Z;
}.

#[global] Instance stat_eq_dec : EqDecision stat.
Proof. solve_decision. Defined.

Definition is_ephemeral (s : stat) : bool := ephemeral_owner s =? 0.

Definition print_stat (self : stat) : str :=
  "{data_version=" ++ print_int (sid_value (stat_data_version self))
  ++ " child_version=" ++ print_int (sid_value (stat_child_version self))
  ++ " acl_version=" ++ print_int (sid_value (stat_acl_version self))
  ++ " data_size=" ++ print_uint (data_size self)
  ++ " children_count=" ++ print_uint (children_count self)
  ++ " ephemeral=" ++ (if is_ephemeral self then "true" else "false")
  ++ "}".

(** ** create_mode *)

Module create_mode.
Definition normal : Z := 0.
Definition ephemeral : Z := 1.
Definition sequential : Z := 2.
Definition container : Z := 4.
End create_mode.

Definition mode_or (a b : Z) : Z := Z.lor a b.
Definition mode_and (a b : Z) : Z := Z.land a b.
Definition mode_not (a : Z) : Z := Z.land (u32 (Z.lnot a)) 7.
Definition is_set (self flags : Z) : bool := mode_and self flags =? flags.

(** One [if (has_flag) os << tick() << name;] of the flag printers, where
    [tick] yields the separator on every call but the first. *)
Definition tick_step (st : str * bool) (flag : bool * str) : str * bool :=
  let '(os, first) := st in
  if flag.1 then (os ++ (if first then [] else "|") ++ flag.2, false) else (os, first).

Definition print_flags (flags : list (bool * str)) : str := (foldl tick_step ([], true) flags).1.

Definition print_create_mode (mode : Z) : str :=
  if mode =? create_mode.normal then "normal"
  else print_flags [(is_set mode create_mode.ephemeral, "ephemeral");
                    (is_set mode create_mode.sequential, "sequential");
                    (is_set mode create_mode.container, "container")].

(** ** event_type and state *)

Module event_type.
Definition error : Z := 0.
Definition created : Z := 1.
Definition erased : Z := 2.
Definition changed : Z := 3.
Definition child : Z := 4.
Definition session : Z := -1.
Definition not_watching : Z := -2.
End event_type.

Definition print_event_type (self : Z) : str :=
  switch self
    [(event_type.error, "error"); (event_type.created, "created");
     (event_type.erased, "erased"); (event_type.changed, "changed");
     (event_type.child, "child"); (event_type.session, "session");
     (event_type.not_watching, "not_watching")]
    ("event_type(" ++ print_int self ++ ")").

Module state.
Definition closed : Z := 0.
Definition connecting : Z := 1.
Definition connected : Z := 3.
Definition read_only : Z := 5.
Definition expired_session : Z := -112.
Definition authentication_failed : Z := -113.
End state.

Definition known_states : list (Z * str) :=
  [(state.closed, "closed"); (state.connecting, "connecting");
   (state.connected, "connected"); (state.read_only, "read_only");
   (state.expired_session, "expired_session");
   (state.authentication_failed, "authentication_failed")].

Definition print_state (self : Z) : str :=
  switch self known_states ("state(" ++ print_int self ++ ")").

(** * Lemmas *)

(** ** Flag sets *)

Lemma land_lor_absorb m a b : Z.land m (Z.lor a b) = Z.lor a b <->
  Z.land m a = a /\ Z.land m b = b.
Proof.
  split.
  - intros H; split; apply Z.bits_inj'; intros i Hi;
      apply (f_equal (fun z => Z.testbit z i)) in H;
      rewrite Z.land_spec, Z.lor_spec in H; rewrite Z.land_spec;
      destruct (Z.testbit m i), (Z.testbit a i), (Z.testbit b i); done.
  - intros [Ha Hb]. by rewrite Z.land_lor_distr_r, Ha, Hb.
Qed.

(** Having a union of flags set is having each of them set. *)
Lemma flags_or m a b :
  (Z.land m (Z.lor a b) =? Z.lor a b) = (Z.land m a =? a) && (Z.land m b =? b).
Proof.
  apply eq_true_iff_eq. rewrite andb_true_iff, !Z.eqb_eq. apply land_lor_absorb.
Qed.

(** The masked complement of a flag set: disjoint from it, and together with it
    the whole mask. *)
Section masked_complement.
Context (n : Z) (Hn : 0 <= n <= 32).

Lemma masked_not_bits a i :
  0 <= i -> Z.testbit (Z.land (u32 (Z.lnot a)) (Z.ones n)) i
            = negb (Z.testbit a i) && (i <? n).
Proof.
  intros Hi. rewrite Z.land_spec, Z.testbit_ones_nonneg by lia.
  destruct (Z.ltb_spec i n); [|by rewrite !andb_false_r].
  unfold u32, wrap_u. rewrite Z.mod_pow2_bits_low by lia.
  by rewrite Z.lnot_spec.
Qed.

Lemma masked_not_or a :
  Z.land a (Z.ones n) = a -> Z.lor a (Z.land (u32 (Z.lnot a)) (Z.ones n)) = Z.ones n.
Proof.
  intros Ha. apply Z.bits_inj'; intros i Hi.
  rewrite Z.lor_spec, masked_not_bits, Z.testbit_ones_nonneg by lia.
  apply (f_equal (fun z => Z.testbit z i)) in Ha.
  rewrite Z.land_spec, Z.testbit_ones_nonneg in Ha by lia.
  destruct (Z.testbit a i), (i <? n); done.
Qed.

Lemma masked_not_and a : Z.land a (Z.land (u32 (Z.lnot a)) (Z.ones n)) = 0.
Proof.
  apply Z.bits_inj'; intros i Hi.
  rewrite Z.land_spec, masked_not_bits, Z.bits_0 by lia. by destruct (Z.testbit a i).
Qed.

Lemma masked_not_not a :
  Z.land (u32 (Z.lnot (Z.land (u32 (Z.lnot a)) (Z.ones n)))) (Z.ones n)
  = Z.land a (Z.ones n).
Proof.
  apply Z.bits_inj'; intros i Hi.
  rewrite !masked_not_bits, Z.land_spec, Z.testbit_ones_nonneg by lia.
  destruct (Z.testbit a i), (i <? n); done.
Qed.

End masked_complement.

(** ** The flag printers *)

Lemma tick_steps_false os flags :
  (foldl tick_step (os, false) flags).1
  = join_loop "|" false os (filter (fun f => f.1 = true) flags).*2.
Proof.
  revert os; induction flags as [|[[] name] flags IH]; intros os; cbn [foldl].
  - done.
  - rewrite filter_cons_True by done. simpl. rewrite IH. by rewrite <- app_assoc.
  - rewrite filter_cons_False by done. simpl. by rewrite IH.
Qed.

(** The printers write the names of the set flags, separated by bars. *)
Lemma print_flags_join flags :
  print_flags flags = join "|" (filter (fun f => f.1 = true) flags).*2.
Proof.
  unfold print_flags, join. induction flags as [|[[] name] flags IH]; cbn [foldl].
  - done.
  - rewrite filter_cons_True by done. simpl. by rewrite tick_steps_false.
  - rewrite filter_cons_False by done. simpl. exact IH.
Qed.


(** The six comparisons of an ID agree, and equal IDs have equal hashes. *)
Lemma sid_comparisons {tag} std_hash (a b : strong_id tag) :
  (sid_eqb a b = true <-> a = b) /\ sid_neb a b = negb (sid_eqb a b) /\
  sid_geb a b = negb (sid_ltb a b) /\ sid_gtb a b = negb (sid_leb a b) /\
  sid_leb a b = sid_ltb a b || sid_eqb a b /\
  (sid_eqb a b = true -> sid_hash std_hash a = sid_hash std_hash b).
Proof.
  destruct a as [a], b as [b]. unfold sid_eqb, sid_neb, sid_geb, sid_gtb, sid_leb, sid_ltb, sid_hash; cbn.
  split_and!; try done; try lia.
  - rewrite Z.eqb_eq. split; [by intros ->|by intros [= ->]].
  - by intros ->%Z.eqb_eq.
Qed.

(** Incrementing and decrementing a transaction ID undo each other, also around the end of
    the range; on a version they do where both are defined. *)
Lemma incr_decr (x : transaction_id) {tag} (v w : strong_id tag) :
  (0 <= sid_value x < 2 ^ 64 ->
     transaction_decr (transaction_incr x) = x /\ transaction_incr (transaction_decr x) = x) /\
  (version_incr v = Some w -> INT32_MIN <= sid_value v -> version_decr w = Some v).
Proof.
  destruct x as [x], v as [v]. unfold transaction_incr, transaction_decr, version_incr, version_decr, u64, wrap_u.
  cbn. split.
  - intros Hx. split; f_equal.
    + rewrite Zminus_mod_idemp_l. rewrite Z.mod_small; lia.
    + rewrite Zplus_mod_idemp_l. rewrite Z.mod_small; lia.
  - intros H Hv. destruct (v <? INT32_MAX); [|done]. injection H as <-. cbn.
    rewrite (proj2 (Z.ltb_lt _ _)) by lia. do 2 f_equal. lia.
Qed.
