(* ===== verification/Error.v ===== *)
(** * Error: src/zk/error.hpp and src/zk/error.cpp

    Error codes, the classes of exceptions and their inheritance, and the
    translation from a code to the exception that is thrown for it. *)

From S2P Require Import Prelude Text.
Local Open Scope Z_scope.

(** ** error_code *)

Module error_code.
Definition ok : Z := 0.
Definition connection_loss : Z := -4.
Definition marshalling_error : Z := -5.
Definition not_implemented : Z := -6.
Definition invalid_arguments : Z := -8.
Definition new_configuration_no_quorum : Z := -13.
Definition reconfiguration_in_progress : Z := -14.
Definition no_entry : Z := -101.
Definition not_authorized : Z := -102.
Definition version_mismatch : Z := -103.
Definition no_children_for_ephemerals : Z := -108.
Definition entry_exists : Z := -110.
Definition not_empty : Z := -111.
Definition session_expired : Z := -112.
Definition authentication_failed : Z := -115.
Definition closed : Z := -116.
Definition read_only_connection : Z := -119.
Definition ephemeral_on_local_session : Z := -120.
Definition reconfiguration_disabled : Z := -123.
Definition transaction_failed : Z := -199.
End error_code.

Definition is_transport_error (code : Z) : bool :=
  (code =? error_code.connection_loss) || (code =? error_code.marshalling_error).

Definition is_invalid_arguments (code : Z) : bool :=
  (code =? error_code.invalid_arguments) || (code =? error_code.authentication_failed).

Definition is_invalid_ensemble_state (code : Z) : bool :=
  (code =? error_code.new_configuration_no_quorum)
  || (code =? error_code.reconfiguration_disabled)
  || (code =? error_code.reconfiguration_in_progress).

Definition is_invalid_connection_state (code : Z) : bool :=
  (code =? error_code.closed)
  || (code =? error_code.ephemeral_on_local_session)
  || (code =? error_code.not_authorized)
  || (code =? error_code.read_only_connection)
  || (code =? error_code.session_expired).

Definition is_check_failed (code : Z) : bool :=
  (code =? error_code.no_children_for_ephemerals)
  || (code =? error_code.no_entry)
  || (code =? error_code.entry_exists)
  || (code =? error_code.not_empty)
  || (code =? error_code.transaction_failed)
  || (code =? error_code.version_mismatch).

Definition print_error_code (code : Z) : str :=
  switch code [(error_code.ok, "ok")] ("error_code(" ++ print_int code ++ ")").

(** ** The exception classes *)

Inductive error_class :=
| error
| transport_error
| connection_loss
| marshalling_error
| not_implemented
| invalid_arguments
| authentication_failed
| invalid_ensemble_state
| new_configuration_no_quorum
| reconfiguration_in_progress
| reconfiguration_disabled
| invalid_connection_state
| session_expired
| not_authorized
| closed
| ephemeral_on_local_session
| read_only_connection
| check_failed
| no_entry
| entry_exists
| not_empty
| version_mismatch
| no_children_for_ephemerals
| transaction_failed.

#[global] Instance error_class_eq_dec : EqDecision error_class.
Proof. solve_decision. Defined.

(** The direct base class ([error] itself derives from [std::system_error]). *)
Definition base_class (c : error_class) : option error_class :=
  match c with
  | error => None
  | transport_error | not_implemented | invalid_arguments | invalid_ensemble_state
  | invalid_connection_state | check_failed => Some error
  | connection_loss | marshalling_error => Some transport_error
  | authentication_failed => Some invalid_arguments
  | new_configuration_no_quorum | reconfiguration_in_progress
  | reconfiguration_disabled => Some invalid_ensemble_state
  | session_expired | not_authorized | closed | ephemeral_on_local_session
  | read_only_connection => Some invalid_connection_state
  | no_entry | entry_exists | not_empty | version_mismatch
  | no_children_for_ephemerals | transaction_failed => Some check_failed
  end.

(** The inheritance chain is at most three deep. *)
Fixpoint derives_from_fuel (fuel : nat) (c base : error_class) : bool :=
  bool_decide (c = base) ||
  match fuel, base_class c with
  | S f, Some b => derives_from_fuel f b base
  | _, _ => false
  end.

(** Whether [catch (const base&)] catches an exception of class [c]. *)
Definition derives_from (c base : error_class) : bool := derives_from_fuel 3 c base.

(** [error_category_impl]. *)
Definition category_name : str := "zookeeper".
Definition category_message (condition : Z) : str := print_error_code condition.

(** An exception object: its dynamic class, [code()], the text given to
    [std::system_error], and for [transaction_failed] the underlying cause and
    the index of the failed operation. *)
Record zk_error := ZkErr {
  err_class : error_class;
  err_code : Z;
  err_what : str;
  err_txn : option (Z * Z);
}.

#[global] Instance zk_error_eq_dec : EqDecision zk_error.
Proof. solve_decision. Defined.

(** The exceptions the modelled code throws. *)
Inductive future_errc := future_already_retrieved | promise_already_satisfied | broken_promise.

Inductive exn :=
| ZkError (e : zk_error)
| InvalidArgument (what : str)
| OutOfRange (what : str)
| RuntimeError (what : str)
| LogicError (what : str)
| BadOptionalAccess
| FutureError (c : future_errc)
| SystemError (errno : Z) (what : str)
| PipeClosed.

#[global] Instance future_errc_eq_dec : EqDecision future_errc.
Proof. solve_decision. Defined.
#[global] Instance exn_eq_dec : EqDecision exn.
Proof. solve_decision. Defined.

Abbreviation res := (result exn).

(** What a call comes to when it can also run into undefined behaviour. *)
Inductive mres (A : Type) :=
| MOk (a : A)
| MThrow (e : exn)
| MUndef.
Arguments MOk {A} a.
Arguments MThrow {A} e.
Arguments MUndef {A}.

Definition mres_bind {A B} (m : mres A) (k : A -> mres B) : mres B :=
  match m with
  | MOk a => k a
  | MThrow e => MThrow e
  | MUndef => MUndef
  end.

Notation "x <-? m ; k" := (mres_bind m (fun x => k))
  (at level 100, m at level 90, k at level 200, right associativity) : zk_scope.

(** ** Constructors *)

Definition format_error (code : Z) (description : str) : str :=
  match description with
  | [] => print_error_code code
  | _ => print_error_code code ++ ": " ++ description
  end.

Definition make_error (c : error_class) (code : Z) (description : str) : zk_error :=
  {| err_class := c; err_code := code; err_what := format_error code description;
     err_txn := None |}.

Definition make_not_implemented (op_name : str) : zk_error :=
  make_error not_implemented error_code.not_implemented
    ("Operation not implemented: " ++ op_name).

Definition make_transaction_failed (underlying_cause op_index : Z) : zk_error :=
  let code := error_code.transaction_failed in
  {| err_class := transaction_failed;
     err_code := code;
     err_what := format_error code
       ("Could not commit transaction due to " ++ print_error_code underlying_cause
        ++ " on operation " ++ print_uint op_index);
     err_txn := Some (underlying_cause, op_index) |}.

(** The exception [throw_error(code)] throws; the function never returns. *)
Definition throw_error_cases : list (Z * zk_error) :=
  [(error_code.connection_loss, make_error connection_loss error_code.connection_loss []);
   (error_code.marshalling_error,
     make_error marshalling_error error_code.marshalling_error []);
   (error_code.not_implemented, make_not_implemented "unspecified");
   (error_code.invalid_arguments,
     make_error invalid_arguments error_code.invalid_arguments []);
   (error_code.new_configuration_no_quorum,
     make_error new_configuration_no_quorum error_code.new_configuration_no_quorum []);
   (error_code.reconfiguration_in_progress,
     make_error reconfiguration_in_progress error_code.reconfiguration_in_progress []);
   (error_code.no_entry, make_error no_entry error_code.no_entry []);
   (error_code.not_authorized, make_error not_authorized error_code.not_authorized []);
   (error_code.version_mismatch,
     make_error version_mismatch error_code.version_mismatch []);
   (error_code.no_children_for_ephemerals,
     make_error no_children_for_ephemerals error_code.no_children_for_ephemerals []);
   (error_code.entry_exists, make_error entry_exists error_code.entry_exists []);
   (error_code.not_empty, make_error not_empty error_code.not_empty []);
   (error_code.session_expired, make_error session_expired error_code.session_expired []);
   (error_code.authentication_failed,
     make_error authentication_failed error_code.authentication_failed []);
   (error_code.closed, make_error closed error_code.closed []);
   (error_code.read_only_connection,
     make_error read_only_connection error_code.read_only_connection []);
   (error_code.ephemeral_on_local_session,
     make_error ephemeral_on_local_session error_code.ephemeral_on_local_session []);
   (error_code.reconfiguration_disabled,
     make_error reconfiguration_disabled error_code.reconfiguration_disabled []);
   (error_code.transaction_failed,
     make_transaction_failed error_code.transaction_failed 0)].

Definition throw_error (code : Z) : zk_error :=
  switch code throw_error_cases (make_error error code "unknown").

(** [get_exception_ptr_of] throws and catches again. *)
Definition get_exception_ptr_of (code : Z) : exn := ZkError (throw_error code).
#[global] Arguments get_exception_ptr_of : simpl never.

(** * Lemmas *)

Lemma throw_error_cases_nodup : NoDup throw_error_cases.*1.
Proof. vm_decide. Qed.

(** Reason by cases on the codes of the [switch]: a property of the codes that
    have a case, computed, and one of the codes that do not. *)
Lemma throw_error_ind (P : Z -> zk_error -> Prop) :
  Forall (fun kv => P kv.1 kv.2) throw_error_cases ->
  (forall code, code ∉ throw_error_cases.*1 -> P code (make_error error code "unknown")) ->
  forall code, P code (throw_error code).
Proof.
  intros Hc Hd code. unfold throw_error.
  destruct (switch_cases code throw_error_cases (make_error error code "unknown"))
    as [(v & Hin & ->)|[Hn ->]]; [|auto].
  rewrite Forall_forall in Hc. by apply (Hc (code, v)).
Qed.

(** A code outside the [switch] satisfies none of a list of codes inside it. *)
Lemma not_case_neqb code k : code ∉ throw_error_cases.*1 -> k ∈ throw_error_cases.*1 ->
  (code =? k) = false.
Proof. intros Hn Hk. apply Z.eqb_neq. by intros ->. Qed.

Ltac not_a_case Hn :=
  repeat rewrite (not_case_neqb _ _ Hn) by vm_decide.

(** * Properties *)

(** The exception thrown for a code carries that code, whatever the integer
    (also for codes the library does not know). *)
Theorem throw_error_code code : err_code (throw_error code) = code.
Proof.
  revert code. apply (throw_error_ind (fun code e => err_code e = code)).
  - vm_decide.
  - done.
Qed.

(** For every integer code, each predicate [is_*] of error.hpp says exactly
    whether the exception thrown for the code is caught by a handler for the
    corresponding base class: the predicates and the class hierarchy agree, on
    known and unknown codes alike. *)
Theorem predicates_match_hierarchy code :
  let c := err_class (throw_error code) in
  is_transport_error code = derives_from c transport_error /\
  is_invalid_arguments code = derives_from c invalid_arguments /\
  is_invalid_ensemble_state code = derives_from c invalid_ensemble_state /\
  is_invalid_connection_state code = derives_from c invalid_connection_state /\
  is_check_failed code = derives_from c check_failed.
Proof.
  revert code. apply (throw_error_ind (fun code e =>
    is_transport_error code = derives_from (err_class e) transport_error /\
    is_invalid_arguments code = derives_from (err_class e) invalid_arguments /\
    is_invalid_ensemble_state code = derives_from (err_class e) invalid_ensemble_state /\
    is_invalid_connection_state code = derives_from (err_class e) invalid_connection_state /\
    is_check_failed code = derives_from (err_class e) check_failed)).
  - vm_decide.
  - intros code Hn. unfold is_transport_error, is_invalid_arguments,
      is_invalid_ensemble_state, is_invalid_connection_state, is_check_failed.
    not_a_case Hn. done.
Qed.
