(* ===== verification/Optional.v ===== *)
(** * Optional: src/zk/optional.hpp

    [optional] is [std::optional]; [map] applies a function of any number of arguments to
    as many optionals. *)

From S2P Require Import Prelude Error.

(** [optional::value]. *)
Definition value {A} (x : option A) : res A :=
  match x with Some a => Ok a | None => Throw BadOptionalAccess end.

Definition some {A} (x : A) : option A := Some x.

(** The parameter packs: a function of arguments of the types [Ts], and one optional of
    each type. *)
Fixpoint arrows (Ts : list Type) (R : Type) : Type :=
  match Ts with [] => R | T :: Ts' => T -> arrows Ts' R end.

Inductive optionals : list Type -> Type :=
| no_more : optionals []
| with_optional {T Ts} (x : option T) (xs : optionals Ts) : optionals (T :: Ts).

(** [(x && ...)] *)
Fixpoint all_of {Ts} (xs : optionals Ts) : bool :=
  match xs with
  | no_more => true
  | with_optional x xs' => bool_decide (is_Some x) && all_of xs'
  end.

(** [transform(x.value()...)] *)
Fixpoint apply_values {Ts R} (xs : optionals Ts) : arrows Ts R -> res R :=
  match xs with
  | no_more => fun r => Ok r
  | with_optional x xs' => fun f => a <-! value x; apply_values xs' (f a)
  end.

Definition map {Ts R} (transform : arrows Ts R) (xs : optionals Ts) : res (option R) :=
  if all_of xs then r <-! apply_values xs transform; Ok (some r) else Ok None.

(** The optionals that hold the values [vs]. *)
Inductive holds : forall {Ts}, optionals Ts -> (forall R, arrows Ts R -> R) -> Prop :=
| holds_none : holds no_more (fun R r => r)
| holds_some {T Ts} (a : T) (xs : optionals Ts) app :
    holds xs app -> holds (with_optional (Some a) xs) (fun R f => app R (f a)).

(** [map] never throws: it gives the value of the function at the values if all are there,
    and nothing otherwise. *)
Lemma map_correct {Ts R} (f : arrows Ts R) (xs : optionals Ts) :
  (exists app, holds xs app /\ map f xs = Ok (Some (app R f))) \/
  ((forall app, ~ holds xs app) /\ map f xs = Ok None).
Proof.
  assert (all_of xs = true -> exists app, holds xs app /\ apply_values xs f = Ok (app R f)) as Hyes.
  { induction xs as [|T Ts [a|] xs IH]; intros H; cbn in *; [|destruct (IH (f a) H) as (app & Ha & E)|done].
    - by exists (fun R r => r); split; [constructor|].
    - eexists. split; [by constructor|]. exact E. }
  unfold map. destruct (all_of xs) eqn:E.
  - left. destruct (Hyes eq_refl) as (app & Ha & ->). by exists app.
  - right. split; [|done]. intros app Ha. clear Hyes f. induction Ha; [done|]. auto.
Qed.

Example map_adds :
  map (Ts := [nat : Type; nat : Type]) Nat.add (with_optional (some 2) (with_optional (some 3) no_more)) = Ok (some 5).
Proof. reflexivity. Qed.
