(* ===== verification/Seconds.v ===== *)
(** * Seconds: floating-point seconds as connection strings have them

    [std::stod], the conversion of [std::chrono::duration<double>] to milliseconds
    and back, and [operator<<] on [double], as src/zk/connection.cpp uses them
    ([extract_millis] and the printing of timeouts). A [double] is a [spec_float] of
    precision 53 and maximal exponent 1024; decimal text is an exact ratio of
    integers that is rounded once, to nearest even, as glibc's [strtod] does. *)

From Corelib Require Import SpecFloat.
From S2P Require Import Prelude Text Error.
Local Open Scope Z_scope.

Abbreviation double := spec_float.

(** The double nearest to [num / den]. *)
Definition round_ratio (neg : bool) (num den : positive) : double :=
  let '(mz, ez, lz) := SFdiv_core_binary 53 1024 (Zpos num) 0 (Zpos den) 0 in
  binary_round_aux 53 1024 neg mz ez lz.

Definition double_of_Z (z : Z) : double := binary_normalize 53 1024 z 0 false.

(** ** strtod *)

Definition to_lower (c : ascii) : ascii :=
  if (65 <=? code_of c) && (code_of c <=? 90) then ascii_of_N (Z.to_N (code_of c + 32)) else c.

Definition is_xdigit (c : ascii) : bool :=
  is_digit c || ((97 <=? code_of (to_lower c)) && (code_of (to_lower c) <=? 102)).

Definition xdigit_val (c : ascii) : Z :=
  if is_digit c then digit_val c else code_of (to_lower c) - 87.

(** Digits of a base: value, number, rest. *)
Fixpoint scan_digits (base : Z) (isd : ascii -> bool) (val : ascii -> Z) (acc : Z) (n : nat)
    (s : str) : Z * nat * str :=
  match s with
  | c :: t => if isd c then scan_digits base isd val (acc * base + val c) (S n) t
              else (acc, n, s)
  | [] => (acc, n, [])
  end.

(** Mantissa: all digits as an integer, the number of digits after the point, rest. *)
Definition scan_mantissa (base : Z) (isd : ascii -> bool) (val : ascii -> Z) (s : str)
    : option (Z * nat * str) :=
  let '(i, ni, r) := scan_digits base isd val 0 0 s in
  let '(m, nf, r') :=
    match r with
    | c :: t => if Ascii.eqb c "." then scan_digits base isd val i 0 t else (i, 0%nat, r)
    | [] => (i, 0%nat, r)
    end in
  match (ni + nf)%nat with O => None | _ => Some (m, nf, r') end.

(** [e] or [p], an optional sign and at least one digit; otherwise no exponent. *)
Definition scan_exponent (marker : ascii) (s : str) : Z :=
  match s with
  | c :: t =>
      if Ascii.eqb (to_lower c) marker then
        let '(neg, t') := match t with
                          | d :: u => if Ascii.eqb d "-" then (true, u)
                                      else if Ascii.eqb d "+" then (false, u) else (false, t)
                          | [] => (false, t)
                          end in
        let '(e, _, _) := scan_digits 10 is_digit digit_val 0 0 t' in
        if neg then - e else e
      else 0
  | [] => 0
  end.

(** The ratio [m * b^e / base^frac] rounded, and whether [errno] is [ERANGE]: on
    overflow, and when the result is zero or subnormal and inexact. *)
Definition round_scaled (neg : bool) (m : Z) (frac : nat) (base b e : Z) : double * bool :=
  match m * b ^ Z.max e 0, base ^ Z.of_nat frac * b ^ Z.max (- e) 0 with
  | Zpos num, Zpos den =>
      let r := round_ratio neg num den in
      let inexact :=
        match r with
        | S754_finite _ mr er =>
            negb (Zpos mr * 2 ^ Z.max er 0 * Zpos den =? Zpos num * 2 ^ Z.max (- er) 0)
        | _ => true
        end in
      (r, match r with
          | S754_finite _ mr _ => (Zpos mr <? 2 ^ 52) && inexact
          | _ => true
          end)
  | _, _ => (S754_zero neg, false)
  end.

Definition starts_with_nocase (prefix s : str) : bool := starts_with prefix (to_lower <$> s).

(** [None] when there is nothing to convert. Text after the number is not read. *)
Definition strtod (s : str) : option (double * bool) :=
  let s1 := drop_spaces s in
  let '(neg, s2) := match s1 with
                    | c :: t => if Ascii.eqb c "-" then (true, t)
                                else if Ascii.eqb c "+" then (false, t) else (false, s1)
                    | [] => (false, s1)
                    end in
  if starts_with_nocase "inf" s2 then Some (S754_infinity neg, false)
  else if starts_with_nocase "nan" s2 then Some (S754_nan, false)
  else
    let hex := if starts_with_nocase "0x" s2
               then scan_mantissa 16 is_xdigit xdigit_val (drop 2 s2) else None in
    match hex with
    | Some (m, frac, r) => Some (round_scaled neg m frac 16 2 (scan_exponent "p" r))
    | None =>
        match scan_mantissa 10 is_digit digit_val s2 with
        | Some (m, frac, r) => Some (round_scaled neg m frac 10 10 (scan_exponent "e" r))
        | None => None
        end
    end.

(** [std::stod] *)
Definition stod (s : str) : res double :=
  match strtod s with
  | None => Throw (InvalidArgument "stod")
  | Some (d, erange) => if erange then Throw (OutOfRange "stod") else Ok d
  end.

(** ** Durations *)

(** Conversion of a [double] to a 64-bit integer: truncation; undefined outside the
    range, for infinities and for NaN ([None]). *)
Definition trunc_int64 (d : double) : option Z :=
  match d with
  | S754_zero _ => Some 0
  | S754_finite neg m e =>
      let a := if 0 <=? e then Zpos m * 2 ^ e else Zpos m / 2 ^ (- e) in
      let z := if neg then - a else a in
      if (INT64_MIN <=? z) && (z <=? INT64_MAX) then Some z else None
  | _ => None
  end.

(** [duration_cast<milliseconds>(duration<double>(seconds))] *)
Definition millis_of_seconds (seconds : double) : option Z :=
  trunc_int64 (SFmul 53 1024 seconds (double_of_Z 1000)).

(** [duration<double>(milliseconds(ms)).count()] *)
Definition seconds_of_millis (ms : Z) : double :=
  SFdiv 53 1024 (double_of_Z ms) (double_of_Z 1000).

(** ** Printing

    [operator<<] on a [double] with the default format: six significant digits,
    trailing zeros removed, scientific notation when the exponent is below -4 or
    above 5 ([%g]). *)

(** The largest [x <= start] with [10^x <= num / den]; [fuel] bounds the search. *)
Fixpoint decimal_exponent (fuel : nat) (x num den : Z) : Z :=
  match fuel with
  | O => x
  | S f => if 10 ^ Z.max x 0 * den <=? num * 10 ^ Z.max (- x) 0 then x
           else decimal_exponent f (x - 1) num den
  end.

(** [num / den] rounded to an integer, ties to even. *)
Definition round_div (num den : Z) : Z :=
  let q := num / den in
  let r := num mod den in
  match 2 * r ?= den with
  | Lt => q
  | Gt => q + 1
  | Eq => if Z.even q then q else q + 1
  end.

Fixpoint strip_zeros (rds : str) : str :=
  match rds with
  | c :: t => if Ascii.eqb c "0" then strip_zeros t else rds
  | [] => []
  end.

(** Digits after the point, without trailing zeros, with the point if any is left. *)
Definition fraction (ds : str) : str :=
  match rev (strip_zeros (rev ds)) with [] => [] | ds' => "." ++ ds' end.

Definition pad2 (s : str) : str := match s with [c] => ["0"%char; c] | _ => s end.

(** The search for the decimal exponent starts at most 6 above it: [log2] of the
    ratio is known up to 1, and 3/10 is within 0.0011 of the logarithm of 2 in base
    10, for binary exponents from -1074 to 1024. *)
Definition print_double (d : double) : str :=
  match d with
  | S754_zero neg => if neg then "-0" else "0"
  | S754_infinity neg => if neg then "-inf" else "inf"
  | S754_nan => "nan"
  | S754_finite neg m e =>
      let num := Zpos m * 2 ^ Z.max e 0 in
      let den := 2 ^ Z.max (- e) 0 in
      let x0 := decimal_exponent 8 ((Z.log2 num - Z.log2 den + 1) * 3 / 10 + 3) num den in
      let d0 := round_div (num * 10 ^ Z.max (5 - x0) 0) (den * 10 ^ Z.max (x0 - 5) 0) in
      let '(x, ds) := if d0 =? 1000000 then (x0 + 1, 100000) else (x0, d0) in
      let digits := print_uint ds in
      (if neg then "-" else []) ++
      (if (x <? -4) || (5 <? x) then
         take 1 digits ++ fraction (drop 1 digits) ++ "e" ++ (if x <? 0 then "-" else "+") ++
         pad2 (print_uint (Z.abs x))
       else if 0 <=? x then
         take (S (Z.to_nat x)) digits ++ fraction (drop (S (Z.to_nat x)) digits)
       else "0" ++ fraction (replicate (Z.to_nat (- x - 1)) "0"%char ++ digits))
  end.

(** ** Examples *)

Example stod_examples :
  stod "8.93" = Ok (S754_finite false 5027143084052316 (-49)) /\
  millis_of_seconds (S754_finite false 5027143084052316 (-49)) = Some 8930 /\
  stod " 0x1.8p1s" = Ok (S754_finite false 6755399441055744 (-51)) /\
  stod "1e400" = Throw (OutOfRange "stod") /\ stod "1e-400" = Throw (OutOfRange "stod") /\
  stod "s" = Throw (InvalidArgument "stod").
Proof. vm_compute. repeat split. Qed.

Example print_examples :
  print_double (seconds_of_millis 8930) = "8.93" /\
  print_double (seconds_of_millis 5000) = "5" /\
  print_double (seconds_of_millis 1) = "0.001" /\
  print_double (seconds_of_millis 1234567890) = "1.23457e+06" /\
  print_double (seconds_of_millis (-250)) = "-0.25" /\
  print_double (seconds_of_millis INT64_MAX) = "9.22337e+15".
Proof. vm_compute. repeat split. Qed.
