(* ===== verification/ConnectionParams.v ===== *)
(** * ConnectionParams: [connection_params] of src/zk/connection.cpp and the
      constructor of [connection_zk]

    Parsing and printing of connection strings, and what of the parameters reaches
    [zookeeper_init]. Computations that convert a [double] to an integer can run
    into undefined behaviour, so [parse] returns [mres]. *)

From S2P Require Import Prelude Text Error Seconds.
Local Open Scope Z_scope.

Record connection_params := ConnectionParams {
  connection_schema : str;
  hosts : list str;
  chroot : str;
  randomize_hosts : bool;
  read_only : bool;
  timeout : Z;              (* milliseconds *)
}.

#[global] Instance connection_params_eq_dec : EqDecision connection_params.
Proof. solve_decision. Defined.

Definition default_timeout : Z := 10000.

(** The default constructor. *)
Definition default_params : connection_params :=
  ConnectionParams "zk" [] "/" true false default_timeout.

Definition with_randomize_hosts (b : bool) (p : connection_params) : connection_params :=
  ConnectionParams (connection_schema p) (hosts p) (chroot p) b (read_only p) (timeout p).
Definition with_read_only (b : bool) (p : connection_params) : connection_params :=
  ConnectionParams (connection_schema p) (hosts p) (chroot p) (randomize_hosts p) b (timeout p).
Definition with_timeout (t : Z) (p : connection_params) : connection_params :=
  ConnectionParams (connection_schema p) (hosts p) (chroot p) (randomize_hosts p) (read_only p) t.

(** ** Parsing *)

(** The pieces [split_each_substr] calls its action with, in order. Every round
    removes a character, so the length of [src] is enough fuel. *)
Fixpoint split_each_loop (fuel : nat) (src : str) (delim : ascii) : list str :=
  match fuel with
  | O => []
  | S f =>
      match src with
      | [] => []
      | _ => let '(piece, rest) := break_at (Ascii.eqb delim) src in
             piece :: split_each_loop f (tail rest) delim
      end
  end.

Definition split_each_substr (src : str) (delim : ascii) : list str :=
  split_each_loop (length src) src delim.

Definition extract_host_list (src : str) : list str := split_each_substr src ",".

Definition extract_bool (key val : str) : res bool :=
  match val with
  | [] => Throw (InvalidArgument ("Key " ++ key ++ " has blank value"))
  | c :: _ =>
      if Ascii.eqb c "1" || Ascii.eqb c "t" || Ascii.eqb c "T" then Ok true
      else if Ascii.eqb c "0" || Ascii.eqb c "f" || Ascii.eqb c "F" then Ok false
      else Throw (InvalidArgument ("Invalid value for " ++ key ++ " " ++ [ascii_of_N 34] ++ val ++
                                   [ascii_of_N 34] ++ " -- expected a boolean"))
  end.

Definition extract_millis (key val : str) : mres Z :=
  match val with
  | [] => MThrow (InvalidArgument ("Key " ++ key ++ " has blank value"))
  | c :: _ =>
      if Ascii.eqb c "P"
      then MThrow (InvalidArgument "ISO 8601 duration is not supported (yet).")
      else match stod val with
           | Throw e => MThrow e
           | Ok seconds => match millis_of_seconds seconds with
                           | Some ms => MOk ms
                           | None => MUndef
                           end
           end
  end.

Definition query_format_error : exn :=
  InvalidArgument ("Invalid connection string -- query string must be specified as " ++
                   [ascii_of_N 34] ++ "key1=value1&key2=value2..." ++ [ascii_of_N 34]).

(** The lambda [invalid_key]. *)
Definition invalid_key (msg key : str) : str :=
  (match msg with [] => "Invalid key in querystring: " | _ => msg ++ ", " end) ++ key.

(** The action on one [key=value] part: the parameters and [invalid_keys_msg]. *)
Definition query_part (qp_part : str) (st : connection_params * str)
    : mres (connection_params * str) :=
  let '(out, msg) := st in
  match break_at (Ascii.eqb "=") qp_part with
  | (_, []) => MThrow query_format_error
  | (key, _ :: val) =>
      if str_eqb key "randomize_hosts" then
        match extract_bool key val with
        | Ok b => MOk (with_randomize_hosts b out, msg)
        | Throw e => MThrow e
        end
      else if str_eqb key "read_only" then
        match extract_bool key val with
        | Ok b => MOk (with_read_only b out, msg)
        | Throw e => MThrow e
        end
      else if str_eqb key "timeout" then
        t <-? extract_millis key val ; MOk (with_timeout t out, msg)
      else MOk (out, invalid_key msg key)
  end.

Fixpoint query_parts (parts : list str) (st : connection_params * str)
    : mres (connection_params * str) :=
  match parts with
  | [] => MOk st
  | p :: rest => st' <-? query_part p st ; query_parts rest st'
  end.

Definition extract_advanced_options (src : str) (out : connection_params)
    : mres connection_params :=
  match src with
  | [] => MOk out
  | [_] => MOk out
  | _ :: src' =>
      st <-? query_parts (split_each_substr src' "&") (out, []) ;
      match st.2 with
      | [] => MOk st.1
      | msg => MThrow (InvalidArgument msg)
      end
  end.

(** A character [.] does not match. *)
Definition line_terminator (c : ascii) : bool := (code_of c =? 10) || (code_of c =? 13).

(** [std::regex_match] with the pattern of [parse]: the schema up to the first colon,
    then [://], the hosts up to the first slash, the path up to the first question
    mark and the query string: groups 1, 2, 4 and 5. No group can contain the
    character that ends it, so there is at most one way to match. *)
Definition match_conn_string (s : str) : option (str * str * str * str) :=
  let '(schema, rest) := break_at (Ascii.eqb ":") s in
  match schema, rest with
  | _ :: _, c1 :: c2 :: c3 :: rest' =>
      if Ascii.eqb c1 ":" && Ascii.eqb c2 "/" && Ascii.eqb c3 "/" then
        let '(hostaddr, tail) := break_at (Ascii.eqb "/") rest' in
        match hostaddr with
        | [] => None
        | _ =>
            let '(path, query) := break_at (Ascii.eqb "?") tail in
            if existsb line_terminator query then None
            else Some (schema, hostaddr, path, query)
        end
      else None
  | _, _ => None
  end.

Definition parse (conn_string : str) : mres connection_params :=
  match match_conn_string conn_string with
  | None => MThrow (InvalidArgument ("Invalid connection string (" ++ conn_string ++
              " -- format is " ++ [ascii_of_N 34] ++
              "schema://[auth@]${host_addrs}/[path][?options]" ++ [ascii_of_N 34]))
  | Some (schema, hostaddr, path, query) =>
      extract_advanced_options query
        (ConnectionParams schema (extract_host_list hostaddr)
           (match path with [] => "/" | _ => path end) true false default_timeout)
  end.

(** ** Equality and printing *)

Definition params_eqb (lhs rhs : connection_params) : bool :=
  str_eqb (connection_schema lhs) (connection_schema rhs) &&
  bool_decide (hosts lhs = hosts rhs) && str_eqb (chroot lhs) (chroot rhs) &&
  Bool.eqb (randomize_hosts lhs) (randomize_hosts rhs) &&
  Bool.eqb (read_only lhs) (read_only rhs) && (timeout lhs =? timeout rhs).

(** The lambda [query_string]: [first] and the stream. *)
Definition print_query (key val : str) (st : bool * str) : bool * str :=
  let '(first, os) := st in
  (false, os ++ (if first then "?" else "&") ++ key ++ "=" ++ val).

Definition print_params (x : connection_params) : str :=
  let os := connection_schema x ++ "://" ++ join "," (hosts x) ++ chroot x in
  let st := (true, os) in
  let st := if negb (randomize_hosts x) then print_query "randomize_hosts" "false" st else st in
  let st := if read_only x then print_query "read_only" "true" st else st in
  let st := if negb (timeout x =? default_timeout)
            then print_query "timeout" (print_double (seconds_of_millis (timeout x))) st else st in
  st.2.

(** ** The constructor of [connection_zk] *)

(** The arguments of [zookeeper_init] that depend on the parameters: the host string
    and the timeout in milliseconds; the flags are always 0. *)
Record init_call := InitCall { init_hosts : str; init_timeout : Z; init_flags : Z }.

(** [handle_ok]: whether [zookeeper_init] returned a handle. The result is the call
    and whether the object has a handle: without one the exception is constructed
    but not thrown. *)
Definition construct (params : connection_params) (handle_ok : bool) : res (init_call * bool) :=
  if negb (str_eqb (connection_schema params) "zk") then
    Throw (InvalidArgument ("Invalid connection string " ++ [ascii_of_N 34] ++
             print_params params ++ [ascii_of_N 34]))
  else
    Ok (InitCall (join "," (hosts params)) (i32 (timeout params)) 0, handle_ok).

(** [connection::connect] *)
Definition connect (conn_string : str) (handle_ok : bool) : mres (init_call * bool) :=
  p <-? parse conn_string ;
  match construct p handle_ok with
  | Ok r => MOk r
  | Throw e => MThrow e
  end.

(** * Lemmas *)

(** ** Splitting *)

Definition lacks (c : ascii) (s : str) : bool := forallb (fun d => negb (Ascii.eqb c d)) s.

Lemma lacks_forall c s : lacks c s = true <-> Forall (fun d => Ascii.eqb c d = false) s.
Proof.
  unfold lacks. induction s as [|d s IH]; cbn; [done|].
  rewrite andb_true_iff, IH, Forall_cons, negb_true_iff. done.
Qed.

Lemma split_each_loop_nil f delim : split_each_loop f [] delim = [].
Proof. by destruct f. Qed.

(** The pieces are free of the delimiter and put together they are the source, but
    for one delimiter at the end, which makes no piece of its own. *)
Lemma split_each_sound f src delim :
  (length src <= f)%nat ->
  let ps := split_each_loop f src delim in
  Forall (fun p => lacks delim p = true) ps /\
  (src = intercalate [delim] ps \/ src = intercalate [delim] ps ++ [delim]).
Proof.
  revert src. induction f as [|f IH]; intros src Hf; [destruct src; [cbn; auto|cbn in Hf; lia]|].
  cbn [split_each_loop]. destruct src as [|c src]; [cbn; auto|].
  destruct (break_at (Ascii.eqb delim) (c :: src)) as [p rest] eqn:E.
  apply break_at_inv in E as (Happ & Hp & Hrest). apply lacks_forall in Hp.
  destruct rest as [|d rest]; cbn [tail].
  - rewrite split_each_loop_nil, Happ, app_nil_r. cbn. auto.
  - apply Ascii.eqb_eq in Hrest as <-. rewrite Happ.
    assert (length rest <= f)%nat as Hlen.
    { apply (f_equal length) in Happ. rewrite length_app in Happ. cbn in Happ, Hf. lia. }
    destruct (IH rest Hlen) as [Hall Hcat]. split; [by constructor|].
    destruct rest as [|r rest]; [rewrite split_each_loop_nil; by right|].
    assert (split_each_loop f (r :: rest) delim <> []) as Hne.
    { destruct f; [cbn in Hlen; lia|]. cbn [split_each_loop]. by destruct (break_at (Ascii.eqb delim) (r :: rest)). }
    destruct (split_each_loop f (r :: rest) delim) as [|q qs]; [done|]. cbn [intercalate].
    destruct Hcat as [-> | ->]; [left|right]; [done|]. by rewrite <- !app_assoc.
Qed.

(** Splitting takes joined pieces apart again. *)
Lemma split_each_join ps delim :
  Forall (fun p => lacks delim p = true) ps -> last ps <> Some [] ->
  split_each_substr (intercalate [delim] ps) delim = ps.
Proof.
  intros Hall Hlast. unfold split_each_substr.
  enough (forall f, (length (intercalate [delim] ps) <= f)%nat ->
    split_each_loop f (intercalate [delim] ps) delim = ps) as H by (by apply H).
  induction ps as [|p ps IH]; intros f Hf; [apply split_each_loop_nil|].
  apply Forall_cons in Hall as [Hp Hall]. apply lacks_forall in Hp.
  destruct ps as [|q qs].
  - cbn [intercalate] in *. destruct p as [|c p]; [done|]. destruct f as [|f]; [cbn in Hf; lia|].
    cbn [split_each_loop]. rewrite break_at_none by done. cbn [tail]. by rewrite split_each_loop_nil.
  - change (intercalate [delim] (p :: q :: qs)) with (p ++ delim :: intercalate [delim] (q :: qs)) in *.
    destruct f as [|f]; [rewrite length_app in Hf; cbn in Hf; lia|].
    assert (exists c t, p ++ delim :: intercalate [delim] (q :: qs) = c :: t) as (c & t & E).
    { destruct p; eauto. }
    cbn [split_each_loop]. rewrite E. rewrite <- E.
    rewrite break_at_spec by (done || apply Ascii.eqb_refl). cbn [tail]. f_equal.
    apply IH; [done|done|]. rewrite length_app in Hf. cbn [length] in Hf. lia.
Qed.

(** ** Round trip *)

Definition timeout_text (t : Z) : str := print_double (seconds_of_millis t).

(** A timeout that is read back from what is printed for it. *)
Definition timeout_survives (t : Z) : bool :=
  match extract_millis "timeout" (timeout_text t) with MOk t' => t' =? t | _ => false end &&
  lacks "&" (timeout_text t) && negb (existsb line_terminator (timeout_text t)).

(** Timeouts that six digits and the arithmetic of [double] keep: eighths of a second
    below 250 seconds, whole seconds up to an hour. *)
Definition timeout_exact (t : Z) : bool :=
  ((0 <=? t) && (t <? 250000) && (t mod 125 =? 0)) || ((0 <=? t) && (t <=? 3600000) && (t mod 1000 =? 0)).

(** Parameters that a connection string can express: no part contains the character that
    ends it, and there is a host after the last comma. *)
Definition params_wf (p : connection_params) : bool :=
  negb (bool_decide (connection_schema p = [])) && lacks ":" (connection_schema p) &&
  match last (hosts p) with Some (_ :: _) => true | _ => false end &&
  forallb (fun h => lacks "," h && lacks "/" h) (hosts p) &&
  starts_with "/" (chroot p) && lacks "?" (chroot p) && timeout_exact (timeout p).

Definition query_texts (p : connection_params) : list str :=
  (if randomize_hosts p then [] else ["randomize_hosts=false"]) ++
  (if read_only p then ["read_only=true"] else []) ++
  (if timeout p =? default_timeout then [] else ["timeout=" ++ timeout_text (timeout p)]).

Definition query_string (qs : list str) : str :=
  match qs with [] => [] | _ => "?" ++ intercalate "&" qs end.

Lemma print_params_query x :
  print_params x =
    connection_schema x ++ "://" ++ intercalate "," (hosts x) ++ chroot x ++
    query_string (query_texts x).
Proof.
  unfold print_params, query_texts, timeout_text. rewrite join_intercalate.
  set (os := connection_schema x ++ "://" ++ intercalate "," (hosts x) ++ chroot x).
  replace (connection_schema x ++ "://" ++ intercalate "," (hosts x) ++ chroot x ++ _)
    with (os ++ query_string
      ((if randomize_hosts x then [] else ["randomize_hosts=false"]) ++
       (if read_only x then ["read_only=true"] else []) ++
       (if timeout x =? default_timeout then []
        else ["timeout=" ++ print_double (seconds_of_millis (timeout x))])))
    by (unfold os; by rewrite <- !app_assoc).
  destruct (randomize_hosts x), (read_only x), (timeout x =? default_timeout); cbn;
    rewrite ?app_nil_r, <- ?app_assoc; done.
Qed.

Lemma intercalate_lacks c sep ps :
  lacks c sep = true -> Forall (fun p => lacks c p = true) ps -> lacks c (intercalate sep ps) = true.
Proof.
  intros Hs. induction 1 as [|p ps Hp _ IH]; [done|]. destruct ps as [|q qs]; [done|].
  change (intercalate sep (p :: q :: qs)) with (p ++ sep ++ intercalate sep (q :: qs)).
  unfold lacks in *. by rewrite !forallb_app, Hp, Hs, IH.
Qed.

Lemma existsb_intercalate (f : ascii -> bool) sep ps :
  existsb f sep = false -> Forall (fun p => existsb f p = false) ps ->
  existsb f (intercalate sep ps) = false.
Proof.
  intros Hs. induction 1 as [|p ps Hp _ IH]; [done|]. destruct ps as [|q qs]; [done|].
  change (intercalate sep (p :: q :: qs)) with (p ++ sep ++ intercalate sep (q :: qs)).
  by rewrite !existsb_app, Hp, Hs, IH.
Qed.

(** The pattern takes a well-formed string apart. *)
Lemma match_conn_string_wf schema hostaddr path query :
  schema <> [] -> lacks ":" schema = true -> hostaddr <> [] -> lacks "/" hostaddr = true ->
  starts_with "/" path = true -> lacks "?" path = true ->
  match query with c :: _ => Ascii.eqb "?" c = true | [] => True end ->
  existsb line_terminator query = false ->
  match_conn_string (schema ++ "://" ++ hostaddr ++ path ++ query)
  = Some (schema, hostaddr, path, query).
Proof.
  intros Hs Hs' Hh Hh' Hp Hp' Hq Hq'. unfold match_conn_string.
  rewrite (break_at_spec (Ascii.eqb ":") schema) by (done || by apply lacks_forall).
  destruct schema as [|x schema]; [done|]. cbn [app].
  change (Ascii.eqb ":" ":" && Ascii.eqb "/" "/" && Ascii.eqb "/" "/") with true. cbv iota.
  apply starts_with_inv in Hp as [t ->].
  rewrite (break_at_spec (Ascii.eqb "/") hostaddr) by (done || by apply lacks_forall).
  destruct hostaddr as [|y hostaddr]; [done|].
  rewrite (break_at_spec (Ascii.eqb "?") ("/" ++ t)) by (done || by apply lacks_forall).
  by rewrite Hq'.
Qed.

(** Each option read back. *)
Lemma query_texts_read p base :
  (timeout p =? default_timeout) || timeout_survives (timeout p) = true ->
  base = ConnectionParams (connection_schema p) (hosts p) (chroot p) true false default_timeout ->
  query_parts (query_texts p) (base, []) = MOk (p, []).
Proof.
  intros Ht ->. destruct p as [sch hs ch rnd ro t]. unfold query_texts. cbn [randomize_hosts read_only timeout] in *.
  assert (forall q, query_part "randomize_hosts=false" (q, []) = MOk (with_randomize_hosts false q, [])) as E1 by done.
  assert (forall q, query_part "read_only=true" (q, []) = MOk (with_read_only true q, [])) as E2 by done.
  assert ((t =? default_timeout) = false -> forall q,
    query_part ("timeout=" ++ timeout_text t) (q, []) = MOk (with_timeout t q, [])) as E3.
  { intros Hne q. rewrite Hne in Ht. cbn in Ht. unfold timeout_survives in Ht. bool_prop.
    unfold query_part.
    change ("timeout=" ++ timeout_text t) with ("timeout" ++ "="%char :: timeout_text t).
    rewrite break_at_spec by (done || by repeat constructor).
    change (str_eqb "timeout" "randomize_hosts") with false.
    change (str_eqb "timeout" "read_only") with false.
    change (str_eqb "timeout" "timeout") with true. cbv iota.
    destruct (extract_millis "timeout" (timeout_text t)) as [t'| |]; [|done|done].
    bool_prop. subst t'. done. }
  destruct rnd, ro, (t =? default_timeout) eqn:Et; cbn [app query_parts];
    rewrite ?E1; cbn [mres_bind]; rewrite ?E2; cbn [mres_bind]; rewrite ?E3 by done; cbn;
    try (apply Z.eqb_eq in Et; subst t); done.
Qed.

Lemma query_texts_clean p :
  (timeout p =? default_timeout) || timeout_survives (timeout p) = true ->
  Forall (fun q => lacks "&" q = true /\ existsb line_terminator q = false /\ q <> []) (query_texts p).
Proof.
  intros Ht. unfold query_texts. apply Forall_app. split; [|apply Forall_app; split].
  - destruct (randomize_hosts p); by repeat constructor.
  - destruct (read_only p); by repeat constructor.
  - destruct (timeout p =? default_timeout); [constructor|]. cbn in Ht. unfold timeout_survives in Ht.
    bool_prop. repeat constructor; done.
Qed.

Lemma multiples_survive k n t :
  0 < k -> forallb (fun i => timeout_survives (k * Z.of_nat i)) (seq 0 n) = true ->
  0 <= t < k * Z.of_nat n -> t mod k = 0 -> timeout_survives t = true.
Proof.
  intros Hk Hall Ht Hm. rewrite forallb_forall in Hall. specialize (Hall (Z.to_nat (t / k))).
  rewrite Z2Nat.id in Hall by (apply Z.div_pos; lia).
  rewrite (Z.div_mod t k), Hm, Z.add_0_r by lia. apply Hall, in_seq.
  assert (t / k < Z.of_nat n) by (apply Z.div_lt_upper_bound; lia). lia.
Qed.

Lemma eighths_survive : forallb (fun i => timeout_survives (125 * Z.of_nat i)) (seq 0 2000) = true.
Proof. vm_compute. reflexivity. Qed.

Lemma seconds_survive : forallb (fun i => timeout_survives (1000 * Z.of_nat i)) (seq 0 3601) = true.
Proof. vm_compute. reflexivity. Qed.

Lemma timeout_exact_survives t : timeout_exact t = true -> timeout_survives t = true.
Proof.
  unfold timeout_exact. intros [H|H]%orb_true_iff; bool_prop.
  - eapply (multiples_survive 125); [lia|exact eighths_survive|lia|done].
  - eapply (multiples_survive 1000); [lia|exact seconds_survive|lia|done].
Qed.

Lemma last_app_nonempty (sep : str) ps h t :
  last ps = Some (h :: t) -> intercalate sep ps <> [].
Proof.
  induction ps as [|p [|q ps] IH]; [done|cbn; by intros [= ->]|].
  intros Hl. cbn [intercalate]. intros [_ [_ Hn]%app_nil]%app_nil. by apply IH.
Qed.

(** Parameters are read back from what is printed. *)
Lemma parse_print_params p : params_wf p = true -> parse (print_params p) = MOk p.
Proof.
  intros Hwf. unfold params_wf in Hwf. bool_prop. rename H0 into Ht.
  apply timeout_exact_survives in Ht.
  assert ((timeout p =? default_timeout) || timeout_survives (timeout p) = true) as Ht' by (by rewrite Ht, orb_true_r).
  destruct (last (hosts p)) as [[|h t]|] eqn:Hl; try done.
  pose proof (query_texts_clean p Ht') as Hq. unfold parse. rewrite print_params_query.
  assert (Forall (fun h => lacks "," h = true /\ lacks "/" h = true) (hosts p)) as Hh.
  { apply Forall_forall. intros x Hin. rewrite forallb_forall in H3.
    specialize (H3 x ltac:(by apply list_elem_of_In)). by bool_prop. }
  rewrite match_conn_string_wf; try done.
  - unfold extract_host_list. rewrite split_each_join.
    + assert (chroot p <> []) as Hch by (intros E; by rewrite E in H2).
      replace (match chroot p with [] => _ | _ => chroot p end) with (chroot p) by by destruct (chroot p).
      pose proof (query_texts_read p _ Ht' eq_refl) as Hr.
      unfold query_string, extract_advanced_options. destruct (query_texts p) as [|q qs] eqn:E.
      * cbn in Hr. by injection Hr as ->.
      * change ("?" ++ intercalate "&" (q :: qs)) with ("?"%char :: intercalate "&" (q :: qs)).
        assert (intercalate "&" (q :: qs) <> []) as Hne.
        { apply Forall_cons in Hq as [(_ & _ & Hq) _]. destruct qs, q; done. }
        destruct (intercalate "&" (q :: qs)) as [|c u] eqn:Ei; [done|]. rewrite <- Ei.
        rewrite split_each_join; [by rewrite Hr|..].
        -- eapply Forall_impl; [exact Hq|]. by intros ? [? _].
        -- intros Hl'%last_Some_elem_of. rewrite Forall_forall in Hq. by destruct (Hq _ Hl') as (_ & _ & ?).
    + eapply Forall_impl; [exact Hh|]. by intros ? (? & _).
    + by rewrite Hl.
  - by eapply last_app_nonempty.
  - apply intercalate_lacks; [done|]. eapply Forall_impl; [exact Hh|]. by intros ? (_ & ?).
  - unfold query_string. by destruct (query_texts p).
  - unfold query_string. destruct (query_texts p) as [|q qs]; [done|].
    rewrite existsb_app. change (existsb line_terminator "?") with false. cbn [orb].
    apply existsb_intercalate; [done|].
    eapply Forall_impl; [exact Hq|]. by intros ? (_ & ? & _).
Qed.

(** ** Soundness of parsing *)

Lemma match_conn_string_inv s schema hostaddr path query :
  match_conn_string s = Some (schema, hostaddr, path, query) ->
  s = schema ++ "://" ++ hostaddr ++ path ++ query /\
  schema <> [] /\ lacks ":" schema = true /\ hostaddr <> [] /\ lacks "/" hostaddr = true /\
  lacks "?" path = true.
Proof.
  unfold match_conn_string. destruct (break_at (Ascii.eqb ":") s) as [a rest] eqn:E1.
  apply break_at_inv in E1 as (-> & Ha & _). apply lacks_forall in Ha.
  destruct a as [|x a]; [done|]. destruct rest as [|c1 [|c2 [|c3 rest]]]; try done.
  destruct (_ && _) eqn:Ec; [|done]. bool_prop. subst c1 c2 c3.
  destruct (break_at (Ascii.eqb "/") rest) as [h tl] eqn:E2.
  apply break_at_inv in E2 as (-> & Hh & _). apply lacks_forall in Hh.
  destruct h as [|y h]; [done|]. destruct (break_at (Ascii.eqb "?") tl) as [pt q] eqn:E3.
  apply break_at_inv in E3 as (-> & Hp & _). apply lacks_forall in Hp.
  destruct (existsb line_terminator q); [done|]. intros [= <- <- <- <-]. done.
Qed.

(** *** What a part of the query string does *)

Definition quote : str := [ascii_of_N 34].

Definition true_char (c : ascii) : Prop := c = "1"%char \/ c = "t"%char \/ c = "T"%char.
Definition false_char (c : ascii) : Prop := c = "0"%char \/ c = "f"%char \/ c = "F"%char.

(** The first character of a boolean decides. *)
Inductive bool_text : str -> bool -> Prop :=
| bool_true c val : true_char c -> bool_text (c :: val) true
| bool_false c val : false_char c -> bool_text (c :: val) false.

(** The options a part can set. *)
Inductive part_sets : str -> (connection_params -> connection_params) -> Prop :=
| sets_randomize_hosts val b :
    bool_text val b -> part_sets ("randomize_hosts=" ++ val) (with_randomize_hosts b)
| sets_read_only val b : bool_text val b -> part_sets ("read_only=" ++ val) (with_read_only b)
| sets_timeout c val d ms :
    c <> "P"%char -> strtod (c :: val) = Some (d, false) -> millis_of_seconds d = Some ms ->
    part_sets ("timeout=" ++ c :: val) (with_timeout ms).

Definition known_key (key : str) : Prop :=
  key = "randomize_hosts" \/ key = "read_only" \/ key = "timeout".

Definition part_unknown (qp key : str) : Prop :=
  exists val, qp = key ++ "=" ++ val /\ lacks "=" key = true /\ ~ known_key key.

(** The parts that end parsing at once, and the exceptions. *)
Inductive part_fault : str -> exn -> Prop :=
| fault_no_value qp : lacks "=" qp = true ->
    part_fault qp (InvalidArgument ("Invalid connection string -- query string must be specified as " ++
      quote ++ "key1=value1&key2=value2..." ++ quote))
| fault_blank key : known_key key ->
    part_fault (key ++ "=") (InvalidArgument ("Key " ++ key ++ " has blank value"))
| fault_bool key c val : key = "randomize_hosts" \/ key = "read_only" ->
    ~ true_char c -> ~ false_char c ->
    part_fault (key ++ "=" ++ c :: val) (InvalidArgument ("Invalid value for " ++ key ++ " " ++ quote ++
      (c :: val) ++ quote ++ " -- expected a boolean"))
| fault_iso val :
    part_fault ("timeout=P" ++ val) (InvalidArgument "ISO 8601 duration is not supported (yet).")
| fault_number c val : c <> "P"%char -> strtod (c :: val) = None ->
    part_fault ("timeout=" ++ c :: val) (InvalidArgument "stod")
| fault_range c val d : c <> "P"%char -> strtod (c :: val) = Some (d, true) ->
    part_fault ("timeout=" ++ c :: val) (OutOfRange "stod").

(** A timeout of more milliseconds than 64 bits hold: the conversion is undefined. *)
Definition overlong (qp : str) : Prop :=
  exists c val d, qp = "timeout=" ++ c :: val /\ c <> "P"%char /\
    strtod (c :: val) = Some (d, false) /\ millis_of_seconds d = None.

Lemma extract_bool_spec key val :
  match extract_bool key val with
  | Ok b => bool_text val b
  | Throw e => (val = [] /\ e = InvalidArgument ("Key " ++ key ++ " has blank value")) \/
      exists c v, val = c :: v /\ ~ true_char c /\ ~ false_char c /\
        e = InvalidArgument ("Invalid value for " ++ key ++ " " ++ quote ++ val ++ quote ++
              " -- expected a boolean")
  end.
Proof.
  unfold extract_bool. destruct val as [|c val]; [by left|].
  destruct (Ascii.eqb c "1" || _ || _) eqn:E1.
  { constructor. unfold true_char. rewrite !orb_true_iff, !Ascii.eqb_eq in E1. tauto. }
  destruct (Ascii.eqb c "0" || _ || _) eqn:E2.
  { constructor. unfold false_char. rewrite !orb_true_iff, !Ascii.eqb_eq in E2. tauto. }
  right. exists c, val. unfold true_char, false_char. rewrite !orb_false_iff, !Ascii.eqb_neq in *.
  split_and!; [done|tauto|tauto|done].
Qed.

Lemma extract_millis_spec val :
  match extract_millis "timeout" val with
  | MOk ms => exists c v d, val = c :: v /\ c <> "P"%char /\ strtod val = Some (d, false) /\
      millis_of_seconds d = Some ms
  | MThrow e => part_fault ("timeout=" ++ val) e
  | MUndef => overlong ("timeout=" ++ val)
  end.
Proof.
  unfold extract_millis. destruct val as [|c val]; [apply (fault_blank "timeout"); right; by right|].
  destruct (Ascii.eqb_spec c "P") as [->|Hc]; [apply fault_iso|]. unfold stod.
  destruct (strtod (c :: val)) as [[d []]|] eqn:E; [by eapply fault_range| |by apply fault_number].
  destruct (millis_of_seconds d) eqn:Em; [|exists c, val, d; done]. by exists c, val, d.
Qed.

Lemma query_part_spec qp out msg :
  match query_part qp (out, msg) with
  | MOk (out', msg') =>
      (exists f, part_sets qp f /\ out' = f out /\ msg' = msg) \/
      (exists key, part_unknown qp key /\ out' = out /\ msg' = invalid_key msg key)
  | MThrow e => part_fault qp e
  | MUndef => overlong qp
  end.
Proof.
  unfold query_part. destruct (break_at (Ascii.eqb "=") qp) as [key [|c val]] eqn:B;
    apply break_at_inv in B as (-> & Hk & Bc); apply lacks_forall in Hk.
  { rewrite app_nil_r. by apply fault_no_value. }
  apply Ascii.eqb_eq in Bc as <-. unfold str_eqb.
  destruct (bool_decide (key = "randomize_hosts")) eqn:K1; [bool_prop; subst key|].
  { pose proof (extract_bool_spec "randomize_hosts" val) as H. destruct (extract_bool _ val) as [b|e].
    - left. eexists. split; [by apply sets_randomize_hosts|done].
    - destruct H as [[-> ->]|(c & v & -> & H1 & H2 & ->)];
        [apply (fault_blank "randomize_hosts"); by left|apply (fault_bool "randomize_hosts"); auto]. }
  destruct (bool_decide (key = "read_only")) eqn:K2; [bool_prop; subst key|].
  { pose proof (extract_bool_spec "read_only" val) as H. destruct (extract_bool _ val) as [b|e].
    - left. eexists. split; [by apply sets_read_only|done].
    - destruct H as [[-> ->]|(c & v & -> & H1 & H2 & ->)];
        [apply (fault_blank "read_only"); right; by left|apply (fault_bool "read_only"); auto]. }
  destruct (bool_decide (key = "timeout")) eqn:K3; [bool_prop; subst key|].
  { pose proof (extract_millis_spec val) as H. destruct (extract_millis _ val) as [ms|e|]; [|exact H|exact H].
    destruct H as (c & v & d & -> & H1 & H2 & H3). left. eexists. split; [by eapply sets_timeout|done]. }
  right. exists key. split; [|done]. exists val. split_and!; [done..|].
  bool_prop. intros [->|[->| ->]]; done.
Qed.

(** The keys of a query string that are not options, in order. *)
Inductive unknown_keys : list str -> list str -> Prop :=
| unknown_nil : unknown_keys [] []
| unknown_option qp f qps ks : part_sets qp f -> unknown_keys qps ks -> unknown_keys (qp :: qps) ks
| unknown_cons qp key qps ks : part_unknown qp key -> unknown_keys qps ks -> unknown_keys (qp :: qps) (key :: ks).

Definition part_fine (qp : str) : Prop := (exists f, part_sets qp f) \/ (exists key, part_unknown qp key).

Definition keys_message (msg : str) (ks : list str) : str := foldl invalid_key msg ks.

Lemma query_parts_spec ps out msg :
  match query_parts ps (out, msg) with
  | MOk (out', msg') => exists ks, unknown_keys ps ks /\ msg' = keys_message msg ks /\
      (ks = [] -> exists fs, Forall2 part_sets ps fs /\ out' = foldl (fun p f => f p) out fs)
  | MThrow e => exists pre bad post, ps = pre ++ bad :: post /\ Forall part_fine pre /\ part_fault bad e
  | MUndef => exists pre bad post, ps = pre ++ bad :: post /\ Forall part_fine pre /\ overlong bad
  end.
Proof.
  revert out msg; induction ps as [|q ps IH]; intros out msg; cbn [query_parts].
  { exists []. split_and!; [constructor|done|]. intros _. exists []. by split. }
  pose proof (query_part_spec q out msg) as H.
  destruct (query_part q (out, msg)) as [[out1 msg1]|e|]; cbn [mres_bind];
    [|exists [], q, ps; by split_and!|exists [], q, ps; by split_and!].
  assert (part_fine q) as Hq by (destruct H as [(f & Hf & _)|(k & Hk & _)]; [left|right]; eauto).
  specialize (IH out1 msg1). destruct (query_parts ps (out1, msg1)) as [[out2 msg2]|e|].
  - destruct IH as (ks & Hks & -> & Hfs). destruct H as [(f & Hf & -> & ->)|(k & Hk & -> & ->)].
    + exists ks. split_and!; [by eapply unknown_option|done|]. intros ->.
      destruct (Hfs eq_refl) as (fs & HF & ->). exists (f :: fs). by split; [constructor|].
    + exists (k :: ks). split_and!; [by apply unknown_cons|done|done].
  - destruct IH as (pre & bad & post & -> & Hpre & Hbad). exists (q :: pre), bad, post. split_and!; [done|by constructor|done].
  - destruct IH as (pre & bad & post & -> & Hpre & Hbad). exists (q :: pre), bad, post. split_and!; [done|by constructor|done].
Qed.

(** The message names the unknown keys, in order. *)
Lemma keys_message_app msg ks :
  msg <> [] -> ks <> [] -> keys_message msg ks = msg ++ ", " ++ intercalate ", " ks.
Proof.
  revert msg. induction ks as [|k ks IH]; intros msg Hm Hk; [done|]. cbn [keys_message foldl].
  unfold invalid_key at 2. replace (match msg with [] => _ | _ => msg ++ ", " end) with (msg ++ ", ") by by destruct msg.
  destruct ks as [|k' ks]; [cbn; by rewrite <- app_assoc|].
  fold (keys_message ((msg ++ ", ") ++ k) (k' :: ks)).
  rewrite IH; [|by destruct msg|done]. cbn [intercalate]. by rewrite <- !app_assoc.
Qed.

Lemma keys_message_first ks :
  ks <> [] -> keys_message [] ks = "Invalid key in querystring: " ++ intercalate ", " ks.
Proof.
  destruct ks as [|k ks]; [done|]. intros _. destruct ks as [|k' ks]; [done|].
  change (keys_message [] (k :: k' :: ks)) with (keys_message ("Invalid key in querystring: " ++ k) (k' :: ks)).
  rewrite keys_message_app by done. cbn [intercalate]. by rewrite <- !app_assoc.
Qed.

(** The parts of a query string with its question mark. *)
Definition query_pieces (query : str) : list str := split_each_substr (tail query) "&".

Lemma extract_advanced_options_spec src out :
  match extract_advanced_options src out with
  | MOk out' => exists fs, Forall2 part_sets (query_pieces src) fs /\ out' = foldl (fun p f => f p) out fs
  | MThrow e =>
      (exists pre bad post, query_pieces src = pre ++ bad :: post /\ Forall part_fine pre /\ part_fault bad e) \/
      (exists ks, ks <> [] /\ unknown_keys (query_pieces src) ks /\
         e = InvalidArgument ("Invalid key in querystring: " ++ intercalate ", " ks))
  | MUndef => exists pre bad post, query_pieces src = pre ++ bad :: post /\ Forall part_fine pre /\ overlong bad
  end.
Proof.
  unfold extract_advanced_options, query_pieces. destruct src as [|c [|d src]]; [by exists []..|]. cbn [tail].
  pose proof (query_parts_spec (split_each_substr (d :: src) "&") out []) as H.
  destruct (query_parts _ _) as [[out1 msg1]|e|]; cbn [mres_bind fst snd]; [|by left|done].
  destruct H as (ks & Hks & -> & Hfs). destruct ks as [|k ks]; [by apply Hfs|].
  rewrite keys_message_first by done. cbn [app]. right. exists (k :: ks). by split_and!.
Qed.

(** * Properties *)

(** C22: connection parameters that a connection string can express are read back
    unchanged from what is printed for them, if the timeout is a multiple of an eighth of a
    second below 250 seconds, or of a second up to an hour. *)
Theorem params_roundtrip p : params_wf p = true -> parse (print_params p) = MOk p.
Proof. apply parse_print_params. Qed.


(** A timeout of whole seconds up to an hour is read back as it was; one of 1001
    milliseconds is not: it is printed as 1.001 and read as 1000 milliseconds, since
    the product of the nearest double with 1000 is below 1001 and is truncated. *)
Theorem timeout_seconds_survive s :
  0 <= s <= 3600 ->
  timeout_survives (1000 * s) = true /\
  extract_millis "timeout" (timeout_text 1001) = MOk 1000.
Proof.
  intros Hs. split; [|vm_compute; reflexivity].
  apply timeout_exact_survives. unfold timeout_exact. apply orb_true_iff. right.
  rewrite !andb_true_iff, Z.mul_comm, Z_mod_mult. split_and!; [apply Z.leb_le; lia..|done].
Qed.

(** The chroot, the choice of random hosts and read-only mode never reach the C
    client: parameters that agree on schema, hosts and timeout make the same call to
    [zookeeper_init], which has no path suffix and no flags; and a failed call leaves
    an object without a handle instead of an exception. *)
Theorem construct_ignores p p' :
  connection_schema p = "zk" -> connection_schema p' = "zk" ->
  hosts p = hosts p' -> timeout p = timeout p' ->
  (forall ok, construct p ok = construct p' ok) /\
  exists c, construct p false = Ok (c, false) /\
    init_hosts c = intercalate "," (hosts p) /\ init_flags c = 0.
Proof.
  intros E E' Eh Et. unfold construct. rewrite E, E', Eh, Et. split; [done|].
  cbn. eexists. split_and!; [done| |done]. apply join_intercalate.
Qed.

(** ** Witnesses *)

Definition sample_params : connection_params :=
  ConnectionParams "zk" ["[::1]:2181"; []; "server-b:2181"] "/app/a" false true 8500.

Lemma params_roundtrip_witness :
  print_params sample_params =
    "zk://[::1]:2181,,server-b:2181/app/a?randomize_hosts=false&read_only=true&timeout=8.5" /\
  parse (print_params sample_params) = MOk sample_params.
Proof.
  split; [vm_compute; reflexivity|]. apply (params_roundtrip sample_params). vm_compute. reflexivity.
Defined.

Lemma timeout_seconds_survive_witness : timeout_survives 30000 = true.
Proof. apply (timeout_seconds_survive 30). lia. Defined.

Lemma construct_ignores_witness :
  construct sample_params true
  = construct (ConnectionParams "zk" (hosts sample_params) "/" true false 8500) true.
Proof.
  apply (construct_ignores sample_params
    (ConnectionParams "zk" (hosts sample_params) "/" true false 8500)); reflexivity.
Defined.
