(* ===== verification/Acl.v ===== *)
(** * Acl: src/zk/acl.hpp and src/zk/acl.cpp

    Permission flags, access control rules with their order and hash, and access
    control lists. *)

From S2P Require Import Prelude Text Types Error.
Local Open Scope Z_scope.

(** ** permission *)

Module permission.
Definition none : Z := 0.
Definition read : Z := 1.
Definition write : Z := 2.
Definition create : Z := 4.
Definition erase : Z := 8.
Definition admin : Z := 16.
Definition all : Z := 31.
End permission.

Definition perm_or (a b : Z) : Z := Z.lor a b.
Definition perm_and (a b : Z) : Z := Z.land a b.
Definition perm_not (a : Z) : Z := perm_and (u32 (Z.lnot a)) permission.all.
Definition allows (self perform : Z) : bool := perm_and self perform =? perform.

Definition print_permission (self : Z) : str :=
  if self =? permission.none then "none"
  else if self =? permission.all then "all"
  else print_flags [(allows self permission.read, "read");
                    (allows self permission.write, "write");
                    (allows self permission.create, "create");
                    (allows self permission.erase, "erase");
                    (allows self permission.admin, "admin")].

(** ** acl_rule *)

Record acl_rule := AclRule {
  rule_scheme : str;
  rule_id : str;
  rule_permissions : Z;
}.

#[global] Instance acl_rule_eq_dec : EqDecision acl_rule.
Proof. solve_decision. Defined.

Definition acl_rule_eqb (lhs rhs : acl_rule) : bool :=
  str_eqb (rule_scheme lhs) (rule_scheme rhs)
  && str_eqb (rule_id lhs) (rule_id rhs)
  && (rule_permissions lhs =? rule_permissions rhs).

(** [std::tie(a, b, c) < std::tie(x, y, z)]: lexicographic, by [operator<] only. *)
Definition acl_rule_ltb (lhs rhs : acl_rule) : bool :=
  str_ltb (rule_scheme lhs) (rule_scheme rhs)
  || (negb (str_ltb (rule_scheme rhs) (rule_scheme lhs))
      && (str_ltb (rule_id lhs) (rule_id rhs)
          || (negb (str_ltb (rule_id rhs) (rule_id lhs))
              && (rule_permissions lhs <? rule_permissions rhs)))).

Definition acl_rule_leb (lhs rhs : acl_rule) : bool := negb (acl_rule_ltb rhs lhs).
Definition acl_rule_gtb (lhs rhs : acl_rule) : bool := acl_rule_ltb rhs lhs.
Definition acl_rule_geb (lhs rhs : acl_rule) : bool := negb (acl_rule_ltb lhs rhs).

Section hash.
(** [std::hash<std::string>] and [std::hash<unsigned>]. *)
Context (hash_string : str -> Z) (hash_uint : Z -> Z).

Definition acl_rule_hash (self : acl_rule) : Z :=
  Z.lxor (Z.lxor (hash_string (rule_scheme self)) (hash_string (rule_id self)))
    (hash_uint (rule_permissions self)).
End hash.

Definition print_acl_rule (self : acl_rule) : str :=
  "(" ++ rule_scheme self
  ++ (match rule_id self with [] => [] | id => ":" ++ id end)
  ++ ", " ++ print_permission (rule_permissions self) ++ ")".

(** ** acl *)

Abbreviation acl := (list acl_rule).

(** [std::equal] on the two ranges. *)
Fixpoint acl_eqb (lhs rhs : acl) : bool :=
  match lhs, rhs with
  | [], [] => true
  | x :: l, y :: r => acl_rule_eqb x y && acl_eqb l r
  | _, _ => false
  end.

Definition acl_rule_neb (lhs rhs : acl_rule) : bool := negb (acl_rule_eqb lhs rhs).
Definition acl_neb (lhs rhs : acl) : bool := negb (acl_eqb lhs rhs).

(** The vector interface: [at] throws out of range, where [operator[]] is undefined. *)
Definition acl_size (self : acl) : nat := length self.
Definition acl_at (self : acl) (idx : nat) : mres acl_rule :=
  match self !! idx with
  | Some x => MOk x
  | None => MThrow (OutOfRange "vector::_M_range_check")
  end.
Definition acl_index (self : acl) (idx : nat) : mres acl_rule :=
  match self !! idx with
  | Some x => MOk x
  | None => MUndef
  end.
Definition acl_push_back (x : acl_rule) (self : acl) : acl := self ++ [x].

Definition print_acl (self : acl) : str := "[" ++ join ", " (print_acl_rule <$> self) ++ "]".

Module acls.
Definition creator_all : acl := [AclRule "auth" [] permission.all].
Definition open_unsafe : acl := [AclRule "world" "anyone" permission.all].
Definition read_unsafe : acl := [AclRule "world" "anyone" permission.read].
End acls.

(** * Lemmas *)

Lemma str_eqb_eq a b : str_eqb a b = true <-> a = b.
Proof. apply bool_decide_eq_true. Qed.

Lemma acl_rule_eqb_eq a b : acl_rule_eqb a b = true <-> a = b.
Proof.
  unfold acl_rule_eqb. rewrite !andb_true_iff, !str_eqb_eq, Z.eqb_eq.
  destruct a, b; simpl. naive_solver.
Qed.

Lemma str_ltb_asym a b : str_ltb a b = true -> str_ltb b a = false.
Proof.
  intros H. destruct (str_ltb b a) eqn:E; [|done].
  pose proof (str_ltb_trans _ _ _ H E). by rewrite str_ltb_irrefl in *.
Qed.

(** Case analysis on two strings by their order. *)
Lemma str_cases a b :
  (str_ltb a b = true /\ str_ltb b a = false) \/
  (str_ltb a b = false /\ str_ltb b a = true) \/
  (a = b /\ str_ltb a b = false /\ str_ltb b a = false).
Proof.
  destruct (str_ltb a b) eqn:E1.
  - left; split; [done | by apply str_ltb_asym].
  - destruct (str_ltb b a) eqn:E2; [by auto|]. right; right.
    split_and!; [|done..]. by apply str_ltb_total.
Qed.

Lemma acl_rule_ltb_irrefl a : acl_rule_ltb a a = false.
Proof. unfold acl_rule_ltb. by rewrite !str_ltb_irrefl, Z.ltb_irrefl. Qed.

(** The order as a proposition: scheme, then ID, then permissions. *)
Lemma acl_rule_ltb_lex a b :
  acl_rule_ltb a b = true <->
  str_ltb (rule_scheme a) (rule_scheme b) = true \/
  (rule_scheme a = rule_scheme b /\ str_ltb (rule_id a) (rule_id b) = true) \/
  (rule_scheme a = rule_scheme b /\ rule_id a = rule_id b /\
   rule_permissions a < rule_permissions b).
Proof.
  unfold acl_rule_ltb. rewrite <- Z.ltb_lt.
  destruct (str_cases (rule_scheme a) (rule_scheme b)) as [[-> ->]|[[E1 E2]|(-> & -> & _)]];
    simpl; [naive_solver| |].
  - rewrite E1, E2; simpl. split; [done|].
    intros [?|[[H _]|[H _]]]; [done|..]; by rewrite H, str_ltb_irrefl in E2.
  - destruct (str_cases (rule_id a) (rule_id b)) as [[-> ->]|[[E1 E2]|(-> & -> & _)]];
      simpl; [naive_solver| |naive_solver].
    rewrite E1, E2; simpl. split; [done|].
    intros [?|[[_ ?]|[_ [H _]]]]; [done..|]. by rewrite H, str_ltb_irrefl in E2.
Qed.

Lemma acl_rule_ltb_trans a b c :
  acl_rule_ltb a b = true -> acl_rule_ltb b c = true -> acl_rule_ltb a c = true.
Proof.
  rewrite !acl_rule_ltb_lex. intros [?|[[? ?]|(? & ? & ?)]] [?|[[? ?]|(? & ? & ?)]];
    try (left; congruence || by eapply str_ltb_trans);
    try (right; left; split; congruence || by eapply str_ltb_trans).
  right; right; split_and!; congruence || lia.
Qed.

Lemma acl_rule_ltb_total a b :
  acl_rule_ltb a b = false -> acl_rule_ltb b a = false -> a = b.
Proof.
  intros H1 H2. apply not_true_iff_false in H1, H2. rewrite acl_rule_ltb_lex in H1, H2.
  destruct (str_cases (rule_scheme a) (rule_scheme b)) as [[? ?]|[[? ?]|(? & _)]]; [tauto..|].
  destruct (str_cases (rule_id a) (rule_id b)) as [[? ?]|[[? ?]|(? & _)]]; [naive_solver..|].
  destruct a as [s i p], b as [s' i' p']; simpl in *; subst. f_equal.
  destruct (Z.lt_trichotomy p p') as [?|[?|?]]; [|done|]; naive_solver.
Qed.

(** The rules come back by index in the order in which they were added; beyond the last
    one [at] throws and [operator[]] has no meaning. *)
Lemma acl_vector self x idx :
  ((idx < acl_size self)%nat -> exists r, acl_at self idx = MOk r /\ acl_index self idx = MOk r /\
     acl_at (acl_push_back x self) idx = MOk r) /\
  acl_at (acl_push_back x self) (acl_size self) = MOk x /\
  ((acl_size self <= idx)%nat ->
     (exists what, acl_at self idx = MThrow (OutOfRange what)) /\ acl_index self idx = MUndef).
Proof.
  unfold acl_at, acl_index, acl_push_back, acl_size. split_and!.
  - intros Hi. apply lookup_lt_is_Some in Hi as [r Hr]. exists r.
    rewrite Hr, (lookup_app_l_Some _ _ _ _ Hr). done.
  - by rewrite list_lookup_middle.
  - intros Hi. rewrite (lookup_ge_None_2 _ _ Hi). eauto.
Qed.

Lemma acl_eqb_eq a b : acl_eqb a b = true <-> a = b.
Proof.
  revert b; induction a as [|x a IH]; intros [|y b]; simpl; try done.
  rewrite andb_true_iff, acl_rule_eqb_eq, IH. naive_solver.
Qed.

(** * Properties *)

(** [operator==], [operator<] and the four relations derived from them make
    [acl_rule] a strict total order: exactly one of [a < b], [a == b], [b < a]
    holds, [<] is transitive, and [<=], [>], [>=] are what their names say. *)
Theorem acl_rule_total_order :
  (forall a b, (if acl_rule_ltb a b then 1 else 0) + (if acl_rule_eqb a b then 1 else 0)
               + (if acl_rule_ltb b a then 1 else 0) = 1) /\
  (forall a b c, acl_rule_ltb a b = true -> acl_rule_ltb b c = true ->
                 acl_rule_ltb a c = true) /\
  (forall a b, acl_rule_leb a b = acl_rule_ltb a b || acl_rule_eqb a b) /\
  (forall a b, acl_rule_geb a b = acl_rule_gtb a b || acl_rule_eqb a b).
Proof.
  assert (forall a b, acl_rule_ltb a b = true -> acl_rule_ltb b a = false) as Hasym.
  { intros a b H. destruct (acl_rule_ltb b a) eqn:E; [|done].
    pose proof (acl_rule_ltb_trans _ _ _ H E). by rewrite acl_rule_ltb_irrefl in *. }
  assert (forall a b, acl_rule_ltb a b = true -> acl_rule_eqb a b = false) as Hne.
  { intros a b H. apply not_true_iff_false. rewrite acl_rule_eqb_eq. intros ->.
    by rewrite acl_rule_ltb_irrefl in H. }
  assert (forall a b, acl_rule_eqb a b = acl_rule_eqb b a) as Hsym.
  { intros. apply eq_true_iff_eq. rewrite !acl_rule_eqb_eq. naive_solver. }
  assert (forall a b, acl_rule_ltb a b = false -> acl_rule_ltb b a = false ->
                      acl_rule_eqb a b = true) as Heq.
  { intros. apply acl_rule_eqb_eq. by apply acl_rule_ltb_total. }
  split_and!; [|apply acl_rule_ltb_trans|..]; intros a b;
    unfold acl_rule_leb, acl_rule_geb, acl_rule_gtb;
    destruct (acl_rule_ltb a b) eqn:E1, (acl_rule_ltb b a) eqn:E2;
    try (rewrite Hasym in E2 by done; done);
    try rewrite (Hne a b) by done; try rewrite (Hsym a b), (Hne b a) by done;
    try rewrite (Heq a b) by done; try rewrite (Heq b a) by done; done.
Qed.

(** The permission operators are set operations on the five permission bits:
    allowing a union is allowing both parts; the complement of a valid set is
    disjoint from it, completes it to [all] and is an involution, although it is
    computed on 32-bit words. *)
Theorem permission_algebra :
  (forall p a b, allows p (perm_or a b) = allows p a && allows p b) /\
  (forall a, 0 <= a <= permission.all ->
     perm_or a (perm_not a) = permission.all /\
     perm_and a (perm_not a) = permission.none /\
     perm_not (perm_not a) = a /\
     0 <= perm_not a <= permission.all).
Proof.
  split; [intros; apply flags_or|]. intros a Ha.
  assert (Z.land a (Z.ones 5) = a) as Hmask.
  { rewrite Z.land_ones by lia. apply Z.mod_small. unfold permission.all in Ha. lia. }
  unfold perm_or, perm_and, perm_not, permission.none.
  change permission.all with (Z.ones 5) in *. split_and!.
  - by apply masked_not_or.
  - by apply masked_not_and.
  - unfold perm_and. rewrite masked_not_not by lia. done.
  - unfold perm_and. apply Z.land_nonneg; right; done.
  - unfold perm_and. rewrite Z.land_ones by lia.
    pose proof (Z.mod_pos_bound (u32 (Z.lnot a)) (2 ^ 5)).
    change (Z.ones 5) with 31. lia.
Qed.

Definition valid_permissions : list Z := seqZ 0 32.

Lemma valid_permissions_spec p : p ∈ valid_permissions <-> 0 <= p <= permission.all.
Proof. unfold valid_permissions, permission.all. rewrite elem_of_seqZ. lia. Qed.

Lemma print_permission_nodup : NoDup (print_permission <$> valid_permissions).
Proof. vm_decide. Qed.

(** [to_string] tells the valid permission sets apart: two sets of the five
    permissions print the same text only if they are the same set. *)
Theorem print_permission_inj p q :
  0 <= p <= permission.all -> 0 <= q <= permission.all ->
  print_permission p = print_permission q -> p = q.
Proof.
  rewrite <- !valid_permissions_spec, !list_elem_of_lookup. intros [i Hi] [j Hj] H.
  assert (i = j) as ->; [|congruence].
  eapply NoDup_lookup; [apply print_permission_nodup|..];
    rewrite list_lookup_fmap; [by rewrite Hi|]. by rewrite Hj; simpl; rewrite H.
Qed.

Lemma print_permission_inj_witness :
  print_permission 5 = "read|create" /\
  (print_permission (perm_or 1 4) = print_permission 5 -> perm_or 1 4 = 5).
Proof.
  split; [reflexivity|]. apply (print_permission_inj (perm_or 1 4) 5);
    unfold permission.all; vm_compute; split; discriminate.
Defined.
