(* ===== verification/Native.v ===== *)
(** * Native: the adaptors between the C client and the library

    The "Native Adaptors" and "Utility Functions" of src/zk/connection_zk.cpp:
    raw codes, states, [struct Stat], [struct String_vector] and
    [struct ACL_vector] into library values, and ACLs back into raw ones.

    The numeric values of the C client's macros come from <zookeeper/zookeeper.h>,
    which is not part of the repository: they are the fields of [ZooConsts].
    [zoo_documented] states what the library relies on, and [zookeeper_3_5] is
    the instance published with ZooKeeper 3.5. *)

From S2P Require Import Prelude Text Types Error Acl.
Local Open Scope Z_scope.

Class ZooConsts := {
  ZCONNECTIONLOSS : Z;
  ZBADARGUMENTS : Z;
  ZOPERATIONTIMEOUT : Z;
  ZINVALIDCALLBACK : Z;
  ZINVALIDACL : Z;
  ZSESSIONMOVED : Z;
  ZOO_CONNECTING_STATE : Z;
  ZOO_ASSOCIATING_STATE : Z;
  ZOO_NOTCONNECTED_STATE : Z;
}.

Definition zookeeper_3_5 : ZooConsts := {|
  ZCONNECTIONLOSS := -4;
  ZBADARGUMENTS := -8;
  ZOPERATIONTIMEOUT := -7;
  ZINVALIDCALLBACK := -113;
  ZINVALIDACL := -114;
  ZSESSIONMOVED := -118;
  ZOO_CONNECTING_STATE := 1;
  ZOO_ASSOCIATING_STATE := 2;
  ZOO_NOTCONNECTED_STATE := 999;
|}.

(** The values the enumerations of the library repeat, and the labels of the
    [switch] being pairwise distinct (otherwise it does not compile). *)
Definition zoo_documented `{!ZooConsts} : Prop :=
  ZCONNECTIONLOSS = error_code.connection_loss /\
  ZBADARGUMENTS = error_code.invalid_arguments /\
  ZOO_CONNECTING_STATE = state.connecting /\
  NoDup [ZOPERATIONTIMEOUT; ZINVALIDCALLBACK; ZINVALIDACL; ZSESSIONMOVED] /\
  Forall (fun z => z < 0) [ZOPERATIONTIMEOUT; ZINVALIDCALLBACK; ZINVALIDACL; ZSESSIONMOVED] /\
  ~ (ZOO_ASSOCIATING_STATE ∈ known_states.*1) /\ ~ (ZOO_NOTCONNECTED_STATE ∈ known_states.*1).

(** ** Raw structures *)

(** [struct Stat] of the C client: 64-bit transaction IDs and times, 32-bit
    versions and counts, all signed. *)
Record raw_stat := RawStat {
  rs_czxid : Z; rs_mzxid : Z; rs_ctime : Z; rs_mtime : Z;
  rs_version : Z; rs_cversion : Z; rs_aversion : Z;
  rs_ephemeralOwner : Z; rs_dataLength : Z; rs_numChildren : Z; rs_pzxid : Z;
}.

(** [struct ACL] and [struct ACL_vector] *)
Record raw_acl := RawAcl { ra_perms : Z; ra_scheme : str; ra_id : str }.
Record raw_acl_vector := RawAclVector { rv_count : Z; rv_data : list raw_acl }.

(** [zoo_op_t] as initialised by [zoo_*_op_init]. A create operation points to
    an [ACL_vector] (its index in the caller's array) and to the buffer the
    created path is written to (its size); a set operation to a [Stat]. *)
Inductive raw_op :=
| RawCheck (path : str) (check : Z)
| RawCreate (path : str) (data : str) (datalen : Z) (acl_idx : nat) (mode : Z)
            (path_buffer_len : Z)
| RawDelete (path : str) (check : Z)
| RawSet (path : str) (data : str) (datalen : Z) (check : Z) (stat_idx : Z).

(** [zoo_op_result_t]; [value] and [stat] are what its pointers refer to. *)
Record raw_result := RawResult { rr_err : Z; rr_value : str; rr_stat : raw_stat }.

(** The asynchronous functions of the C client, with the arguments given to them. *)
Inductive request :=
| zoo_aget (path : str)
| zoo_awget (path : str)
| zoo_aget_children2 (path : str)
| zoo_awget_children2 (path : str)
| zoo_aexists (path : str)
| zoo_awexists (path : str)
| zoo_acreate (path : str) (data : str) (datalen : Z) (rules : raw_acl_vector) (mode : Z)
| zoo_aset (path : str) (data : str) (datalen : Z) (check : Z)
| zoo_adelete (path : str) (check : Z)
| zoo_aget_acl (path : str)
| zoo_aset_acl (path : str) (check : Z) (rules : raw_acl_vector)
| zoo_amulti (count : Z) (ops : list raw_op) (acls : list raw_acl_vector)
| zoo_async (path : str).

(** ** Adaptors *)

Section adaptors.
Context `{!ZooConsts}.

Definition error_code_from_raw (raw : Z) : Z :=
  switch raw
    [(ZOPERATIONTIMEOUT, ZCONNECTIONLOSS);
     (ZINVALIDCALLBACK, ZBADARGUMENTS);
     (ZINVALIDACL, ZBADARGUMENTS);
     (ZSESSIONMOVED, ZCONNECTIONLOSS)]
    raw.

Definition event_from_raw (raw : Z) : Z := raw.

Definition state_from_raw (raw : Z) : Z :=
  if raw =? ZOO_NOTCONNECTED_STATE then ZOO_CONNECTING_STATE
  else if raw =? ZOO_ASSOCIATING_STATE then ZOO_CONNECTING_STATE
  else raw.

End adaptors.

#[global] Arguments error_code_from_raw : simpl never.
#[global] Arguments state_from_raw : simpl never.

(** A [system_clock] tick is a nanosecond; the sum is taken in 64 bits. *)
Definition time_from_ms (ms : Z) : Z := i64 (ms * 1000000).

Definition stat_from_raw (raw : raw_stat) : stat :=
  {| stat_acl_version := StrongId (rs_aversion raw);
     child_modified_transaction := StrongId (u64 (rs_pzxid raw));
     stat_child_version := StrongId (rs_cversion raw);
     children_count := u64 (rs_numChildren raw);
     create_time := time_from_ms (rs_ctime raw);
     create_transaction := StrongId (u64 (rs_czxid raw));
     data_size := u64 (rs_dataLength raw);
     stat_data_version := StrongId (rs_version raw);
     ephemeral_owner := u64 (rs_ephemeralOwner raw);
     modified_time := time_from_ms (rs_mtime raw);
     modified_transaction := StrongId (u64 (rs_mzxid raw)) |}.

(** [struct String_vector]: [count] and [data]; the loop runs over [count]. *)
Definition string_vector_from_raw (raw : Z * list str) : list str :=
  take (Z.to_nat raw.1) raw.2.

Definition acl_rule_from_raw (item : raw_acl) : acl_rule :=
  AclRule (ra_scheme item) (ra_id item) (u32 (ra_perms item)).

Definition acl_from_raw (raw : raw_acl_vector) : acl :=
  acl_rule_from_raw <$> take (Z.to_nat (rv_count raw)) (rv_data raw).

(** A C string ends at its first NUL. *)
Definition c_str (s : str) : str := (break_at (fun c => Ascii.eqb c (ascii_of_N 0)) s).1.

Definition encode_acl_part (src : acl_rule) : raw_acl :=
  {| ra_perms := i32 (rule_permissions src);
     ra_scheme := c_str (rule_scheme src);
     ra_id := c_str (rule_id src) |}.

(** [with_acl]: the vector the action is called with. *)
Definition with_acl (rules : acl) : raw_acl_vector :=
  {| rv_count := i32 (Z.of_nat (length rules)); rv_data := encode_acl_part <$> rules |}.

(** [with_str]: the NUL-terminated copy the C client reads. *)
Definition with_str (src : str) : str := c_str src.

(** * Lemmas *)

Definition no_nul (s : str) : bool := forallb (fun c => negb (Ascii.eqb c (ascii_of_N 0))) s.

Lemma c_str_id s : no_nul s = true -> c_str s = s.
Proof.
  intros H. unfold c_str. rewrite break_at_none; [done|].
  apply Forall_forall. intros c Hc. unfold no_nul in H.
  rewrite forallb_forall in H. apply negb_true_iff, H. by apply list_elem_of_In.
Qed.

(** A rule the C structures can carry: no NUL in its strings and only 31-bit
    permissions. *)
Definition rule_wf (r : acl_rule) : bool :=
  no_nul (rule_scheme r) && no_nul (rule_id r)
  && (0 <=? rule_permissions r) && (rule_permissions r <=? INT32_MAX).

Lemma acl_rule_roundtrip r :
  rule_wf r = true -> acl_rule_from_raw (encode_acl_part r) = r.
Proof.
  unfold rule_wf. intros H; bool_prop. unfold acl_rule_from_raw, encode_acl_part.
  destruct r as [s i p]; simpl in *. rewrite !c_str_id, i32_small by (done || unfold INT32_MIN; lia).
  f_equal. apply wrap_u_small. unfold INT32_MAX in *. lia.
Qed.

(** * Properties *)

(** An access control list encoded for the C client and decoded again is the
    same list, for lists and rules that fit the C structures (at most
    [INT32_MAX] rules, no NUL in scheme or ID, permissions of 31 bits). *)
Theorem acl_raw_roundtrip rules :
  Z.of_nat (length rules) <= INT32_MAX -> forallb rule_wf rules = true ->
  acl_from_raw (with_acl rules) = rules.
Proof.
  intros Hlen Hwf. unfold acl_from_raw, with_acl; cbn [rv_count rv_data].
  rewrite i32_small by (unfold INT32_MIN; lia).
  rewrite Nat2Z.id, take_ge by (rewrite length_fmap; lia).
  clear Hlen. induction rules as [|r rules IH]; [done|]. cbn [forallb] in Hwf.
  apply andb_prop in Hwf as [Hr Hwf]. cbn [fmap list_fmap].
  by rewrite acl_rule_roundtrip, IH.
Qed.

Lemma acl_raw_roundtrip_witness :
  acl_from_raw (with_acl (acls.read_unsafe ++ acls.creator_all))
  = acls.read_unsafe ++ acls.creator_all.
Proof. apply acl_raw_roundtrip; [vm_compute; discriminate | reflexivity]. Defined.

(** With the documented constants, the four raw errors that have no
    counterpart in the library become [connection_loss] or [invalid_arguments],
    every other code is kept, success is never invented or lost, and a raw state
    that is neither "associating" nor "not connected" is kept while those two
    become [connecting]. *)
Theorem raw_adaptors_documented `{!ZooConsts} :
  zoo_documented ->
  (forall raw, error_code_from_raw raw = error_code.ok <-> raw = error_code.ok) /\
  (forall raw, raw ∈ [ZOPERATIONTIMEOUT; ZSESSIONMOVED] ->
     error_code_from_raw raw = error_code.connection_loss) /\
  (forall raw, raw ∈ [ZINVALIDCALLBACK; ZINVALIDACL] ->
     error_code_from_raw raw = error_code.invalid_arguments) /\
  (forall raw, raw ∉ [ZOPERATIONTIMEOUT; ZINVALIDCALLBACK; ZINVALIDACL; ZSESSIONMOVED] ->
     error_code_from_raw raw = raw) /\
  (forall s, s ∈ known_states.*1 -> state_from_raw s = s) /\
  state_from_raw ZOO_ASSOCIATING_STATE = state.connecting /\
  state_from_raw ZOO_NOTCONNECTED_STATE = state.connecting.
Proof.
  intros (HC & HB & HS & Hnd & Hneg & Ha & Hnc).
  assert (forall raw v, (raw, v) ∈
    [(ZOPERATIONTIMEOUT, ZCONNECTIONLOSS); (ZINVALIDCALLBACK, ZBADARGUMENTS);
     (ZINVALIDACL, ZBADARGUMENTS); (ZSESSIONMOVED, ZCONNECTIONLOSS)] ->
    error_code_from_raw raw = v) as Hin by (intros; by apply switch_in).
  assert (forall raw, raw ∉ [ZOPERATIONTIMEOUT; ZINVALIDCALLBACK; ZINVALIDACL; ZSESSIONMOVED] ->
    error_code_from_raw raw = raw) as Hout by (intros; by apply switch_not_in).
  rewrite <- HC, <- HB. split_and!.
  - intros raw. split; [|intros ->; apply Hout].
    + unfold error_code_from_raw. match goal with |- switch ?x ?c ?d = _ -> _ =>
        destruct (switch_cases x c d) as [(v & Hv & ->)|[_ ->]]; [|done] end.
      intros ->. rewrite HC, HB, !elem_of_cons, elem_of_nil in Hv. naive_solver.
    + intros H0. rewrite Forall_forall in Hneg. apply Hneg in H0. by unfold error_code.ok in H0.
  - intros raw. rewrite !elem_of_cons, elem_of_nil. intros [->|[->|[]]]; apply Hin; set_solver.
  - intros raw. rewrite !elem_of_cons, elem_of_nil. intros [->|[->|[]]]; apply Hin; set_solver.
  - exact Hout.
  - intros s Hs. unfold state_from_raw.
    destruct (Z.eqb_spec s ZOO_NOTCONNECTED_STATE); [by subst|].
    destruct (Z.eqb_spec s ZOO_ASSOCIATING_STATE); [by subst|done].
  - unfold state_from_raw. rewrite Z.eqb_refl, HS. by case_goal.
  - unfold state_from_raw. by rewrite Z.eqb_refl, HS.
Qed.

Lemma raw_adaptors_documented_witness :
  @zoo_documented zookeeper_3_5 /\ @state_from_raw zookeeper_3_5 999 = state.connecting.
Proof.
  assert (@zoo_documented zookeeper_3_5) as H by vm_decide.
  split; [exact H|]. apply (@raw_adaptors_documented zookeeper_3_5 H).
Defined.
