(* ===== verification/Results.v ===== *)
(** * Results: src/zk/results.hpp and src/zk/results.cpp

    The values operations deliver, and their text. [zk::buffer] is the default
    [std::vector<char>], for which [print_buffer] prints the size; the future
    inside a watch result is named by its shared state. *)

From S2P Require Import Prelude Text Types Acl.
Local Open Scope Z_scope.

Abbreviation buffer := str.
(** A [future<T>] is the name of a shared state. *)
Abbreviation fut := nat.

Record get_result := GetResult { get_data : buffer; get_stat : stat }.
Record get_children_result := GetChildrenResult {
  gc_children : list str; gc_parent_stat : stat }.
Record exists_result := ExistsResult { exists_stat : option stat }.
Record create_result := CreateResult { create_name : str }.
Record set_result := SetResult { set_stat : stat }.
Record get_acl_result := GetAclResult { ga_acl : acl; ga_stat : stat }.
Record event := Event { event_kind : Z; event_state : Z }.
Record watch_result := WatchResult { watch_initial : get_result; watch_next : fut }.
Record watch_children_result := WatchChildrenResult {
  watch_children_initial : get_children_result; watch_children_next : fut }.
Record watch_exists_result := WatchExistsResult {
  watch_exists_initial : exists_result; watch_exists_next : fut }.

#[global] Instance get_result_eq_dec : EqDecision get_result.
Proof. solve_decision. Defined.
#[global] Instance get_children_result_eq_dec : EqDecision get_children_result.
Proof. solve_decision. Defined.
#[global] Instance exists_result_eq_dec : EqDecision exists_result.
Proof. solve_decision. Defined.
#[global] Instance create_result_eq_dec : EqDecision create_result.
Proof. solve_decision. Defined.
#[global] Instance set_result_eq_dec : EqDecision set_result.
Proof. solve_decision. Defined.
#[global] Instance get_acl_result_eq_dec : EqDecision get_acl_result.
Proof. solve_decision. Defined.
#[global] Instance event_eq_dec : EqDecision event.
Proof. solve_decision. Defined.
#[global] Instance watch_result_eq_dec : EqDecision watch_result.
Proof. solve_decision. Defined.
#[global] Instance watch_children_result_eq_dec : EqDecision watch_children_result.
Proof. solve_decision. Defined.
#[global] Instance watch_exists_result_eq_dec : EqDecision watch_exists_result.
Proof. solve_decision. Defined.

(** [explicit operator bool] of [exists_result]. *)
Definition exists_bool (r : exists_result) : bool := bool_decide (is_Some (exists_stat r)).

Definition print_buffer (buf : buffer) : str := "size=" ++ print_uint (Z.of_nat (length buf)).

Definition print_range (range : list str) : str := "[" ++ join ", " range ++ "]".

Definition print_get_result (self : get_result) : str :=
  "get_result{" ++ print_buffer (get_data self) ++ " " ++ print_stat (get_stat self) ++ "}".

Definition print_get_children_result (self : get_children_result) : str :=
  "get_children_result{" ++ print_range (gc_children self) ++ " parent="
  ++ print_stat (gc_parent_stat self) ++ "}".

Definition print_exists_result (self : exists_result) : str :=
  "exists_result{" ++ (match exists_stat self with
                       | Some st => print_stat st
                       | None => "(no)"
                       end) ++ "}".

Definition print_create_result (self : create_result) : str :=
  "create_result{name=" ++ create_name self ++ "}".

Definition print_set_result (self : set_result) : str :=
  "set_result{" ++ print_stat (set_stat self) ++ "}".

Definition print_get_acl_result (self : get_acl_result) : str :=
  "get_acl_result{" ++ print_acl (ga_acl self) ++ " " ++ print_stat (ga_stat self) ++ "}".

Definition print_event (self : event) : str :=
  "event{" ++ print_event_type (event_kind self) ++ " | "
  ++ print_state (event_state self) ++ "}".

Definition print_watch_result (self : watch_result) : str :=
  "watch_result{initial=" ++ print_get_result (watch_initial self) ++ "}".

Definition print_watch_children_result (self : watch_children_result) : str :=
  "watch_children_result{initial="
  ++ print_get_children_result (watch_children_initial self) ++ "}".

Definition print_watch_exists_result (self : watch_exists_result) : str :=
  "watch_exists_result{initial=" ++ print_exists_result (watch_exists_initial self) ++ "}".
