(* ===== verification/Multi.v ===== *)
(** * Multi: src/zk/multi.hpp and src/zk/multi.cpp

    The operations of a transaction and the parts of its result, as tagged
    unions with checked accessors. *)

From S2P Require Import Prelude Text Types Error Acl Results.
Local Open Scope Z_scope.

Inductive op_type := op_check | op_create | op_erase | op_set.

#[global] Instance op_type_eq_dec : EqDecision op_type.
Proof. solve_decision. Defined.

Definition print_op_type (self : op_type) : str :=
  match self with
  | op_check => "check"
  | op_create => "create"
  | op_erase => "erase"
  | op_set => "set"
  end.

(** ** op *)

Record check_data := CheckData { check_path : str; check_version : version }.
Record create_data := CreateData {
  create_path : str; create_data_buf : buffer; create_rules : acl; create_mode_of : Z }.
Record erase_data := EraseData { erase_path : str; erase_version : version }.
Record set_data := SetData { set_path : str; set_data_buf : buffer; set_version : version }.

(** [std::variant<check_data, create_data, erase_data, set_data>] *)
Inductive op :=
| OpCheck (d : check_data)
| OpCreate (d : create_data)
| OpErase (d : erase_data)
| OpSet (d : set_data).

Definition op_make_check (path : str) (check : version) : op := OpCheck (CheckData path check).
Definition op_make_create (path : str) (data : buffer) (rules : acl) (mode : Z) : op :=
  OpCreate (CreateData path data rules mode).
Definition op_make_create_default (path : str) (data : buffer) (mode : Z) : op :=
  op_make_create path data acls.open_unsafe mode.
Definition op_make_erase (path : str) (check : version) : op := OpErase (EraseData path check).
Definition op_make_set (path : str) (data : buffer) (check : version) : op :=
  OpSet (SetData path data check).

Definition op_type_of (o : op) : op_type :=
  match o with
  | OpCheck _ => op_check
  | OpCreate _ => op_create
  | OpErase _ => op_erase
  | OpSet _ => op_set
  end.

(** [op::as<T>]: the [std::bad_variant_access] is translated. *)
Definition op_as {T} (operation : str) (get : op -> option T) (o : op) : res T :=
  match get o with
  | Some d => Ok d
  | None => Throw (LogicError ("Invalid op type for op::" ++ operation ++ ": "
                               ++ print_op_type (op_type_of o)))
  end.

Definition as_check : op -> res check_data :=
  op_as "as_check" (fun o => match o with OpCheck d => Some d | _ => None end).
Definition as_create : op -> res create_data :=
  op_as "as_create" (fun o => match o with OpCreate d => Some d | _ => None end).
Definition as_erase : op -> res erase_data :=
  op_as "as_erase" (fun o => match o with OpErase d => Some d | _ => None end).
Definition as_set : op -> res set_data :=
  op_as "as_set" (fun o => match o with OpSet d => Some d | _ => None end).

Definition print_check_data (self : check_data) : str :=
  "{" ++ check_path self ++ " " ++ print_version (check_version self) ++ "}".
Definition print_create_data (self : create_data) : str :=
  "{" ++ create_path self ++ " " ++ print_create_mode (create_mode_of self)
  ++ " " ++ print_acl (create_rules self) ++ "}".
Definition print_erase_data (self : erase_data) : str :=
  "{" ++ erase_path self ++ " " ++ print_version (erase_version self) ++ "}".
Definition print_set_data (self : set_data) : str :=
  "{" ++ set_path self ++ " " ++ print_version (set_version self) ++ "}".

Definition print_op (self : op) : str :=
  print_op_type (op_type_of self) ++
  match self with
  | OpCheck d => print_check_data d
  | OpCreate d => print_create_data d
  | OpErase d => print_erase_data d
  | OpSet d => print_set_data d
  end.

(** ** multi_op *)

Abbreviation multi_op := (list op).

Definition multi_op_at (ops : multi_op) (idx : nat) : res op :=
  match ops !! idx with
  | Some o => Ok o
  | None => Throw (OutOfRange "vector::_M_range_check")
  end.

Definition print_multi_op (self : multi_op) : str := "[" ++ join ", " (print_op <$> self) ++ "]".

(** ** multi_result *)

(** [std::variant<std::monostate, create_result, set_result>] *)
Inductive any_result :=
| NoResult
| ACreate (r : create_result)
| ASet (r : set_result).

Record part := Part { part_type : op_type; part_storage : any_result }.

#[global] Instance any_result_eq_dec : EqDecision any_result.
Proof. solve_decision. Defined.
#[global] Instance part_eq_dec : EqDecision part.
Proof. solve_decision. Defined.

Abbreviation multi_result := (list part).

Definition part_of_type (t : op_type) : part := Part t NoResult.
Definition part_of_create (r : create_result) : part := Part op_create (ACreate r).
Definition part_of_set (r : set_result) : part := Part op_set (ASet r).

Definition part_as {T} (operation : str) (get : any_result -> option T) (p : part) : res T :=
  match get (part_storage p) with
  | Some d => Ok d
  | None => Throw (LogicError ("Invalid op type for multi_result::" ++ operation ++ ": "
                               ++ print_op_type (part_type p)))
  end.

Definition part_as_create : part -> res create_result :=
  part_as "as_create" (fun s => match s with ACreate r => Some r | _ => None end).
Definition part_as_set : part -> res set_result :=
  part_as "as_set" (fun s => match s with ASet r => Some r | _ => None end).

(** Printing dispatches on the type and uses the throwing accessors. *)
Definition print_part (self : part) : res str :=
  match part_type self with
  | op_create => r <-! part_as_create self; Ok (print_create_result r)
  | op_set => r <-! part_as_set self; Ok (print_set_result r)
  | t => Ok (print_op_type t ++ "_result{}")
  end.

(** [operator<<(os, multi_result)]: the loop with a [first] flag, where printing
    a part may throw. *)
Fixpoint print_parts_loop (first : bool) (os : str) (ps : multi_result) : res str :=
  match ps with
  | [] => Ok (os ++ "]")
  | p :: rest => x <-! print_part p;
                 print_parts_loop false ((if first then os else os ++ ", ") ++ x) rest
  end.

Definition print_multi_result (self : multi_result) : res str := print_parts_loop true "[" self.

(** A part whose storage is the one its type announces. The three constructors
    make such parts when [part(type, nullptr)] is used for check and erase. *)
Definition part_wf (p : part) : bool :=
  match part_type p, part_storage p with
  | op_create, ACreate _ | op_set, ASet _ | op_check, NoResult | op_erase, NoResult => true
  | _, _ => false
  end.
