(* ===== verification/ToString.v ===== *)
(** * ToString: text and hashes of values

    Every value type of the library has an [operator<<] (modelled where its type is), a
    [to_string] that prints into a fresh stream, and the IDs and ACL rules are keys of
    the hashed containers of the standard library. *)

From S2P Require Import Prelude Text Types Error ConnectionParams Acl Results Multi.
Local Open Scope Z_scope.

(** ** Streams *)

(** What was written to a stream; an [operator<<] may throw. *)
Abbreviation ostream := str.
Definition inserter (A : Type) : Type := ostream -> A -> res ostream.

(** The insertion of a value whose printer does not throw. *)
Definition inserts {A} (print : A -> str) : inserter A := fun os x => Ok (os ++ print x).

(** [to_string] and [to_string_generic]: print into a new stream, return its contents. *)
Definition to_string {A} (put : inserter A) (x : A) : res str := put [] x.

Definition event_type_to_string : Z -> res str := to_string (inserts print_event_type).
Definition version_to_string : version -> res str := to_string (inserts print_version).
Definition acl_version_to_string : acl_version -> res str := to_string (inserts print_acl_version).
Definition child_version_to_string : child_version -> res str := to_string (inserts print_child_version).
Definition transaction_id_to_string : transaction_id -> res str :=
  to_string (inserts print_transaction_id).
Definition stat_to_string : stat -> res str := to_string (inserts print_stat).
Definition state_to_string : Z -> res str := to_string (inserts print_state).
Definition create_mode_to_string : Z -> res str := to_string (inserts print_create_mode).
Definition error_code_to_string : Z -> res str := to_string (inserts print_error_code).
Definition permission_to_string : Z -> res str := to_string (inserts print_permission).
Definition acl_rule_to_string : acl_rule -> res str := to_string (inserts print_acl_rule).
Definition acl_to_string : acl -> res str := to_string (inserts print_acl).
Definition connection_params_to_string : connection_params -> res str := to_string (inserts print_params).

Definition get_result_to_string : get_result -> res str := to_string (inserts print_get_result).
Definition get_children_result_to_string : get_children_result -> res str :=
  to_string (inserts print_get_children_result).
Definition exists_result_to_string : exists_result -> res str := to_string (inserts print_exists_result).
Definition create_result_to_string : create_result -> res str := to_string (inserts print_create_result).
Definition set_result_to_string : set_result -> res str := to_string (inserts print_set_result).
Definition get_acl_result_to_string : get_acl_result -> res str := to_string (inserts print_get_acl_result).
Definition event_to_string : event -> res str := to_string (inserts print_event).
Definition watch_result_to_string : watch_result -> res str := to_string (inserts print_watch_result).
Definition watch_children_result_to_string : watch_children_result -> res str :=
  to_string (inserts print_watch_children_result).
Definition watch_exists_result_to_string : watch_exists_result -> res str :=
  to_string (inserts print_watch_exists_result).

Definition op_type_to_string : op_type -> res str := to_string (inserts print_op_type).
Definition op_to_string : op -> res str := to_string (inserts print_op).

(** The parts of a result are printed with the checked accessors. *)
Definition put_part : inserter part := fun os p => x <-! print_part p; Ok (os ++ x).
Definition put_multi_result : inserter multi_result := fun os r => x <-! print_multi_result r; Ok (os ++ x).
Definition part_to_string : part -> res str := to_string put_part.
Definition multi_result_to_string : multi_result -> res str := to_string put_multi_result.

(** ** Hashes *)

(** What the hashed containers want of a key: an equality and a hash that respects it. *)
Class StdHash (A : Type) := {
  key_eqb : A -> A -> bool;
  std_hash : A -> Z;
  std_hash_eq a b : key_eqb a b = true -> std_hash a = std_hash b;
}.

Section hashes.
(** [std::hash] of the standard library at the representations. *)
Context (hash_int32 hash_size hash_uint : Z -> Z) (hash_string : str -> Z).

Lemma sid_hash_eq {tag} f (a b : strong_id tag) : sid_eqb a b = true -> sid_hash f a = sid_hash f b.
Proof. apply (sid_comparisons f a b). Qed.

Lemma acl_rule_hash_eq a b :
  acl_rule_eqb a b = true -> acl_rule_hash hash_string hash_uint a = acl_rule_hash hash_string hash_uint b.
Proof. intros H. assert (a = b) as ->; [|done]. by apply acl_rule_eqb_eq. Qed.

#[export] Instance hash_version : StdHash version :=
  { key_eqb := sid_eqb; std_hash := sid_hash hash_int32; std_hash_eq := sid_hash_eq hash_int32 }.
#[export] Instance hash_acl_version : StdHash acl_version :=
  { key_eqb := sid_eqb; std_hash := sid_hash hash_int32; std_hash_eq := sid_hash_eq hash_int32 }.
#[export] Instance hash_child_version : StdHash child_version :=
  { key_eqb := sid_eqb; std_hash := sid_hash hash_int32; std_hash_eq := sid_hash_eq hash_int32 }.
#[export] Instance hash_transaction_id : StdHash transaction_id :=
  { key_eqb := sid_eqb; std_hash := sid_hash hash_size; std_hash_eq := sid_hash_eq hash_size }.
#[export] Instance hash_acl_rule : StdHash acl_rule :=
  { key_eqb := acl_rule_eqb; std_hash := acl_rule_hash hash_string hash_uint;
    std_hash_eq := acl_rule_hash_eq }.
End hashes.

(** ** Telling values apart *)

Lemma print_int_inj m n : print_int m = print_int n -> m = n.
Proof.
  assert (forall k s, 0 <= k -> print_uint k <> "-"%char :: s) as Hsign.
  { intros k s Hk H. pose proof (print_uint_digits k Hk) as Hd. rewrite H in Hd.
    by apply Forall_cons in Hd as [? _]. }
  unfold print_int. destruct (Z.ltb_spec m 0), (Z.ltb_spec n 0); intros E.
  - injection E as E. apply print_uint_inj in E; lia.
  - by apply eq_sym, Hsign in E.
  - by apply Hsign in E.
  - by apply print_uint_inj in E.
Qed.

(** A [switch] that gives each named value its own text, and every other value a text that
    identifies it and is no name. *)
Lemma switch_inj (cases : list (Z * str)) (d : Z -> str) a b :
  NoDup cases.*2 -> (forall v z, v ∈ cases.*2 -> v <> d z) -> (forall y z, d y = d z -> y = z) ->
  switch a cases (d a) = switch b cases (d b) -> a = b.
Proof.
  intros Hnd Hne Hd.
  destruct (switch_cases a cases (d a)) as [(v & Hv & ->)|[Ha ->]],
    (switch_cases b cases (d b)) as [(w & Hw & ->)|[Hb ->]]; intros E.
  - subst w. apply list_elem_of_lookup in Hv as [i Hi], Hw as [j Hj].
    assert (i = j) as ->; [|congruence].
    eapply NoDup_lookup; [exact Hnd|..]; rewrite list_lookup_fmap; [by rewrite Hi|by rewrite Hj].
  - apply (list_elem_of_fmap_2 snd) in Hv. by apply Hne in E.
  - apply (list_elem_of_fmap_2 snd) in Hw. by apply eq_sym, Hne in E.
  - by apply Hd.
Qed.

(** The default text of the enumerations. *)
Lemma switch_print_inj (cases : list (Z * str)) pre a b :
  NoDup cases.*2 -> Forall (fun v => starts_with pre v = false) cases.*2 ->
  switch a cases (pre ++ print_int a ++ ")") = switch b cases (pre ++ print_int b ++ ")") -> a = b.
Proof.
  intros Hnd Hpre. apply (switch_inj cases (fun z => pre ++ print_int z ++ ")")); [done|..].
  - intros v z Hin E. rewrite Forall_forall in Hpre. specialize (Hpre _ Hin).
    by rewrite E, starts_with_app in Hpre.
  - intros y z E%app_inv_head%app_inv_tail. by apply print_int_inj.
Qed.

Lemma basic_version_inj {tag} name (v w : strong_id tag) :
  print_basic_version name v = print_basic_version name w -> v = w.
Proof.
  destruct v as [a], w as [b]. intros E. f_equal. unfold print_basic_version in E.
  apply app_inv_head, app_inv_head, app_inv_tail in E. unfold sid_eqb in E. cbn in E.
  apply (switch_inj [(-1, "any"); (-42, "invalid")] print_int); [vm_decide| |apply print_int_inj|exact E].
  intros s z Hs Es. assert (exists c t, print_int z = c :: t /\ (is_digit c = true \/ c = "-"%char)) as (c & t & Ez & Hc).
  { unfold print_int. destruct (Z.ltb_spec z 0); [by eauto|].
    destruct (print_uint_head z) as (c & t & -> & ?); eauto. }
  rewrite Ez in Es. subst s. cbn in Hs. set_unfold in Hs.
  destruct Hs as [[= -> _]|[[= -> _]|[]]]; by destruct Hc.
Qed.

(** A text of two fields is read from the left: the first ends at its first [c]. *)
Lemma field_inj (c : ascii) (a a' b b' : str) :
  c ∉ a -> c ∉ a' -> a ++ c :: b = a' ++ c :: b' -> a = a' /\ b = b'.
Proof.
  revert a'. induction a as [|x a IH]; intros [|x' a'] Ha Ha' E; cbn in E.
  - by injection E.
  - injection E as -> _. set_solver.
  - injection E as -> _. set_solver.
  - injection E as -> E. destruct (IH a') as [-> ->]; set_solver.
Qed.

Lemma print_int_no_space z : " "%char ∉ print_int z.
Proof.
  assert (forall k, 0 <= k -> " "%char ∉ print_uint k) as Hk.
  { intros k Hk Hin. pose proof (print_uint_digits k Hk) as Hd. rewrite Forall_forall in Hd.
    by apply Hd in Hin. }
  unfold print_int. destruct (Z.ltb_spec z 0); [|by apply Hk].
  rewrite not_elem_of_cons. split; [done|]. apply Hk. lia.
Qed.

Lemma event_type_no_space z : " "%char ∉ print_event_type z.
Proof.
  unfold print_event_type.
  match goal with |- _ ∉ switch z ?c ?d => destruct (switch_cases z c d) as [(v & Hv & ->)|[_ ->]] end.
  - apply (list_elem_of_fmap_2 snd) in Hv. cbn in Hv. set_unfold in Hv.
    repeat (destruct Hv as [->|Hv]); [..|done]; vm_decide.
  - rewrite !not_elem_of_app. split_and!; [vm_decide|apply print_int_no_space|vm_decide].
Qed.

Lemma event_type_inj a b : print_event_type a = print_event_type b -> a = b.
Proof. apply switch_print_inj; [vm_decide|]. repeat constructor. Qed.

Lemma state_inj a b : print_state a = print_state b -> a = b.
Proof. apply switch_print_inj; [vm_decide|]. repeat constructor. Qed.

Lemma event_inj a b : print_event a = print_event b -> a = b.
Proof.
  destruct a as [ta sa], b as [tb sb]. unfold print_event. intros E%app_inv_head. cbn in E.
  apply field_inj in E as [E1 E2]; [|apply event_type_no_space..].
  injection E2 as E2. apply app_inv_tail in E2. by rewrite (event_type_inj _ _ E1), (state_inj _ _ E2).
Qed.

(** The sets of flags. *)
Lemma create_mode_inj a b : 0 <= a < 8 -> 0 <= b < 8 -> print_create_mode a = print_create_mode b -> a = b.
Proof.
  intros Ha Hb E. assert (NoDup (print_create_mode <$> seqZ 0 8)) as Hnd by vm_decide.
  rewrite NoDup_alt in Hnd.
  assert (Z.to_nat a = Z.to_nat b); [|lia].
  apply (Hnd _ _ (print_create_mode b)); rewrite list_lookup_fmap, lookup_seqZ_lt by lia;
    rewrite Z2Nat.id, Z.add_0_l by lia; [by rewrite <- E|done].
Qed.

Lemma to_string_print {A} (print : A -> str) x y :
  to_string (inserts print) x = to_string (inserts print) y -> print x = print y.
Proof. unfold to_string, inserts. cbn. congruence. Qed.

(** A part has the result its type announces. *)
Definition has_result (p : part) : bool :=
  match part_type p, part_storage p with
  | op_create, ACreate _ | op_set, ASet _ => true
  | op_create, _ | op_set, _ => false
  | _, _ => true
  end.

Lemma print_part_ok p : (exists s, print_part p = Ok s) <-> has_result p = true.
Proof. destruct p as [[] []]; cbn; split; try done; eauto; by intros [? ?]. Qed.

Lemma print_parts_ok first os ps :
  (exists s, print_parts_loop first os ps = Ok s) <-> forallb has_result ps = true.
Proof.
  revert first os. induction ps as [|p ps IH]; intros first os; cbn; [split; eauto|].
  rewrite andb_true_iff, <- print_part_ok. destruct (print_part p) as [s|e]; cbn.
  - rewrite IH. naive_solver.
  - split; [by intros [? ?]|]. by intros [[? ?] _].
Qed.

(** ** Properties *)

(** The text of an ID, an enumeration, a set of flags or an event identifies it: two
    versions, transaction IDs, event types, states, error codes, operation types or events
    with the same [to_string] are equal, the named values and the numbers printed for the
    others included, and so are two sets of defined permissions or creation flags; the
    three kinds of version are never mixed up. [to_string] of the result of a transaction
    throws exactly if some part lacks the result its type announces. *)
Theorem to_string_identifies :
  (forall v w, version_to_string v = version_to_string w -> v = w) /\
  (forall v w, acl_version_to_string v = acl_version_to_string w -> v = w) /\
  (forall v w, child_version_to_string v = child_version_to_string w -> v = w) /\
  (forall v w u, version_to_string v <> acl_version_to_string w /\
     version_to_string v <> child_version_to_string u /\
     acl_version_to_string w <> child_version_to_string u) /\
  (forall v w, 0 <= sid_value v -> 0 <= sid_value w ->
     transaction_id_to_string v = transaction_id_to_string w -> v = w) /\
  (forall a b, event_type_to_string a = event_type_to_string b -> a = b) /\
  (forall a b, state_to_string a = state_to_string b -> a = b) /\
  (forall a b, error_code_to_string a = error_code_to_string b -> a = b) /\
  (forall a b, op_type_to_string a = op_type_to_string b -> a = b) /\
  (forall a b, event_to_string a = event_to_string b -> a = b) /\
  (forall a b, 0 <= a < 8 -> 0 <= b < 8 -> create_mode_to_string a = create_mode_to_string b -> a = b) /\
  (forall a b, 0 <= a <= permission.all -> 0 <= b <= permission.all ->
     permission_to_string a = permission_to_string b -> a = b) /\
  (forall r, (exists s, multi_result_to_string r = Ok s) <-> forallb has_result r = true).
Proof.
  split_and!.
  - intros v w E%to_string_print. by apply basic_version_inj in E.
  - intros v w E%to_string_print. by apply basic_version_inj in E.
  - intros v w E%to_string_print. by apply basic_version_inj in E.
  - intros v w u. split_and!; discriminate.
  - intros [v] [w] Hv Hw E%to_string_print. apply app_inv_head, app_inv_tail, print_uint_inj in E;
      [by cbn in E; subst|done|done].
  - intros a b E%to_string_print. by apply event_type_inj.
  - intros a b E%to_string_print. by apply state_inj.
  - intros a b E%to_string_print. revert E. apply switch_print_inj; [vm_decide|]. repeat constructor.
  - intros [] []; done.
  - intros a b E%to_string_print. by apply event_inj.
  - intros a b Ha Hb E%to_string_print. by apply create_mode_inj.
  - intros a b Ha Hb E%to_string_print. by apply print_permission_inj.
  - intros r. rewrite <- (print_parts_ok true "["). unfold multi_result_to_string, to_string, put_multi_result.
    unfold print_multi_result. destruct (print_parts_loop true "[" r); cbn; naive_solver.
Qed.
