(* ===== verification/Configuration.v ===== *)
(** * Configuration: src/zk/server/configuration.hpp and configuration.cpp

    A server configuration keeps the lines of its file and, for every setting, the
    parsed value with the line it came from; setters edit the line in place, so
    comments and unknown settings survive a load/modify/save cycle.

    [setting::line] is a [size_t] whose value [not_a_line] (all ones) stands for no
    line; no vector has that many elements, so it is [None] here and a line number
    [n] is [Some n]. [_lines[n]] with [n] out of range is undefined ([MUndef]). *)

From S2P Require Import Prelude Text OrdMap Error.
Local Open Scope Z_scope.

(** ** server_id *)

(** [server_id::ensure_valid] *)
Definition ensure_valid (value : Z) : res unit :=
  if (0 <? value) && (value <? 256) then Ok tt
  else Throw (OutOfRange
    ("Server ID value " ++ print_uint value ++ " is not in the valid range [1 .. 255]")).

(** The constructor of [server_id]. *)
Definition make_server_id (value : Z) : res Z := 
  result_bind (ensure_valid value) (fun _ => Ok value).

(** ** Data *)

Record setting (T : Type) := Setting { s_value : option T; s_line : option nat }.
Arguments Setting {T} s_value s_line.
Arguments s_value {T} s.
Arguments s_line {T} s.

Definition no_setting {T} : setting T := Setting None None.

Abbreviation word_set := (list (str * unit)).

Record configuration := Configuration {
  source_file : option str;
  lines : list str;
  client_port_ : setting Z;
  data_directory_ : setting str;
  tick_time_ : setting Z;
  init_limit_ : setting Z;
  sync_limit_ : setting Z;
  leader_serves_ : setting bool;
  four_letter_word_whitelist_ : setting word_set;
  server_paths : list (Z * setting str);
  unknown_settings_ : list (str * setting str);
}.

Definition default_client_port : Z := 2181.
Definition default_peer_port : Z := 2888.
Definition default_leader_port : Z := 3888.
Definition default_tick_time : Z := 2000.
Definition default_init_limit : Z := 10.
Definition default_sync_limit : Z := 5.
Definition default_four_letter_word_whitelist : word_set := os_of_list ["srvr" : str].
Definition all_four_letter_word_whitelist : word_set := os_of_list ["*" : str].

(** [configuration::configuration()] *)
Definition empty_configuration : configuration :=
  Configuration None [] no_setting no_setting no_setting no_setting no_setting no_setting
    no_setting [] [].

Definition with_source_file (f : option str) (c : configuration) : configuration :=
  let '(Configuration _ ls cp dd tk il sl sv wl sp us) := c in
  Configuration f ls cp dd tk il sl sv wl sp us.
Definition with_lines (ls : list str) (c : configuration) : configuration :=
  let '(Configuration f _ cp dd tk il sl sv wl sp us) := c in
  Configuration f ls cp dd tk il sl sv wl sp us.
Definition with_client_port (s : setting Z) (c : configuration) : configuration :=
  let '(Configuration f ls _ dd tk il sl sv wl sp us) := c in
  Configuration f ls s dd tk il sl sv wl sp us.
Definition with_data_directory (s : setting str) (c : configuration) : configuration :=
  let '(Configuration f ls cp _ tk il sl sv wl sp us) := c in
  Configuration f ls cp s tk il sl sv wl sp us.
Definition with_tick_time (s : setting Z) (c : configuration) : configuration :=
  let '(Configuration f ls cp dd _ il sl sv wl sp us) := c in
  Configuration f ls cp dd s il sl sv wl sp us.
Definition with_init_limit (s : setting Z) (c : configuration) : configuration :=
  let '(Configuration f ls cp dd tk _ sl sv wl sp us) := c in
  Configuration f ls cp dd tk s sl sv wl sp us.
Definition with_sync_limit (s : setting Z) (c : configuration) : configuration :=
  let '(Configuration f ls cp dd tk il _ sv wl sp us) := c in
  Configuration f ls cp dd tk il s sv wl sp us.
Definition with_leader_serves (s : setting bool) (c : configuration) : configuration :=
  let '(Configuration f ls cp dd tk il sl _ wl sp us) := c in
  Configuration f ls cp dd tk il sl s wl sp us.
Definition with_whitelist (s : setting word_set) (c : configuration) : configuration :=
  let '(Configuration f ls cp dd tk il sl sv _ sp us) := c in
  Configuration f ls cp dd tk il sl sv s sp us.
Definition with_server_paths (m : list (Z * setting str)) (c : configuration) : configuration :=
  let '(Configuration f ls cp dd tk il sl sv wl _ us) := c in
  Configuration f ls cp dd tk il sl sv wl m us.
Definition with_unknown (m : list (str * setting str)) (c : configuration) : configuration :=
  let '(Configuration f ls cp dd tk il sl sv wl sp _) := c in
  Configuration f ls cp dd tk il sl sv wl sp m.

(** ** Loading *)

(** [while (!sub.empty() && isspace(sub.back())) sub.remove_suffix(1)], after the
    same loop at the front. *)
Definition trim (sub : str) : str := rev (drop_spaces (rev (drop_spaces sub))).

(** Every round removes at least one character from [source], so its length is
    enough fuel. *)
Fixpoint parse_whitelist_loop (fuel : nat) (source : str) (out : word_set) : word_set :=
  match fuel with
  | O => out
  | S f =>
      match source with
      | [] => out
      | _ =>
          let '(sub, rest) := break_at (Ascii.eqb ",") source in
          match sub with
          | [] => parse_whitelist_loop f (tail source) out
          | _ => parse_whitelist_loop f rest (os_insert (trim sub) out)
          end
      end
  end.

Definition parse_whitelist (source : str) : word_set :=
  parse_whitelist_loop (length source) source [].

Definition space_or_hash (c : ascii) : bool := Ascii.eqb c " " || Ascii.eqb c "#".

(** [std::regex_match] with the pattern [^([^=]+)=([^ #]+)[ #]*$]. The name cannot
    contain the separator and the data cannot contain what follows it, so there is
    at most one way to match. *)
Definition match_line (line : str) : option (str * str) :=
  let '(name, rest) := break_at (Ascii.eqb "=") line in
  match name, rest with
  | _ :: _, _ :: after =>
      let '(data, trailing) := break_at space_or_hash after in
      match data with
      | _ :: _ => if forallb space_or_hash trailing then Some (name, data) else None
      | [] => None
      end
  | _, _ => None
  end.

(** One round of the loop of [from_lines]. *)
Definition load_line (line_no : nat) (line : str) (out : configuration) : res configuration :=
  match line with
  | [] => Ok out
  | c :: _ =>
      if Ascii.eqb c "#" then Ok out
      else
        match match_line line with
        | None => Ok out
        | Some (name, data) =>
            if str_eqb name "clientPort"
            then Ok (with_client_port (Setting (Some (u16 (atoi data))) (Some line_no)) out)
            else if str_eqb name "dataDir"
            then Ok (with_data_directory (Setting (Some data) (Some line_no)) out)
            else if str_eqb name "tickTime"
            then Ok (with_tick_time (Setting (Some (atol data)) (Some line_no)) out)
            else if str_eqb name "initLimit"
            then Ok (with_init_limit (Setting (Some (u64 (atol data))) (Some line_no)) out)
            else if str_eqb name "syncLimit"
            then Ok (with_sync_limit (Setting (Some (u64 (atol data))) (Some line_no)) out)
            else if str_eqb name "leaderServes"
            then Ok (with_leader_serves (Setting (Some (str_eqb data "yes")) (Some line_no)) out)
            else if str_eqb name "4lw.commands.whitelist"
            then Ok (with_whitelist (Setting (Some (parse_whitelist data)) (Some line_no)) out)
            else if starts_with "server." name
            then
              id <-! make_server_id (u64 (atol (drop 7 name))) ;
              Ok (with_server_paths
                    (om_insert id (Setting (Some data) (Some line_no)) (server_paths out)) out)
            else
              Ok (with_unknown
                    (om_insert name (Setting (Some data) (Some line_no)) (unknown_settings_ out)) out)
        end
  end.

Fixpoint load_lines (line_no : nat) (ls : list str) (out : configuration) : res configuration :=
  match ls with
  | [] => Ok out
  | line :: rest => out' <-! load_line line_no line out ; load_lines (S line_no) rest out'
  end.

Definition from_lines (ls : list str) : res configuration :=
  out <-! load_lines 0 ls empty_configuration ;
  Ok (with_lines ls out).

(** A stream whose content is [content]; [eof] is what [stream.eof()] returns after
    the loop: false when reading stopped for another reason, as with a file that
    could not be opened. *)
Definition from_stream (content : str) (eof : bool) : res configuration :=
  if eof then from_lines (getlines content)
  else Throw (RuntimeError "Loading configuration did not reach EOF").

(** [read filename]: the content, or [None] if the stream fails. *)
Definition from_file (read : str -> option str) (filename : str) : res configuration :=
  out <-! (match read filename with
           | Some content => from_stream content true
           | None => from_stream [] false
           end) ;
  Ok (with_source_file (Some filename) out).

Definition from_string (value : str) : res configuration := from_stream value true.

(** ** Saving *)

Definition save (c : configuration) : str := unlines (lines c).

(** [save_file]: [written] is the state of the stream after writing. The file gets
    the text [save] writes. *)
Definition save_file (filename : str) (written : bool) (c : configuration)
    : res configuration :=
  if written then Ok (with_source_file (Some filename) c)
  else Throw (RuntimeError "Error saving file").

(** ** Settings *)

(** [configuration::set]: the new value of the target and the new lines. *)
Definition set {T} (target : setting T) (value : option T) (key : str) (encode : T -> str)
    (ls : list str) : mres (setting T * list str) :=
  let target_line := match value with Some v => key ++ "=" ++ encode v | None => [] end in
  match s_line target, value with
  | None, Some _ => MOk (Setting value (Some (length ls)), ls ++ [target_line])
  | None, None => MOk (target, ls)
  | Some l, _ => if decide (l < length ls)%nat
                 then MOk (Setting value (Some l), <[l := target_line]> ls)
                 else MUndef
  end.

Definition value_or {A} (o : option A) (d : A) : A := match o with Some a => a | None => d end.

Definition client_port (c : configuration) : Z :=
  value_or (s_value (client_port_ c)) default_client_port.
Definition set_client_port (port : option Z) (c : configuration) : mres configuration :=
  r <-? set (client_port_ c) port "clientPort" print_uint (lines c) ;
  MOk (with_lines r.2 (with_client_port r.1 c)).

Definition data_directory (c : configuration) : option str := s_value (data_directory_ c).
Definition set_data_directory (path : option str) (c : configuration) : mres configuration :=
  r <-? set (data_directory_ c) path "dataDir" id (lines c) ;
  MOk (with_lines r.2 (with_data_directory r.1 c)).

Definition tick_time (c : configuration) : Z := value_or (s_value (tick_time_ c)) default_tick_time.
Definition set_tick_time (time : option Z) (c : configuration) : mres configuration :=
  r <-? set (tick_time_ c) time "tickTime" print_int (lines c) ;
  MOk (with_lines r.2 (with_tick_time r.1 c)).

Definition init_limit (c : configuration) : Z :=
  value_or (s_value (init_limit_ c)) default_init_limit.
Definition set_init_limit (limit : option Z) (c : configuration) : mres configuration :=
  r <-? set (init_limit_ c) limit "initLimit" print_uint (lines c) ;
  MOk (with_lines r.2 (with_init_limit r.1 c)).

Definition sync_limit (c : configuration) : Z :=
  value_or (s_value (sync_limit_ c)) default_sync_limit.
Definition set_sync_limit (limit : option Z) (c : configuration) : mres configuration :=
  r <-? set (sync_limit_ c) limit "syncLimit" print_uint (lines c) ;
  MOk (with_lines r.2 (with_sync_limit r.1 c)).

Definition leader_serves (c : configuration) : bool := value_or (s_value (leader_serves_ c)) true.
Definition encode_bool (x : bool) : str := if x then "yes" else "no".
Definition set_leader_serves (serve : option bool) (c : configuration) : mres configuration :=
  r <-? set (leader_serves_ c) serve "leaderServes" encode_bool (lines c) ;
  MOk (with_lines r.2 (with_leader_serves r.1 c)).

Definition four_letter_word_whitelist (c : configuration) : word_set :=
  value_or (s_value (four_letter_word_whitelist_ c)) default_four_letter_word_whitelist.
Definition encode_words (words : word_set) : str := join "," words.*1.
Definition set_four_letter_word_whitelist (words : option word_set) (c : configuration)
    : mres configuration :=
  if (match words with
      | Some ws => (1 <? Z.of_nat (length ws)) && bool_decide (is_Some (om_find ("*" : str) ws))
      | None => false
      end)
  then MThrow (InvalidArgument [])
  else
    r <-? set (four_letter_word_whitelist_ c) words "4lw.commands.whitelist" encode_words (lines c) ;
    MOk (with_lines r.2 (with_whitelist r.1 c)).

(** [*entry.second.value] of an empty optional is undefined. *)
Fixpoint deref_values {K} (m : list (K * setting str)) : mres (list (K * str)) :=
  match m with
  | [] => MOk []
  | (k, s) :: rest =>
      match s_value s with
      | Some v => r <-? deref_values rest ; MOk ((k, v) :: r)
      | None => MUndef
      end
  end.

Definition servers (c : configuration) : mres (list (Z * str)) := deref_values (server_paths c).
Definition unknown_settings (c : configuration) : mres (list (str * str)) :=
  deref_values (unknown_settings_ c).

Definition lift_res {A} (r : res A) : mres A :=
  match r with Ok a => MOk a | Throw e => MThrow e end.

Definition add_server (id : Z) (hostname : str) (peer_port leader_port : Z) (c : configuration)
    : mres configuration :=
  _u <-? lift_res (ensure_valid id) ;
  match om_find id (server_paths c) with
  | Some _ => MThrow (RuntimeError ("Already a server with ID " ++ print_uint id))
  | None =>
      let hostname := hostname ++ ":" ++ print_uint peer_port ++ ":" ++ print_uint leader_port in
      r <-? set no_setting (Some hostname) ("server." ++ print_uint id) (@Datatypes.id str) (lines c) ;
      MOk (with_lines r.2 (with_server_paths (om_insert id r.1 (server_paths c)) c))
  end.

Definition add_setting (key value : str) (c : configuration) : res configuration :=
  c' <-! from_lines (lines c ++ [key ++ "=" ++ value]) ;
  Ok (with_source_file (source_file c) c').

Definition make_minimal (data_directory : str) (client_port : Z) : mres configuration :=
  c <-? set_data_directory (Some data_directory) empty_configuration ;
  c <-? set_client_port (Some client_port) c ;
  c <-? set_init_limit (Some default_init_limit) c ;
  set_sync_limit (Some default_sync_limit) c.

Definition is_minimal (c : configuration) : bool :=
  bool_decide (is_Some (data_directory c)) && bool_decide (is_Some (s_value (client_port_ c))) &&
  bool_decide (is_Some (s_value (init_limit_ c))) && (init_limit c =? default_init_limit) &&
  bool_decide (is_Some (s_value (sync_limit_ c))) && (sync_limit c =? default_sync_limit) &&
  (Z.of_nat (length (lines c)) =? 4).

(** [same_items] over two maps of the same size. *)
Fixpoint same_items {K} `{EqDecision K} (a b : list (K * setting str)) : bool :=
  match a, b with
  | [], [] => true
  | (k, s) :: a', (k', s') :: b' =>
      bool_decide (k = k') && bool_decide (s_value s = s_value s') && same_items a' b'
  | _, _ => false
  end.

Definition configuration_eqb (lhs rhs : configuration) : bool :=
  (client_port lhs =? client_port rhs) &&
  bool_decide (data_directory lhs = data_directory rhs) &&
  (tick_time lhs =? tick_time rhs) && (init_limit lhs =? init_limit rhs) &&
  (sync_limit lhs =? sync_limit rhs) && Bool.eqb (leader_serves lhs) (leader_serves rhs) &&
  bool_decide (four_letter_word_whitelist lhs = four_letter_word_whitelist rhs) &&
  same_items (server_paths lhs) (server_paths rhs) &&
  same_items (unknown_settings_ lhs) (unknown_settings_ rhs).

Definition configuration_neb (lhs rhs : configuration) : bool := negb (configuration_eqb lhs rhs).
