(* ===== verification/ConfigurationSpec.v ===== *)
(** * ConfigurationSpec: what a configuration promises

    The abstract view of a configuration: a function from keys to settings
    ([view]), and what a list of lines says about each key ([spec_view]): the last
    matching line for the named settings, the first one for servers and unknown
    settings. Loading computes the second; the setters keep the first in step with
    the lines they edit; so saving and loading again gives an equal configuration. *)

From S2P Require Import Prelude Text OrdMap Error Configuration.
Local Open Scope Z_scope.

(** ** Keys and values *)

Inductive skey :=
| KClientPort | KDataDir | KTickTime | KInitLimit | KSyncLimit | KLeaderServes | KWhitelist
| KServer (id : Z)
| KUnknown (name : str).

Inductive dval := DNum (z : Z) | DStr (s : str) | DBool (b : bool) | DWords (ws : word_set).

#[global] Instance skey_eq_dec : EqDecision skey.
Proof. solve_decision. Defined.
#[global] Instance dval_eq_dec : EqDecision dval.
Proof. solve_decision. Defined.

Definition classify (name : str) : skey :=
  if str_eqb name "clientPort" then KClientPort
  else if str_eqb name "dataDir" then KDataDir
  else if str_eqb name "tickTime" then KTickTime
  else if str_eqb name "initLimit" then KInitLimit
  else if str_eqb name "syncLimit" then KSyncLimit
  else if str_eqb name "leaderServes" then KLeaderServes
  else if str_eqb name "4lw.commands.whitelist" then KWhitelist
  else if starts_with "server." name then KServer (u64 (atol (drop 7 name)))
  else KUnknown name.

Definition decode (k : skey) (data : str) : dval :=
  match k with
  | KClientPort => DNum (u16 (atoi data))
  | KTickTime => DNum (atol data)
  | KInitLimit | KSyncLimit => DNum (u64 (atol data))
  | KLeaderServes => DBool (str_eqb data "yes")
  | KWhitelist => DWords (parse_whitelist data)
  | KDataDir | KServer _ | KUnknown _ => DStr data
  end.

(** The named settings: a later line overrides an earlier one. *)
Definition named (k : skey) : bool :=
  match k with KServer _ | KUnknown _ => false | _ => true end.

Definition valid_id (id : Z) : bool := (0 <? id) && (id <? 256).

Definition valid_key (k : skey) : bool :=
  match k with KServer id => valid_id id | _ => true end.

(** ** The view *)

Definition map_setting {A B} (f : A -> B) (s : setting A) : setting B :=
  Setting (f <$> s_value s) (s_line s).

Definition found {K} `{OrdKey K} (k : K) (m : list (K * setting str)) : setting dval :=
  match om_find k m with Some s => map_setting DStr s | None => no_setting end.

Definition view (c : configuration) (k : skey) : setting dval :=
  match k with
  | KClientPort => map_setting DNum (client_port_ c)
  | KDataDir => map_setting DStr (data_directory_ c)
  | KTickTime => map_setting DNum (tick_time_ c)
  | KInitLimit => map_setting DNum (init_limit_ c)
  | KSyncLimit => map_setting DNum (sync_limit_ c)
  | KLeaderServes => map_setting DBool (leader_serves_ c)
  | KWhitelist => map_setting DWords (four_letter_word_whitelist_ c)
  | KServer id => found id (server_paths c)
  | KUnknown name => found name (unknown_settings_ c)
  end.

(** ** What the lines say *)

Definition line_entry (line : str) : option (skey * str) :=
  match line with
  | [] => None
  | c :: _ => if Ascii.eqb c "#" then None
              else match match_line line with
                   | Some (name, data) => Some (classify name, data)
                   | None => None
                   end
  end.

Definition line_match (k : skey) (n : nat) (line : str) : list (nat * str) :=
  match line_entry line with
  | Some (k', d) => if decide (k' = k) then [(n, d)] else []
  | None => []
  end.

Fixpoint matches (k : skey) (n : nat) (ls : list str) : list (nat * str) :=
  match ls with
  | [] => []
  | l :: rest => line_match k n l ++ matches k (S n) rest
  end.

Definition pick (k : skey) (ms : list (nat * str)) : option (nat * str) :=
  if named k then last ms else head ms.

Definition setting_of (k : skey) (m : option (nat * str)) : setting dval :=
  match m with
  | Some (n, d) => Setting (Some (decode k d)) (Some n)
  | None => no_setting
  end.

Definition spec_view (ls : list str) (k : skey) : setting dval :=
  setting_of k (pick k (matches k 0 ls)).

(** Every [server.N] line has an ID in range. *)
Definition ids_valid (ls : list str) : Prop :=
  Forall (fun l => match line_entry l with Some (k, _) => valid_key k = true | None => True end) ls.

(** ** Invariants *)

(** The maps are ordered, their entries have values, and server IDs are valid. *)
Definition filled {K} (m : list (K * setting str)) : Prop :=
  Forall (fun kv => is_Some (s_value kv.2)) m.

Record maps_wf (c : configuration) : Prop := MapsWf {
  mw_servers : om_wf (server_paths c);
  mw_unknown : om_wf (unknown_settings_ c);
  mw_servers_filled : filled (server_paths c);
  mw_unknown_filled : filled (unknown_settings_ c);
  mw_ids : Forall (fun kv => valid_id kv.1 = true) (server_paths c);
}.

(** Every setting that has a line has it within the file and alone; a setting
    without a line has no value. *)
Record config_wf (c : configuration) : Prop := ConfigWf {
  cw_maps : maps_wf c;
  cw_range : forall k l, s_line (view c k) = Some l -> (l < length (lines c))%nat;
  cw_alone : forall k k' l, s_line (view c k) = Some l -> s_line (view c k') = Some l -> k = k';
  cw_no_line : forall k, s_line (view c k) = None -> s_value (view c k) = None;
}.

(** The setting agrees with what the lines say. *)
Definition entry_synced (ls : list str) (k : skey) (s : setting dval) : Prop :=
  s_value s = s_value (spec_view ls k) /\
  match s_value s with
  | Some _ => s_line s = s_line (spec_view ls k)
  | None => s_line s = None \/ exists l, s_line s = Some l /\ ls !! l = Some []
  end.

Record synced (c : configuration) : Prop := Synced {
  sy_wf : config_wf c;
  sy_ids : ids_valid (lines c);
  sy_entries : forall k, entry_synced (lines c) k (view c k);
}.

(** * Lemmas *)

(** ** Matching lines *)

Lemma matches_app k n a b : matches k n (a ++ b) = matches k n a ++ matches k (n + length a) b.
Proof.
  revert n; induction a as [|l a IH]; intros n; cbn.
  - by rewrite Nat.add_0_r.
  - rewrite IH, app_assoc. by rewrite Nat.add_succ_r.
Qed.

Lemma matches_index k n ls i d :
  (i, d) ∈ matches k n ls ->
  exists line, (n <= i)%nat /\ ls !! (i - n)%nat = Some line /\ line_entry line = Some (k, d).
Proof.
  revert n; induction ls as [|l ls IH]; intros n; cbn; [by intros []%elem_of_nil|].
  intros [Hin|Hin]%elem_of_app.
  - unfold line_match in Hin. destruct (line_entry l) as [[k' d']|] eqn:E; [|by apply elem_of_nil in Hin].
    destruct (decide (k' = k)) as [->|]; [|by apply elem_of_nil in Hin].
    apply list_elem_of_singleton in Hin as [= -> ->]. exists l.
    rewrite Nat.sub_diag. split_and!; [lia|done|done].
  - destruct (IH (S n) Hin) as (line & Hle & Hl & He). exists line.
    replace (i - n)%nat with (S (i - S n)) by lia. split_and!; [lia|done|done].
Qed.

Lemma matches_insert k ls l x t :
  ls !! l = Some x ->
  matches k 0 ls = matches k 0 (take l ls) ++ line_match k l x ++ matches k (S l) (drop (S l) ls) /\
  matches k 0 (<[l := t]> ls)
  = matches k 0 (take l ls) ++ line_match k l t ++ matches k (S l) (drop (S l) ls).
Proof.
  intros Hx. pose proof (lookup_lt_Some _ _ _ Hx) as Hl.
  assert (length (take l ls) = l) as Hlen by (rewrite length_take; lia).
  split.
  - rewrite <- (take_drop_middle ls l x Hx) at 1. rewrite matches_app, Hlen. done.
  - rewrite (insert_take_drop ls l t) by done. rewrite matches_app, Hlen. done.
Qed.

Lemma pick_in k ms m : pick k ms = Some m -> m ∈ ms.
Proof.
  unfold pick. destruct (named k); [apply last_Some_elem_of|].
  destruct ms; [done|]. intros [= ->]. left.
Qed.

Lemma pick_none k ms : pick k ms = None -> ms = [].
Proof.
  unfold pick. destruct (named k); [by rewrite last_None|by destruct ms].
Qed.

Lemma pick_single k m : pick k [m] = Some m.
Proof. unfold pick. by destruct (named k). Qed.

(** What [spec_view] says, line by line. *)
Lemma spec_view_line ls k l :
  s_line (spec_view ls k) = Some l ->
  exists line d, ls !! l = Some line /\ line_entry line = Some (k, d) /\
    pick k (matches k 0 ls) = Some (l, d) /\ s_value (spec_view ls k) = Some (decode k d).
Proof.
  unfold spec_view. destruct (pick k (matches k 0 ls)) as [[n d]|] eqn:E; cbn; [|done].
  intros [= ->]. destruct (matches_index k 0 ls l d (pick_in _ _ _ E)) as (line & _ & Hl & He).
  rewrite Nat.sub_0_r in Hl. eauto 10.
Qed.

Lemma spec_view_value ls k v :
  s_value (spec_view ls k) = Some v -> exists l, s_line (spec_view ls k) = Some l.
Proof. unfold spec_view. destruct (pick _ _) as [[n d]|]; cbn; [eauto|done]. Qed.

Lemma spec_view_none ls k : s_value (spec_view ls k) = None -> matches k 0 ls = [].
Proof.
  unfold spec_view. destruct (pick _ _) as [[n d]|] eqn:E; cbn; [done|].
  intros _. by apply pick_none in E.
Qed.

(** ** Loading *)

(** Recording the data of a line under its key. *)
Definition record_line (k : skey) (d : str) (n : nat) (c : configuration) : configuration :=
  let s := Setting (Some d) (Some n) in
  match k with
  | KClientPort => with_client_port (Setting (Some (u16 (atoi d))) (Some n)) c
  | KDataDir => with_data_directory s c
  | KTickTime => with_tick_time (Setting (Some (atol d)) (Some n)) c
  | KInitLimit => with_init_limit (Setting (Some (u64 (atol d))) (Some n)) c
  | KSyncLimit => with_sync_limit (Setting (Some (u64 (atol d))) (Some n)) c
  | KLeaderServes => with_leader_serves (Setting (Some (str_eqb d "yes")) (Some n)) c
  | KWhitelist => with_whitelist (Setting (Some (parse_whitelist d)) (Some n)) c
  | KServer id => with_server_paths (om_insert id s (server_paths c)) c
  | KUnknown name => with_unknown (om_insert name s (unknown_settings_ c)) c
  end.

Definition bad_id (k : skey) : exn :=
  OutOfRange ("Server ID value " ++ print_uint (match k with KServer id => id | _ => 0 end) ++
              " is not in the valid range [1 .. 255]").

Lemma load_line_entry n l c :
  load_line n l c =
    match line_entry l with
    | None => Ok c
    | Some (k, d) => if valid_key k then Ok (record_line k d n c) else Throw (bad_id k)
    end.
Proof.
  unfold load_line, line_entry. destruct l as [|x l]; [done|]. destruct (Ascii.eqb x "#"); [done|].
  destruct (match_line (x :: l)) as [[name data]|]; [|done]. unfold classify.
  repeat (destruct (str_eqb _ _); [done|]). destruct (starts_with _ _); [|done].
  unfold make_server_id, ensure_valid, valid_key, valid_id, bad_id. cbn [result_bind].
  by destruct ((0 <? _) && _).
Qed.

(** One line of [view] for a recorded line. *)
Definition absorb (k : skey) (d : str) (n : nat) (old : setting dval) : setting dval :=
  if named k || bool_decide (s_value old = None) then Setting (Some (decode k d)) (Some n) else old.

Lemma found_insert {K} `{OrdKey K} (k : K) d n (m : list (K * setting str)) :
  om_wf m -> filled m ->
  found k (om_insert k (Setting (Some d) (Some n)) m)
  = if bool_decide (s_value (found k m) = None)
    then Setting (Some (DStr d)) (Some n) else found k m.
Proof.
  intros Hwf Hf. unfold found. rewrite om_find_insert. destruct (om_find k m) as [s|] eqn:E; [|done].
  apply om_find_elem in E; [|done]. unfold filled in Hf. rewrite Forall_forall in Hf.
  destruct (Hf _ E) as [v Hv]. cbn in *. by rewrite Hv.
Qed.

Lemma found_insert_ne {K} `{OrdKey K} (k k' : K) s (m : list (K * setting str)) :
  k <> k' -> om_wf m -> found k' (om_insert k s m) = found k' m.
Proof. intros Hne Hwf. unfold found. by rewrite om_find_insert_ne. Qed.

Lemma view_record k d n c k' :
  maps_wf c ->
  view (record_line k d n c) k' = if decide (k = k') then absorb k d n (view c k) else view c k'.
Proof.
  intros [H1 H2 H3 H4 _].
  destruct (decide (k = k')) as [<-|Hne].
  - unfold absorb. destruct k, c; cbn in *; try done; by rewrite found_insert.
  - destruct k, k', c; cbn in *; try done; apply found_insert_ne; congruence || done.
Qed.

Lemma filled_insert {K} `{OrdKey K} (k : K) s m :
  is_Some (s_value s) -> filled m -> filled (om_insert k s m).
Proof.
  intros Hs. unfold filled. induction m as [|[k' s'] m IH]; cbn; intros Hm.
  - by repeat constructor.
  - apply Forall_cons in Hm as [Hk Hm]. repeat case_goal; repeat constructor; auto.
Qed.

Lemma ids_insert id (s : setting str) m :
  valid_id id = true -> Forall (fun kv => valid_id kv.1 = true) m ->
  Forall (fun kv => valid_id kv.1 = true) (om_insert id s m).
Proof.
  intros Hs. induction m as [|[k' s'] m IH]; cbn; intros Hm.
  - by repeat constructor.
  - apply Forall_cons in Hm as [Hk Hm]. repeat case_goal; repeat constructor; auto.
Qed.

#[export] Hint Resolve filled_insert ids_insert : zk.

Lemma maps_wf_record k d n c : maps_wf c -> valid_key k = true -> maps_wf (record_line k d n c).
Proof.
  intros [H1 H2 H3 H4 H5] Hk. destruct k, c; constructor; cbn in *; eauto with zk.
Qed.

(** The loop invariant of [from_lines] over the lines [pre] already read. *)
Record loaded (pre : list str) (c : configuration) : Prop := Loaded {
  ld_maps : maps_wf c;
  ld_file : source_file c = None;
  ld_view : forall k, view c k = spec_view pre k;
}.

Lemma spec_view_snoc pre l k :
  spec_view (pre ++ [l]) k =
    match line_entry l with
    | Some (k', d) => if decide (k' = k) then absorb k d (length pre) (spec_view pre k)
                      else spec_view pre k
    | None => spec_view pre k
    end.
Proof.
  unfold spec_view. rewrite matches_app. cbn [matches]. unfold line_match. cbn.
  rewrite app_nil_r. destruct (line_entry l) as [[k' d]|]; [|by rewrite app_nil_r].
  destruct (decide (k' = k)) as [->|]; [|by rewrite app_nil_r].
  unfold pick, absorb. destruct (named k) eqn:En; cbn.
  - by rewrite last_snoc.
  - destruct (matches k 0 pre) as [|[i e] ms]; cbn; done.
Qed.

Lemma loaded_step pre l c :
  loaded pre c ->
  match line_entry l with Some (k, _) => valid_key k = true | None => True end ->
  exists c', load_line (length pre) l c = Ok c' /\ loaded (pre ++ [l]) c'.
Proof.
  intros [H1 H2 H3] Hv. rewrite load_line_entry.
  destruct (line_entry l) as [[k d]|] eqn:E.
  - rewrite Hv. eexists; split; [done|]. constructor.
    + by apply maps_wf_record.
    + destruct k, c; done.
    + intros k'. rewrite view_record, spec_view_snoc, E by done.
      destruct (decide (k = k')) as [->|]; by rewrite H3.
  - exists c. split; [done|]. constructor; try done. intros k. by rewrite spec_view_snoc, E.
Qed.

Lemma load_lines_ok ls pre c :
  loaded pre c -> ids_valid ls ->
  exists c', load_lines (length pre) ls c = Ok c' /\ loaded (pre ++ ls) c'.
Proof.
  revert pre c; induction ls as [|l ls IH]; intros pre c Hld Hv; cbn.
  - rewrite app_nil_r. eauto.
  - apply Forall_cons in Hv as [Hl Hv]. destruct (loaded_step pre l c Hld Hl) as (c1 & -> & Hld1).
    cbn. destruct (IH (pre ++ [l]) c1 Hld1 Hv) as (c2 & E2 & Hld2).
    rewrite length_app, Nat.add_1_r in E2. rewrite <- app_assoc in Hld2. eauto.
Qed.

Lemma load_lines_valid ls n c c' : load_lines n ls c = Ok c' -> ids_valid ls.
Proof.
  revert n c; induction ls as [|l ls IH]; intros n c; cbn; [constructor|].
  rewrite load_line_entry. intros H. constructor.
  - destruct (line_entry l) as [[k d]|]; [|done]. by destruct (valid_key k).
  - destruct (line_entry l) as [[k d]|]; [destruct (valid_key k)|]; cbn in H; first [done|by eapply IH].
Qed.

Lemma loaded_empty : loaded [] empty_configuration.
Proof. constructor; [constructor; cbn; constructor|done|]. by intros []. Qed.

Lemma view_with_lines ls c k : view (with_lines ls c) k = view c k.
Proof. by destruct c, k. Qed.
Lemma view_with_source_file f c k : view (with_source_file f c) k = view c k.
Proof. by destruct c, k. Qed.
Lemma maps_wf_with_lines ls c : maps_wf c -> maps_wf (with_lines ls c).
Proof. destruct c; intros []; by constructor. Qed.
Lemma maps_wf_with_source_file f c : maps_wf c -> maps_wf (with_source_file f c).
Proof. destruct c; intros []; by constructor. Qed.

(** [from_lines] succeeds exactly when all server IDs are valid, and then it says
    what the lines say. *)
Lemma from_lines_ok ls :
  ids_valid ls ->
  exists c, from_lines ls = Ok c /\ lines c = ls /\ loaded ls c.
Proof.
  intros Hv. destruct (load_lines_ok ls [] _ loaded_empty Hv) as (c & E & [H1 H2 H3]).
  unfold from_lines. cbn in E. rewrite E. eexists; split; [done|]. split; [by destruct c|].
  constructor.
  - by apply maps_wf_with_lines.
  - by destruct c.
  - intros k. rewrite view_with_lines. apply H3.
Qed.

Lemma from_lines_inv ls c : from_lines ls = Ok c -> ids_valid ls /\ lines c = ls /\ loaded ls c.
Proof.
  intros E. assert (ids_valid ls) as Hv.
  { unfold from_lines in E. apply result_bind_ok in E as (c' & E & _). by eapply load_lines_valid. }
  destruct (from_lines_ok ls Hv) as (c' & E' & Hl & Hld). split; [done|].
  rewrite E' in E. by injection E as <-.
Qed.

(** A configuration that was just loaded is in step with its lines. *)
Lemma loaded_synced ls c :
  ids_valid ls -> lines c = ls -> maps_wf c -> (forall k, view c k = spec_view ls k) -> synced c.
Proof.
  intros Hv Hl H1 H3. constructor.
  - constructor; [done|..].
    + intros k l. rewrite H3. intros (line & d & Hx & _)%spec_view_line.
      rewrite Hl. by eapply lookup_lt_Some.
    + intros k k' l. rewrite !H3. intros (x & d & Hx & He & _)%spec_view_line (y & e & Hy & Hf & _)%spec_view_line.
      congruence.
    + intros k. rewrite H3. unfold spec_view. by destruct (pick _ _) as [[]|].
  - by rewrite Hl.
  - intros k. rewrite H3, Hl. split; [done|].
    destruct (s_value (spec_view ls k)) eqn:E; [done|]. left.
    unfold spec_view in *. by destruct (pick _ _) as [[]|].
Qed.

(** ** Edits

    What [set] does to the lines, apart from the types of values. *)

Definition edit_lines (line : option nat) (text : option str) (ls : list str)
    : option (option nat * list str) :=
  match line, text with
  | None, Some t => Some (Some (length ls), ls ++ [t])
  | None, None => Some (None, ls)
  | Some l, _ => if decide (l < length ls)%nat
                 then Some (Some l, <[l := value_or text []]> ls) else None
  end.

Definition line_text {T} (key : str) (encode : T -> str) (v : option T) : option str :=
  (fun x => key ++ "=" ++ encode x) <$> v.

Lemma set_edit {T} (target : setting T) v key encode ls :
  (s_line target = None -> s_value target = None) ->
  set target v key encode ls =
    match edit_lines (s_line target) (line_text key encode v) ls with
    | Some (l, ls') => MOk (Setting v l, ls')
    | None => MUndef
    end.
Proof.
  intros Hn. unfold set, edit_lines, line_text. destruct target as [tv [l|]]; cbn in *.
  - destruct (decide _); [|done]. by destruct v.
  - destruct v; [done|]. by rewrite Hn.
Qed.

(** The operations that modify a configuration. *)
Inductive config_op :=
| SetClientPort (v : option Z)
| SetDataDirectory (v : option str)
| SetTickTime (v : option Z)
| SetInitLimit (v : option Z)
| SetSyncLimit (v : option Z)
| SetLeaderServes (v : option bool)
| SetWhitelist (v : option word_set)
| AddServer (id : Z) (hostname : str) (peer_port leader_port : Z)
| AddSetting (key value : str).

Definition apply_op (op : config_op) (c : configuration) : mres configuration :=
  match op with
  | SetClientPort v => set_client_port v c
  | SetDataDirectory v => set_data_directory v c
  | SetTickTime v => set_tick_time v c
  | SetInitLimit v => set_init_limit v c
  | SetSyncLimit v => set_sync_limit v c
  | SetLeaderServes v => set_leader_serves v c
  | SetWhitelist v => set_four_letter_word_whitelist v c
  | AddServer id host pp lp => add_server id host pp lp c
  | AddSetting key value => lift_res (add_setting key value c)
  end.

Definition server_address (hostname : str) (peer_port leader_port : Z) : str :=
  hostname ++ ":" ++ print_uint peer_port ++ ":" ++ print_uint leader_port.

(** The key an operation edits, the value it gives it and the text of the line. *)
Definition op_edit (op : config_op) : option (skey * option dval * option str) :=
  match op with
  | SetClientPort v => Some (KClientPort, DNum <$> v, line_text "clientPort" print_uint v)
  | SetDataDirectory v => Some (KDataDir, DStr <$> v, line_text "dataDir" id v)
  | SetTickTime v => Some (KTickTime, DNum <$> v, line_text "tickTime" print_int v)
  | SetInitLimit v => Some (KInitLimit, DNum <$> v, line_text "initLimit" print_uint v)
  | SetSyncLimit v => Some (KSyncLimit, DNum <$> v, line_text "syncLimit" print_uint v)
  | SetLeaderServes v => Some (KLeaderServes, DBool <$> v, line_text "leaderServes" encode_bool v)
  | SetWhitelist v => Some (KWhitelist, DWords <$> v, line_text "4lw.commands.whitelist" encode_words v)
  | AddServer i host pp lp =>
      Some (KServer i, Some (DStr (server_address host pp lp)),
            line_text ("server." ++ print_uint i) id (Some (server_address host pp lp)))
  | AddSetting _ _ => None
  end.

(** [c'] is [c] with the lines [ls] and the setting [s] for [k]. *)
Record edited (k : skey) (s : setting dval) (ls : list str) (c c' : configuration) : Prop := Edited {
  ed_maps : maps_wf c';
  ed_lines : lines c' = ls;
  ed_this : view c' k = s;
  ed_others : forall k', k' <> k -> view c' k' = view c k';
  ed_file : source_file c' = source_file c;
}.

Ltac edit_done :=
  match goal with
  | |- edited _ _ _ ?c _ =>
      constructor; [|by destruct c|by destruct c| |by destruct c];
      [match goal with H : maps_wf _ |- _ => destruct c, H; by constructor end
      |intros []; by destruct c]
  end.

(** A setter succeeds with the edit of its line, or its line is out of range. *)
Lemma apply_op_edit op c k v text :
  op_edit op = Some (k, v, text) -> config_wf c ->
  match edit_lines (s_line (view c k)) text (lines c) with
  | Some (l, ls') =>
      (exists e, apply_op op c = MThrow e) \/
      exists c', apply_op op c = MOk c' /\ edited k (Setting v l) ls' c c' /\
        (named k = true \/ s_line (view c k) = None) /\ valid_key k = true
  | None => apply_op op c = MUndef \/ exists e, apply_op op c = MThrow e
  end.
Proof.
  intros Hop [Hm _ _ Hn]. pose proof (Hn k) as Hnk.
  destruct op as [x|x|x|x|x|x|x|i host pp lp|]; injection Hop as <- <- <- || discriminate Hop;
    cbn [apply_op view map_setting s_line s_value] in *.
  8: { unfold add_server, ensure_valid. destruct ((0 <? i) && (i <? 256)) eqn:Ei; cbn [lift_res mres_bind].
    2: { destruct (edit_lines _ _ _) as [[]|]; eauto. }
    unfold found. destruct (om_find i (server_paths c)) as [s|] eqn:Ef.
    { destruct (edit_lines _ _ _) as [[]|]; eauto. }
    cbn. right. eexists; split; [done|]. split_and!; [|by right|exact Ei]. destruct Hm as [H1 H2 H3 H4 H5].
    constructor; try by destruct c.
    - destruct c; constructor; cbn in *; eauto with zk.
    - destruct c; cbn in *. unfold found. by rewrite om_find_insert, Ef.
    - intros k' Hne. destruct k', c; cbn in *; try done. apply found_insert_ne; congruence || done. }
  7: { unfold set_four_letter_word_whitelist. case_goal.
    { destruct (edit_lines _ _ _) as [[]|]; eauto. }
    rewrite set_edit by (intros H'; apply Hnk in H'; by destruct (s_value _)).
    destruct (edit_lines _ _ _) as [[l ls']|]; [|by left]. right.
    eexists; split; [done|]. split_and!; [edit_done|by left|done]. }
  all: unfold set_client_port, set_data_directory, set_tick_time, set_init_limit,
      set_sync_limit, set_leader_serves;
    rewrite set_edit by (intros H'; apply Hnk in H'; by destruct (s_value _));
    destruct (edit_lines _ _ _) as [[l ls']|]; [right|by left];
    eexists; split; [done|]; split_and!; [edit_done|by left|done].
Qed.

Lemma edit_defined c k text :
  config_wf c -> exists l ls', edit_lines (s_line (view c k)) text (lines c) = Some (l, ls').
Proof.
  intros Hwf. unfold edit_lines. destruct (s_line (view c k)) as [l|] eqn:E.
  - apply (cw_range _ Hwf) in E. rewrite decide_True by done. eauto.
  - destruct text; eauto.
Qed.

(** An edit uses the line the setting has, or a new one at the end. *)
Lemma edit_line_cases line text ls l ls' :
  edit_lines line text ls = Some (l, ls') ->
  (line = None /\ text = None /\ l = None /\ ls' = ls) \/
  (exists t, line = None /\ text = Some t /\ l = Some (length ls) /\ ls' = ls ++ [t]) \/
  (exists n, line = Some n /\ l = Some n /\ (n < length ls)%nat /\ ls' = <[n := value_or text []]> ls).
Proof.
  unfold edit_lines. destruct line as [n|].
  - destruct (decide _); [|done]. intros [= <- <-]. right; right. eauto.
  - destruct text; intros [= <- <-]; eauto 10.
Qed.

Lemma edit_wf k v text l ls' c c' :
  config_wf c -> edit_lines (s_line (view c k)) text (lines c) = Some (l, ls') ->
  (text = None -> v = None) -> edited k (Setting v l) ls' c c' -> config_wf c'.
Proof.
  intros [Hm Hr Ha Hn] Hed Htv [Hm' Hl' Ht Ho _]. constructor; [done|..].
  - intros k' n. rewrite Hl'. destruct (decide (k' = k)) as [->|Hne].
    + rewrite Ht. cbn. intros ->.
      apply edit_line_cases in Hed as [(?&?&?&?)|[(t&?&?&[= ->]&->)|(m&?&[= ->]&?&->)]]; [done|..].
      * rewrite length_app; cbn; lia.
      * by rewrite length_insert.
    + rewrite Ho by done. intros H%Hr.
      apply edit_line_cases in Hed as [(?&?&?& ->)|[(t&?&?&?&->)|(m&?&?&?&->)]]; [done|..].
      * rewrite length_app; lia.
      * by rewrite length_insert.
  - assert (forall k' n, k' <> k -> s_line (view c' k') = Some n -> l = Some n -> False) as Hsep.
    { intros k' n Hne. rewrite Ho by done. intros Hk' ->.
      apply edit_line_cases in Hed as [(?&?&?&?)|[(t&?&?&[= ->]&_)|(m&Hm0&[= ->]&?&_)]]; [done|..].
      - apply Hr in Hk'. lia.
      - by apply Hne, (Ha k' k m). }
    intros k1 k2 n H1 H2. destruct (decide (k1 = k)) as [->|Hne1], (decide (k2 = k)) as [->|Hne2]; [done|..].
    + exfalso. rewrite Ht in H1. by apply (Hsep k2 n).
    + exfalso. rewrite Ht in H2. by apply (Hsep k1 n).
    + rewrite Ho in H1, H2 by done. by apply (Ha k1 k2 n).
  - intros k' H. destruct (decide (k' = k)) as [->|Hne].
    + rewrite Ht in *. cbn in *. subst l.
      apply edit_line_cases in Hed as [(?&?&?&?)|[(t&?&?&?&?)|(m&?&?&?&?)]]; [auto|done|done].
    + rewrite Ho in * by done. auto.
Qed.

(** ** Keeping in step *)

(** The line a synced setting owns is its own entry or blank. *)
Lemma synced_line c k n :
  synced c -> s_line (view c k) = Some n ->
  exists x, lines c !! n = Some x /\ forall k', k' <> k -> line_match k' n x = [].
Proof.
  intros [_ _ Hs] Hn. destruct (Hs k) as [Hv Hl].
  destruct (s_value (view c k)) as [v|].
  - rewrite Hl in Hn. apply spec_view_line in Hn as (x & d & Hx & He & _).
    exists x. split; [done|]. intros k' Hne. unfold line_match. rewrite He.
    by rewrite decide_False by congruence.
  - destruct Hl as [?|(m & Hm & Hb)]; [congruence|]. exists []. split; [congruence|done].
Qed.

(** The text written for a value is read back as that value, under its key. *)
Definition text_ok (k : skey) (v : option dval) (text : option str) : Prop :=
  match v, text with
  | Some x, Some t => exists d, line_entry t = Some (k, d) /\ decode k d = x
  | None, None => True
  | _, _ => False
  end.

Lemma text_ok_match k v text k' n :
  text_ok k v text -> k' <> k -> line_match k' n (value_or text []) = [].
Proof.
  unfold text_ok, line_match. destruct v, text; try done; cbn.
  intros (e & -> & _) Hne. by rewrite decide_False by congruence.
Qed.

Lemma edit_others c k v text l ls' k' :
  synced c -> edit_lines (s_line (view c k)) text (lines c) = Some (l, ls') ->
  text_ok k v text -> k' <> k -> matches k' 0 ls' = matches k' 0 (lines c).
Proof.
  intros Hs Hed Ht Hne.
  apply edit_line_cases in Hed as [(_&_&_& ->)|[(t&_&->&_&->)|(n&Hn&_&Hlt&->)]]; [done|..].
  - rewrite matches_app. cbn [matches]. pose proof (text_ok_match k v (Some t) k' (0 + length (lines c)) Ht Hne) as E.
    cbn in E. cbn. by rewrite E, !app_nil_r.
  - destruct (synced_line c k n Hs Hn) as (x & Hx & Hmx).
    destruct (matches_insert k' (lines c) n x (value_or text []) Hx) as [-> ->].
    by rewrite Hmx, (text_ok_match k v).
Qed.

(** Setting a value: the edited line becomes the one that counts. *)
Lemma edit_this_some c k x t d l ls' :
  synced c -> edit_lines (s_line (view c k)) (Some t) (lines c) = Some (l, ls') ->
  (named k = true \/ s_line (view c k) = None) ->
  line_entry t = Some (k, d) -> decode k d = x ->
  spec_view ls' k = Setting (Some x) l.
Proof.
  intros Hs Hed Hk He <-. assert (forall n, line_match k n t = [(n, d)]) as Hmt.
  { intros n. unfold line_match. rewrite He. by rewrite decide_True. }
  destruct (sy_entries _ Hs k) as [Hv Hl]. unfold spec_view.
  apply edit_line_cases in Hed as [(_&?&_&_)|[(t'&Hn&[= <-]&->&->)|(n&Hn&->&Hlt&->)]]; [done|..].
  - rewrite (cw_no_line _ (sy_wf _ Hs) k Hn) in Hv. symmetry in Hv. apply spec_view_none in Hv.
    rewrite matches_app, Hv. cbn [matches app]. rewrite Hmt. cbn. by rewrite pick_single.
  - cbn [value_or]. destruct (synced_line c k n Hs Hn) as (x & Hx & _).
    destruct (matches_insert k (lines c) n x t Hx) as [Eold ->]. rewrite Hmt.
    destruct (s_value (view c k)) as [v|].
    + rewrite Hl in Hn. pose proof (spec_view_line _ _ _ Hn) as (y & e & Hy & _ & Hp & _).
      destruct Hk as [Hk|Hk]; [|rewrite Hl in Hk; congruence].
      unfold pick in *. rewrite Hk in *. rewrite Eold in Hp.
      destruct (matches k (S n) (drop (S n) (lines c))) as [|[i z] B] eqn:EB.
      * rewrite app_nil_r, last_snoc. done.
      * exfalso. rewrite app_assoc, last_app in Hp.
        destruct (last ((i, z) :: B)) as [[j w]|] eqn:Elast; [|by rewrite last_None in Elast].
        injection Hp as -> ->. apply last_Some_elem_of in Elast. rewrite <- EB in Elast.
        apply matches_index in Elast as (? & ? & _). lia.
    + symmetry in Hv. apply spec_view_none in Hv. rewrite Hv in Eold. symmetry in Eold.
      apply app_nil in Eold as [-> Eold]. apply app_nil in Eold as [_ ->]. cbn. by rewrite pick_single.
Qed.

(** Clearing a setting that no other line sets. *)
Lemma edit_this_none c k l ls' :
  synced c -> edit_lines (s_line (view c k)) None (lines c) = Some (l, ls') ->
  (length (matches k 0 (lines c)) <= 1)%nat ->
  spec_view ls' k = no_setting /\ (l = None \/ exists n, l = Some n /\ ls' !! n = Some []).
Proof.
  intros Hs Hed Hone. destruct (sy_entries _ Hs k) as [Hv Hl]. unfold spec_view.
  apply edit_line_cases in Hed as [(Hn&_&->&->)|[(t'&_&?&_&_)|(n&Hn&->&Hlt&->)]]; [|done|].
  - rewrite (cw_no_line _ (sy_wf _ Hs) k Hn) in Hv. symmetry in Hv. apply spec_view_none in Hv.
    rewrite Hv. split; [by unfold pick; destruct (named k)|by left].
  - cbn [value_or]. destruct (synced_line c k n Hs Hn) as (x & Hx & _).
    destruct (matches_insert k (lines c) n x [] Hx) as [Eold ->].
    split; [|right; exists n; split; [done|by apply list_lookup_insert_eq]].
    assert (matches k 0 (take n (lines c)) = [] /\ matches k (S n) (drop (S n) (lines c)) = []) as [-> ->];
      [|cbn; by unfold pick; destruct (named k)].
    destruct (s_value (view c k)) as [v|].
    + rewrite Hl in Hn. apply spec_view_line in Hn as (y & e & Hy & He & _).
      assert (x = y) as -> by congruence.
      assert (line_match k n y = [(n, e)]) as Ey by (unfold line_match; rewrite He; by rewrite decide_True).
      rewrite Eold, Ey, !length_app in Hone. cbn in Hone.
      split; apply length_zero_iff_nil; lia.
    + symmetry in Hv. apply spec_view_none in Hv. rewrite Hv in Eold. symmetry in Eold.
      apply app_nil in Eold as [-> Eold]. by apply app_nil in Eold as [_ ->].
Qed.

Lemma ids_valid_edit k v text line l ls ls' :
  ids_valid ls -> edit_lines line text ls = Some (l, ls') -> text_ok k v text ->
  valid_key k = true -> ids_valid ls'.
Proof.
  intros Hv Hed Ht Hk.
  assert (match line_entry (value_or text []) with Some (k, _) => valid_key k = true | None => True end) as Hnew.
  { unfold text_ok in Ht. destruct v, text; cbn; try done. by destruct Ht as (e & -> & _). }
  apply edit_line_cases in Hed as [(_&_&_& ->)|[(t&_&->&_&->)|(n&_&_&_&->)]]; [done|..].
  - apply Forall_app. split; [done|]. by constructor.
  - apply Forall_insert; done.
Qed.
