(* ===== verification/ConfigurationTheory.v ===== *)
(** * ConfigurationTheory: the theorems about configurations

    Values that survive being written to a line, the whitelist parser against its
    reference definition, the equality operator, and the properties. *)

From S2P Require Import Prelude Text OrdMap Error Configuration ConfigurationSpec.
Local Open Scope Z_scope.

(** ** Clean text *)

(** A value the line pattern reads back whole. *)
Definition clean_value (s : str) : bool :=
  negb (bool_decide (s = [])) && forallb (fun c => negb (space_or_hash c)) s.

Definition no_newline (s : str) : bool := forallb (fun c => negb (Ascii.eqb c newline)) s.

(** A name the line pattern reads back whole. *)
Definition clean_name (s : str) : bool :=
  match s with
  | [] => false
  | c :: _ => negb (Ascii.eqb c "#") && forallb (fun c => negb (Ascii.eqb "=" c)) s
  end.

Lemma forallb_Forall {A} (p : A -> bool) l : forallb p l = true <-> Forall (fun x => p x = true) l.
Proof. rewrite forallb_forall, Forall_forall. setoid_rewrite list_elem_of_In. done. Qed.

Lemma Forall_negb {A} (p : A -> bool) l :
  forallb (fun x => negb (p x)) l = true -> Forall (fun x => p x = false) l.
Proof. intros H%forallb_Forall. eapply Forall_impl; [exact H|]. intros x Hx. by apply negb_true_iff. Qed.

Lemma match_line_clean name value :
  clean_name name = true -> clean_value value = true ->
  match_line (name ++ "=" ++ value) = Some (name, value).
Proof.
  intros Hn Hv. unfold match_line. destruct name as [|c name]; [done|].
  cbn [clean_name] in Hn. bool_prop. unfold clean_value in Hv. bool_prop.
  change ((c :: name) ++ "=" ++ value) with ((c :: name) ++ "="%char :: value).
  rewrite (break_at_spec (Ascii.eqb "=") (c :: name) ("="%char :: value));
    [|by apply Forall_negb|done].
  rewrite break_at_none by by apply Forall_negb. by destruct value.
Qed.

Lemma line_entry_clean name value :
  clean_name name = true -> clean_value value = true ->
  line_entry (name ++ "=" ++ value) = Some (classify name, value).
Proof.
  intros Hn Hv. unfold line_entry. rewrite match_line_clean by done.
  destruct name as [|c name]; [done|]. cbn [clean_name] in Hn. bool_prop. cbn [app].
  destruct (Ascii.eqb c "#") eqn:E; [by bool_prop|done].
Qed.

(** Digits are clean. *)
Lemma digits_clean ds :
  ds <> [] -> Forall (fun c => is_digit c = true) ds -> clean_value ds = true.
Proof.
  intros Hne Hd. unfold clean_value. rewrite bool_decide_false by done. cbn.
  apply forallb_Forall. eapply Forall_impl; [exact Hd|]. intros c Hc.
  unfold space_or_hash. destruct (Ascii.eqb_spec c " ") as [->|]; [done|].
  by destruct (Ascii.eqb_spec c "#") as [->|].
Qed.

Lemma print_uint_clean n : 0 <= n -> clean_value (print_uint n) = true.
Proof. intros. apply digits_clean; [apply print_uint_nonempty|by apply print_uint_digits]. Qed.

Lemma print_int_clean z : clean_value (print_int z) = true.
Proof.
  unfold print_int. destruct (Z.ltb_spec z 0); [|by apply print_uint_clean].
  pose proof (print_uint_clean (- z) ltac:(lia)) as H1. unfold clean_value in *. bool_prop.
  by rewrite bool_decide_false.
Qed.

(** ** The whitelist *)

(** Reference: the pieces between commas. *)
Fixpoint split_comma (s : str) : list str :=
  match s with
  | [] => [[]]
  | c :: t => if Ascii.eqb "," c then [] :: split_comma t
              else match split_comma t with
                   | p :: ps => (c :: p) :: ps
                   | [] => [[c]]
                   end
  end.

Definition spec_whitelist (s : str) : word_set :=
  os_of_list (trim <$> filter (fun p => p <> []) (split_comma s)).

Lemma split_comma_break s :
  split_comma s = let '(a, b) := break_at (Ascii.eqb ",") s in
                  match b with [] => [a] | _ :: t => a :: split_comma t end.
Proof.
  induction s as [|c s IH]; cbn [split_comma break_at]; [done|].
  destruct (Ascii.eqb "," c); [done|]. rewrite IH.
  destruct (break_at (Ascii.eqb ",") s) as [a [|x b]]; done.
Qed.

Lemma parse_whitelist_loop_spec f s out :
  (length s <= f)%nat ->
  parse_whitelist_loop f s out
  = foldl (fun o k => os_insert k o) out (trim <$> filter (fun p => p <> []) (split_comma s)).
Proof.
  revert s out; induction f as [|f IH]; intros s out Hf.
  { destruct s; [done|cbn in Hf; lia]. }
  cbn [parse_whitelist_loop]. destruct s as [|c s]; [done|].
  pose proof (break_at_app (Ascii.eqb ",") (c :: s)) as Happ.
  rewrite split_comma_break. destruct (break_at (Ascii.eqb ",") (c :: s)) as [a b] eqn:E.
  destruct a as [|a0 a].
  - cbn [app] in Happ. subst b. cbn [tail].
    rewrite filter_cons_False by (intros H; by apply H). apply IH. cbn in Hf. lia.
  - assert (length (c :: s) = length (a0 :: a) + length b)%nat as Hlen by (rewrite Happ; apply length_app).
    cbn [length] in Hlen, Hf. rewrite IH by lia.
    destruct b as [|x b].
    + rewrite filter_cons_True by done. done.
    + assert (Ascii.eqb "," x = true) as Hx by by apply break_at_inv in E as (_ & _ & H).
      cbn [split_comma]. rewrite Hx.
      rewrite (filter_cons_False _ []) by (intros H; by apply H).
      rewrite filter_cons_True by done. done.
Qed.

Lemma parse_whitelist_spec s : parse_whitelist s = spec_whitelist s.
Proof. apply parse_whitelist_loop_spec. done. Qed.

Definition clean_word (w : str) : bool :=
  negb (bool_decide (w = [])) &&
  forallb (fun c => negb (isspace c || Ascii.eqb "," c || Ascii.eqb c "#")) w.

Lemma clean_word_inv w :
  clean_word w = true ->
  w <> [] /\ Forall (fun c => isspace c = false) w /\ Forall (fun c => Ascii.eqb "," c = false) w /\
  Forall (fun c => space_or_hash c = false) w.
Proof.
  unfold clean_word. intros H. bool_prop. apply Forall_negb in H0. split; [done|].
  split_and!; (eapply Forall_impl; [exact H0|]); intros c Hc; cbn in Hc; bool_prop; try done.
  unfold space_or_hash. destruct (Ascii.eqb_spec c " ") as [->|]; [done|].
  by destruct (Ascii.eqb_spec c "#").
Qed.

Lemma drop_spaces_id s : Forall (fun c => isspace c = false) s -> drop_spaces s = s.
Proof. destruct 1 as [|c s Hc _]; cbn; [done|]. by rewrite Hc. Qed.

Lemma trim_id w : Forall (fun c => isspace c = false) w -> trim w = w.
Proof.
  intros Hw. unfold trim. rewrite (drop_spaces_id w) by done.
  rewrite drop_spaces_id by (by apply Forall_rev). apply rev_involutive.
Qed.

Lemma split_comma_intercalate ws :
  ws <> [] -> Forall (fun w => clean_word w = true) ws -> split_comma (intercalate "," ws) = ws.
Proof.
  induction ws as [|w ws IH]; [done|]. intros _ H. apply Forall_cons in H as [Hw Hws].
  apply clean_word_inv in Hw as (_ & _ & Hc & _). rewrite split_comma_break.
  destruct ws as [|w' ws]; cbn [intercalate].
  - by rewrite break_at_none.
  - rewrite break_at_spec by done. cbn [app]. f_equal. by apply IH.
Qed.

(** What is written for a set of clean words is read back as that set. *)
Lemma parse_encode_words ws :
  om_wf ws -> ws <> [] -> Forall (fun w => clean_word w = true) ws.*1 ->
  parse_whitelist (encode_words ws) = ws.
Proof.
  intros Hwf Hne Hc. rewrite parse_whitelist_spec. unfold spec_whitelist, encode_words.
  rewrite join_intercalate, split_comma_intercalate; [|by destruct ws|done].
  transitivity (os_of_list ws.*1); [|by apply os_of_list_elements]. f_equal.
  clear -Hc. induction Hc as [|w l Hw _ IH]; [done|].
  apply clean_word_inv in Hw as (Hne & Hs & _). rewrite filter_cons_True by done.
  cbn. by rewrite trim_id, IH.
Qed.

Lemma encode_words_clean ws :
  ws <> [] -> Forall (fun w => clean_word w = true) ws.*1 -> clean_value (encode_words ws) = true.
Proof.
  intros Hne Hc. unfold encode_words. rewrite join_intercalate.
  assert (Forall (fun c => space_or_hash c = false) (intercalate "," ws.*1)) as Hall.
  { clear Hne. induction Hc as [|w l Hw _ IH]; [constructor|].
    apply clean_word_inv in Hw as (_ & _ & _ & Hs).
    destruct l; [done|]. apply Forall_app. split; [done|]. by constructor. }
  unfold clean_value. rewrite bool_decide_false.
  - cbn. apply forallb_Forall. eapply Forall_impl; [exact Hall|]. by intros c ->.
  - destruct ws as [|[w []] ws]; [done|]. apply Forall_cons in Hc as [Hw _].
    apply clean_word_inv in Hw as [Hw _]. cbn. destruct (ws.*1); [done|].
    intros [? _]%app_nil. done.
Qed.

(** ** Clean operations *)

Definition single (k : skey) (c : configuration) : bool :=
  bool_decide (length (matches k 0 (lines c)) <= 1)%nat.

Definition in_range (lo hi : Z) (v : option Z) (k : skey) (c : configuration) : bool :=
  match v with Some z => (lo <=? z) && (z <=? hi) | None => single k c end.

(** The operations whose effect survives saving and loading: numbers in the range
    the parser reads, text without white space, [#] and newlines, and a setting is
    cleared only when a single line sets it. *)
Definition op_clean (op : config_op) (c : configuration) : bool :=
  match op with
  | SetClientPort v => in_range 0 65535 v KClientPort c
  | SetDataDirectory (Some d) => clean_value d && no_newline d
  | SetDataDirectory None => single KDataDir c
  | SetTickTime v => in_range INT64_MIN INT64_MAX v KTickTime c
  | SetInitLimit v => in_range 0 INT64_MAX v KInitLimit c
  | SetSyncLimit v => in_range 0 INT64_MAX v KSyncLimit c
  | SetLeaderServes (Some _) => true
  | SetLeaderServes None => single KLeaderServes c
  | SetWhitelist (Some ws) =>
      bool_decide (os_of_list ws.*1 = ws) && negb (bool_decide (ws = [])) &&
      forallb clean_word ws.*1
  | SetWhitelist None => single KWhitelist c
  | AddServer _ host pp lp =>
      clean_value (server_address host pp lp) && no_newline host &&
      (0 <=? pp) && (0 <=? lp)
  | AddSetting key value => no_newline key && no_newline value
  end.

Lemma bool_text b : clean_value (encode_bool b) = true /\ str_eqb (encode_bool b) "yes" = b.
Proof. by destruct b. Qed.

Lemma classify_server id :
  0 <= id <= INT64_MAX -> classify ("server." ++ print_uint id) = KServer id.
Proof.
  intros Hid. unfold classify, str_eqb. rewrite !bool_decide_false by discriminate.
  change (starts_with "server." ("server." ++ print_uint id)) with true. cbv iota.
  change (drop 7 ("server." ++ print_uint id)) with (print_uint id).
  rewrite <- (app_nil_r (print_uint id)), atol_print_uint by done.
  unfold u64. rewrite wrap_u_small; [done|]. unfold INT64_MAX in Hid. lia.
Qed.

Lemma server_name_clean id : 0 <= id -> clean_name ("server." ++ print_uint id) = true.
Proof.
  intros Hid. change ("server." ++ print_uint id)
    with ("s"%char :: "erver." ++ print_uint id). unfold clean_name.
  apply andb_true_intro. split; [done|]. apply forallb_Forall.
  change ("s"%char :: "erver." ++ print_uint id) with ("server." ++ print_uint id).
  apply Forall_app. split; [by repeat constructor|].
  eapply Forall_impl; [by apply print_uint_digits|]. intros c Hc.
  by destruct (Ascii.eqb_spec "=" c) as [<-|].
Qed.

Lemma atol_uint n : 0 <= n <= INT64_MAX -> atol (print_uint n) = n.
Proof. intros. rewrite <- (app_nil_r (print_uint n)). by apply atol_print_uint. Qed.

(** The line written by a clean operation is read back as its value. *)
Lemma clean_text op c k v text :
  op_edit op = Some (k, v, text) -> valid_key k = true -> op_clean op c = true -> text_ok k v text.
Proof.
  intros Hop Hk Hc.
  destruct op as [[x|]|[x|]|[x|]|[x|]|[x|]|[x|]|[x|]|i host pp lp|]; injection Hop as <- <- <- || discriminate Hop;
    try exact I; cbn [op_clean in_range] in Hc; bool_prop; cbn [text_ok fmap option_fmap option_map line_text].
  - eexists; split; [apply (line_entry_clean "clientPort"); [done|by apply print_uint_clean]|].
    cbn [decode]. f_equal. unfold atoi. rewrite atol_uint by (unfold INT64_MAX; lia).
    rewrite i32_small by (unfold INT32_MIN, INT32_MAX; lia). apply wrap_u_small. lia.
  - eexists; split; [by apply (line_entry_clean "dataDir")|done].
  - eexists; split; [apply (line_entry_clean "tickTime"); [done|by apply print_int_clean]|].
    cbn [decode]. by rewrite atol_print_int.
  - eexists; split; [apply (line_entry_clean "initLimit"); [done|by apply print_uint_clean]|].
    cbn [decode]. rewrite atol_uint by done. f_equal. apply wrap_u_small. unfold INT64_MAX in *. lia.
  - eexists; split; [apply (line_entry_clean "syncLimit"); [done|by apply print_uint_clean]|].
    cbn [decode]. rewrite atol_uint by done. f_equal. apply wrap_u_small. unfold INT64_MAX in *. lia.
  - destruct (bool_text x) as [H1 H2].
    eexists; split; [by apply (line_entry_clean "leaderServes")|]. cbn [decode]. by rewrite H2.
  - apply forallb_Forall in H0.
    eexists; split; [apply (line_entry_clean "4lw.commands.whitelist"); [done|by apply encode_words_clean]|].
    cbn [decode]. f_equal. apply parse_encode_words; try done. rewrite <- H. apply os_of_list_wf.
  - cbn in Hk. unfold valid_id in Hk. bool_prop.
    rewrite <- (classify_server i) by (unfold INT64_MAX; lia).
    eexists; split; [apply (line_entry_clean ("server." ++ print_uint i)
      (server_address host pp lp)); [apply server_name_clean; lia|done]|].
    by rewrite classify_server by (unfold INT64_MAX; lia).
Qed.

(** ** Newlines *)

Lemma no_newline_app a b : no_newline (a ++ b) = no_newline a && no_newline b.
Proof. apply forallb_app. Qed.

Lemma no_newline_not_in s : no_newline s = true -> newline ∉ s.
Proof.
  intros H%Forall_negb Hin. rewrite Forall_forall in H. specialize (H _ Hin).
  by rewrite Ascii.eqb_refl in H.
Qed.

Lemma digits_no_newline ds : Forall (fun c => is_digit c = true) ds -> no_newline ds = true.
Proof.
  intros H. apply forallb_Forall. eapply Forall_impl; [exact H|]. intros c Hc.
  by destruct (Ascii.eqb_spec c newline) as [->|].
Qed.

Lemma print_uint_no_newline n : 0 <= n -> no_newline (print_uint n) = true.
Proof. intros. by apply digits_no_newline, print_uint_digits. Qed.

Lemma print_int_no_newline z : no_newline (print_int z) = true.
Proof.
  unfold print_int. destruct (Z.ltb_spec z 0); [|by apply print_uint_no_newline].
  cbn. apply print_uint_no_newline. lia.
Qed.

Lemma encode_words_no_newline ws :
  Forall (fun w => clean_word w = true) ws.*1 -> no_newline (encode_words ws) = true.
Proof.
  intros Hc. unfold encode_words. rewrite join_intercalate.
  induction Hc as [|w l Hw _ IH]; [done|].
  assert (no_newline w = true) as Hnw.
  { apply clean_word_inv in Hw as (_ & Hs & _). apply forallb_Forall.
    eapply Forall_impl; [exact Hs|]. intros c Hc. cbn in Hc.
    by destruct (Ascii.eqb_spec c newline) as [->|]. }
  destruct l as [|x l]; [done|].
  change (intercalate "," (w :: x :: l)) with (w ++ "," ++ intercalate "," (x :: l)).
  by rewrite !no_newline_app, Hnw, IH.
Qed.

Lemma no_newline_line key value :
  no_newline key = true -> no_newline value = true -> no_newline (key ++ "=" ++ value) = true.
Proof. intros Hk Hv. by rewrite !no_newline_app, Hk, Hv. Qed.

Lemma clean_text_newline op c k v text :
  op_edit op = Some (k, v, text) -> valid_key k = true -> op_clean op c = true ->
  no_newline (value_or text []) = true.
Proof.
  intros Hop Hk Hc.
  destruct op as [[x|]|[x|]|[x|]|[x|]|[x|]|[x|]|[x|]|i host pp lp|]; injection Hop as <- <- <- || discriminate Hop;
    try done; cbn [op_clean in_range] in Hc; bool_prop.
  - apply (no_newline_line "clientPort"); [done|by apply print_uint_no_newline].
  - by apply (no_newline_line "dataDir").
  - apply (no_newline_line "tickTime"); [done|apply print_int_no_newline].
  - apply (no_newline_line "initLimit"); [done|by apply print_uint_no_newline].
  - apply (no_newline_line "syncLimit"); [done|by apply print_uint_no_newline].
  - apply (no_newline_line "leaderServes"); [done|by destruct x].
  - apply forallb_Forall in H0.
    apply (no_newline_line "4lw.commands.whitelist"); [done|by apply encode_words_no_newline].
  - cbn in Hk. unfold valid_id in Hk. bool_prop.
    apply (no_newline_line ("server." ++ print_uint i) (server_address host pp lp));
      unfold server_address; rewrite !no_newline_app, ?H2, !print_uint_no_newline by lia; done.
Qed.

(** ** Operations keep a configuration in step *)

Definition text_lines (c : configuration) : Prop := Forall (fun l => newline ∉ l) (lines c).

Lemma edit_newlines line text ls l ls' :
  Forall (fun l => newline ∉ l) ls -> edit_lines line text ls = Some (l, ls') ->
  no_newline (value_or text []) = true -> Forall (fun l => newline ∉ l) ls'.
Proof.
  intros Hls Hed Ht. apply no_newline_not_in in Ht.
  apply edit_line_cases in Hed as [(_&_&_& ->)|[(t&_&->&_&->)|(n&_&_&_&->)]]; [done|..].
  - apply Forall_app. split; [done|]. by constructor.
  - by apply Forall_insert.
Qed.

Lemma op_edit_none op k v : op_edit op = Some (k, v, None) -> v = None.
Proof.
  destruct op as [[]|[]|[]|[]|[]|[]|[]| |]; cbn; intros [= <- <-]; done.
Qed.

Lemma op_edit_single op c k :
  op_edit op = Some (k, None, None) -> op_clean op c = true ->
  (length (matches k 0 (lines c)) <= 1)%nat.
Proof.
  destruct op as [[]|[]|[]|[]|[]|[]|[]| |]; cbn; intros [= <-] H; unfold in_range, single in H; by bool_prop.
Qed.

Lemma synced_add_setting key value c c' :
  add_setting key value c = Ok c' -> synced c' /\ lines c' = lines c ++ [key ++ "=" ++ value].
Proof.
  unfold add_setting. intros (c1 & E & [= <-])%result_bind_ok.
  apply from_lines_inv in E as (Hv & Hl & Hld). split; [|by destruct c1].
  destruct Hld as [H1 H2 H3]. eapply loaded_synced; [exact Hv|by destruct c1|..].
  - by apply maps_wf_with_source_file.
  - intros k. rewrite view_with_source_file. apply H3.
Qed.

Lemma apply_op_wf op c c' : config_wf c -> apply_op op c = MOk c' -> config_wf c'.
Proof.
  intros Hwf E. destruct (op_edit op) as [[[k v] text]|] eqn:Hop.
  - pose proof (apply_op_edit op c k v text Hop Hwf) as Hap.
    destruct (edit_defined c k text Hwf) as (l & ls' & Hed). rewrite Hed in Hap.
    destruct Hap as [[e He]|(c1 & E1 & Hedit & _)]; [congruence|].
    assert (c1 = c') as -> by congruence. eapply edit_wf; [exact Hwf|exact Hed| |exact Hedit].
    intros ->. by eapply op_edit_none.
  - destruct op; try discriminate Hop. cbn in E.
    destruct (add_setting key value c) as [c1|] eqn:Ea; [|done]. injection E as ->.
    apply synced_add_setting in Ea as [[] _]. done.
Qed.

Lemma apply_op_synced op c c' :
  synced c -> text_lines c -> op_clean op c = true -> apply_op op c = MOk c' ->
  synced c' /\ text_lines c'.
Proof.
  intros Hs Htl Hc E. pose proof (sy_wf _ Hs) as Hwf.
  destruct (op_edit op) as [[[k v] text]|] eqn:Hop.
  2: { destruct op; try discriminate Hop. cbn in E, Hc.
    destruct (add_setting key value c) as [c1|] eqn:Ea; [|done]. injection E as ->.
    apply synced_add_setting in Ea as [Hs' Hl]. split; [done|]. unfold text_lines. rewrite Hl.
    apply Forall_app. split; [done|]. constructor; [|constructor]. apply no_newline_not_in.
    rewrite !no_newline_app. bool_prop. by rewrite H, H0. }
  pose proof (apply_op_edit op c k v text Hop Hwf) as Hap.
  destruct (edit_defined c k text Hwf) as (l & ls' & Hed). rewrite Hed in Hap.
  destruct Hap as [[e He]|(c1 & E1 & Hedit & Hk & Hvk)]; [congruence|].
  assert (c1 = c') as -> by congruence. clear E1.
  pose proof (clean_text op c k v text Hop Hvk Hc) as Hok.
  assert (config_wf c') as Hwf'.
  { eapply edit_wf; [exact Hwf|exact Hed| |exact Hedit]. intros ->. by eapply op_edit_none. }
  destruct Hedit as [_ Hl Ht Ho _]. split; [constructor; [done|..]|].
  - rewrite Hl. eapply ids_valid_edit; [apply (sy_ids _ Hs)|exact Hed|exact Hok|done].
  - intros k'. destruct (decide (k' = k)) as [->|Hne].
    + rewrite Ht, Hl. unfold entry_synced. cbn [s_value s_line]. unfold text_ok in Hok.
      destruct v as [x|], text as [t|]; try done.
      * destruct Hok as (d & He & Hd). by rewrite (edit_this_some c k x t d l ls').
      * destruct (edit_this_none c k l ls' Hs Hed) as [-> Hln]; [by eapply op_edit_single|]. done.
    + rewrite Ho, Hl by done. destruct (sy_entries _ Hs k') as [Hv' Hl'].
      assert (spec_view ls' k' = spec_view (lines c) k') as Esp.
      { unfold spec_view. by rewrite (edit_others c k v text l ls' k'). }
      unfold entry_synced. rewrite Esp. split; [done|].
      destruct (s_value (view c k')); [done|]. destruct Hl' as [?|(n & Hn & Hb)]; [by left|].
      right. exists n. split; [done|].
      apply edit_line_cases in Hed as [(_&_&_& ->)|[(t&_&_&_&->)|(m&Hm&_&_&->)]]; [done|..].
      * by apply lookup_app_l_Some.
      * rewrite list_lookup_insert_ne; [done|]. intros ->. by apply Hne, (cw_alone _ Hwf k' k n).
  - unfold text_lines. rewrite Hl. eapply edit_newlines; [exact Htl|exact Hed|].
    by eapply clean_text_newline.
Qed.

(** ** Equality *)

Definition values {K} (m : list (K * setting str)) : list (K * option str) :=
  (fun kv => (kv.1, s_value kv.2)) <$> m.

Lemma same_items_values {K} `{EqDecision K} (a b : list (K * setting str)) :
  values a = values b -> same_items a b = true.
Proof.
  revert b; induction a as [|[k s] a IH]; intros [|[k' s'] b]; cbn; try done.
  intros [= -> Hs H]. rewrite !bool_decide_true by done. by apply IH.
Qed.

Lemma om_wf_values {K} `{OrdKey K} (m : list (K * setting str)) : om_wf m -> om_wf (values m).
Proof.
  induction m as [|[k s] m IH]; [done|]. cbn. intros [Ha Hwf]. split; [|auto].
  unfold om_above in *. by rewrite Forall_fmap.
Qed.

Lemma om_find_values {K} `{OrdKey K} (k : K) (m : list (K * setting str)) :
  om_find k (values m) = s_value <$> om_find k m.
Proof. induction m as [|[k' s] m IH]; [done|]. cbn. repeat case_goal; done. Qed.

(** Two filled maps with the same values by key are the same items. *)
Lemma same_items_found {K} `{OrdKey K} `{EqDecision K} (a b : list (K * setting str)) :
  om_wf a -> om_wf b -> filled a -> filled b ->
  (forall k, s_value (found k a) = s_value (found k b)) -> same_items a b = true.
Proof.
  intros Wa Wb Fa Fb Hf. apply same_items_values. apply om_ext; [by apply om_wf_values..|].
  intros k. rewrite !om_find_values. specialize (Hf k). unfold found in Hf. unfold filled in *.
  rewrite Forall_forall in Fa, Fb.
  destruct (om_find k a) as [s|] eqn:Ea, (om_find k b) as [s'|] eqn:Eb; cbn in *; try done.
  - f_equal. destruct (s_value s), (s_value s'); naive_solver.
  - apply om_find_elem in Ea; [|done]. destruct (Fa _ Ea) as [v Hv]. cbn in Hv. by rewrite Hv in Hf.
  - apply om_find_elem in Eb; [|done]. destruct (Fb _ Eb) as [v Hv]. cbn in Hv. by rewrite Hv in Hf.
Qed.

Lemma eqb_views c c' :
  maps_wf c -> maps_wf c' -> (forall k, s_value (view c k) = s_value (view c' k)) ->
  configuration_eqb c c' = true.
Proof.
  intros [W1 W2 F1 F2 _] [W1' W2' F1' F2' _] Hv. unfold configuration_eqb.
  assert (forall (f : Z -> dval) (a b : setting Z), (forall x y, f x = f y -> x = y) ->
    s_value (map_setting f a) = s_value (map_setting f b) -> s_value a = s_value b) as Hinj.
  { intros f [[x|] l] [[y|] l'] Hf; cbn; intros E; simplify_eq; f_equal; auto. }
  assert (forall x y, DNum x = DNum y -> x = y) as Hnum by congruence.
  unfold client_port, tick_time, init_limit, sync_limit, data_directory, leader_serves,
    four_letter_word_whitelist.
  rewrite (Hinj DNum _ _ Hnum (Hv KClientPort)), (Hinj DNum _ _ Hnum (Hv KTickTime)),
    (Hinj DNum _ _ Hnum (Hv KInitLimit)), (Hinj DNum _ _ Hnum (Hv KSyncLimit)), !Z.eqb_refl.
  assert (s_value (data_directory_ c) = s_value (data_directory_ c')) as ->.
  { pose proof (Hv KDataDir) as H. cbn in H. destruct (s_value (data_directory_ c)), (s_value (data_directory_ c')); naive_solver. }
  assert (s_value (leader_serves_ c) = s_value (leader_serves_ c')) as ->.
  { pose proof (Hv KLeaderServes) as H. cbn in H. destruct (s_value (leader_serves_ c)), (s_value (leader_serves_ c')); naive_solver. }
  assert (s_value (four_letter_word_whitelist_ c) = s_value (four_letter_word_whitelist_ c')) as ->.
  { pose proof (Hv KWhitelist) as H. cbn in H.
    destruct (s_value (four_letter_word_whitelist_ c)), (s_value (four_letter_word_whitelist_ c')); naive_solver. }
  rewrite !bool_decide_true by done. rewrite Bool.eqb_reflx.
  rewrite !same_items_found; try done.
  - intros name. apply (Hv (KUnknown name)).
  - intros id. apply (Hv (KServer id)).
Qed.

(** A configuration in step with its lines survives saving and loading. *)
Lemma synced_reload c :
  synced c -> text_lines c ->
  exists c', from_string (save c) = Ok c' /\ configuration_eqb c c' = true.
Proof.
  intros Hs Ht. unfold from_string, from_stream, save. rewrite getlines_unlines by done.
  destruct (from_lines_ok _ (sy_ids _ Hs)) as (c' & E & Hl & [H1 _ H3]).
  exists c'. split; [done|]. apply eqb_views; [apply (sy_wf _ Hs)|done|].
  intros k. rewrite H3. apply (sy_entries _ Hs k).
Qed.

Lemma getlines_go_no_newline cur s :
  newline ∉ cur -> Forall (fun l => newline ∉ l) (getlines_go cur s).
Proof.
  revert cur; induction s as [|c s IH]; intros cur Hc; cbn [getlines_go].
  - destruct cur; by repeat constructor.
  - destruct (Ascii.eqb_spec c newline) as [->|Hne].
    + constructor; [done|]. apply IH. by intros ?%elem_of_nil.
    + apply IH. intros [?|?%list_elem_of_singleton]%elem_of_app; [done|congruence].
Qed.

(** * Properties *)

(** What a program can make: load, then any sequence of modifications. *)
Inductive made : configuration -> Prop :=
| made_load ls c : from_lines ls = Ok c -> made c
| made_op op c c' : made c -> apply_op op c = MOk c' -> made c'.

(** The same with text that survives in a file. *)
Inductive built : configuration -> Prop :=
| built_load s c : from_string s = Ok c -> built c
| built_op op c c' : built c -> op_clean op c = true -> apply_op op c = MOk c' -> built c'.

Lemma from_lines_synced ls c : from_lines ls = Ok c -> synced c.
Proof. intros (Hv & Hl & [H1 _ H3])%from_lines_inv. by eapply loaded_synced. Qed.

Lemma made_wf c : made c -> config_wf c.
Proof.
  induction 1 as [ls c E|op c c' _ IH E].
  - by apply from_lines_synced in E as [].
  - by eapply apply_op_wf.
Qed.

Lemma built_synced c : built c -> synced c /\ text_lines c.
Proof.
  induction 1 as [s c E|op c c' _ [IH1 IH2] Hc E].
  - cbn in E. split; [by eapply from_lines_synced|]. apply from_lines_inv in E as (_ & Hl & _).
    unfold text_lines. rewrite Hl. apply getlines_go_no_newline. by intros ?%elem_of_nil.
  - by eapply apply_op_synced.
Qed.

Lemma deref_filled {K} (m : list (K * setting str)) : filled m -> exists r, deref_values m = MOk r.
Proof.
  induction m as [|[k s] m IH]; cbn; [eauto|]. intros H. apply Forall_cons in H as [[v Hv] H].
  cbn in Hv. destruct (IH H) as [r ->]. rewrite Hv. cbn. eauto.
Qed.

(** C6: saving a configuration and loading the text again gives an equal
    configuration, for every configuration loaded from text and then modified by
    setters, [add_server] and [add_setting] with values that can be written to a
    line. *)
Theorem config_roundtrip c :
  built c -> exists c', from_string (save c) = Ok c' /\ configuration_eqb c c' = true.
Proof. intros [Hs Ht]%built_synced. by apply synced_reload. Qed.

(** C24: no operation on a configuration indexes its lines out of range or
    dereferences an empty optional, whatever was loaded and whatever the values
    were. *)
Theorem config_safe c :
  made c ->
  (forall op, apply_op op c <> MUndef) /\
  (exists r, servers c = MOk r) /\ (exists r, unknown_settings c = MOk r) /\
  Forall (fun kv => 1 <= kv.1 <= 255) (server_paths c).
Proof.
  intros Hwf%made_wf. pose proof (cw_maps _ Hwf) as [W1 W2 F1 F2 Hids]. split_and!.
  - intros op. destruct (op_edit op) as [[[k v] text]|] eqn:Hop.
    + pose proof (apply_op_edit op c k v text Hop Hwf) as H.
      destruct (edit_defined c k text Hwf) as (l & ls' & Hed). rewrite Hed in H.
      by destruct H as [[e ->]|(c' & -> & _)].
    + destruct op; try discriminate Hop. cbn. by destruct (add_setting key value c).
  - by apply deref_filled.
  - by apply deref_filled.
  - eapply Forall_impl; [exact Hids|]. intros [id s] H. cbn in *. unfold valid_id in H. bool_prop. lia.
Qed.

(** C8: loading is total but for server IDs: it succeeds exactly when every
    [server.N] line has an ID from 1 to 255, and throws [out_of_range] otherwise.
    What it reads is, for each named setting, the last line that sets it, and for
    each server and unknown setting, the first. *)
Theorem from_lines_correct ls :
  (ids_valid ls /\ exists c, from_lines ls = Ok c /\ lines c = ls /\
     forall k, view c k = spec_view ls k) \/
  (~ ids_valid ls /\ exists what, from_lines ls = Throw (OutOfRange what)).
Proof.
  destruct (from_lines ls) as [c|e] eqn:E.
  - left. apply from_lines_inv in E as (Hv & Hl & [_ _ H3]). split; [done|]. by exists c.
  - right. split.
    + intros Hv. destruct (from_lines_ok ls Hv) as (c & E' & _). congruence.
    + unfold from_lines in E. destruct (load_lines 0 ls empty_configuration) as [c|e'] eqn:E'; [done|].
      injection E as <-. clear -E'. revert E'. generalize 0%nat, empty_configuration.
      induction ls as [|l ls IH]; intros n c; cbn; [done|]. rewrite load_line_entry.
      destruct (line_entry l) as [[k d]|]; [|apply IH]. destruct (valid_key k); [apply IH|].
      intros [= <-]. unfold bad_id. eauto.
Qed.

(** C23: a setter gives its setting the new value, leaves every other setting as it
    was, and touches no line of the file but its own; so comments and unknown
    settings survive. *)
Theorem setter_effect op c c' k v text :
  made c -> op_edit op = Some (k, v, text) -> apply_op op c = MOk c' ->
  s_value (view c' k) = v /\
  (forall k', k' <> k -> view c' k' = view c k') /\
  (forall n, s_line (view c' k) <> Some n -> lines c' !! n = lines c !! n) /\
  source_file c' = source_file c.
Proof.
  intros Hwf%made_wf Hop E. pose proof (apply_op_edit op c k v text Hop Hwf) as Hap.
  destruct (edit_defined c k text Hwf) as (l & ls' & Hed). rewrite Hed in Hap.
  destruct Hap as [[e He]|(c1 & E1 & [_ Hl Ht Ho Hf] & _)]; [congruence|].
  assert (c1 = c') as -> by congruence. rewrite Ht, Hl. split_and!; [done|done| |done].
  cbn. intros n Hn.
  apply edit_line_cases in Hed as [(_&_&_& ->)|[(t&_&_&->&->)|(m&_&->&_&->)]]; [done|..].
  - destruct (decide (n < length (lines c))%nat); [by rewrite lookup_app_l|].
    rewrite !lookup_ge_None_2; [done|lia|]. rewrite length_app. cbn.
    assert (n <> length (lines c)) by congruence. lia.
  - rewrite list_lookup_insert_ne; [done|congruence].
Qed.

(** C37: the whitelist parser terminates within the length of its input and yields
    the set of the trimmed non-empty pieces between commas. *)
Theorem parse_whitelist_correct s fuel :
  (length s <= fuel)%nat ->
  parse_whitelist s = spec_whitelist s /\ parse_whitelist_loop fuel s [] = spec_whitelist s.
Proof. intros Hf. split; [apply parse_whitelist_spec|by apply parse_whitelist_loop_spec]. Qed.

(** The four settings of a minimal file fill its four lines. *)
Lemma minimal_keys c :
  config_wf c -> is_minimal c = true ->
  forall k, is_Some (s_value (view c k)) ->
    k = KDataDir \/ k = KClientPort \/ k = KInitLimit \/ k = KSyncLimit.
Proof.
  intros Hwf Hm. unfold is_minimal in Hm. bool_prop.
  assert (is_Some (data_directory c)) as [d Hd] by done.
  assert (is_Some (s_value (client_port_ c))) as [p Hp] by done.
  assert (is_Some (s_value (init_limit_ c))) as [i Hi] by done.
  assert (is_Some (s_value (sync_limit_ c))) as [s Hs] by done.
  assert (forall k, is_Some (s_value (view c k)) -> exists l, s_line (view c k) = Some l /\
    (l < 4)%nat) as Hline.
  { intros k [v Hv]. destruct (s_line (view c k)) as [l|] eqn:El.
    - exists l. split; [done|]. apply (cw_range _ Hwf) in El. lia.
    - apply (cw_no_line _ Hwf) in El. congruence. }
  destruct (Hline KDataDir) as (l1 & E1 & L1); [unfold data_directory in Hd; cbn; rewrite Hd; eauto|].
  destruct (Hline KClientPort) as (l2 & E2 & L2); [cbn; rewrite Hp; eauto|].
  destruct (Hline KInitLimit) as (l3 & E3 & L3); [cbn; rewrite Hi; eauto|].
  destruct (Hline KSyncLimit) as (l4 & E4 & L4); [cbn; rewrite Hs; eauto|].
  intros k Hk. destruct (Hline k Hk) as (l & El & L).
  assert (forall k' l', s_line (view c k') = Some l' -> k = k' \/ l <> l') as Hsep.
  { intros k' l' E'. destruct (decide (l = l')) as [->|]; [|by right].
    left. by apply (cw_alone _ Hwf k k' l'). }
  destruct (Hsep _ _ E1) as [?|?]; [auto|]. destruct (Hsep _ _ E2) as [?|?]; [auto|].
  destruct (Hsep _ _ E3) as [?|?]; [auto|]. destruct (Hsep _ _ E4) as [?|?]; [auto|].
  assert (l1 <> l2 /\ l1 <> l3 /\ l1 <> l4 /\ l2 <> l3 /\ l2 <> l4 /\ l3 <> l4); [|lia].
  split_and!; intros ->;
    match goal with Ha : s_line (view c ?a) = Some ?l, Hb : s_line (view c ?b) = Some ?l |- _ =>
      assert (a = b) by (by apply (cw_alone _ Hwf a b l)); done end.
Qed.

(** A configuration is minimal only if its file sets nothing beyond the data
    directory, the client port and the two limits, and these to their defaults; so
    starting a server with the first two on the command line loses nothing. *)
Theorem is_minimal_sound c :
  made c -> is_minimal c = true ->
  init_limit c = default_init_limit /\ sync_limit c = default_sync_limit /\
  (exists d p, data_directory c = Some d /\ s_value (client_port_ c) = Some p) /\
  forall k, is_Some (s_value (view c k)) ->
    k = KDataDir \/ k = KClientPort \/ k = KInitLimit \/ k = KSyncLimit.
Proof.
  intros Hwf%made_wf Hm. pose proof (minimal_keys c Hwf Hm) as Hk.
  unfold is_minimal in Hm. bool_prop.
  assert (is_Some (data_directory c)) as [d Hd] by done.
  assert (is_Some (s_value (client_port_ c))) as [p Hp] by done.
  split_and!; [done|done|eauto|exact Hk].
Qed.

(** [add_server] on every branch: an ID out of range and an ID already present
    are refused with their exceptions; otherwise the server is recorded with
    [host:peer:leader], written as the new last line, and nothing else changes. *)
Theorem add_server_correct id host pp lp c :
  made c ->
  add_server id host pp lp c =
   (if negb (valid_id id) then
      MThrow (OutOfRange ("Server ID value " ++ print_uint id ++
                          " is not in the valid range [1 .. 255]"))
    else if bool_decide (is_Some (om_find id (server_paths c))) then
      MThrow (RuntimeError ("Already a server with ID " ++ print_uint id))
    else
      MOk (with_lines (lines c ++ ["server." ++ print_uint id ++ "=" ++ server_address host pp lp])
        (with_server_paths
           (om_insert id (Setting (Some (server_address host pp lp)) (Some (length (lines c))))
              (server_paths c)) c))) /\
  forall c', add_server id host pp lp c = MOk c' ->
    s_value (view c' (KServer id)) = Some (DStr (server_address host pp lp)) /\
    forall k, k <> KServer id -> view c' k = view c k.
Proof.
  intros Hm. split.
  - unfold add_server, ensure_valid. fold (valid_id id). destruct (valid_id id); [|done].
    cbn [lift_res mres_bind negb]. destruct (om_find id (server_paths c)) as [s|] eqn:E.
    + by rewrite bool_decide_true.
    + rewrite bool_decide_false by by intros []. done.
  - intros c' E. pose proof (made_wf _ Hm) as Hwf.
    pose proof (apply_op_edit (AddServer id host pp lp) c _ _ _ eq_refl Hwf) as Hap. cbn [apply_op] in Hap.
    destruct (edit_lines _ _ _) as [[l ls']|]; rewrite E in Hap.
    + destruct Hap as [[e ?]|(c1 & [= <-] & [_ _ Ht Ho _] & _)]; [done|]. rewrite Ht. done.
    + by destruct Hap as [?|[e ?]].
Qed.

(** Two losses on a save/load cycle. Clearing a setting that two lines set blanks
    the later line only, so the earlier one counts again after loading; and an empty
    whitelist, which disables all commands, is written as a line the loader ignores,
    so the default whitelist is back. *)
Theorem reload_losses a b :
  INT64_MIN <= a <= INT64_MAX -> INT64_MIN <= b <= INT64_MAX ->
  (exists c1 c2 c3,
     from_lines ["tickTime=" ++ print_int a; "tickTime=" ++ print_int b] = Ok c1 /\
     tick_time c1 = b /\
     set_tick_time None c1 = MOk c2 /\ tick_time c2 = default_tick_time /\
     from_string (save c2) = Ok c3 /\ tick_time c3 = a) /\
  (exists c1 c2,
     set_four_letter_word_whitelist (Some []) empty_configuration = MOk c1 /\
     four_letter_word_whitelist c1 = [] /\
     from_string (save c1) = Ok c2 /\
     four_letter_word_whitelist c2 = default_four_letter_word_whitelist).
Proof.
  intros Ha Hb. split.
  2: { do 2 eexists. split_and!; [reflexivity|reflexivity|vm_compute; reflexivity|reflexivity]. }
  assert (forall z, INT64_MIN <= z <= INT64_MAX ->
    line_entry ("tickTime=" ++ print_int z) = Some (KTickTime, print_int z)) as Hle.
  { intros z Hz. apply (line_entry_clean "tickTime"); [done|apply print_int_clean]. }
  set (la := "tickTime=" ++ print_int a). set (lb := "tickTime=" ++ print_int b).
  pose proof (Hle a Ha) as Ea. pose proof (Hle b Hb) as Eb. fold la in Ea. fold lb in Eb.
  set (c1 := with_lines [la; lb] (with_tick_time (Setting (Some b) (Some 1%nat)) empty_configuration)).
  set (c2 := with_lines [la; []] (with_tick_time (Setting None (Some 1%nat)) empty_configuration)).
  set (c3 := with_lines [la; []] (with_tick_time (Setting (Some a) (Some 0%nat)) empty_configuration)).
  exists c1, c2, c3. split_and!; try reflexivity.
  - unfold from_lines. cbn [load_lines]. rewrite !load_line_entry, Ea. cbn [valid_key result_bind].
    rewrite load_line_entry, Eb. cbn [valid_key result_bind record_line]. by rewrite !atol_print_int.
  - unfold from_string, from_stream, save. rewrite getlines_unlines.
    + cbn [lines c2 with_lines with_tick_time empty_configuration]. unfold from_lines. cbn [load_lines].
      rewrite !load_line_entry, Ea. cbn [valid_key result_bind record_line]. by rewrite atol_print_int.
    + repeat constructor; [|by intros ?%elem_of_nil]. apply no_newline_not_in.
      apply (no_newline_line "tickTime"); [done|apply print_int_no_newline].
Qed.

(** ** Witnesses *)

(** A file with a comment, a server and an unknown setting. *)
Definition sample_text : str := unlines
  ["# sample"; "dataDir=/var/zk"; "clientPort=2182"; "server.1=a:1:2"; "autopurge=3"; []].

(** The configuration a computation returns. *)
Definition force (m : mres configuration) : configuration :=
  match m with MOk c => c | _ => empty_configuration end.

Definition sample : configuration := force (lift_res (from_string sample_text)).

Definition words_op : config_op := SetWhitelist (Some (os_of_list ["ruok" : str; "srvr"])).
Definition server_op : config_op := AddServer 2 "b" 2888 3888.

Definition sample_ops : configuration := force (apply_op words_op (force (apply_op server_op sample))).

Lemma sample_made : made sample.
Proof. apply (made_load (getlines sample_text)). vm_compute. reflexivity. Qed.

Lemma config_roundtrip_witness :
  lines sample_ops !! 6%nat = Some ("server.2=b:2888:3888" : str) /\
  exists c', from_string (save sample_ops) = Ok c' /\ configuration_eqb sample_ops c' = true.
Proof.
  split; [vm_compute; reflexivity|]. apply (config_roundtrip sample_ops).
  apply (built_op words_op (force (apply_op server_op sample)));
    [|vm_compute; reflexivity|vm_compute; reflexivity].
  apply (built_op server_op sample); [|vm_compute; reflexivity|vm_compute; reflexivity].
  apply (built_load sample_text). vm_compute. reflexivity.
Defined.

Lemma config_safe_witness :
  (forall op, apply_op op sample <> MUndef) /\ (exists r, servers sample = MOk r).
Proof.
  destruct (config_safe sample sample_made) as (H1 & H2 & _). split; [exact H1|exact H2].
Defined.

Lemma setter_effect_witness :
  exists c', set_client_port (Some 2183) sample = MOk c' /\ client_port c' = 2183 /\
    s_value (view c' KClientPort) = Some (DNum 2183) /\
    lines c' !! 0%nat = Some ("# sample" : str).
Proof.
  destruct (set_client_port (Some 2183) sample) as [c'| |] eqn:E;
    [|vm_compute in E; discriminate|vm_compute in E; discriminate].
  exists c'. destruct (setter_effect (SetClientPort (Some 2183)) sample c' KClientPort
    (Some (DNum 2183)) (Some "clientPort=2183") sample_made) as (H1 & _ & H3 & _);
    [vm_compute; reflexivity|exact E|].
  assert (c' = with_lines (<[2%nat := "clientPort=2183" : str]> (lines sample))
    (with_client_port (Setting (Some 2183) (Some 2%nat)) sample)) as ->
    by (vm_compute in E; injection E as <-; vm_compute; reflexivity).
  split_and!; [reflexivity|vm_compute; reflexivity|exact H1|]. rewrite H3; [vm_compute; reflexivity|].
  vm_compute. discriminate.
Defined.

Lemma parse_whitelist_correct_witness :
  parse_whitelist " ruok,,srvr" = spec_whitelist " ruok,,srvr" /\
  spec_whitelist " ruok,,srvr" = [("ruok" : str, tt); ("srvr", tt)].
Proof.
  split; [|vm_compute; reflexivity].
  apply (parse_whitelist_correct " ruok,,srvr" 20). cbn. lia.
Defined.

Definition minimal : configuration := force (make_minimal "/data" 2181).

Lemma minimal_made : made minimal.
Proof.
  set (c1 := force (apply_op (SetDataDirectory (Some "/data")) empty_configuration)).
  set (c2 := force (apply_op (SetClientPort (Some 2181)) c1)).
  set (c3 := force (apply_op (SetInitLimit (Some 10)) c2)).
  apply (made_op (SetSyncLimit (Some 5)) c3); [|vm_compute; reflexivity].
  apply (made_op (SetInitLimit (Some 10)) c2); [|vm_compute; reflexivity].
  apply (made_op (SetClientPort (Some 2181)) c1); [|vm_compute; reflexivity].
  apply (made_op (SetDataDirectory (Some "/data")) empty_configuration); [|vm_compute; reflexivity].
  apply (made_load []). reflexivity.
Qed.

Lemma is_minimal_sound_witness :
  is_minimal minimal = true /\ forall k, is_Some (s_value (view minimal k)) ->
    k = KDataDir \/ k = KClientPort \/ k = KInitLimit \/ k = KSyncLimit.
Proof.
  split; [vm_compute; reflexivity|].
  apply (is_minimal_sound minimal minimal_made). vm_compute. reflexivity.
Defined.

Lemma add_server_correct_witness :
  add_server 1 "b" 2888 3888 sample = MThrow (RuntimeError "Already a server with ID 1") /\
  exists c', add_server 3 "b" 2888 3888 sample = MOk c' /\
    s_value (view c' (KServer 3)) = Some (DStr "b:2888:3888").
Proof.
  split; [destruct (add_server_correct 1 "b" 2888 3888 sample sample_made) as [-> _];
    vm_compute; reflexivity|].
  destruct (add_server_correct 3 "b" 2888 3888 sample sample_made) as [E H].
  eexists. split; [rewrite E; vm_compute; reflexivity|]. apply H. rewrite E. vm_compute. reflexivity.
Defined.

Lemma reload_losses_witness :
  exists c1 c2 c3,
     from_lines ["tickTime=1000"; "tickTime=3000"] = Ok c1 /\ tick_time c1 = 3000 /\
     set_tick_time None c1 = MOk c2 /\ tick_time c2 = default_tick_time /\
     from_string (save c2) = Ok c3 /\ tick_time c3 = 1000.
Proof.
  destruct (reload_losses 1000 3000) as [H _];
    [unfold INT64_MIN, INT64_MAX; lia|unfold INT64_MIN, INT64_MAX; lia|exact H].
Defined.
