(* ===== verification/Regex.v ===== *)
(** * Regex: the two regular expressions of the program

    src/zk/connection.cpp and src/zk/server/configuration.cpp match text with
    [std::regex_match] and patterns in the ECMAScript syntax. Here are that syntax, as
    far as the two patterns use it, and what a pattern matches, as a relation; and the
    proof that [match_conn_string] and [match_line], which the model of the program
    runs, decide exactly this relation for the patterns as they stand in the source. *)

From S2P Require Import Prelude Text Error ConnectionParams Configuration.

(** ** Patterns *)

Inductive regex :=
| REps
| RBegin
| REnd
| RDot
| RLit (c : ascii)
| RSet (neg : bool) (cs : list ascii)
| RSeq (a b : regex)
| RStar (a : regex)
| RPlus (a : regex)
| ROpt (a : regex)
| RGroup (n : nat) (a : regex).

#[global] Instance regex_eq_dec : EqDecision regex.
Proof. solve_decision. Defined.

(** ** Reading a pattern *)

(** [\c] stands for [c] (the patterns escape only punctuation). *)
Definition unescape (s : str) : option (ascii * str) :=
  match s with
  | c :: t => if Ascii.eqb c "\" then match t with d :: u => Some (d, u) | [] => None end
              else Some (c, t)
  | [] => None
  end.

Fixpoint read_set (fuel : nat) (s : str) (acc : list ascii) : option (list ascii * str) :=
  match fuel, s with
  | S fuel', c :: t =>
      if Ascii.eqb c "]" then Some (acc, t)
      else match unescape s with
           | Some (d, u) => read_set fuel' u (acc ++ [d])
           | None => None
           end
  | _, _ => None
  end.

Definition postfix (r : regex) (s : str) : regex * str :=
  match s with
  | c :: t => if Ascii.eqb c "*" then (RStar r, t)
              else if Ascii.eqb c "+" then (RPlus r, t)
              else if Ascii.eqb c "?" then (ROpt r, t) else (r, s)
  | [] => (r, s)
  end.

(** A sequence of terms up to the end or a closing parenthesis, with the number of the
    next group. *)
Fixpoint read_seq (fuel : nat) (n : nat) (s : str) : option (regex * nat * str) :=
  match fuel with
  | O => None
  | S fuel' =>
      let continue (r : regex) (n' : nat) (rest : str) :=
        let '(r1, rest') := postfix r rest in
        match read_seq fuel' n' rest' with
        | Some (REps, m, u) => Some (r1, m, u)
        | Some (r2, m, u) => Some (RSeq r1 r2, m, u)
        | None => None
        end in
      match s with
      | [] => Some (REps, n, [])
      | c :: t =>
          if Ascii.eqb c ")" then Some (REps, n, s)
          else if Ascii.eqb c "(" then
            match read_seq fuel' (S n) t with
            | Some (r, n', d :: u) => if Ascii.eqb d ")" then continue (RGroup n r) n' u else None
            | _ => None
            end
          else if Ascii.eqb c "[" then
            match t with
            | d :: u =>
                if Ascii.eqb d "^" then
                  match read_set fuel' u [] with
                  | Some (cs, v) => continue (RSet true cs) n v
                  | None => None
                  end
                else
                  match read_set fuel' t [] with
                  | Some (cs, v) => continue (RSet false cs) n v
                  | None => None
                  end
            | [] => None
            end
          else if Ascii.eqb c "." then continue RDot n t
          else if Ascii.eqb c "^" then continue RBegin n t
          else if Ascii.eqb c "$" then continue REnd n t
          else match unescape s with
               | Some (d, u) => continue (RLit d) n u
               | None => None
               end
      end
  end.

Definition read_regex (s : str) : option regex :=
  match read_seq (S (length s)) 1 s with
  | Some (r, _, []) => Some r
  | _ => None
  end.

(** [expr] of [connection_params::parse] and [line_expr] of [configuration::from_lines]. *)
Definition conn_pattern : str := "([^:]+)://([^/]+)((/[^\?]*)(\?.*)?)?".
Definition line_pattern : str := "^([^=]+)=([^ #]+)[ #]*$".

Definition conn_regex : regex :=
  RSeq (RGroup 1 (RPlus (RSet true [":"%char])))
    (RSeq (RLit ":") (RSeq (RLit "/") (RSeq (RLit "/")
      (RSeq (RGroup 2 (RPlus (RSet true ["/"%char])))
        (ROpt (RGroup 3 (RSeq (RGroup 4 (RSeq (RLit "/") (RStar (RSet true ["?"%char]))))
                              (ROpt (RGroup 5 (RSeq (RLit "?") (RStar RDot))))))))))).

Definition line_regex : regex :=
  RSeq RBegin (RSeq (RGroup 1 (RPlus (RSet true ["="%char])))
    (RSeq (RLit "=") (RSeq (RGroup 2 (RPlus (RSet true [" "%char; "#"%char])))
      (RSeq (RStar (RSet false [" "%char; "#"%char])) REnd)))).

Example conn_regex_read : read_regex conn_pattern = Some conn_regex.
Proof. vm_compute. reflexivity. Qed.
Example line_regex_read : read_regex line_pattern = Some line_regex.
Proof. vm_compute. reflexivity. Qed.

(** ** Matching *)

Definition in_set (neg : bool) (cs : list ascii) (c : ascii) : bool :=
  xorb neg (bool_decide (c ∈ cs)).

(** [rmatch r b s a caps]: [r] matches [s], with [b] before and [a] after it, and the
    groups inside matched [caps]. *)
Inductive rmatch : regex -> str -> str -> str -> list (nat * str) -> Prop :=
| m_eps b a : rmatch REps b [] a []
| m_begin a : rmatch RBegin [] [] a []
| m_end b : rmatch REnd b [] [] []
| m_dot c b a : line_terminator c = false -> rmatch RDot b [c] a []
| m_lit c b a : rmatch (RLit c) b [c] a []
| m_set neg cs c b a : in_set neg cs c = true -> rmatch (RSet neg cs) b [c] a []
| m_seq r1 r2 b s1 s2 a c1 c2 :
    rmatch r1 b s1 (s2 ++ a) c1 -> rmatch r2 (b ++ s1) s2 a c2 ->
    rmatch (RSeq r1 r2) b (s1 ++ s2) a (c1 ++ c2)
| m_star_stop r b a : rmatch (RStar r) b [] a []
| m_star_more r b s1 s2 a c1 c2 :
    rmatch r b s1 (s2 ++ a) c1 -> rmatch (RStar r) (b ++ s1) s2 a c2 ->
    rmatch (RStar r) b (s1 ++ s2) a (c1 ++ c2)
| m_plus r b s1 s2 a c1 c2 :
    rmatch r b s1 (s2 ++ a) c1 -> rmatch (RStar r) (b ++ s1) s2 a c2 ->
    rmatch (RPlus r) b (s1 ++ s2) a (c1 ++ c2)
| m_opt_none r b a : rmatch (ROpt r) b [] a []
| m_opt_some r b s a c : rmatch r b s a c -> rmatch (ROpt r) b s a c
| m_group n r b s a c : rmatch r b s a c -> rmatch (RGroup n r) b s a ((n, s) :: c).

(** [match[n].str()]: empty when the group took no part. *)
Fixpoint capture (n : nat) (caps : list (nat * str)) : str :=
  match caps with
  | [] => []
  | (m, s) :: rest => if Nat.eqb n m then s else capture n rest
  end.

(** [std::regex_match(s, match, r)] *)
Definition regex_match (r : regex) (s : str) (caps : list (nat * str)) : Prop :=
  rmatch r [] s [] caps.

(** ** What the parts of the patterns match *)

(** A pattern for one character. *)
Definition single (r : regex) (P : ascii -> Prop) : Prop :=
  forall b s a caps, rmatch r b s a caps <-> exists c, s = [c] /\ P c /\ caps = [].

Lemma single_lit c : single (RLit c) (eq c).
Proof.
  intros b s a caps. split; [intros H; inv H; eauto|]. intros (d & -> & <- & ->). constructor.
Qed.

Lemma single_dot : single RDot (fun c => line_terminator c = false).
Proof.
  intros b s a caps. split; [intros H; inv H; eauto|]. intros (d & -> & ? & ->). by constructor.
Qed.

Lemma single_set neg cs : single (RSet neg cs) (fun c => in_set neg cs c = true).
Proof.
  intros b s a caps. split; [intros H; inv H; eauto|]. intros (d & -> & ? & ->). by constructor.
Qed.

Lemma star_single r P b s a caps :
  single r P -> rmatch (RStar r) b s a caps <-> Forall P s /\ caps = [].
Proof.
  intros Hr. split.
  - intros H. remember (RStar r) as q eqn:Eq. induction H; try discriminate; simplify_eq.
    + by split.
    + apply Hr in H as (c & -> & Hc & ->). destruct IHrmatch2 as [Hs ->]; [done|].
      split; [by constructor|done].
  - intros [Hs ->]. revert b. induction Hs as [|c s Hc Hs IH]; intros b; [constructor|].
    change (c :: s) with ([c] ++ s). change (@nil (nat * str)) with (@nil (nat * str) ++ []).
    eapply m_star_more; [apply Hr; eauto|apply IH].
Qed.

Lemma plus_single r P b s a caps :
  single r P -> rmatch (RPlus r) b s a caps <-> s <> [] /\ Forall P s /\ caps = [].
Proof.
  intros Hr. split.
  - intros H. inversion H as [| | | | | | | | |? ? s1 s2 ? c1 c2 H1 H2| | |]; subst.
    apply Hr in H1 as (c & -> & Hc & ->). apply (star_single _ P) in H2 as [Hs ->]; [|done]. split; [done|]. split; [by constructor|done].
  - intros (Hne & Hs & ->). destruct s as [|c s]; [done|]. inv Hs.
    change (c :: s) with ([c] ++ s). change (@nil (nat * str)) with (@nil (nat * str) ++ []).
    eapply m_plus; [apply Hr; eauto|]. by apply (star_single _ P).
Qed.

Lemma seq_iff r1 r2 b s a caps :
  rmatch (RSeq r1 r2) b s a caps <->
  exists s1 s2 c1 c2, s = s1 ++ s2 /\ caps = c1 ++ c2 /\
    rmatch r1 b s1 (s2 ++ a) c1 /\ rmatch r2 (b ++ s1) s2 a c2.
Proof.
  split; [intros H; inv H; eauto 9|]. intros (s1 & s2 & c1 & c2 & -> & -> & H1 & H2).
  by apply m_seq.
Qed.

Lemma group_iff n r b s a caps :
  rmatch (RGroup n r) b s a caps <-> exists c, caps = (n, s) :: c /\ rmatch r b s a c.
Proof. split; [intros H; inv H; eauto|]. intros (c & -> & H). by apply m_group. Qed.

Lemma opt_iff r b s a caps :
  rmatch (ROpt r) b s a caps <-> (s = [] /\ caps = []) \/ rmatch r b s a caps.
Proof.
  split; [intros H; inv H; auto|]. intros [[-> ->]|H]; [constructor|by apply m_opt_some].
Qed.

Lemma lit_seq_iff c r b s a caps :
  rmatch (RSeq (RLit c) r) b s a caps <-> exists s', s = c :: s' /\ rmatch r (b ++ [c]) s' a caps.
Proof.
  rewrite seq_iff. split.
  - intros (s1 & s2 & c1 & c2 & -> & -> & H1 & H2).
    apply single_lit in H1 as (d & -> & <- & ->). eauto.
  - intros (s' & -> & H). exists [c], s', [], caps. split_and!; [done|done|constructor|done].
Qed.

(** A group around a run of one class, and what follows. *)
Lemma run_seq_iff n r P k b s a caps :
  single r P ->
  rmatch (RSeq (RGroup n (RPlus r)) k) b s a caps <->
  exists s1 s2 c, s = s1 ++ s2 /\ s1 <> [] /\ Forall P s1 /\ caps = (n, s1) :: c /\
    rmatch k (b ++ s1) s2 a c.
Proof.
  intros Hr. rewrite seq_iff. split.
  - intros (s1 & s2 & c1 & c2 & -> & -> & (c & -> & H1)%group_iff & H2).
    apply (plus_single _ P) in H1 as (? & ? & ->); [|done]. eauto 9.
  - intros (s1 & s2 & c & -> & ? & ? & -> & H). exists s1, s2, [(n, s1)], c.
    split_and!; try done. apply group_iff. eexists; split; [done|]. by apply (plus_single _ P).
Qed.

Lemma in_set_neg1 d c : in_set true [d] c = true <-> Ascii.eqb d c = false.
Proof.
  unfold in_set. rewrite xorb_true_l, negb_true_iff, bool_decide_eq_false, list_elem_of_singleton.
  rewrite Ascii.eqb_neq. by split; intros H E; apply H.
Qed.

Lemma Forall_in_set_neg1 d s :
  Forall (fun c => in_set true [d] c = true) s <-> Forall (fun c => Ascii.eqb d c = false) s.
Proof. by apply Forall_iff; intros c; apply in_set_neg1. Qed.

(** ** Connection strings *)

Definition query_shape (q : str) : Prop :=
  q = [] \/ exists u, q = "?"%char :: u /\ Forall (fun c => line_terminator c = false) u.

Definition tail_shape (p q : str) : Prop :=
  (p = [] /\ q = []) \/
  ((exists t, p = "/"%char :: t /\ Forall (fun c => Ascii.eqb "?" c = false) t) /\ query_shape q).

Definition conn_shape (s schema host p q : str) : Prop :=
  s = schema ++ "://" ++ host ++ p ++ q /\
  schema <> [] /\ Forall (fun c => Ascii.eqb ":" c = false) schema /\
  host <> [] /\ Forall (fun c => Ascii.eqb "/" c = false) host /\ tail_shape p q.

Lemma existsb_none (f : ascii -> bool) s :
  existsb f s = false <-> Forall (fun c => f c = false) s.
Proof.
  induction s as [|c s IH]; cbn; [done|]. by rewrite orb_false_iff, Forall_cons, IH.
Qed.

Lemma match_conn_string_shape s schema host p q :
  match_conn_string s = Some (schema, host, p, q) <-> conn_shape s schema host p q.
Proof.
  split.
  - unfold match_conn_string. destruct (break_at (Ascii.eqb ":") s) as [a rest] eqn:E1.
    apply break_at_inv in E1 as (-> & Ha & _). destruct a as [|x a]; [done|].
    destruct rest as [|c1 [|c2 [|c3 rest]]]; try done.
    destruct (_ && _) eqn:Ec; [|done]. bool_prop. subst c1 c2 c3.
    destruct (break_at (Ascii.eqb "/") rest) as [h tl] eqn:E2.
    apply break_at_inv in E2 as (-> & Hh & Htl). destruct h as [|y h]; [done|].
    destruct (break_at (Ascii.eqb "?") tl) as [pt u] eqn:E3.
    apply break_at_inv in E3 as (-> & Hp & Hu).
    destruct (existsb line_terminator u) eqn:Eu; [done|]. intros [= <- <- <- <-].
    apply existsb_none in Eu. split_and!; try done.
    destruct pt as [|c pt].
    + left. destruct u as [|d u]; [done|]. cbn [app] in Htl. bool_prop. by subst.
    + right. cbn [app] in Htl. bool_prop. subst c. inv Hp. split; [by eauto|].
      destruct u as [|d u]; [by left|]. bool_prop. subst d. right. inv Eu. eauto.
  - intros (-> & Hs & Hs' & Hh & Hh' & T). unfold match_conn_string.
    rewrite (break_at_spec (Ascii.eqb ":") schema) by done.
    destruct schema as [|x schema]; [done|]. cbn [app].
    change (Ascii.eqb ":" ":" && Ascii.eqb "/" "/" && Ascii.eqb "/" "/") with true. cbv iota.
    destruct T as [[-> ->]|[(t & -> & Ht) Q]].
    + rewrite !app_nil_r, (break_at_none (Ascii.eqb "/") host) by done. by destruct host.
    + rewrite (break_at_spec (Ascii.eqb "/") host) by done. destruct host as [|y host]; [done|].
      rewrite (break_at_spec (Ascii.eqb "?") ("/"%char :: t)).
      * destruct Q as [->|(u & -> & Hu)]; [done|].
        assert (existsb line_terminator ("?"%char :: u) = false) as -> by
          (apply existsb_none; by constructor). done.
      * by constructor.
      * by destruct Q as [->|(u & -> & Hu)].
Qed.

Lemma conn_tail_match b s caps :
  rmatch (ROpt (RGroup 3 (RSeq (RGroup 4 (RSeq (RLit "/") (RStar (RSet true ["?"%char]))))
                               (ROpt (RGroup 5 (RSeq (RLit "?") (RStar RDot))))))) b s [] caps <->
  exists p q, s = p ++ q /\ tail_shape p q /\
    caps = match p with [] => [] | _ => (3, s) :: (4, p) :: match q with [] => [] | _ => [(5, q)] end end.
Proof.
  rewrite opt_iff, group_iff. split.
  - intros [[-> ->]|(c & -> & (p & q & c1 & c2 & -> & -> & H1 & H2)%seq_iff)].
    { exists [], []. split_and!; [done|by left|done]. }
    apply group_iff in H1 as (c & -> & (t & -> & H1)%lit_seq_iff).
    apply (star_single _ _ _ _ _ _ (single_set _ _)) in H1 as [Ht ->].
    apply Forall_in_set_neg1 in Ht. apply opt_iff in H2 as [[-> ->]|H2].
    + exists ("/"%char :: t), []. split_and!; [done| |done]. right. split; [by eauto|by left].
    + apply group_iff in H2 as (c & -> & (u & -> & H2)%lit_seq_iff).
      apply (star_single _ _ _ _ _ _ single_dot) in H2 as [Hu ->].
      exists ("/"%char :: t), ("?"%char :: u). split_and!; [done| |done].
      right. split; [by eauto|]. right. eauto.
  - intros (p & q & -> & [[-> ->]|[(t & -> & Ht) Q]] & ->); [by left|]. right.
    eexists. split; [done|]. apply seq_iff. eexists _, q, [(4, _)], _. split_and!; [done|reflexivity| |].
    + apply group_iff. eexists. split; [done|]. apply lit_seq_iff. eexists. split; [done|].
      apply (star_single _ _ _ _ _ _ (single_set _ _)). split; [|done]. by apply Forall_in_set_neg1.
    + apply opt_iff. destruct Q as [->|(u & -> & Hu)]; [by left|]. right. apply group_iff.
      eexists. split; [done|]. apply lit_seq_iff. eexists. split; [done|].
      by apply (star_single _ _ _ _ _ _ single_dot).
Qed.

Lemma conn_regex_shape s caps :
  regex_match conn_regex s caps <->
  exists schema host p q, conn_shape s schema host p q /\
    caps = (1, schema) :: (2, host) ::
      match p with [] => [] | _ => (3, p ++ q) :: (4, p) :: match q with [] => [] | _ => [(5, q)] end end.
Proof.
  unfold regex_match, conn_regex. rewrite (run_seq_iff _ _ _ _ _ _ _ _ (single_set _ _)). split.
  - intros (schema & s2 & c & -> & Hs & Hs' & -> & H). apply Forall_in_set_neg1 in Hs'.
    apply lit_seq_iff in H as (s3 & -> & (s4 & -> & (s5 & -> & H)%lit_seq_iff)%lit_seq_iff).
    apply (run_seq_iff _ _ _ _ _ _ _ _ (single_set _ _)) in H as (host & s6 & c' & -> & Hh & Hh' & -> & H).
    apply Forall_in_set_neg1 in Hh'. apply conn_tail_match in H as (p & q & -> & T & ->).
    exists schema, host, p, q. split; [|done]. by split_and!.
  - intros (schema & host & p & q & (-> & Hs & Hs' & Hh & Hh' & T) & ->).
    eexists schema, _, _. split_and!; [done|done|by apply Forall_in_set_neg1|done|].
    do 3 (apply lit_seq_iff; eexists; split; [reflexivity|]).
    apply (run_seq_iff _ _ _ _ _ _ _ _ (single_set _ _)).
    eexists host, _, _. split_and!; [done|done|by apply Forall_in_set_neg1|done|].
    apply conn_tail_match. by exists p, q.
Qed.

(** ** Lines of a configuration file *)

Definition line_shape (line name data : str) : Prop :=
  exists trailing, line = name ++ "="%char :: data ++ trailing /\
    name <> [] /\ Forall (fun c => Ascii.eqb "=" c = false) name /\
    data <> [] /\ Forall (fun c => space_or_hash c = false) data /\
    Forall (fun c => space_or_hash c = true) trailing.

Lemma in_set_hash neg c : in_set neg [" "%char; "#"%char] c = xorb neg (space_or_hash c).
Proof.
  unfold in_set, space_or_hash. f_equal. apply eq_bool_prop_intro.
  rewrite bool_decide_spec, !elem_of_cons, elem_of_nil, orb_True, !Is_true_true, !Ascii.eqb_eq.
  naive_solver.
Qed.

Lemma Forall_in_set_hash neg s :
  Forall (fun c => in_set neg [" "%char; "#"%char] c = true) s <->
  Forall (fun c => space_or_hash c = negb neg) s.
Proof. apply Forall_iff. intros c. rewrite in_set_hash. by destruct neg, (space_or_hash c). Qed.

Lemma forallb_all (f : ascii -> bool) s : forallb f s = true <-> Forall (fun c => f c = true) s.
Proof. induction s as [|c s IH]; cbn; [done|]. by rewrite andb_true_iff, Forall_cons, IH. Qed.

Lemma match_line_shape line name data :
  match_line line = Some (name, data) <-> line_shape line name data.
Proof.
  split.
  - unfold match_line. destruct (break_at (Ascii.eqb "=") line) as [n rest] eqn:E1.
    apply break_at_inv in E1 as (-> & Hn & Hr). destruct n as [|x n]; [done|].
    destruct rest as [|c after]; [done|]. bool_prop. subst c.
    destruct (break_at space_or_hash after) as [d tr] eqn:E2.
    apply break_at_inv in E2 as (-> & Hd & _). destruct d as [|y d]; [done|].
    destruct (forallb space_or_hash tr) eqn:Et; [|done]. intros [= <- <-].
    exists tr. split_and!; try done. by apply forallb_all.
  - intros (tr & -> & Hn & Hn' & Hd & Hd' & Ht). unfold match_line.
    rewrite (break_at_spec (Ascii.eqb "=") name) by done. destruct name as [|x name]; [done|].
    rewrite (break_at_spec space_or_hash data) by (try done; by destruct Ht).
    destruct data as [|y data]; [done|].
    apply forallb_all in Ht. by rewrite Ht.
Qed.

Lemma begin_seq_iff r s a caps : rmatch (RSeq RBegin r) [] s a caps <-> rmatch r [] s a caps.
Proof.
  rewrite seq_iff. split.
  - intros (s1 & s2 & c1 & c2 & -> & -> & H1 & H2). by inv H1.
  - intros H. exists [], s, [], caps. split_and!; [done|done|constructor|done].
Qed.

Lemma seq_end_iff r b s caps : rmatch (RSeq r REnd) b s [] caps <-> rmatch r b s [] caps.
Proof.
  rewrite seq_iff. split.
  - intros (s1 & s2 & c1 & c2 & -> & -> & H1 & H2). inversion H2; subst. by rewrite !app_nil_r.
  - intros H. exists s, [], caps, []. rewrite !app_nil_r. split_and!; [done|done|done|constructor].
Qed.

Lemma line_regex_shape line caps :
  regex_match line_regex line caps <->
  exists name data, line_shape line name data /\ caps = [(1, name); (2, data)].
Proof.
  unfold regex_match, line_regex. rewrite begin_seq_iff, (run_seq_iff _ _ _ _ _ _ _ _ (single_set _ _)). split.
  - intros (name & s2 & c & -> & Hn & Hn' & -> & (s3 & -> & H)%lit_seq_iff).
    apply Forall_in_set_neg1 in Hn'.
    apply (run_seq_iff _ _ _ _ _ _ _ _ (single_set _ _)) in H as (data & tr & c' & -> & Hd & Hd' & -> & H).
    apply seq_end_iff, (star_single _ _ _ _ _ _ (single_set _ _)) in H as [Ht ->].
    apply Forall_in_set_hash in Hd', Ht. exists name, data. split; [|done]. exists tr. by split_and!.
  - intros (name & data & (tr & -> & Hn & Hn' & Hd & Hd' & Ht) & ->).
    eexists name, _, _. split_and!; [done|done|by apply Forall_in_set_neg1|done|].
    apply lit_seq_iff. eexists. split; [reflexivity|].
    apply (run_seq_iff _ _ _ _ _ _ _ _ (single_set _ _)).
    eexists data, tr, []. split_and!; [done|done|by apply Forall_in_set_hash|done|].
    apply seq_end_iff, (star_single _ _ _ _ _ _ (single_set _ _)). split; [|done].
    by apply Forall_in_set_hash.
Qed.

(** ** Properties *)

(** C21: the matchers the model runs decide the regular expressions of the source. The
    two patterns, written as in the source, are read as regular expressions; a
    connection string is taken apart into schema, hosts, path and query exactly when
    the first of them matches the whole string with these groups 1, 2, 4 and 5; and a
    line of a configuration file gives a name and a value exactly when the second
    matches it with these groups 1 and 2. In particular no text matches in two ways. *)
Theorem patterns_decided s a b c d :
  exists conn line, read_regex conn_pattern = Some conn /\ read_regex line_pattern = Some line /\
  (match_conn_string s = Some (a, b, c, d) <->
   exists caps, regex_match conn s caps /\
     capture 1 caps = a /\ capture 2 caps = b /\ capture 4 caps = c /\ capture 5 caps = d) /\
  (match_line s = Some (a, b) <->
   exists caps, regex_match line s caps /\ capture 1 caps = a /\ capture 2 caps = b).
Proof.
  exists conn_regex, line_regex. split; [apply conn_regex_read|]. split; [apply line_regex_read|].
  split.
  - rewrite match_conn_string_shape. split.
    + intros H. eexists. split; [apply conn_regex_shape; by exists a, b, c, d|].
      destruct H as (_ & _ & _ & _ & _ & T). destruct c, d; cbn; split_and!; try done.
      by destruct T as [[_ ?]|[(t & ? & _) _]].
    + intros (caps & (schema & host & p & q & H & ->)%conn_regex_shape & <- & <- & <- & <-).
      destruct H as (-> & H1 & H2 & H3 & H4 & T).
      destruct T as [[-> ->]|[(t & -> & Ht) Q]].
      * split_and!; try done. by left.
      * destruct Q as [->|(u & -> & Hu)]; (split_and!; try done); right; (split; [by eauto|]); [by left|].
        right. eauto.
  - rewrite match_line_shape. split.
    + intros H. eexists. split; [apply line_regex_shape; by exists a, b|]. done.
    + intros (caps & (name & data & H & ->)%line_regex_shape & <- & <-). exact H.
Qed.
