(* ===== verification/Registry.v ===== *)
(** * Registry: src/zk/server/classpath.cpp and src/zk/server/package_registry.cpp

    Java class paths and the registry of server packages. [stat(2)] is an argument,
    which gives the [errno] of a failing call. *)

From S2P Require Import Prelude Text OrdMap Error.
Local Open Scope Z_scope.

(** ** classpath *)

Record classpath := Classpath { components : list str }.

#[global] Instance classpath_eq_dec : EqDecision classpath.
Proof. solve_decision. Defined.

(** The template [join] and [command_line]. *)
Definition command_line (self : classpath) : str := join ":" (components self).

Definition locations : list str := ["/usr/share/java"; "/usr/local/share/java"].
Definition requirements : list str := ["zookeeper.jar"; "slf4j-api.jar"; "slf4j-simple.jar"].

Section classpath.
Context (sys_stat : str -> option Z).

Definition ENOENT : Z := 2.

Definition file_exists (path : str) : res bool :=
  match sys_stat path with
  | Some errno => if errno =? ENOENT then Ok false else Throw (SystemError errno [])
  | None => Ok true
  end.

(** The inner loop: the first location that has the file. *)
Fixpoint find_in (locs : list str) (jar : str) : res (option str) :=
  match locs with
  | [] => Ok None
  | base_loc :: rest =>
      let potential := base_loc ++ "/" ++ jar in
      b <-! file_exists potential ;
      if (b : bool) then Ok (Some potential) else find_in rest jar
  end.

(** The outer loop: [components] and [unfound]. *)
Fixpoint find_all (jars : list str) (components unfound : list str)
    : res (list str * list str) :=
  match jars with
  | [] => Ok (components, unfound)
  | jar :: rest =>
      r <-! find_in locations jar ;
      match r with
      | Some p => find_all rest (components ++ [p]) unfound
      | None => find_all rest components (unfound ++ [jar])
      end
  end.

(** The text of the exception. *)
Definition missing_message (unfound : list str) : str :=
  "Could not find requirement" ++ (if (Z.of_nat (length unfound) =? 1) then [] else "s") ++
  ": " ++ join ", " unfound ++ ". Searched paths: " ++ join ", " locations.

Definition find_system_default : res classpath :=
  r <-! find_all requirements [] [] ;
  match r.2 with
  | [] => Ok (Classpath r.1)
  | unfound => Throw (RuntimeError (missing_message unfound))
  end.

End classpath.

(** ** package_registry *)

(** [_registrations], the registrations handed out that are still alive, by the name
    each holds, and whether [_lifetime] is set: a registration holds a weak pointer that
    shares its ownership. *)
Record package_registry := PackageRegistry {
  registrations : list (str * classpath);
  live : gmap nat str;
  lifetime : bool;
}.

Definition empty_registry : package_registry := PackageRegistry [] ∅ true.

(** [~package_registry]: registrations may outlive the registry. *)
Definition destroy_registry (self : package_registry) : package_registry :=
  PackageRegistry [] (live self) false.

(** The key of the new registration object is its address. [insert] has moved
    [version] away before the message is built, which leaves it empty. *)
Definition register_classpath_server (self : package_registry) (reg : nat) (version : str)
    (packages : classpath) : res package_registry :=
  match om_find version (registrations self) with
  | Some _ => Throw (InvalidArgument ([] ++ " is already registered"))
  | None => Ok (PackageRegistry (om_insert version packages (registrations self))
                  (<[reg := version]> (live self)) (lifetime self))
  end.

Definition unregister_name (self : package_registry) (name : str) : bool * package_registry :=
  (bool_decide (is_Some (om_find name (registrations self))),
   PackageRegistry (om_erase name (registrations self)) (live self) (lifetime self)).

(** [unregister_server(registration)]; [None] is a null pointer. The object stays
    alive as long as its owner holds it. *)
Definition unregister_server (self : package_registry) (reg : option nat)
    : bool * package_registry :=
  match reg with
  | Some r => match live self !! r with
              | Some name => unregister_name self name
              | None => (false, self)
              end
  | None => (false, self)
  end.

(** [~registration_info]: [owner.lock()] fails once the registry is gone. *)
Definition release (self : package_registry) (reg : nat) : package_registry :=
  match live self !! reg with
  | Some name =>
      let self' := if lifetime self then (unregister_name self name).2 else self in
      PackageRegistry (registrations self') (delete reg (live self')) (lifetime self')
  | None => self
  end.

Definition size (self : package_registry) : nat := length (registrations self).

Definition find_newest_classpath (self : package_registry) : option classpath :=
  match registrations self with
  | [] => None
  | l => match last l with Some (_, c) => Some c | None => None end
  end.

(** * Lemmas *)

Lemma om_last_greatest {V} (m : list (str * V)) k v :
  om_wf m -> last m = Some (k, v) ->
  om_find k m = Some v /\ forall k' v', om_find k' m = Some v' -> str_ltb k k' = false.
Proof.
  intros Hwf Hl. assert (forall k' v', (k', v') ∈ m -> str_ltb k k' = false) as Hmax.
  { revert Hwf Hl. induction m as [|[k0 v0] m IH]; intros Hwf Hl; [done|].
    destruct Hwf as [Ha Hwf]. intros k' v'. rewrite elem_of_cons.
    destruct m as [|[k1 v1] m].
    - injection Hl as -> ->. intros [[= -> ->]|Hin]; [apply str_ltb_irrefl|by apply elem_of_nil in Hin].
    - cbn in Hl. intros [[= -> ->]|Hin]; [|by apply (IH Hwf Hl k' v')].
      apply last_Some_elem_of in Hl. unfold om_above in Ha. rewrite Forall_forall in Ha.
      specialize (Ha _ Hl). cbn in Ha. destruct (str_ltb k k0) eqn:E; [|done].
      pose proof (str_ltb_trans _ _ _ Ha E) as Hc. by rewrite str_ltb_irrefl in Hc. }
  split.
  - apply om_find_elem; [done|]. by apply last_Some_elem_of.
  - intros k' v' H'. apply (Hmax k' v'). by apply om_find_elem.
Qed.

Lemma find_newest_greatest self cp :
  om_wf (registrations self) -> find_newest_classpath self = Some cp ->
  exists v, om_find v (registrations self) = Some cp /\
    forall v' cp', om_find v' (registrations self) = Some cp' -> str_ltb v v' = false.
Proof.
  intros Hwf Hcp. unfold find_newest_classpath in Hcp.
  destruct (registrations self) as [|x l] eqn:El; [done|]. rewrite <- El in *.
  destruct (last (registrations self)) as [[k v]|] eqn:Elast; [|done].
  injection Hcp as ->. exists k. by apply om_last_greatest.
Qed.

(** ** The search *)

Section search.
Context (sys_stat : str -> option Z).
Abbreviation exists_file := (file_exists sys_stat).

(** [p] is the file [jar] in the first of [locs] that has it. *)
Definition found_at (locs : list str) (jar p : str) : Prop :=
  exists pre loc post, locs = pre ++ loc :: post /\ p = loc ++ "/" ++ jar /\
    exists_file p = Ok true /\
    Forall (fun l => exists_file (l ++ "/" ++ jar) = Ok false) pre.

Definition nowhere (locs : list str) (jar : str) : Prop :=
  Forall (fun l => exists_file (l ++ "/" ++ jar) = Ok false) locs.

Lemma find_in_spec locs jar :
  match find_in sys_stat locs jar with
  | Ok (Some p) => found_at locs jar p
  | Ok None => nowhere locs jar
  | Throw e => exists p, exists_file p = Throw e
  end.
Proof.
  induction locs as [|l locs IH]; cbn [find_in]; [constructor|].
  destruct (exists_file (l ++ "/" ++ jar)) as [[]|e] eqn:E; cbn [result_bind].
  - exists [], l, locs. split_and!; [done|done|done|constructor].
  - destruct (find_in sys_stat locs jar) as [[p|]|e]; [|by constructor|done].
    destruct IH as (pre & loc & post & -> & -> & Hp & Hpre).
    exists (l :: pre), loc, post. split_and!; [done|done|done|by constructor].
  - eauto.
Qed.

Lemma find_all_spec jars comps unfound :
  match find_all sys_stat jars comps unfound with
  | Ok (comps', unfound') => exists c u, comps' = comps ++ c /\ unfound' = unfound ++ u /\
      (u = [] -> Forall2 (found_at locations) jars c) /\
      Forall (fun jar => jar ∈ jars /\ nowhere locations jar) u /\
      Forall (fun jar => jar ∈ u \/ exists p, found_at locations jar p) jars
  | Throw e => exists p, exists_file p = Throw e
  end.
Proof.
  revert comps unfound; induction jars as [|jar jars IH]; intros comps unfound; cbn [find_all].
  { exists [], []. rewrite !app_nil_r. split_and!; [done|done|by constructor|constructor..]. }
  pose proof (find_in_spec locations jar) as H.
  destruct (find_in sys_stat locations jar) as [[p|]|e]; cbn [result_bind]; [..|done].
  - specialize (IH (comps ++ [p]) unfound).
    destruct (find_all sys_stat jars (comps ++ [p]) unfound) as [[c' u']|e]; [|done].
    destruct IH as (c & u & -> & -> & Hc & Hu & Hall). exists (p :: c), u.
    split_and!; [by rewrite <- app_assoc|done|by constructor; auto| |by constructor; eauto].
    eapply Forall_impl; [exact Hu|]. intros j [Hj Hn]. split; [by right|done].
  - specialize (IH comps (unfound ++ [jar])).
    destruct (find_all sys_stat jars comps (unfound ++ [jar])) as [[c' u']|e]; [|done].
    destruct IH as (c & u & -> & -> & Hc & Hu & Hall). exists c, (jar :: u).
    split_and!; [done|by rewrite <- app_assoc|done|constructor; [split; [left|done]|]|].
    + eapply Forall_impl; [exact Hu|]. intros j [Hj Hn]. split; [by right|done].
    + constructor; [left; left|]. eapply Forall_impl; [exact Hall|].
      intros j [Hj|Hj]; [by left; right|by right].
Qed.

End search.

(** ** The registry as a map *)

(** The operations that change a registry, and what they answer. *)
Inductive registry_op :=
| Register (reg : nat) (version : str) (packages : classpath)
| Unregister (reg : option nat)
| Release (reg : nat)
| DestroyRegistry.

Inductive registry_reply := Removed (b : bool) | Refused (e : exn) | Silent.

Definition run_op (op : registry_op) (self : package_registry)
    : registry_reply * package_registry :=
  match op with
  | Register reg version packages =>
      match register_classpath_server self reg version packages with
      | Ok self' => (Silent, self')
      | Throw e => (Refused e, self)
      end
  | Unregister reg => let '(b, self') := unregister_server self reg in (Removed b, self')
  | Release reg => (Silent, release self reg)
  | DestroyRegistry => (Silent, destroy_registry self)
  end.

Fixpoint run_ops (ops : list registry_op) (self : package_registry)
    : list registry_reply * package_registry :=
  match ops with
  | [] => ([], self)
  | op :: rest => let '(r, self1) := run_op op self in
                  let '(rs, self2) := run_ops rest self1 in (r :: rs, self2)
  end.

(** The specification: a finite map, and the versions the registrations name. *)
Record registry_spec := RegistrySpec {
  sp_map : gmap str classpath;
  sp_live : gmap nat str;
  sp_alive : bool;
}.

Definition spec_op (op : registry_op) (s : registry_spec) : registry_reply * registry_spec :=
  match op with
  | Register reg version packages =>
      match sp_map s !! version with
      | Some _ => (Refused (InvalidArgument " is already registered"), s)
      | None => (Silent, RegistrySpec (<[version := packages]> (sp_map s))
                           (<[reg := version]> (sp_live s)) (sp_alive s))
      end
  | Unregister reg =>
      match reg ≫= (fun r => sp_live s !! r) with
      | Some name => (Removed (bool_decide (is_Some (sp_map s !! name))),
                      RegistrySpec (delete name (sp_map s)) (sp_live s) (sp_alive s))
      | None => (Removed false, s)
      end
  | Release reg =>
      match sp_live s !! reg with
      | Some name => (Silent, RegistrySpec (if sp_alive s then delete name (sp_map s) else sp_map s)
                                (delete reg (sp_live s)) (sp_alive s))
      | None => (Silent, s)
      end
  | DestroyRegistry => (Silent, RegistrySpec ∅ (sp_live s) false)
  end.

Fixpoint spec_ops (ops : list registry_op) (s : registry_spec)
    : list registry_reply * registry_spec :=
  match ops with
  | [] => ([], s)
  | op :: rest => let '(r, s1) := spec_op op s in
                  let '(rs, s2) := spec_ops rest s1 in (r :: rs, s2)
  end.

Definition abstract (self : package_registry) : registry_spec :=
  RegistrySpec (om_view (registrations self)) (live self) (lifetime self).

Lemma run_op_refines op self :
  om_wf (registrations self) ->
  let '(r, self') := run_op op self in
  spec_op op (abstract self) = (r, abstract self') /\ om_wf (registrations self').
Proof.
  intros Hwf. destruct op as [reg version packages|[reg|]|reg|]; cbn.
  - unfold register_classpath_server. rewrite om_view_lookup by done.
    destruct (om_find version (registrations self)) eqn:E; [done|]. unfold abstract. cbn.
    rewrite om_view_insert by done. split; [done|by apply om_wf_insert].
  - destruct (live self !! reg) as [name|]; cbn; [|done]. unfold abstract. cbn.
    rewrite om_view_lookup, om_view_erase by done. split; [done|by apply om_wf_erase].
  - done.
  - unfold release. destruct (live self !! reg) as [name|]; [|done]. unfold abstract. cbn.
    destruct (lifetime self) eqn:E; cbn; [|by rewrite ?E].
    rewrite ?E, om_view_erase by done. split; [done|by apply om_wf_erase].
  - done.
Qed.

Lemma run_ops_refines ops self :
  om_wf (registrations self) ->
  let '(rs, self') := run_ops ops self in
  let '(rs', s) := spec_ops ops (abstract self) in
  rs = rs' /\ abstract self' = s /\ om_wf (registrations self').
Proof.
  revert self; induction ops as [|op ops IH]; intros self Hwf; cbn; [done|].
  pose proof (run_op_refines op self Hwf) as H. destruct (run_op op self) as [r self1].
  destruct H as (-> & H1). specialize (IH self1 H1).
  destruct (run_ops ops self1) as [rs self2], (spec_ops ops (abstract self1)) as [rs' s].
  destruct IH as (-> & <- & H2). done.
Qed.

(** * Properties *)

(** The search for the default class path, on every outcome: it succeeds only
    with the full path of every requirement, in order, each in the first location
    that has it; otherwise it throws and names exactly the requirements that are in no
    location; a failing [stat] is passed on. *)
Theorem find_system_default_correct sys_stat :
  match find_system_default sys_stat with
  | Ok cp => Forall2 (found_at sys_stat locations) requirements (components cp)
  | Throw e =>
      (exists unfound, unfound <> [] /\ e = RuntimeError (missing_message unfound) /\
         Forall (fun jar => jar ∈ requirements /\ nowhere sys_stat locations jar) unfound /\
         Forall (fun jar => jar ∈ unfound \/ exists p, found_at sys_stat locations jar p)
           requirements) \/
      (exists p, file_exists sys_stat p = Throw e)
  end.
Proof.
  unfold find_system_default. pose proof (find_all_spec sys_stat requirements [] []) as H.
  destruct (find_all sys_stat requirements [] []) as [[c' u']|e]; cbn [result_bind]; [|by right].
  destruct H as (c & u & -> & -> & Hc & Hu & Hall). cbn.
  destruct u as [|jar u]; [by apply Hc|]. left. by exists (jar :: u).
Qed.

(** C15: over every history of registrations, unregistrations, destroyed registration
    objects and the destruction of the registry itself, the registry behaves as a finite
    map from versions to class paths: each operation gives the reply the map gives and
    leaves what the map leaves, so a version is registered at most once, and removing
    one keeps the others; its size is that of the map; and the class path found as the
    newest is that of the greatest version in the order of strings, and is missing only
    when the map is empty. *)
Theorem registry_refines ops :
  let '(replies, self) := run_ops ops empty_registry in
  let '(replies', spec) := spec_ops ops (RegistrySpec ∅ ∅ true) in
  replies = replies' /\ abstract self = spec /\ size self = base.size (sp_map spec) /\
  match find_newest_classpath self with
  | Some cp => exists v, sp_map spec !! v = Some cp /\
      forall v' cp', sp_map spec !! v' = Some cp' -> str_ltb v v' = false
  | None => sp_map spec = ∅
  end.
Proof.
  pose proof (run_ops_refines ops empty_registry I) as H. change (abstract empty_registry) with
    (RegistrySpec ∅ ∅ true) in H.
  destruct (run_ops ops empty_registry) as [replies self].
  destruct (spec_ops ops (RegistrySpec ∅ ∅ true)) as [replies' spec].
  destruct H as (-> & <- & Hwf). cbn [sp_map abstract]. split_and!; [done|done| |].
  - unfold size. by rewrite om_view_size.
  - pose proof (find_newest_greatest self) as G.
    destruct (find_newest_classpath self) as [cp|] eqn:E.
    + destruct (G cp Hwf eq_refl) as (v & Hv & Hmax). exists v. rewrite om_view_lookup by done.
      split; [done|]. intros v' cp'. rewrite om_view_lookup by done. apply Hmax.
    + unfold find_newest_classpath in E. destruct (registrations self) as [|x l] eqn:El; [done|].
      destruct (last (x :: l)) as [[]|] eqn:Elast; [done|].
      apply last_None in Elast. done.
Qed.

(** A registration that was already unregistered still removes by name when it is
    destroyed: the version that was registered anew in between disappears from the
    registry while its own registration is alive. *)
Theorem stale_registration version old new :
  exists s1 s2 s3,
    register_classpath_server empty_registry 1 version old = Ok s1 /\
    unregister_server s1 (Some 1%nat) = (true, s2) /\
    register_classpath_server s2 2 version new = Ok s3 /\
    find_newest_classpath s3 = Some new /\
    live (release s3 1) !! 2%nat = Some version /\
    find_newest_classpath (release s3 1) = None.
Proof.
  assert (forall x : classpath, om_erase version (om_insert version x []) = []) as He.
  { intros x. cbn. by rewrite str_ltb_irrefl. }
  assert (forall x : classpath, om_find version (om_insert version x []) = Some x) as Hf.
  { intros x. cbn. by rewrite str_ltb_irrefl. }
  exists (PackageRegistry (om_insert version old []) {[1%nat := version]} true),
    (PackageRegistry [] {[1%nat := version]} true),
    (PackageRegistry (om_insert version new []) (<[2%nat := version]> {[1%nat := version]}) true).
  split_and!; [done| |done|done|..].
  - unfold unregister_server, unregister_name. cbn [live registrations].
    rewrite lookup_singleton_eq, Hf, He. by rewrite bool_decide_true by eauto.
  - unfold release. cbn [live registrations]. rewrite lookup_insert_ne, lookup_singleton_eq by done.
    cbn. by rewrite lookup_delete_ne, lookup_insert_eq by done.
  - unfold release. cbn [live registrations]. rewrite lookup_insert_ne, lookup_singleton_eq by done.
    unfold unregister_name, find_newest_classpath. cbn [registrations snd]. by rewrite He.
Qed.
