(* ===== verification/Startup.v ===== *)
(** * Startup: the packages the build registers

    For each downloaded package the build fills in
    src/zk/server/classpath_registration_template.cpp.in with a version and a class path;
    the resulting file registers it when the program starts. The files are initialised in
    an order the language does not fix. *)

From S2P Require Import Prelude Text OrdMap Error Registry.

(** One filled-in template; [reg] is the registration object it makes. *)
Definition register_package (self : package_registry) (reg : nat)
    (server_version server_classpath : str) : res package_registry :=
  register_classpath_server self reg server_version (Classpath [server_classpath]).

(** The start of the program: an exception ends it. *)
Fixpoint register_packages (self : package_registry) (l : list (nat * str * str)) : res package_registry :=
  match l with
  | [] => Ok self
  | (reg, version, cp) :: rest => self' <-! register_package self reg version cp; register_packages self' rest
  end.

Definition versions (l : list (nat * str * str)) : list str := (fun p => p.1.2) <$> l.

Definition registered (p : nat * str * str) : str * classpath := (p.1.2, Classpath [p.2]).

(** The program starts exactly if the versions differ, from each other and from those
    that are there; then the registry has all of them. *)
Lemma register_packages_spec self l :
  om_wf (registrations self) ->
  match register_packages self l with
  | Ok s => NoDup (versions l) /\ (forall v, v ∈ versions l -> om_find v (registrations self) = None) /\
            om_wf (registrations s) /\ lifetime s = lifetime self /\
            live s = foldl (fun m p => <[p.1.1 := p.1.2]> m) (live self) l /\
            forall v c, om_find v (registrations s) = Some c <->
              om_find v (registrations self) = Some c \/ (v, c) ∈ registered <$> l
  | Throw _ => ~ (NoDup (versions l) /\ forall v, v ∈ versions l -> om_find v (registrations self) = None)
  end.
Proof.
  revert self. induction l as [|[[reg v] cp] l IH]; intros self Hwf; cbn [register_packages].
  { split_and!; [apply NoDup_nil_2|by intros v []%not_elem_of_nil|done..|]. set_solver. }
  unfold register_package, register_classpath_server.
  destruct (om_find v (registrations self)) as [c|] eqn:Hv; cbn.
  { intros [_ H]. rewrite (H v) in Hv; [done|]. by left. }
  set (self1 := PackageRegistry _ _ _).
  assert (forall u, u <> v -> om_find u (registrations self1) = om_find u (registrations self)) as Hu.
  { intros u Hu. by apply om_find_insert_ne. }
  assert (om_find v (registrations self1) = Some (Classpath [cp])) as Hf.
  { unfold self1. cbn. by rewrite om_find_insert, Hv. }
  specialize (IH self1 (om_wf_insert _ _ _ Hwf)). destruct (register_packages self1 l) as [s|e].
  - destruct IH as (Hnd & Hfree & Hwf' & Hl & Hlive & Hs).
    assert (v ∉ versions l) as Hn by (intros Hin; by rewrite Hfree in Hf).
    assert (forall u, u ∈ versions l -> u <> v) as Hne by (by intros u ? ->).
    split_and!; [by apply NoDup_cons| |done|done|done|].
    + intros u [->|Hin]%elem_of_cons; [done|]. rewrite <- Hu by auto. auto.
    + intros u c. rewrite Hs, elem_of_cons. destruct (decide (u = v)) as [->|Hd].
      * rewrite Hf, Hv. unfold registered at 2. cbn. split; [naive_solver|].
        intros [?|[[= ->]|Hin]]; [done|by left|by right].
      * rewrite Hu by done. unfold registered at 2. cbn. naive_solver.
  - intros [[Hn Hnd]%NoDup_cons Hfree]. apply IH. split; [done|]. intros u Hin.
    rewrite Hu by (by intros ->). apply Hfree. by right.
Qed.

(** The registry of a program that started. *)
Lemma register_packages_ok self l :
  om_wf (registrations self) -> NoDup (versions l) ->
  (forall v, v ∈ versions l -> om_find v (registrations self) = None) ->
  exists s, register_packages self l = Ok s.
Proof.
  intros Hwf Hnd Hfree. pose proof (register_packages_spec self l Hwf) as H.
  destruct (register_packages self l) as [s|e]; [by exists s|]. by destruct H.
Qed.

(** Two orders of initialisation of the same files. *)
Lemma register_packages_perm l l' s :
  l ≡ₚ l' -> register_packages empty_registry l = Ok s ->
  exists s', register_packages empty_registry l' = Ok s' /\ registrations s' = registrations s.
Proof.
  intros Hp E. pose proof (register_packages_spec empty_registry l I) as H. rewrite E in H.
  destruct H as (Hnd & _ & Hwf & _ & _ & Hs).
  destruct (register_packages_ok empty_registry l' I) as [s' E'].
  - unfold versions. by rewrite <- Hp.
  - done.
  - pose proof (register_packages_spec empty_registry l' I) as H'. rewrite E' in H'.
    destruct H' as (_ & _ & Hwf' & _ & _ & Hs'). exists s'. split; [done|].
    apply om_ext; [done|done|]. intros v. apply option_eq. intros c. rewrite Hs, Hs'. by rewrite Hp.
Qed.

(** ** Properties *)

(** The order in which the generated files are initialised does not matter. If the
    program starts with one order it starts with every other, with the same registry: it
    holds exactly the packages of the files, under different versions, and its newest
    class path is that of the greatest version; if two files have the same version, no
    order lets it start. *)
Theorem startup_order l l' :
  l ≡ₚ l' ->
  match register_packages empty_registry l with
  | Ok s =>
      (exists s', register_packages empty_registry l' = Ok s' /\ registrations s' = registrations s /\
         find_newest_classpath s' = find_newest_classpath s) /\
      NoDup (versions l) /\ size s = length l /\
      (forall v c, om_find v (registrations s) = Some c <-> (v, c) ∈ registered <$> l)
  | Throw _ => ~ NoDup (versions l) /\ exists e, register_packages empty_registry l' = Throw e
  end.
Proof.
  intros Hp. pose proof (register_packages_spec empty_registry l I) as H.
  destruct (register_packages empty_registry l) as [s|e] eqn:E.
  - destruct H as (Hnd & _ & Hwf & _ & _ & Hs). split_and!; [|done| |].
    + destruct (register_packages_perm l l' s Hp E) as (s' & E' & Hr). exists s'.
      split_and!; [done|done|]. unfold find_newest_classpath. by rewrite Hr.
    + unfold size. transitivity (length (registered <$> l)); [|apply length_fmap].
      apply Permutation_length, NoDup_Permutation.
      * apply (NoDup_fmap_1 fst), om_wf_nodup, Hwf.
      * apply (NoDup_fmap_1 fst). by rewrite <- list_fmap_compose.
      * intros [v c]. rewrite <- om_find_elem by done. rewrite Hs. naive_solver.
    + intros v c. rewrite Hs. naive_solver.
  - split; [by intros Hnd; apply H|]. destruct (register_packages empty_registry l') as [s'|e'] eqn:E'; [|eauto].
    symmetry in Hp. destruct (register_packages_perm l' l s' Hp E') as (s & E'' & _). congruence.
Qed.

Lemma startup_order_witness :
  let l := [(1%nat, "3.4.9" : str, "a.jar" : str); (2%nat, "3.5.3" : str, "b.jar" : str)] in
  exists s, register_packages empty_registry (reverse l) = Ok s /\ size s = 2%nat.
Proof.
  intros l. pose proof (startup_order (reverse l) l) as H.
  exists (PackageRegistry [("3.4.9" : str, Classpath ["a.jar" : str]); ("3.5.3" : str, Classpath ["b.jar" : str])]
            (<[1%nat := "3.4.9" : str]> (<[2%nat := "3.5.3" : str]> ∅)) true).
  assert (reverse l ≡ₚ l) as Hp by apply reverse_Permutation. specialize (H Hp). split; [reflexivity|].
  change (register_packages empty_registry (reverse l)) with (Ok (E := exn) (PackageRegistry [("3.4.9" : str, Classpath ["a.jar" : str]); ("3.5.3" : str, Classpath ["b.jar" : str])]
            (<[1%nat := "3.4.9" : str]> (<[2%nat := "3.5.3" : str]> ∅)) true)) in H.
  apply H.
Defined.
