(* ===== verification/Server.v ===== *)
(** * Server: src/zk/server/server.cpp and src/zk/server/server_group.cpp

    What a server process is started with, and the construction of a local ensemble.
    Operating system calls are arguments: whether they succeed is the environment's
    choice; what they were called with is logged. *)

From S2P Require Import Prelude Text OrdMap Error Configuration ConfigurationSpec.
From S2P Require Import ConfigurationTheory Seconds ConnectionParams Registry.
Local Open Scope Z_scope.

(** ** server *)

Definition validate_settings (settings : configuration) : res unit :=
  if is_minimal settings then Ok tt
  else match source_file settings with
       | None => Throw (InvalidArgument "Configuration has not been saved to a file")
       | Some _ => Ok tt
       end.

(** The arguments [run_process] gives [java]; [value()] of an empty optional throws. *)
Definition process_args (packages : classpath) (settings : configuration) : res (list str) :=
  let args := ["-cp" : str; command_line packages;
               "org.apache.zookeeper.server.quorum.QuorumPeerMain"] in
  if is_minimal settings then
    match data_directory settings with
    | Some d => Ok (args ++ [print_uint (client_port settings); d])
    | None => Throw BadOptionalAccess
    end
  else
    match source_file settings with
    | Some f => Ok (args ++ [f])
    | None => Throw BadOptionalAccess
    end.

(** The constructor: the arguments of the process the worker thread starts. An
    exception in the worker would end the program. *)
Definition start_server (packages : classpath) (settings : configuration)
    : res (res (list str)) :=
  result_bind (validate_settings settings) (fun _ => Ok (process_args packages settings)).

(** The constructor without a class path; [sys_stat] is the file system as
    [find_system_default] sees it. *)
Definition start_default_server (sys_stat : str -> option Z) (settings : configuration)
    : res (res (list str)) :=
  result_bind (find_system_default sys_stat) (fun packages => start_server packages settings).

(** One round of [drain_pipes]: what was read from the two pipes, what is written to
    [cout] and [cerr], and whether to go on. The text for [cerr] is [out]. *)
Definition drain_round (out err : str) : str * str * bool :=
  ((match out with [] => [] | _ => out end),
   (match err with [] => [] | _ => out end),
   match out, err with [], [] => false | _, _ => true end).

(** ** server_group *)

Record info := Info {
  settings : configuration;
  name : str;
  path : str;
  peer_port : Z;
  leader_port : Z;
}.

Record server_group := ServerGroup {
  servers_of : list (Z * info);
  conn_string : str;
}.

(** The effects on the file system, in order. *)
Inductive fs_action :=
| Mkdir (path : str)
| WriteFile (path content : str).

(** What the environment answers: [mkdir_errno], whether [myid] can be opened, whether
    the settings could be written. *)
Record fs := Fs {
  mkdir_errno : str -> option Z;
  can_open : str -> bool;
  can_write : str -> bool;
}.

Definition G (A : Type) : Type := list fs_action -> mres A * list fs_action.

Definition greturn {A} (a : A) : G A := fun l => (MOk a, l).
Definition glift {A} (m : mres A) : G A := fun l => (m, l).
Definition gbind {A B} (m : G A) (k : A -> G B) : G B := fun l =>
  match m l with
  | (MOk a, l') => k a l'
  | (MThrow e, l') => (MThrow e, l')
  | (MUndef, l') => (MUndef, l')
  end.
Definition gdo (a : fs_action) : G unit := fun l => (MOk tt, l ++ [a]).

Notation "'let%' x ':=' m 'in' k" := (gbind m (fun x => k))
  (at level 10, x name, m at level 100, k at level 200) : zk_scope.

Section ensemble.
Context (env : fs).

Definition create_directory (p : str) : G unit := fun l =>
  match mkdir_errno env p with
  | Some errno => (MThrow (SystemError errno []), l)
  | None => gdo (Mkdir p) l
  end.

Definition save_id_file (p : str) (id : Z) : G unit :=
  if can_open env p then gdo (WriteFile p (print_uint id ++ [newline]))
  else glift (MThrow (RuntimeError "IO failure")).

Definition save_settings (filename : str) (c : configuration) : G configuration :=
  match save_file filename (can_write env filename) c with
  | Ok c' => let% _u := gdo (WriteFile filename (save c)) in greturn c'
  | Throw e => glift (MThrow e)
  end.

(** [base_port++] on a [uint16_t]. *)
Definition next_port (p : Z) : Z := u16 (p + 1).

(** The first loop of [make_ensemble], from index [idx] on. *)
Fixpoint make_infos (n : nat) (idx base_port : Z) (base_directory : str)
    (base_settings : configuration) (out : list (Z * info)) : mres (list (Z * info)) :=
  match n with
  | O => MOk out
  | S n' =>
      id <-? lift_res (make_server_id (u64 (idx + 1))) ;
      let name := print_uint id in
      let path := base_directory ++ "/" ++ name in
      c1 <-? set_client_port (Some base_port) base_settings ;
      c2 <-? set_data_directory (Some (path ++ "/data")) c1 ;
      let p1 := next_port base_port in
      let p2 := next_port p1 in
      make_infos n' (idx + 1) (next_port p2) base_directory base_settings
        (om_insert id (Info c2 name path p1 p2) out)
  end.

(** The inner loop: every server is told of all servers. *)
Fixpoint add_servers (all : list (Z * info)) (c : configuration) : mres configuration :=
  match all with
  | [] => MOk c
  | (id2, s2) :: rest =>
      c' <-? add_server id2 "127.0.0.1" (peer_port s2) (leader_port s2) c ;
      add_servers rest c'
  end.

(** The second loop: the servers done, and the connection string with [first]. *)
Fixpoint write_servers (all todo : list (Z * info)) (out : list (Z * info)) (first : bool)
    (conn_str : str) : G (list (Z * info) * str) :=
  match todo with
  | [] => greturn (out, conn_str)
  | (id, srvr) :: rest =>
      let% c := glift (add_servers all (settings srvr)) in
      let% _u := create_directory (path srvr) in
      let% _u := create_directory (path srvr ++ "/data") in
      let% _u := save_id_file (path srvr ++ "/data/myid") id in
      let% c' := save_settings (path srvr ++ "/settings.cfg") c in
      write_servers all rest
        (out ++ [(id, Info c' (name srvr) (path srvr) (peer_port srvr) (leader_port srvr))])
        false
        (conn_str ++ (if first then [] else ",") ++ "127.0.0.1:" ++ print_uint (client_port c'))
  end.

Definition make_ensemble (size : nat) (base_settings : configuration) : G server_group :=
  match data_directory base_settings with
  | None => glift (MThrow (InvalidArgument "Settings must specify a base directory"))
  | Some base_directory =>
      let base_port := if client_port base_settings =? default_client_port then 18500
                       else client_port base_settings in
      let% infos := glift (make_infos size 0 base_port base_directory base_settings []) in
      let% _u := create_directory base_directory in
      let% r := write_servers infos infos [] true "zk://" in
      greturn (ServerGroup r.1 (r.2 ++ "/"))
  end.

End ensemble.

(** [start_all_servers]: [instances] are the IDs of the servers that have an instance.
    Each other server is started; with it comes the arguments its process gets. When a
    constructor throws, the servers before it have been started. *)
Fixpoint start_all_servers (packages : classpath) (l : list (Z * info)) (instances : gset Z)
    (started : list (res (list str))) : res unit * gset Z * list (res (list str)) :=
  match l with
  | [] => (Ok tt, instances, started)
  | (id, x) :: rest =>
      if decide (id ∈ instances) then start_all_servers packages rest instances started
      else match start_server packages (settings x) with
           | Ok a => start_all_servers packages rest ({[id]} ∪ instances) (started ++ [a])
           | Throw e => (Throw e, instances, started)
           end
  end.

(** ** Example *)

Definition willing : fs := Fs (fun _ => None) (fun _ => true) (fun _ => true).

Example three_servers :
  exists c, make_minimal "test-data" 2181 = MOk c /\
  match make_ensemble willing 3 c [] with
  | (MOk g, log) =>
      conn_string g = "zk://127.0.0.1:18500,127.0.0.1:18503,127.0.0.1:18506/" /\ length log = 13%nat
  | _ => False
  end.
Proof. eexists. split; [vm_compute; reflexivity|]. vm_compute. done. Qed.
