(* ===== verification/ServerTheory.v ===== *)
(** * ServerTheory: the ensemble a server group builds *)

From S2P Require Import Prelude Text OrdMap Error Configuration ConfigurationSpec.
From S2P Require Import ConfigurationTheory Seconds ConnectionParams Registry Server.
Local Open Scope Z_scope.

(** ** Setters on well-formed configurations *)

Lemma set_no_throw {T} (t : setting T) v key enc ls e : set t v key enc ls <> MThrow e.
Proof. unfold set. by destruct (s_line t), v; try destruct (decide _). Qed.

(** A setter that cannot throw succeeds with its edit. *)
Lemma setter_ok op c k v text :
  op_edit op = Some (k, v, text) -> config_wf c -> (forall e, apply_op op c <> MThrow e) ->
  exists c', apply_op op c = MOk c' /\ config_wf c' /\ s_value (view c' k) = v /\
    (forall k', k' <> k -> view c' k' = view c k') /\ source_file c' = source_file c.
Proof.
  intros Hop Hwf Hne. pose proof (apply_op_edit op c k v text Hop Hwf) as H.
  destruct (edit_defined c k text Hwf) as (l & ls' & Hed). rewrite Hed in H.
  destruct H as [[e He]|(c' & E & [Hm Hl Ht Ho Hf] & _)]; [by apply Hne in He|].
  exists c'. split_and!; [done|by eapply apply_op_wf|by rewrite Ht|done|done].
Qed.

Lemma set_client_port_ok p c :
  config_wf c ->
  exists c', set_client_port (Some p) c = MOk c' /\ config_wf c' /\ client_port c' = p /\
    (forall k, k <> KClientPort -> view c' k = view c k) /\ source_file c' = source_file c.
Proof.
  intros Hwf. destruct (setter_ok (SetClientPort (Some p)) c _ _ _ eq_refl Hwf) as (c' & E & Hwf' & Hv & Ho & Hf).
  - cbn. unfold set_client_port. intros e. destruct (set _ _ _ _ _) eqn:E; cbn; try done.
    by apply set_no_throw in E.
  - exists c'. split_and!; try done. unfold client_port. cbn in Hv.
    destruct (s_value (client_port_ c')); cbn in Hv; by simplify_eq.
Qed.

Lemma set_data_directory_ok d c :
  config_wf c ->
  exists c', set_data_directory (Some d) c = MOk c' /\ config_wf c' /\ data_directory c' = Some d /\
    (forall k, k <> KDataDir -> view c' k = view c k) /\ source_file c' = source_file c.
Proof.
  intros Hwf. destruct (setter_ok (SetDataDirectory (Some d)) c _ _ _ eq_refl Hwf) as (c' & E & Hwf' & Hv & Ho & Hf).
  - cbn. unfold set_data_directory. intros e. destruct (set _ _ _ _ _) eqn:E; cbn; try done.
    by apply set_no_throw in E.
  - exists c'. split_and!; try done. unfold data_directory. cbn in Hv.
    destruct (s_value (data_directory_ c')); cbn in Hv; by simplify_eq.
Qed.

Lemma client_port_view c c' : view c' KClientPort = view c KClientPort -> client_port c' = client_port c.
Proof.
  unfold client_port. cbn. unfold map_setting. intros [= H _].
  destruct (s_value (client_port_ c')), (s_value (client_port_ c)); try done. by injection H as ->.
Qed.

Lemma add_server_ok id host pp lp c :
  config_wf c -> valid_id id = true -> om_find id (server_paths c) = None ->
  exists c', add_server id host pp lp c = MOk c' /\ config_wf c' /\
    server_paths c' = om_insert id (Setting (Some (server_address host pp lp)) (Some (length (lines c))))
                        (server_paths c) /\
    s_value (view c' (KServer id)) = Some (DStr (server_address host pp lp)) /\
    (forall k, k <> KServer id -> view c' k = view c k) /\ source_file c' = source_file c.
Proof.
  intros Hwf Hid Hn.
  assert (exists c', add_server id host pp lp c = MOk c' /\
    server_paths c' = om_insert id (Setting (Some (server_address host pp lp)) (Some (length (lines c))))
                        (server_paths c)) as (c' & E & Esp).
  { unfold add_server, ensure_valid. unfold valid_id in Hid. rewrite Hid, Hn. cbn.
    eexists. split; [done|]. by destruct c. }
  destruct (setter_ok (AddServer id host pp lp) c _ _ _ eq_refl Hwf) as (c1 & E1 & Hwf' & Hv & Ho & Hf).
  - cbn [apply_op]. rewrite E. done.
  - cbn [apply_op] in E1. assert (c1 = c') as -> by congruence. eauto 10.
Qed.

(** ** The first loop *)

(** The server with index [i]. *)
Record info_ok (port : Z) (dir : str) (base : configuration) (i : nat) (x : Z * info) : Prop := InfoOk {
  io_id : x.1 = Z.of_nat i + 1;
  io_path : path x.2 = dir ++ "/" ++ print_uint x.1;
  io_client : client_port (settings x.2) = u16 (port + 3 * Z.of_nat i);
  io_peer : peer_port x.2 = u16 (port + 3 * Z.of_nat i + 1);
  io_leader : leader_port x.2 = u16 (port + 3 * Z.of_nat i + 2);
  io_wf : config_wf (settings x.2);
  io_servers : forall id, view (settings x.2) (KServer id) = view base (KServer id);
}.

Lemma u16_next z : u16 (u16 z + 1) = u16 (z + 1).
Proof. unfold u16, wrap_u. by rewrite Zplus_mod_idemp_l. Qed.

Lemma make_infos_ok n i port dir base out :
  config_wf base -> Z.of_nat i + Z.of_nat n <= 255 ->
  length out = i -> (forall j x, out !! j = Some x -> info_ok port dir base j x) ->
  exists r, make_infos n (Z.of_nat i) (u16 (port + 3 * Z.of_nat i)) dir base out = MOk (out ++ r) /\
    length r = n /\ forall j x, (out ++ r) !! j = Some x -> info_ok port dir base j x.
Proof.
  intros Hwf. revert i out. induction n as [|n IH]; intros i out Hn Hlen Hout.
  { exists []. rewrite app_nil_r. done. }
  cbn [make_infos]. set (id := Z.of_nat i + 1).
  assert (u64 id = id) as -> by (apply wrap_u_small; lia).
  assert (make_server_id id = Ok id) as ->.
  { unfold make_server_id, ensure_valid. replace ((0 <? id) && (id <? 256)) with true; [done|].
    symmetry. apply andb_true_intro. split; apply Z.ltb_lt; lia. }
  cbn [lift_res mres_bind].
  destruct (set_client_port_ok (u16 (port + 3 * Z.of_nat i)) base Hwf) as (c1 & -> & Hwf1 & Hp1 & Hv1 & _).
  cbn [mres_bind].
  destruct (set_data_directory_ok ((dir ++ "/" ++ print_uint id) ++ "/data") c1 Hwf1)
    as (c2 & -> & Hwf2 & _ & Hv2 & _). cbn [mres_bind].
  unfold next_port. rewrite !u16_next.
  set (x := Info c2 _ _ _ _).
  assert (info_ok port dir base i (id, x)) as Hx.
  { constructor; try done.
    - cbn. rewrite (client_port_view c1 c2); [done|]. by apply Hv2.
    - cbn. f_equal. lia.
    - intros id'. change (view c2 (KServer id') = view base (KServer id')). by rewrite Hv2, Hv1. }
  assert (om_insert id x out = out ++ [(id, x)]) as ->.
  { apply om_insert_last. apply Forall_forall. intros [k y] Hin. apply list_elem_of_lookup in Hin as [j Hj].
    pose proof (lookup_lt_Some _ _ _ Hj). apply Hout in Hj. destruct Hj as [Hid _ _ _ _ _ _]. cbn in *.
    apply Z.ltb_lt. lia. }
  replace (port + 3 * Z.of_nat i + 1 + 1 + 1) with (port + 3 * Z.of_nat (S i)) by lia.
  destruct (IH (S i) (out ++ [(id, x)])) as (r & E & Hr & Hall).
  - lia.
  - rewrite length_app. cbn. lia.
  - intros j y Hj. apply lookup_app_Some in Hj as [Hj|[Hge Hj]]; [by apply Hout|].
    apply list_lookup_singleton_Some in Hj as [Hj <-]. by replace j with i by lia.
  - exists ((id, x) :: r). rewrite <- app_assoc in E, Hall. cbn [app] in E, Hall.
    split_and!; [|cbn; lia|exact Hall]. rewrite <- E. f_equal; [unfold id; lia|].
    rewrite <- (Z.add_assoc (u16 _)). unfold u16, wrap_u. rewrite Zplus_mod_idemp_l. f_equal. lia.
Qed.

(** ** The second loop *)

(** Adding servers changes no other setting. *)
Lemma add_servers_keep all c c' k :
  config_wf c -> add_servers all c = MOk c' -> k ∉ (fun z => KServer z.1) <$> all ->
  view c' k = view c k.
Proof.
  revert c; induction all as [|[i z] all IH]; intros c Hwf E Hk; [by injection E as ->|].
  cbn [add_servers] in E. destruct (add_server i _ _ _ c) as [c1| |] eqn:E1; try done. cbn in E.
  destruct (setter_ok (AddServer i "127.0.0.1" (peer_port z) (leader_port z)) c _ _ _ eq_refl Hwf)
    as (c2 & E2 & Hwf2 & _ & Ho & _); [cbn [apply_op]; by rewrite E1|].
  cbn [apply_op] in E2. assert (c2 = c1) as -> by congruence.
  rewrite (IH c1 Hwf2 E) by set_solver. apply Ho. set_solver.
Qed.

(** Telling a server of all servers. *)
Lemma add_servers_ok all c :
  config_wf c -> NoDup all.*1 -> Forall (fun x => valid_id x.1 = true) all ->
  (forall x, x ∈ all -> om_find x.1 (server_paths c) = None) ->
  exists c', add_servers all c = MOk c' /\ config_wf c' /\ client_port c' = client_port c /\
    source_file c' = source_file c /\
    forall x, x ∈ all -> s_value (view c' (KServer x.1))
      = Some (DStr (server_address "127.0.0.1" (peer_port x.2) (leader_port x.2))).
Proof.
  revert c; induction all as [|[id y] all IH]; intros c Hwf Hnd Hval Hnone.
  { exists c. split_and!; try done. by intros x ?%elem_of_nil. }
  cbn [add_servers]. apply NoDup_cons in Hnd as [Hid Hnd]. apply Forall_cons in Hval as [Hv Hval].
  destruct (add_server_ok id "127.0.0.1" (peer_port y) (leader_port y) c Hwf Hv) as (c1 & -> & Hwf1 & Hsp & Hnew & Ho & Hf).
  { apply (Hnone (id, y)). left. }
  cbn [mres_bind]. destruct (IH c1 Hwf1 Hnd Hval) as (c2 & E & Hwf2 & Hp & Hf2 & Hall).
  { intros x Hx. rewrite Hsp, om_find_insert_ne.
    - apply Hnone. by right.
    - intros ->. apply Hid. by apply (list_elem_of_fmap_2 fst) in Hx.
    - apply (mw_servers _ (cw_maps _ Hwf)). }
  exists c2. split_and!; [exact E|done| |congruence|].
  - rewrite Hp. by apply client_port_view, Ho.
  - intros x [->|Hx]%elem_of_cons; [|by apply Hall]. cbn [fst snd].
    rewrite (add_servers_keep all c1 c2); [done|done|done|]. intros Hin. apply list_elem_of_fmap in Hin as (z & [= Hz] & Hin).
    apply Hid. cbn. rewrite Hz. by apply (list_elem_of_fmap_2 fst) in Hin.
Qed.

Lemma config_wf_source_file f c : config_wf c -> config_wf (with_source_file f c).
Proof.
  intros [H1 H2 H3 H4]. constructor.
  - by apply maps_wf_with_source_file.
  - intros k l. rewrite view_with_source_file. replace (lines (with_source_file f c)) with (lines c)
      by by destruct c. apply H2.
  - intros k k' l. rewrite !view_with_source_file. apply H3.
  - intros k. rewrite view_with_source_file. apply H4.
Qed.

(** A file system that refuses nothing. *)
Record fs_ok (env : fs) : Prop := FsOk {
  fo_mkdir : forall p, mkdir_errno env p = None;
  fo_open : forall p, can_open env p = true;
  fo_write : forall p, can_write env p = true;
}.

(** A server whose files are written: [y] is [x] with the final settings. *)
Record written (all : list (Z * info)) (x y : Z * info) : Prop := Written {
  wr_id : y.1 = x.1;
  wr_path : path y.2 = path x.2;
  wr_peer : peer_port y.2 = peer_port x.2;
  wr_leader : leader_port y.2 = leader_port x.2;
  wr_client : client_port (settings y.2) = client_port (settings x.2);
  wr_wf : config_wf (settings y.2);
  wr_file : source_file (settings y.2) = Some (path x.2 ++ "/settings.cfg");
  wr_servers : forall z, z ∈ all -> s_value (view (settings y.2) (KServer z.1))
    = Some (DStr (server_address "127.0.0.1" (peer_port z.2) (leader_port z.2)));
}.

Definition host_of (x : Z * info) : str := "127.0.0.1:" ++ print_uint (client_port (settings x.2)).

(** The text the joining in the loop adds. *)
Definition joined (first : bool) (hs : list str) : str :=
  match hs with [] => [] | _ => (if first then [] else ",") ++ intercalate "," hs end.

(** What is put on the disk for a server. *)
Definition files_of (x : Z * info) : list fs_action :=
  [Mkdir (path x.2); Mkdir (path x.2 ++ "/data");
   WriteFile (path x.2 ++ "/data/myid") (print_uint x.1 ++ [newline]);
   WriteFile (path x.2 ++ "/settings.cfg") (save (settings x.2))].

Lemma write_server_step env all id srvr rest out first cs log :
  fs_ok env -> config_wf (settings srvr) -> NoDup all.*1 ->
  Forall (fun x => valid_id x.1 = true) all ->
  (forall x, x ∈ all -> om_find x.1 (server_paths (settings srvr)) = None) ->
  exists y, written all (id, srvr) y /\
    write_servers env all ((id, srvr) :: rest) out first cs log
    = write_servers env all rest (out ++ [y]) false
        (cs ++ (if first then [] else ",") ++ host_of (id, srvr)) (log ++ files_of y).
Proof.
  intros [Hm Ho Hw] Hwf Hnd Hv Hn.
  destruct (add_servers_ok all (settings srvr) Hwf Hnd Hv Hn) as (c & E & Hwf' & Hp & _ & Hall).
  set (c' := with_source_file (Some (path srvr ++ "/settings.cfg")) c).
  exists (id, Info c' (name srvr) (path srvr) (peer_port srvr) (leader_port srvr)).
  assert (client_port c' = client_port (settings srvr)) as Hcp.
  { rewrite <- Hp. apply client_port_view. apply view_with_source_file. }
  split.
  - constructor; try done; cbn.
    + by apply config_wf_source_file.
    + by destruct c.
    + intros z Hz. change (s_value (view c' (KServer z.1)) = Some (DStr (server_address "127.0.0.1" (peer_port z.2) (leader_port z.2)))).
      unfold c'. rewrite view_with_source_file. by apply Hall.
  - cbn [write_servers]. unfold gbind at 1, glift. rewrite E.
    unfold gbind at 1, create_directory. rewrite !Hm. unfold gdo at 1.
    unfold gbind at 1. unfold gdo at 1.
    unfold gbind at 1, save_id_file. rewrite Ho. unfold gdo at 1.
    unfold gbind at 1, save_settings, save_file. rewrite Hw. unfold gbind at 1, gdo at 1, greturn at 1.
    cbv beta iota. fold c'. unfold host_of. cbn [snd settings]. rewrite Hcp.
    rewrite <- !app_assoc. unfold files_of. cbn [fst snd path settings app].
    replace (save c') with (save c) by by destruct c. done.
Qed.

Lemma write_servers_ok env all todo out first cs log :
  fs_ok env -> NoDup all.*1 -> Forall (fun x => valid_id x.1 = true) all ->
  (forall y, y ∈ todo -> config_wf (settings y.2) /\
     forall x, x ∈ all -> om_find x.1 (server_paths (settings y.2)) = None) ->
  exists r, write_servers env all todo out first cs log
      = (MOk (out ++ r, cs ++ joined first (host_of <$> todo)), log ++ mjoin (files_of <$> r)) /\
    Forall2 (written all) todo r.
Proof.
  intros He Hnd Hv. revert out first cs log. induction todo as [|[id srvr] todo IH]; intros out first cs log Ht.
  { exists []. cbn. rewrite !app_nil_r. split; [done|constructor]. }
  destruct (Ht (id, srvr) ltac:(left)) as [Hwf Hn].
  destruct (write_server_step env all id srvr todo out first cs log He Hwf Hnd Hv Hn) as (y & Hy & ->).
  destruct (IH (out ++ [y]) false (cs ++ (if first then [] else ",") ++ host_of (id, srvr)) (log ++ files_of y)) as (r & -> & Hr).
  { intros z Hz. apply Ht. by right. }
  exists (y :: r). split; [|by constructor]. rewrite !fmap_cons, <- !app_assoc. cbn [app].
  do 3 f_equal. unfold joined. destruct (host_of <$> todo) as [|h hs]; [by rewrite app_nil_r|done].
Qed.

(** ** Ports *)

Lemma u16_inj_near a b : - 65536 < a - b < 65536 -> u16 a = u16 b -> a = b.
Proof.
  unfold u16, wrap_u. intros Hr H. change (2 ^ 16) with 65536 in H.
  pose proof (Z.div_mod a 65536 ltac:(lia)). pose proof (Z.div_mod b 65536 ltac:(lia)). lia.
Qed.

Definition ports_of (x : Z * info) : list Z :=
  [client_port (settings x.2); peer_port x.2; leader_port x.2].

Lemma ports_distinct port dir base infos :
  (length infos <= 255)%nat ->
  (forall j x, infos !! j = Some x -> info_ok port dir base j x) ->
  NoDup (mjoin (ports_of <$> infos)).
Proof.
  intros Hlen Hall.
  assert (mjoin (ports_of <$> infos)
    = (fun n => u16 (port + Z.of_nat n)) <$> seq 0 (3 * length infos)) as ->.
  { revert Hall. clear Hlen. induction infos as [|x infos IH] using rev_ind; intros Hall; [done|].
    rewrite fmap_app, join_app, IH.
    2: { intros j y Hj. apply Hall. by apply lookup_app_l_Some. }
    rewrite length_app. cbn [length fmap list_fmap mjoin list_join].
    replace (3 * (length infos + 1))%nat with (3 * length infos + 3)%nat by lia.
    rewrite seq_app, fmap_app. f_equal.
    destruct (Hall (length infos) x) as [_ _ H1 H2 H3 _ _]; [by rewrite list_lookup_middle|].
    unfold ports_of. rewrite H1, H2, H3. cbn [seq fmap list_fmap app].
    f_equal; [f_equal; lia|]. f_equal; [f_equal; lia|]. f_equal. f_equal. lia. }
  apply NoDup_fmap_2_strong; [|apply NoDup_ListNoDup, seq_NoDup].
  intros a b Ha Hb H. apply elem_of_seq in Ha, Hb. apply u16_inj_near in H; lia.
Qed.

(** ** Starting *)

Definition java_args (packages : classpath) (x : info) : list str :=
  ["-cp" : str; command_line packages; "org.apache.zookeeper.server.quorum.QuorumPeerMain";
   path x ++ "/settings.cfg"].

(** A server that knows of another is started from its file. *)
Lemma start_written all x y z packages :
  written all x y -> z ∈ all ->
  start_server packages (settings y.2) = Ok (Ok (java_args packages y.2)).
Proof.
  intros [_ Hpath _ _ _ Hwf Hf Hs] Hz.
  assert (is_minimal (settings y.2) = false) as Hmin.
  { destruct (is_minimal (settings y.2)) eqn:E; [|done]. exfalso.
    destruct (minimal_keys _ Hwf E (KServer z.1)) as [?|[?|[?|?]]]; try done. rewrite Hs by done. eauto. }
  unfold start_server, validate_settings, process_args, java_args. rewrite Hmin, Hf, Hpath. done.
Qed.

(** The connection string of a list of hosts. *)
Lemma parse_hosts hs :
  hs <> [] -> Forall (fun h => h <> [] /\ lacks "," h = true /\ lacks "/" h = true) hs ->
  parse ("zk://" ++ intercalate "," hs ++ "/")
  = MOk (ConnectionParams "zk" hs "/" true false default_timeout).
Proof.
  intros Hne Hall.
  rewrite <- (parse_print_params (ConnectionParams "zk" hs "/" true false default_timeout)).
  - by rewrite print_params_query.
  - unfold params_wf. cbn [connection_schema hosts chroot timeout].
    rewrite (bool_decide_false (_ = [])) by done. rewrite Forall_forall in Hall.
    destruct (last hs) as [h|] eqn:Hl; [|by apply last_None in Hl].
    destruct (Hall h (last_Some_elem_of _ _ Hl)) as [Hh _]. destruct h; [done|].
    replace (forallb _ hs) with true; [done|]. symmetry.
    rewrite forallb_forall. intros x Hin%list_elem_of_In. by destruct (Hall x Hin) as (_ & -> & ->).
Qed.

Lemma digits_lack c ds :
  is_digit c = false -> Forall (fun d => is_digit d = true) ds -> lacks c ds = true.
Proof.
  intros Hc Hd. apply lacks_forall. eapply Forall_impl; [exact Hd|]. intros d Hd'.
  destruct (Ascii.eqb_spec c d) as [->|]; [congruence|done].
Qed.

Lemma host_of_clean x :
  0 <= client_port (settings x.2) ->
  host_of x <> [] /\ lacks "," (host_of x) = true /\ lacks "/" (host_of x) = true.
Proof.
  intros Hp. split; [done|].
  split; unfold host_of; apply lacks_forall; apply Forall_app;
    (split; [by repeat constructor|apply lacks_forall; apply digits_lack; [done|by apply print_uint_digits]]).
Qed.

(** ** The whole construction *)

(** A server ID is taken in a configuration exactly if its setting has a value. *)
Lemma server_none c id :
  config_wf c -> om_find id (server_paths c) = None <-> s_value (view c (KServer id)) = None.
Proof.
  intros Hwf. cbn. unfold found. destruct (om_find id (server_paths c)) as [[[v|] l]|] eqn:Ef; cbn; [done| |done].
  exfalso. pose proof (mw_servers_filled _ (cw_maps _ Hwf)) as Hfill. unfold filled in Hfill.
  rewrite Forall_forall in Hfill. apply om_find_elem in Ef; [|apply (mw_servers _ (cw_maps _ Hwf))].
  by destruct (Hfill _ Ef).
Qed.

Definition base_port (base : configuration) : Z :=
  if client_port base =? default_client_port then 18500 else client_port base.

(** The servers of the group, before anything is written. *)
Lemma infos_run n base dir :
  config_wf base -> 0 <= client_port base < 2 ^ 16 -> (n <= 255)%nat ->
  exists infos, make_infos n 0 (base_port base) dir base [] = MOk infos /\ length infos = n /\
    (forall i x, infos !! i = Some x -> info_ok (base_port base) dir base i x) /\
    Forall (fun x => valid_id x.1 = true) infos /\ NoDup infos.*1.
Proof.
  intros Hwf Hport Hn. set (bp := base_port base).
  assert (0 <= bp < 2 ^ 16) as Hbp by (unfold bp, base_port; destruct (_ =? _); lia).
  destruct (make_infos_ok n 0 bp dir base [] Hwf) as (infos & E & Hlen & Hinfo); [lia|done|done|].
  cbn [app] in E, Hinfo. change (Z.of_nat 0) with 0 in E.
  replace (u16 (bp + 3 * 0)) with bp in E by (rewrite Z.add_0_r; symmetry; by apply wrap_u_small).
  exists infos. split_and!; [done|done|done|..].
  - apply Forall_lookup. intros i x Hx. pose proof (lookup_lt_Some _ _ _ Hx).
    destruct (Hinfo i x Hx) as [-> _ _ _ _ _ _]. unfold valid_id.
    apply andb_true_intro. split; apply Z.ltb_lt; lia.
  - apply NoDup_alt. intros i j z Hi Hj. apply list_lookup_fmap_Some in Hi as (x & -> & Hx).
    apply list_lookup_fmap_Some in Hj as (y & Hxy & Hy).
    pose proof (io_id _ _ _ _ _ (Hinfo i x Hx)). pose proof (io_id _ _ _ _ _ (Hinfo j y Hy)). lia.
Qed.

Lemma ensemble_run env n base dir :
  fs_ok env -> config_wf base -> data_directory base = Some dir ->
  (forall id, 1 <= id <= Z.of_nat n -> om_find id (server_paths base) = None) ->
  0 <= client_port base < 2 ^ 16 -> (n <= 255)%nat ->
  exists infos r,
    make_ensemble env n base []
    = (MOk (ServerGroup r ("zk://" ++ joined true (host_of <$> infos) ++ "/")),
       Mkdir dir :: mjoin (files_of <$> r)) /\
    length infos = n /\ (forall i x, infos !! i = Some x -> info_ok (base_port base) dir base i x) /\
    Forall2 (written infos) infos r.
Proof.
  intros He Hwf Hd Hsp Hport Hn. unfold make_ensemble. rewrite Hd. cbv zeta. fold (base_port base).
  destruct (infos_run n base dir Hwf Hport Hn) as (infos & E & Hlen & Hinfo & Hvalid & Hnd).
  unfold gbind at 1, glift. rewrite E.
  unfold gbind at 1, create_directory at 1. rewrite (fo_mkdir _ He). unfold gdo at 1.
  destruct (write_servers_ok env infos infos [] true "zk://" ([] ++ [Mkdir dir]) He Hnd Hvalid)
    as (r & E' & Hr).
  { intros y Hy. apply list_elem_of_lookup in Hy as [i Hi]. destruct (Hinfo i y Hi) as [_ _ _ _ _ Hw Hs].
    split; [done|]. intros x Hx. apply server_none; [done|]. rewrite Hs. apply server_none; [done|].
    apply Hsp. apply list_elem_of_lookup in Hx as [j Hj]. pose proof (lookup_lt_Some _ _ _ Hj).
    rewrite (io_id _ _ _ _ _ (Hinfo j x Hj)). lia. }
  unfold gbind at 1. rewrite E'. exists infos, r. cbn [fst snd app]. split_and!; done.
Qed.

Lemma written_maps all l r :
  Forall2 (written all) l r -> ports_of <$> r = ports_of <$> l /\ host_of <$> r = host_of <$> l.
Proof.
  induction 1 as [|x y l r Hw _ [IH1 IH2]]; [done|]. destruct Hw as [_ _ Hp Hl Hc _ _ _].
  rewrite !fmap_cons, IH1, IH2. unfold ports_of, host_of. by rewrite Hp, Hl, Hc.
Qed.

Lemma filter_iff_in {A} (P Q : A -> Prop) `{!forall x, Decision (P x), !forall x, Decision (Q x)} (l : list A) :
  (forall x, x ∈ l -> P x <-> Q x) -> filter P l = filter Q l.
Proof.
  induction l as [|x l IH]; intros Hiff; [done|]. rewrite !filter_cons.
  rewrite IH by (intros y Hy; apply Hiff; by right).
  pose proof (Hiff x ltac:(left)). by repeat case_decide; try tauto.
Qed.

(** Starting servers that can be started starts each that has no instance once. *)
Lemma start_all_spec packages l args instances started :
  (forall x, x ∈ l -> start_server packages (settings x.2) = Ok (Ok (args x.2))) ->
  NoDup l.*1 ->
  start_all_servers packages l instances started =
    (Ok tt, list_to_set l.*1 ∪ instances,
     started ++ ((fun x => Ok (args x.2)) <$> filter (fun x => x.1 ∉ instances) l)).
Proof.
  revert instances started. induction l as [|[id x] l IH]; intros instances started Hs Hnd.
  { cbn. by rewrite app_nil_r, (left_id_L ∅ (∪)). }
  apply NoDup_cons in Hnd as [Hid Hnd]. cbn [start_all_servers]. rewrite filter_cons, !fmap_cons. cbn [fst].
  assert (forall y, y ∈ l -> start_server packages (settings y.2) = Ok (Ok (args y.2))) as Hs'
    by (intros y Hy; apply Hs; by right).
  destruct (decide (id ∈ instances)) as [Hin|Hin].
  - rewrite (decide_False (P := id ∉ instances)) by tauto. rewrite IH by done. do 2 f_equal.
    cbn [list_to_set]. set_solver.
  - rewrite (decide_True (P := id ∉ instances)) by done.
    pose proof (Hs (id, x) ltac:(left)) as E. cbn in E. rewrite E. rewrite IH by done. f_equal.
    + f_equal. cbn [list_to_set]. set_solver.
    + rewrite <- app_assoc, fmap_cons. cbn. do 3 f_equal. apply filter_iff_in.
      intros [id' y] Hy. cbn. assert (id' <> id); [|set_solver].
      intros ->. apply Hid. by apply (list_elem_of_fmap_2 fst) in Hy.
Qed.

(** A group with consecutive IDs none of which runs. *)
Lemma start_all_fresh packages l args :
  (forall i x, l !! i = Some x -> x.1 = Z.of_nat i + 1) ->
  (forall x, x ∈ l -> start_server packages (settings x.2) = Ok (Ok (args x.2))) ->
  start_all_servers packages l ∅ [] =
    (Ok tt, list_to_set l.*1, (fun x => Ok (args x.2)) <$> l).
Proof.
  intros Hid Hs. rewrite (start_all_spec packages l args) by
    (done || apply NoDup_alt; intros i j id; rewrite !list_lookup_fmap_Some;
     intros (x & -> & Hx) (y & E & Hy); rewrite (Hid i x Hx), (Hid j y Hy) in E; lia).
  rewrite (right_id_L ∅ (∪)). do 2 f_equal. cbn. f_equal. clear Hid Hs.
  induction l as [|x l IH]; [done|]. rewrite filter_cons, decide_True, IH by set_solver. done.
Qed.

(** * Properties *)

(** C11: [make_ensemble] with a base directory, no servers in the base settings, and a
    file system that refuses nothing builds, for sizes 1 to 255: servers with the IDs
    1 to [size]; client, peer and leader ports all different; settings in which every
    server knows all servers with their ports, saved to the server's own file, so
    that starting all servers succeeds and gives each process that file; and a connection
    string that parses to exactly the client ports, so that a connection made from it
    gives these to the C client. *)
Theorem ensemble_correct env n base dir packages :
  fs_ok env -> made base -> data_directory base = Some dir -> server_paths base = [] ->
  0 <= client_port base < 2 ^ 16 -> (1 <= n <= 255)%nat ->
  exists g log, make_ensemble env n base [] = (MOk g, log) /\
    length (servers_of g) = n /\
    (forall i x, servers_of g !! i = Some x -> x.1 = Z.of_nat i + 1) /\
    NoDup (mjoin (ports_of <$> servers_of g)) /\
    (forall x y, x ∈ servers_of g -> y ∈ servers_of g ->
       s_value (view (settings x.2) (KServer y.1))
       = Some (DStr (server_address "127.0.0.1" (peer_port y.2) (leader_port y.2)))) /\
    start_all_servers packages (servers_of g) ∅ [] =
      (Ok tt, list_to_set (servers_of g).*1,
       (fun x => Ok (java_args packages x.2)) <$> servers_of g) /\
    parse (conn_string g)
    = MOk (ConnectionParams "zk" (host_of <$> servers_of g) "/" true false default_timeout) /\
    forall handle_ok, connect (conn_string g) handle_ok
    = MOk (InitCall (intercalate "," (host_of <$> servers_of g)) default_timeout 0, handle_ok).
Proof.
  intros He Hwf%made_wf Hd Hsp Hport Hn.
  destruct (ensemble_run env n base dir He Hwf Hd) as (infos & r & E & Hlen & Hinfo & Hr);
    [by rewrite Hsp|done|lia|]. set (bp := base_port base) in *.
  destruct (written_maps _ _ _ Hr) as [Hports Hhosts].
  exists (ServerGroup r ("zk://" ++ joined true (host_of <$> infos) ++ "/")), (Mkdir dir :: mjoin (files_of <$> r)).
  assert (parse ("zk://" ++ joined true (host_of <$> infos) ++ "/")
    = MOk (ConnectionParams "zk" (host_of <$> r) "/" true false default_timeout)) as Hparse.
  { rewrite Hhosts. destruct infos as [|x0 infos0] eqn:Einf; [cbn in Hlen; lia|]. rewrite <- Einf in *.
    replace (joined true (host_of <$> infos)) with (intercalate "," (host_of <$> infos)) by (by rewrite Einf).
    apply parse_hosts; [by rewrite Einf|]. apply Forall_fmap, Forall_lookup. intros i x Hx. cbn.
    apply host_of_clean. rewrite (io_client _ _ _ _ _ (Hinfo i x Hx)). apply wrap_u_range. lia. }
  cbn [servers_of conn_string]. split_and!; [exact E|..].
  - by rewrite <- (Forall2_length _ _ _ Hr).
  - intros i y Hy. destruct (Forall2_lookup_r _ _ _ _ _ Hr Hy) as (x & Hx & Hw).
    rewrite (wr_id _ _ _ Hw). apply (io_id _ _ _ _ _ (Hinfo i x Hx)).
  - rewrite Hports. apply (ports_distinct bp dir base); [lia|done].
  - intros x y Hx Hy. apply list_elem_of_lookup in Hx as [i Hi], Hy as [j Hj].
    destruct (Forall2_lookup_r _ _ _ _ _ Hr Hi) as (x0 & _ & Hwx).
    destruct (Forall2_lookup_r _ _ _ _ _ Hr Hj) as (y0 & Hy0 & [-> _ -> -> _ _ _ _]).
    apply (wr_servers _ _ _ Hwx). by eapply list_elem_of_lookup_2.
  - apply start_all_fresh.
    + intros i y Hy. destruct (Forall2_lookup_r _ _ _ _ _ Hr Hy) as (x & Hx & Hw).
      rewrite (wr_id _ _ _ Hw). apply (io_id _ _ _ _ _ (Hinfo i x Hx)).
    + intros y Hy. apply list_elem_of_lookup in Hy as [j Hj].
      destruct (Forall2_lookup_r _ _ _ _ _ Hr Hj) as (y0 & Hy0 & Hw).
      eapply start_written; [exact Hw|]. by eapply list_elem_of_lookup_2.
  - apply Hparse.
  - intros ok. unfold connect. rewrite Hparse. cbn [mres_bind]. unfold construct.
    by rewrite join_intercalate.
Qed.

Lemma ensemble_correct_witness :
  exists g log, make_ensemble willing 3 minimal [] = (MOk g, log) /\
    parse (conn_string g)
    = MOk (ConnectionParams "zk" (host_of <$> servers_of g) "/" true false default_timeout).
Proof.
  destruct (ensemble_correct willing 3 minimal "/data" (Classpath [])) as (g & log & E & _ & _ & _ & _ & _ & H & _).
  - constructor; reflexivity.
  - apply minimal_made.
  - vm_compute. reflexivity.
  - vm_compute. reflexivity.
  - vm_compute. split; [discriminate|reflexivity].
  - lia.
  - exists g, log. split; [exact E|exact H].
Defined.
