(* ===== verification/Ensemble.v ===== *)
(** * Ensemble: making a server group when something goes wrong

    [make_ensemble] (src/zk/server/server_group.cpp) with any settings, any size and any
    file system: which exception it throws, and what it has left on the disk by then. *)

From S2P Require Import Prelude Text OrdMap Error Configuration ConfigurationSpec.
From S2P Require Import ConfigurationTheory Registry Server ServerTheory.
Local Open Scope Z_scope.

(** ** A file system that refuses *)

(** [e] is thrown where the file system refuses [a]. *)
Inductive refused (env : fs) : fs_action -> exn -> Prop :=
| refused_mkdir p errno : mkdir_errno env p = Some errno -> refused env (Mkdir p) (SystemError errno [])
| refused_id p text : can_open env p = false -> refused env (WriteFile p text) (RuntimeError "IO failure")
| refused_save p text :
    can_write env p = false -> refused env (WriteFile p text) (RuntimeError "Error saving file").

(** [m] does what [w] does, up to the first action that is refused; there it throws. *)
Class Tracks {A} (env : fs) (m w : G A) := tracks : forall l, exists acts,
  (w l).2 = l ++ acts /\
  (m l = w l \/ exists before a rest e,
     acts = before ++ a :: rest /\ refused env a e /\ m l = (MThrow e, l ++ before)).

Section tracks.
Context (env : fs).

#[global] Instance tracks_return {A} (a : A) : Tracks env (greturn a) (greturn a).
Proof. intros l. exists []. rewrite app_nil_r. auto. Qed.

#[global] Instance tracks_lift {A} (r : mres A) : Tracks env (glift r) (glift r).
Proof. intros l. exists []. rewrite app_nil_r. auto. Qed.

#[global] Instance tracks_bind {A B} (m w : G A) (k k' : A -> G B) :
  Tracks env m w -> (forall a, Tracks env (k a) (k' a)) -> Tracks env (gbind m k) (gbind w k').
Proof.
  intros Hm Hk l. destruct (Hm l) as (acts & Hw & Hcase). unfold gbind.
  destruct (w l) as [[a|e|] l1] eqn:Ew; cbn in Hw; subst l1.
  - destruct (Hk a (l ++ acts)) as (acts' & Hw' & Hcase'). exists (acts ++ acts'). rewrite app_assoc.
    split; [done|]. destruct Hcase as [->|(before & x & rest & e & -> & Hr & ->)].
    + destruct Hcase' as [->|(before & x & rest & e & -> & Hr & ->)]; [by left|right].
      exists (acts ++ before), x, rest, e. by rewrite <- !app_assoc.
    + right. exists before, x, (rest ++ acts'), e. by rewrite <- app_assoc.
  - exists acts. split; [done|]. destruct Hcase as [->|(before & x & rest & e' & -> & Hr & ->)]; [by left|].
    right. by exists before, x, rest, e'.
  - exists acts. split; [done|]. destruct Hcase as [->|(before & x & rest & e' & -> & Hr & ->)]; [by left|].
    right. by exists before, x, rest, e'.
Qed.

(** The three primitives. *)
Lemma tracks_do a e (m : G unit) :
  (forall l, m l = gdo a l \/ refused env a e /\ m l = (MThrow e, l)) -> Tracks env m (gdo a).
Proof.
  intros Hm l. exists [a]. split; [done|]. destruct (Hm l) as [->|[Hr ->]]; [by left|right].
  exists [], a, [], e. by rewrite app_nil_r.
Qed.

#[global] Instance tracks_create_directory p :
  Tracks env (create_directory env p) (create_directory willing p).
Proof.
  change (create_directory willing p) with (gdo (Mkdir p)). unfold create_directory.
  destruct (mkdir_errno env p) as [errno|] eqn:E; eapply (tracks_do _ (SystemError (default 0 (mkdir_errno env p)) []));
    intros l; [right|by left]. split; [rewrite E; by constructor|by rewrite E].
Qed.

#[global] Instance tracks_save_id_file p id :
  Tracks env (save_id_file env p id) (save_id_file willing p id).
Proof.
  unfold save_id_file. cbn. destruct (can_open env p) eqn:E; apply (tracks_do _ (RuntimeError "IO failure"));
    intros l; [by left|right]. split; [by constructor|done].
Qed.

#[global] Instance tracks_save_settings p c :
  Tracks env (save_settings env p c) (save_settings willing p c).
Proof.
  unfold save_settings, save_file. cbn. destruct (can_write env p) eqn:E.
  - apply tracks_bind; [|apply _]. apply (tracks_do _ (RuntimeError [])). by left.
  - intros l. exists [WriteFile p (save c)]. split; [done|right].
    exists [], (WriteFile p (save c)), [], (RuntimeError "Error saving file").
    rewrite app_nil_r. split_and!; [done|by constructor|done].
Qed.

#[global] Instance tracks_write_servers all todo out first cs :
  Tracks env (write_servers env all todo out first cs) (write_servers willing all todo out first cs).
Proof.
  revert out first cs. induction todo as [|[id x] todo IH]; intros out first cs; cbn [write_servers]; apply _.
Qed.

#[global] Instance tracks_make_ensemble n base :
  Tracks env (make_ensemble env n base) (make_ensemble willing n base).
Proof. unfold make_ensemble. destruct (data_directory base); apply _. Qed.

End tracks.

(** ** Settings that cannot make a group *)

(** Too many servers. *)
Lemma make_infos_many n i port dir base out :
  config_wf base -> 0 <= i <= 255 -> 255 < i + Z.of_nat n ->
  exists what, make_infos n i port dir base out = MThrow (OutOfRange what).
Proof.
  intros Hwf. revert i port out. induction n as [|n IH]; intros i port out Hi Hn; [lia|].
  cbn [make_infos]. replace (u64 (i + 1)) with (i + 1) by (symmetry; apply wrap_u_small; lia).
  unfold make_server_id, ensure_valid. destruct ((0 <? i + 1) && (i + 1 <? 256)) eqn:E; bool_prop.
  - cbn [result_bind lift_res mres_bind].
    destruct (set_client_port_ok port base Hwf) as (c1 & -> & Hwf1 & _). cbn [mres_bind].
    destruct (set_data_directory_ok ((dir ++ "/" ++ print_uint (i + 1)) ++ "/data") c1 Hwf1)
      as (c2 & -> & _). cbn [mres_bind]. apply IH; lia.
  - cbn. eauto.
Qed.

(** The IDs the group wants that the base settings already have, least first. *)
Definition taken (n : nat) (base : configuration) : list Z :=
  filter (fun id => is_Some (om_find id (server_paths base))) (seqZ 1 (Z.of_nat n)).

Lemma taken_nil n base :
  taken n base = [] <-> forall id, 1 <= id <= Z.of_nat n -> om_find id (server_paths base) = None.
Proof.
  unfold taken. split.
  - intros H id Hid. apply eq_None_not_Some. intros Hs.
    refine (filter_nil_not_elem_of _ _ _ H Hs _). apply elem_of_seqZ. lia.
  - intros H. apply elem_of_nil_inv. intros id [[s Hs] Hid%elem_of_seqZ]%list_elem_of_filter.
    rewrite H in Hs by lia. done.
Qed.

(** [add_servers] stops at the first ID that is taken. *)
Lemma add_servers_taken all c id rest :
  config_wf c -> NoDup all.*1 -> Forall (fun x => valid_id x.1 = true) all ->
  filter (fun i => is_Some (om_find i (server_paths c))) all.*1 = id :: rest ->
  add_servers all c = MThrow (RuntimeError ("Already a server with ID " ++ print_uint id)).
Proof.
  revert c. induction all as [|[i x] all IH]; intros c Hwf Hnd Hv Hf; [done|].
  apply NoDup_cons in Hnd as [Hi Hnd]. apply Forall_cons in Hv as [Hvi Hv]. cbn [fst] in *.
  rewrite fmap_cons, filter_cons in Hf. cbn [add_servers].
  destruct (decide _) as [[s Hs]|Hn].
  - injection Hf as -> _. unfold add_server, ensure_valid. unfold valid_id in Hvi. rewrite Hvi. cbn.
    cbn [fst] in Hs. by rewrite Hs.
  - apply eq_None_not_Some in Hn. cbn [fst] in Hn.
    destruct (add_server_ok i "127.0.0.1" (peer_port x) (leader_port x) c Hwf Hvi Hn)
      as (c1 & -> & Hwf1 & Hsp & _). cbn [mres_bind]. apply IH; [done|done|done|].
    rewrite <- Hf. apply filter_iff_in. intros j Hj. rewrite Hsp, om_find_insert_ne; [done| |].
    + by intros ->.
    + apply (mw_servers _ (cw_maps _ Hwf)).
Qed.

Lemma infos_ids n port dir base (infos : list (Z * info)) :
  length infos = n -> (forall i x, infos !! i = Some x -> info_ok port dir base i x) ->
  infos.*1 = seqZ 1 (Z.of_nat n).
Proof.
  intros Hlen Hinfo. apply list_eq. intros i. rewrite list_lookup_fmap.
  destruct (infos !! i) as [x|] eqn:Hx; cbn.
  - rewrite (io_id _ _ _ _ _ (Hinfo i x Hx)). symmetry. apply lookup_seqZ. apply lookup_lt_Some in Hx. lia.
  - symmetry. apply lookup_seqZ_ge. apply lookup_ge_None in Hx. lia.
Qed.

(** Which ending [make_ensemble] takes where nothing is refused. *)
Definition ensemble_ending (n : nat) (base : configuration) (r : mres server_group * list fs_action) : Prop :=
  match data_directory base with
  | None => r = (MThrow (InvalidArgument "Settings must specify a base directory"), [])
  | Some dir =>
      if (255 <? n)%nat then exists what, r = (MThrow (OutOfRange what), [])
      else match taken n base with
           | id :: _ =>
               r = (MThrow (RuntimeError ("Already a server with ID " ++ print_uint id)), [Mkdir dir])
           | [] => exists g, r = (MOk g, Mkdir dir :: mjoin (files_of <$> servers_of g)) /\
                     (servers_of g).*1 = seqZ 1 (Z.of_nat n)
           end
  end.

Lemma ensemble_taken n base dir id rest :
  config_wf base -> data_directory base = Some dir -> 0 <= client_port base < 2 ^ 16 -> (n <= 255)%nat ->
  taken n base = id :: rest ->
  make_ensemble willing n base []
  = (MThrow (RuntimeError ("Already a server with ID " ++ print_uint id)), [Mkdir dir]).
Proof.
  intros Hwf Hd Hport Hn Ht. unfold make_ensemble. rewrite Hd. cbv zeta. fold (base_port base).
  destruct (infos_run n base dir Hwf Hport Hn) as (infos & E & Hlen & Hinfo & Hvalid & Hnd).
  pose proof (infos_ids _ _ _ _ _ Hlen Hinfo) as Hids.
  unfold gbind at 1, glift. rewrite E. unfold gbind at 1, create_directory at 1. cbn [mkdir_errno willing].
  unfold gdo at 1. destruct infos as [|[i x] infos'] eqn:Einf.
  { cbn in Hlen. by subst n. }
  rewrite <- Einf in Hvalid, Hnd, Hids, Hinfo |- *. rewrite Einf at 2. cbn [write_servers].
  destruct (Hinfo 0%nat (i, x)) as [_ _ _ _ _ Hw Hs]; [by rewrite Einf|]. cbn [snd] in Hw, Hs.
  unfold gbind at 1 2, glift at 1.
  rewrite (add_servers_taken infos (settings x) id rest Hw Hnd Hvalid); [done|].
  rewrite Hids, <- Ht. unfold taken. apply filter_iff_in. intros j _.
  rewrite !is_Some_alt. pose proof (server_none (settings x) j Hw) as H1. pose proof (server_none base j Hwf) as H2.
  rewrite Hs in H1. destruct (om_find j (server_paths (settings x))), (om_find j (server_paths base)); naive_solver.
Qed.

Lemma ensemble_ends n base :
  config_wf base -> 0 <= client_port base < 2 ^ 16 ->
  ensemble_ending n base (make_ensemble willing n base []).
Proof.
  intros Hwf Hport. unfold ensemble_ending. destruct (data_directory base) as [dir|] eqn:Hd;
    [|unfold make_ensemble; by rewrite Hd].
  destruct (255 <? n)%nat eqn:Hn.
  - apply Nat.ltb_lt in Hn. unfold make_ensemble. rewrite Hd. cbv zeta.
    edestruct (make_infos_many n 0) as [what E]; [exact Hwf|lia|lia|]. exists what.
    unfold gbind at 1, glift at 1. by rewrite E.
  - apply Nat.ltb_ge in Hn. destruct (taken n base) as [|id rest] eqn:Ht.
    + pose proof (proj1 (taken_nil n base) Ht) as Hfree.
      destruct (ensemble_run willing n base dir) as (infos & r & -> & Hlen & Hinfo & Hr); try done.
      exists (ServerGroup r ("zk://" ++ joined true (host_of <$> infos) ++ "/")). split; [done|].
      cbn [servers_of]. rewrite <- (infos_ids _ _ _ _ _ Hlen Hinfo).
      clear -Hr. induction Hr as [|x y l r Hw _ IH]; [done|]. rewrite !fmap_cons, IH. f_equal. apply (wr_id _ _ _ Hw).
    + by eapply ensemble_taken.
Qed.

(** ** Properties *)

(** C18: [make_ensemble] on every branch. With settings without a directory, a size over
    255 or an ID the settings already use it throws, having touched nothing, or made the
    base directory in the last case; otherwise it makes the base directory and then for
    each server, in the order of the IDs, its two directories, its [myid] and its
    settings. In a file system that refuses one of these actions it has done exactly the
    ones before it, and throws the error of that action; and it is never undefined. *)
Theorem ensemble_errors env n base :
  made base -> 0 <= client_port base < 2 ^ 16 ->
  exists r acts, make_ensemble willing n base [] = (r, acts) /\ ensemble_ending n base (r, acts) /\
    (make_ensemble env n base [] = (r, acts) \/
     exists before a rest e, acts = before ++ a :: rest /\ refused env a e /\
       make_ensemble env n base [] = (MThrow e, before)) /\
    (fs_ok env -> make_ensemble env n base [] = (r, acts)) /\ r <> MUndef.
Proof.
  intros Hwf%made_wf Hport. pose proof (ensemble_ends n base Hwf Hport) as He.
  destruct (tracks (env := env) (m := make_ensemble env n base) []) as (acts & Hw & Hcase).
  destruct (make_ensemble willing n base []) as [r acts']. cbn in Hw. subst acts'. exists r, acts.
  split_and!; [done|done|exact Hcase| |].
  - intros [Hm Ho Hs]. destruct Hcase as [->|(b & a & rest & e & _ & Hr & _)]; [done|]. exfalso.
    destruct Hr; congruence.
  - intros ->. unfold ensemble_ending in He. repeat case_match; naive_solver.
Qed.

(** The disk is full when the second server's settings are to be written. *)
Definition full_disk : fs :=
  Fs (fun _ => None) (fun _ => true) (fun p => negb (bool_decide (p = "/data/2/settings.cfg"))).

Lemma ensemble_errors_witness :
  exists r acts, make_ensemble willing 3 minimal [] = (r, acts) /\ r <> MUndef /\
    (make_ensemble full_disk 3 minimal [] = (r, acts) \/
     exists before a rest e, acts = before ++ a :: rest /\ refused full_disk a e /\
       make_ensemble full_disk 3 minimal [] = (MThrow e, before)).
Proof.
  destruct (ensemble_errors full_disk 3 minimal minimal_made) as (r & acts & E & _ & H & _ & Hr).
  - vm_compute. split; [discriminate|reflexivity].
  - exists r, acts. auto.
Defined.

Example full_disk_stops :
  exists acts, make_ensemble full_disk 3 minimal [] = (MThrow (RuntimeError "Error saving file"), acts) /\
    length acts = 8%nat.
Proof. eexists. split; [vm_compute; reflexivity|reflexivity]. Qed.
