(* ===== verification/Group.v ===== *)
(** * Group: the servers a server group keeps running

    A [server_group] (src/zk/server/server_group.cpp) owns its servers: [info::instance]
    is the only pointer to a running server. Groups can be moved but not copied; a server
    is shut down when the group it is in is destroyed or assigned over. Here any number of
    groups are made, moved, started and destroyed. *)

From S2P Require Import Prelude Text OrdMap Error Configuration ConfigurationSpec ConfigurationTheory Registry Server.

(** A group object, and its running servers by ID. *)
Record group := Group { g_group : server_group; g_instances : gmap Z nat }.

(** All group objects; the servers that run, named in the order of their construction. *)
Record gstate := GState {
  g_groups : gmap nat group;
  g_running : gset nat;
  g_next : nat;
}.

Definition no_groups : gstate := GState ∅ ∅ 0.

(** [server_group()], and what a move leaves of its source; the moved-from string is
    whatever the library leaves. *)
Definition empty_group (left : str) : group := Group (ServerGroup [] left) ∅.

Definition default_group (k : nat) (s : gstate) : gstate :=
  GState (<[k := empty_group []]> (g_groups s)) (g_running s) (g_next s).

(** A group [make_ensemble] returned: nothing runs. *)
Definition add_group (k : nat) (g : server_group) (s : gstate) : gstate :=
  GState (<[k := Group g ∅]> (g_groups s)) (g_running s) (g_next s).

(** [~server] of each instance: [shutdown(true)] returns when the worker has ended. *)
Definition stop_all (g : group) (s : gstate) : gstate :=
  GState (g_groups s) (g_running s ∖ map_img (g_instances g)) (g_next s).

(** The move constructor: [k'] is the new object. *)
Definition move_group (k k' : nat) (left : str) (s : gstate) : gstate :=
  match g_groups s !! k with
  | Some g => GState (<[k' := g]> (<[k := empty_group left]> (g_groups s))) (g_running s) (g_next s)
  | None => s
  end.

(** [operator=(server_group&&)]: the servers [k'] had are destroyed with its map. *)
Definition move_assign_group (k k' : nat) (left : str) (s : gstate) : gstate :=
  match g_groups s !! k, g_groups s !! k' with
  | Some g, Some g' =>
      stop_all g' (GState (<[k' := g]> (<[k := empty_group left]> (g_groups s))) (g_running s) (g_next s))
  | _, _ => s
  end.

Definition destroy_group (k : nat) (s : gstate) : gstate :=
  match g_groups s !! k with
  | Some g => stop_all g (GState (delete k (g_groups s)) (g_running s) (g_next s))
  | None => s
  end.

(** The servers made for [ids]. *)
Definition new_instances (ids : gset Z) (n : nat) : gmap Z nat :=
  list_to_map (zip (elements ids) (seq n (base.size ids))).

(** [start_all_servers]: the result, the processes started, the new state. *)
Definition start_group (packages : classpath) (k : nat) (s : gstate)
    : option (res unit * list (res (list str)) * gstate) :=
  match g_groups s !! k with
  | Some g =>
      let '(r, ids, started) :=
        start_all_servers packages (servers_of (g_group g)) (dom (g_instances g)) [] in
      let made := new_instances (ids ∖ dom (g_instances g)) (g_next s) in
      Some (r, started,
            GState (<[k := Group (g_group g) (made ∪ g_instances g)]> (g_groups s))
              (map_img made ∪ g_running s) (g_next s + base.size (ids ∖ dom (g_instances g))))
  | None => None
  end.

Inductive gstep : gstate -> gstate -> Prop :=
| gs_default k s : g_groups s !! k = None -> gstep s (default_group k s)
| gs_make k g s : g_groups s !! k = None -> gstep s (add_group k g s)
| gs_move k k' left s : g_groups s !! k' = None -> gstep s (move_group k k' left s)
| gs_assign k k' left s : k <> k' -> gstep s (move_assign_group k k' left s)
| gs_start packages k r started s s' : start_group packages k s = Some (r, started, s') -> gstep s s'
| gs_destroy k s : gstep s (destroy_group k s).

(** ** The invariant *)

(** The server [n] is the instance [id] of the group [k]. *)
Definition runs_in (s : gstate) (k : nat) (id : Z) (n : nat) : Prop :=
  exists g, g_groups s !! k = Some g /\ g_instances g !! id = Some n.

Record ginv (s : gstate) : Prop := GInv {
  gi_running : forall n, n ∈ g_running s <-> exists k id, runs_in s k id n;
  gi_once : forall k id k' id' n, runs_in s k id n -> runs_in s k' id' n -> k = k' /\ id = id';
  gi_fresh : forall n, n ∈ g_running s -> (n < g_next s)%nat;
}.

Lemma new_instances_lookup ids n id m :
  new_instances ids n !! id = Some m -> id ∈ ids /\ (n <= m < n + base.size ids)%nat.
Proof.
  intros H%elem_of_list_to_map_2. apply elem_of_zip_l in H as Hid. apply elem_of_zip_r in H as Hm.
  apply elem_of_elements in Hid. apply elem_of_seq in Hm. done.
Qed.

Lemma new_instances_inj ids n id id' m :
  new_instances ids n !! id = Some m -> new_instances ids n !! id' = Some m -> id = id'.
Proof.
  intros H%elem_of_list_to_map_2 H'%elem_of_list_to_map_2.
  apply list_elem_of_lookup in H as [i Hi], H' as [j Hj].
  apply lookup_zip_Some in Hi as [Hi1 Hi2], Hj as [Hj1 Hj2].
  apply lookup_seq in Hi2 as [-> _], Hj2 as [? _]. assert (i = j) as -> by lia. congruence.
Qed.

Lemma new_instances_dom ids n : dom (new_instances ids n) = ids.
Proof.
  unfold new_instances. rewrite dom_list_to_map_L, fst_zip.
  - apply list_to_set_elements_L.
  - by rewrite length_seq.
Qed.

Lemma runs_in_insert m g k r n k0 id i :
  runs_in (GState (<[k := g]> m) r n) k0 id i <->
  (k0 = k /\ g_instances g !! id = Some i) \/ (k0 <> k /\ runs_in (GState m r n) k0 id i).
Proof.
  unfold runs_in. cbn. destruct (decide (k0 = k)) as [->|Hne].
  - rewrite lookup_insert_eq. naive_solver.
  - rewrite lookup_insert_ne by done. naive_solver.
Qed.

Lemma runs_in_delete m k r n k0 id i :
  runs_in (GState (delete k m) r n) k0 id i <-> k0 <> k /\ runs_in (GState m r n) k0 id i.
Proof. unfold runs_in. cbn. setoid_rewrite lookup_delete_Some. naive_solver. Qed.

(** The groups hand their servers on: each group of the new state has those of one group
    of the old state. *)
Lemma ginv_hand_on (f : nat -> nat) s s' :
  ginv s -> g_next s' = g_next s ->
  (forall k id n, runs_in s' k id n -> runs_in s (f k) id n) ->
  (forall k k' id n, runs_in s' k id n -> runs_in s' k' id n -> f k = f k' -> k = k') ->
  (forall n, n ∈ g_running s' <-> exists k id, runs_in s' k id n) ->
  ginv s'.
Proof.
  intros [Hr Ho Hf] Hn Hin Hinj Hr'. split; [done|..].
  - intros k id k' id' n H H'. destruct (Ho _ _ _ _ _ (Hin _ _ _ H) (Hin _ _ _ H')) as [Ek ->].
    split; [|done]. by eapply Hinj.
  - intros n (k & id & H)%Hr'. rewrite Hn. apply Hf, Hr. eauto.
Qed.

Lemma ginv_new k g s :
  ginv s -> g_groups s !! k = None -> g_instances g = ∅ ->
  ginv (GState (<[k := g]> (g_groups s)) (g_running s) (g_next s)).
Proof.
  intros I Hk Hg. assert (forall k0 id i, runs_in (GState (<[k := g]> (g_groups s)) (g_running s) (g_next s)) k0 id i
    <-> runs_in s k0 id i) as Hiff.
  { intros k0 id i. rewrite runs_in_insert, Hg, lookup_empty. split; [naive_solver|].
    intros (g0 & H1 & H2). right. split; [|by exists g0]. intros ->. congruence. }
  apply (ginv_hand_on id s); [done|done|intros; by apply Hiff|done|]. intros n. cbn.
  setoid_rewrite Hiff. apply I.
Qed.

Lemma elem_of_img (m : gmap Z nat) n : n ∈ (map_img m : gset nat) <-> exists id, m !! id = Some n.
Proof. apply elem_of_map_img. Qed.

(** [k'] gets what [k] has; [old] is what it had. *)
Lemma ginv_moved k k' g left (old : gmap Z nat) s :
  ginv s -> k <> k' -> g_groups s !! k = Some g ->
  (forall id n, runs_in s k' id n <-> old !! id = Some n) ->
  ginv (GState (<[k' := g]> (<[k := empty_group left]> (g_groups s))) (g_running s ∖ map_img old) (g_next s)).
Proof.
  intros I Hne Hk Hold. set (s' := GState _ _ _).
  assert (forall k0 id n, runs_in s' k0 id n <->
    (k0 = k' /\ runs_in s k id n) \/ (k0 <> k' /\ k0 <> k /\ runs_in s k0 id n)) as Hiff.
  { intros k0 id n. unfold s'. rewrite !runs_in_insert. cbn. rewrite lookup_empty.
    assert (g_instances g !! id = Some n <-> runs_in s k id n) as ->.
    { split; [by exists g|]. intros (g0 & H1 & H2). congruence. }
    unfold runs_in. cbn. naive_solver. }
  apply (ginv_hand_on (fun k0 => if decide (k0 = k') then k else k0) s); [done|done|..].
  - intros k0 id n [[-> H]|(H1 & H2 & H)]%Hiff; [by rewrite decide_True|by rewrite decide_False].
  - intros k0 k1 id n H0%Hiff H1%Hiff. repeat case_decide; naive_solver.
  - intros n. unfold s' at 1. cbn. rewrite elem_of_difference, elem_of_img, (gi_running _ I).
    setoid_rewrite Hiff. split.
    + intros [(k0 & id & H) Hn]. destruct (decide (k0 = k')) as [->|Hk0].
      * destruct Hn. exists id. by apply Hold.
      * destruct (decide (k0 = k)) as [->|]; [exists k', id; by left|exists k0, id; by right].
    + intros (k0 & id & H). split; [naive_solver|]. intros [id' H'%Hold].
      destruct H as [[-> H]|(H1 & H2 & H)]; by destruct (gi_once _ I _ _ _ _ _ H H').
Qed.

Lemma ginv_destroy k g s :
  ginv s -> g_groups s !! k = Some g ->
  ginv (GState (delete k (g_groups s)) (g_running s ∖ map_img (g_instances g)) (g_next s)).
Proof.
  intros I Hk. apply (ginv_hand_on id s); [done|done|..].
  - by intros k0 i n [_ H]%runs_in_delete.
  - done.
  - intros n. setoid_rewrite runs_in_delete. cbn. rewrite elem_of_difference, elem_of_img, (gi_running _ I). split.
    + intros [(k0 & id & H) Hn]. exists k0, id. split; [|done]. intros ->. destruct H as (g0 & H1 & H2).
      apply Hn. exists id. congruence.
    + intros (k0 & id & Hne & H). split; [by exists k0, id|]. intros [id' H'].
      destruct (gi_once _ I k0 id k id' n H); [by exists g|done].
Qed.

Lemma ginv_start k g ids s :
  ginv s -> g_groups s !! k = Some g -> ids ## dom (g_instances g) ->
  ginv (GState (<[k := Group (g_group g) (new_instances ids (g_next s) ∪ g_instances g)]> (g_groups s))
          (map_img (new_instances ids (g_next s)) ∪ g_running s) (g_next s + base.size ids)).
Proof.
  intros I Hk Hdis. set (new := new_instances ids (g_next s)). set (s' := GState _ _ _).
  assert (forall k0 id n, runs_in s' k0 id n <->
    (k0 = k /\ new !! id = Some n) \/ runs_in s k0 id n) as Hiff.
  { intros k0 id n. unfold s'. rewrite runs_in_insert. cbn.
    assert (new ##ₘ g_instances g) as Hd.
    { apply map_disjoint_dom. unfold new. by rewrite new_instances_dom. }
    rewrite lookup_union_Some by done. unfold runs_in. cbn. split; [naive_solver|].
    intros [?|(g0 & H1 & H2)]; [naive_solver|]. destruct (decide (k0 = k)) as [->|]; [left|right]; naive_solver. }
  assert (forall k0 id n, runs_in s k0 id n -> (n < g_next s)%nat) as Hlt.
  { intros k0 id n H. apply (gi_fresh _ I), (gi_running _ I). eauto. }
  split.
  - intros n. unfold s' at 1. cbn. rewrite elem_of_union, elem_of_img, (gi_running _ I). setoid_rewrite Hiff.
    naive_solver.
  - intros k0 id k1 id' n H0%Hiff H1%Hiff.
    destruct H0 as [[-> H0]|H0], H1 as [[-> H1]|H1].
    + split; [done|]. by eapply new_instances_inj.
    + apply new_instances_lookup in H0 as [_ H0]. apply Hlt in H1. lia.
    + apply new_instances_lookup in H1 as [_ H1]. apply Hlt in H0. lia.
    + by eapply (gi_once _ I).
  - intros n. unfold s'. cbn. rewrite elem_of_union, elem_of_img. intros [[id H]|H].
    + apply new_instances_lookup in H. lia.
    + apply (gi_fresh _ I) in H. lia.
Qed.

Lemma gstep_inv s s' : ginv s -> gstep s s' -> ginv s'.
Proof.
  intros I St. destruct St as [k s Hk|k g s Hk|k k' left s Hk|k k' left s Hne|packages k r started s s' E|k s].
  - by apply ginv_new.
  - by apply ginv_new.
  - unfold move_group. destruct (g_groups s !! k) as [g|] eqn:Hg; [|done].
    replace (g_running s) with (g_running s ∖ map_img (∅ : gmap Z nat)) by (rewrite map_img_empty_L; set_solver).
    apply ginv_moved; [done|by intros ->; congruence|done|].
    intros id n. rewrite lookup_empty. split; [|done]. intros (g0 & H & _). congruence.
  - unfold move_assign_group. destruct (g_groups s !! k) as [g|] eqn:Hg; [|done].
    destruct (g_groups s !! k') as [g'|] eqn:Hg'; [|done]. unfold stop_all. cbn. apply ginv_moved; [done|done|done|].
    intros id n. split; [intros (g0 & H1 & H2); congruence|by exists g'].
  - unfold start_group in E. destruct (g_groups s !! k) as [g|] eqn:Hg; [|done].
    destruct (start_all_servers _ _ _ _) as [[r0 ids] st0]. injection E as <- <- <-.
    apply ginv_start; [done|done|set_solver].
  - unfold destroy_group. destruct (g_groups s !! k) as [g|] eqn:Hg; [|done]. unfold stop_all. cbn.
    by apply ginv_destroy.
Qed.

Lemma ginv_reachable s : rtc gstep no_groups s -> ginv s.
Proof.
  revert s. apply rtc_ind_r; [|intros s s' _ St I; by eapply gstep_inv]. split; cbn.
  - intros n. split; [set_solver|]. intros (k & id & g & H & _). by simplify_map_eq.
  - intros k id k' id' n (g & H & _). by simplify_map_eq.
  - set_solver.
Qed.

(** ** Starting *)

(** Whatever happens, no instance is lost; if it returns, every server has one. *)
Lemma start_all_instances packages l instances started r ids started' :
  start_all_servers packages l instances started = (r, ids, started') ->
  instances ⊆ ids /\ ids ⊆ instances ∪ list_to_set l.*1 /\
  (r = Ok tt -> list_to_set l.*1 ⊆ ids) /\
  length started' = (length started + base.size (ids ∖ instances))%nat.
Proof.
  revert instances started. induction l as [|[id x] l IH]; intros instances started E; cbn in E.
  { injection E as <- <- <-. split_and!; [set_solver..|]. rewrite difference_diag_L, size_empty. lia. }
  destruct (decide (id ∈ instances)) as [Hin|Hin].
  { destruct (IH _ _ E) as (H1 & H2 & H3 & H4). split_and!; [done|set_solver| |done].
    intros Hr. specialize (H3 Hr). set_solver. }
  destruct (start_server packages (settings x)) as [a|e].
  - destruct (IH _ _ E) as (H1 & H2 & H3 & H4). split_and!; [set_solver|set_solver| |].
    + intros Hr. specialize (H3 Hr). set_solver.
    + rewrite length_app in H4. cbn in H4. rewrite H4.
      assert (ids ∖ instances = {[id]} ∪ ids ∖ ({[id]} ∪ instances)) as ->.
      { apply set_eq. intros z. assert (id ∈ ids) by (apply H1; set_solver). clear H2 H3.
        rewrite !elem_of_union, !elem_of_difference, !elem_of_union, !elem_of_singleton.
        destruct (decide (z = id)) as [->|]; tauto. }
      pose proof (size_union ({[id]} : gset Z) (ids ∖ ({[id]} ∪ instances)) ltac:(set_solver)) as Hsz.
      rewrite size_singleton in Hsz. lia.
  - injection E as <- <- <-. split_and!; [done|set_solver|done|]. rewrite difference_diag_L, size_empty. lia.
Qed.

Lemma start_all_again packages (l : list (Z * info)) (instances : gset Z) started :
  list_to_set l.*1 ⊆ instances -> start_all_servers packages l instances started = (Ok tt, instances, started).
Proof.
  induction l as [|[id x] l IH]; intros H; cbn; [done|]. cbn in H.
  rewrite decide_True by set_solver. apply IH. set_solver.
Qed.

Lemma new_instances_img ids n :
  (map_img (new_instances ids n) : gset nat) = list_to_set (seq n (base.size ids)).
Proof.
  apply set_eq. intros m. rewrite elem_of_img, elem_of_list_to_set, elem_of_seq. split.
  - intros [id H]. by apply new_instances_lookup in H as [_ H].
  - intros Hm. destruct (lookup_lt_is_Some_2 (elements ids) (m - n)) as [id Hid].
    { change (base.size ids) with (length (elements ids)) in Hm. lia. }
    exists id. unfold new_instances. apply elem_of_list_to_map_1.
    + rewrite fst_zip; [apply NoDup_elements|by rewrite length_seq].
    + apply list_elem_of_lookup. exists (m - n)%nat. apply lookup_zip_Some. split; [done|].
      apply lookup_seq. lia.
Qed.

Lemma new_instances_size ids n : base.size (map_img (new_instances ids n) : gset nat) = base.size ids.
Proof. rewrite new_instances_img, size_list_to_set by apply NoDup_seq. apply length_seq. Qed.

(** A group after [start_all_servers] has returned. *)
Lemma start_group_ok packages k s started s' :
  start_group packages k s = Some (Ok tt, started, s') ->
  exists g ids, g_groups s !! k = Some g /\
    s' = GState (<[k := Group (g_group g) (new_instances ids (g_next s) ∪ g_instances g)]> (g_groups s))
           (map_img (new_instances ids (g_next s)) ∪ g_running s) (g_next s + base.size ids) /\
    list_to_set (servers_of (g_group g)).*1 ⊆ ids ∪ dom (g_instances g) /\
    length started = base.size ids.
Proof.
  unfold start_group. destruct (g_groups s !! k) as [g|] eqn:Hg; [|done].
  destruct (start_all_servers _ _ _ _) as [[r0 ids] st0] eqn:E. intros [= -> <- <-].
  destruct (start_all_instances _ _ _ _ _ _ _ E) as (H1 & H2 & H3 & H4).
  exists g, (ids ∖ dom (g_instances g)). split_and!; [done|done| |done].
  etransitivity; [by apply H3|]. intros z Hz. destruct (decide (z ∈ dom (g_instances g))); set_solver.
Qed.

Lemma start_group_again packages k s g ids :
  g_groups s !! k = Some g -> ids = dom (g_instances g) -> list_to_set (servers_of (g_group g)).*1 ⊆ ids ->
  start_group packages k s = Some (Ok tt, [], s).
Proof.
  intros Hg -> Hall. unfold start_group. rewrite Hg, (start_all_again _ _ _ _ Hall). rewrite difference_diag_L.
  change (new_instances ∅ (g_next s)) with (∅ : gmap Z nat). rewrite size_empty.
  rewrite map_img_empty_L, (left_id_L ∅ (∪)), (left_id_L ∅ (∪)), Nat.add_0_r.
  do 2 f_equal. destruct s as [gs rn nx]. cbn in *. f_equal. rewrite insert_id; [done|]. rewrite Hg. by destruct g.
Qed.

(** ** Properties *)

(** C19: a server runs exactly as long as one group owns it. Whatever groups are made,
    moved, assigned, started (also where a server cannot be started half-way) and
    destroyed: every server that runs is the instance of one server of one group, and no
    other; the servers of a group are stopped when it is destroyed, and without groups
    nothing runs. If [start_all_servers] returns, every server of the group runs, one
    process was started for each that did not run before, and to call it again does
    nothing. *)
Theorem group_servers s :
  rtc gstep no_groups s ->
  (forall n, n ∈ g_running s <-> exists k id, runs_in s k id n) /\
  (forall k id k' id' n, runs_in s k id n -> runs_in s k' id' n -> k = k' /\ id = id') /\
  (g_groups s = ∅ -> g_running s = ∅) /\
  (forall k id n, runs_in s k id n -> n ∉ g_running (destroy_group k s)) /\
  (forall packages k started s', start_group packages k s = Some (Ok tt, started, s') ->
     (exists g, g_groups s' !! k = Some g /\
        forall x, x ∈ servers_of (g_group g) -> exists n, g_instances g !! x.1 = Some n /\ n ∈ g_running s') /\
     base.size (g_running s') = (base.size (g_running s) + length started)%nat /\
     forall packages', start_group packages' k s' = Some (Ok tt, [], s')).
Proof.
  intros Hs. pose proof (ginv_reachable s Hs) as I. split_and!; [apply I|apply I|..].
  - intros Hg. apply set_eq. intros n. split; [|set_solver]. intros (k & id & g & H & _)%(gi_running _ I).
    by rewrite Hg, lookup_empty in H.
  - intros k id n (g & Hg & Hn). unfold destroy_group. rewrite Hg. cbn. rewrite elem_of_difference, elem_of_img. naive_solver.
  - intros packages k started s' E. pose proof (gstep_inv s s' I (gs_start _ _ _ _ _ _ E)) as I'.
    destruct (start_group_ok _ _ _ _ _ E) as (g & ids & Hg & Es' & Hall & Hlen).
    set (g' := Group (g_group g) (new_instances ids (g_next s) ∪ g_instances g)) in *.
    assert (g_groups s' !! k = Some g') as Hg' by (rewrite Es'; apply lookup_insert_eq).
    assert (dom (g_instances g') = ids ∪ dom (g_instances g)) as Hdom.
    { unfold g'. cbn. by rewrite dom_union_L, new_instances_dom. }
    split_and!.
    + exists g'. split; [done|]. intros x Hx.
      assert (x.1 ∈ dom (g_instances g')) as [n Hn]%elem_of_dom.
      { rewrite Hdom. apply Hall, elem_of_list_to_set, list_elem_of_fmap. eauto. }
      exists n. split; [done|]. apply (gi_running _ I'). exists k, x.1. by exists g'.
    + rewrite Hlen, Es'. cbn [g_running]. rewrite size_union.
      * rewrite new_instances_size. lia.
      * intros n H1 H2%(gi_fresh _ I). apply elem_of_img in H1 as [id H1]. apply new_instances_lookup in H1. lia.
    + intros packages'. by eapply start_group_again; [|symmetry|].
Qed.

(** A group of one server, started and moved. *)
Definition one_server : server_group :=
  match make_ensemble willing 1 minimal [] with (MOk g, _) => g | _ => ServerGroup [] [] end.

Definition moved_state : option gstate :=
  match start_group (Classpath []) 1 (add_group 1 one_server no_groups) with
  | Some (Ok _, _, s) => Some (move_group 1 2 [] s)
  | _ => None
  end.

Lemma group_servers_witness :
  match moved_state with
  | Some s => rtc gstep no_groups s /\ (exists k id, runs_in s k id 0) /\ 0%nat ∉ g_running (destroy_group 2 s)
  | None => False
  end.
Proof.
  destruct moved_state as [s|] eqn:E; [|by vm_compute in E].
  assert (rtc gstep no_groups s) as Hs.
  { unfold moved_state in E. destruct (start_group _ _ _) as [[[[[]|] started] s1]|] eqn:E1; try done.
    injection E as <-. eapply rtc_l; [by apply (gs_make 1 one_server)|].
    eapply rtc_l; [exact (gs_start _ _ _ _ _ _ E1)|].
    eapply rtc_l; [|apply rtc_refl]. apply gs_move. revert E1. vm_compute. by intros [= _ <-]. }
  destruct (group_servers s Hs) as (H1 & _ & _ & H4 & _).
  assert (runs_in s 2 1 0) as Hr.
  { revert E. vm_compute. intros [= <-]. eexists. split; reflexivity. }
  split_and!; [exact Hs|by exists 2%nat, 1%Z|by apply (H4 2%nat 1%Z)].
Defined.

