(* ===== verification/World.v ===== *)
(** * World: the state the client side of the library works on

    Futures and promises ([zk::future], [zk::promise]: the standard ones by
    default), heap objects handed to the C client as [void*] contexts, and a
    state monad whose computations return, throw, or run into undefined
    behaviour.

    A promise and its future meet in a shared state: [ss_outcome] is what was
    stored, [ss_retrieved] whether [get_future] was called. Storing twice throws
    [promise_already_satisfied], retrieving twice [future_already_retrieved], and
    destroying a promise that stored nothing stores [broken_promise]. *)

From S2P Require Import Prelude Text Types Error Acl Native Results Multi.

(** ** Values and outcomes *)

Inductive value :=
| VVoid
| VGet (r : get_result)
| VWatch (r : watch_result)
| VGetChildren (r : get_children_result)
| VWatchChildren (r : watch_children_result)
| VExists (r : exists_result)
| VWatchExists (r : watch_exists_result)
| VCreate (r : create_result)
| VSet (r : set_result)
| VGetAcl (r : get_acl_result)
| VMulti (r : multi_result)
| VEvent (e : event)
| VState (s : Z).

Inductive outcome :=
| Value (v : value)
| Exception (e : exn).

#[global] Instance value_eq_dec : EqDecision value.
Proof. solve_decision. Defined.
#[global] Instance outcome_eq_dec : EqDecision outcome.
Proof. solve_decision. Defined.

Record sstate := SState { ss_outcome : option outcome; ss_retrieved : bool }.

#[global] Instance sstate_eq_dec : EqDecision sstate.
Proof. solve_decision. Defined.

(** ** Heap objects *)

(** Non-null addresses. *)
Abbreviation addr := positive.

(** The completion callback a promise was sent with. *)
Inductive call_kind :=
| KGet | KGetChildren | KExists | KCreate | KSet | KErase | KGetAcl | KSetAcl | KLoadFence.

Inductive watch_kind := WData | WChild | WExists.

#[global] Instance call_kind_eq_dec : EqDecision call_kind.
Proof. solve_decision. Defined.
#[global] Instance watch_kind_eq_dec : EqDecision watch_kind.
Proof. solve_decision. Defined.

(** [connection_zk::watcher] with the members of [basic_watcher]. *)
Record watcher := Watcher {
  w_kind : watch_kind;
  w_event_delivered : bool;
  w_event_promise : fut;
  w_data_delivered : bool;
  w_data_promise : fut;
}.

(** [connection_zk_commit_completer]: the transaction, the promise, and the sizes
    of the buffers the C client writes created paths to, by operation index. *)
Record completer := Completer {
  c_source_txn : multi_op;
  c_prom : fut;
  c_path_buffers : list (Z * Z);
  c_raw_stats : list (Z * unit);
}.

Inductive obj :=
| OPromise (k : call_kind) (p : fut)
| OWatcher (w : watcher)
| OCompleter (c : completer).

(** ** The world *)

Record world := World {
  handle : bool;                      (* connection_zk::_handle, non-null or null *)
  watches : gset addr;                (* the keys of connection_zk::_watches *)
  state_promises : list fut;          (* connection::_state_change_promises *)
  heap : gmap addr obj;
  futs : gmap fut sstate;
  next_fut : fut;
  sent : list request;                (* the calls into the C client, newest last *)
}.

Definition set_handle (b : bool) (w : world) : world :=
  World b (watches w) (state_promises w) (heap w) (futs w) (next_fut w) (sent w).
Definition set_watches (x : gset addr) (w : world) : world :=
  World (handle w) x (state_promises w) (heap w) (futs w) (next_fut w) (sent w).
Definition set_state_promises (x : list fut) (w : world) : world :=
  World (handle w) (watches w) x (heap w) (futs w) (next_fut w) (sent w).
Definition set_heap (x : gmap addr obj) (w : world) : world :=
  World (handle w) (watches w) (state_promises w) x (futs w) (next_fut w) (sent w).
Definition set_futs (x : gmap fut sstate) (w : world) : world :=
  World (handle w) (watches w) (state_promises w) (heap w) x (next_fut w) (sent w).
Definition set_next (x : fut) (w : world) : world :=
  World (handle w) (watches w) (state_promises w) (heap w) (futs w) x (sent w).
Definition set_sent (x : list request) (w : world) : world :=
  World (handle w) (watches w) (state_promises w) (heap w) (futs w) (next_fut w) x.

(** ** The monad *)

Definition M (A : Type) : Type := world -> mres A * world.

Definition mreturn {A} (a : A) : M A := fun w => (MOk a, w).
Definition mthrow {A} (e : exn) : M A := fun w => (MThrow e, w).
Definition mundef {A} : M A := fun w => (MUndef, w).
Definition mseq {A B} (m : M A) (k : A -> M B) : M B := fun w =>
  match m w with
  | (MOk a, w') => k a w'
  | (MThrow e, w') => (MThrow e, w')
  | (MUndef, w') => (MUndef, w')
  end.
(** [try { m } catch (...) { h(current_exception()) }] *)
Definition mtry {A} (m : M A) (h : exn -> M A) : M A := fun w =>
  match m w with
  | (MThrow e, w') => h e w'
  | r => r
  end.
Definition mget {A} (f : world -> A) : M A := fun w => (MOk (f w), w).
Definition mmodify (f : world -> world) : M unit := fun w => (MOk tt, f w).

Notation "'let!' x ':=' m 'in' k" := (mseq m (fun x => k))
  (at level 10, x name, m at level 100, k at level 200) : zk_scope.
Notation "m ;;; k" := (mseq m (fun _ => k))
  (at level 99, k at level 200, right associativity) : zk_scope.

Fixpoint miter {A} (f : A -> M unit) (l : list A) : M unit :=
  match l with
  | [] => mreturn tt
  | x :: rest => f x ;;; miter f rest
  end.

(** ** Promises *)

Definition new_promise : M fut := fun w =>
  let f := next_fut w in
  (MOk f, set_next (S f) (set_futs (<[f := SState None false]> (futs w)) w)).

Definition get_future (f : fut) : M fut := fun w =>
  match futs w !! f with
  | Some (SState o false) => (MOk f, set_futs (<[f := SState o true]> (futs w)) w)
  | Some (SState _ true) => (MThrow (FutureError future_already_retrieved), w)
  | None => (MUndef, w)
  end.

Definition store (f : fut) (o : outcome) : M unit := fun w =>
  match futs w !! f with
  | Some (SState None r) => (MOk tt, set_futs (<[f := SState (Some o) r]> (futs w)) w)
  | Some (SState (Some _) _) => (MThrow (FutureError promise_already_satisfied), w)
  | None => (MUndef, w)
  end.

Definition set_value (f : fut) (v : value) : M unit := store f (Value v).
Definition set_exception (f : fut) (e : exn) : M unit := store f (Exception e).

(** [~promise()]: an unsatisfied shared state gets [broken_promise]. *)
Definition destroy_promise (f : fut) : M unit := fun w =>
  match futs w !! f with
  | Some (SState None r) =>
      (MOk tt, set_futs (<[f := SState (Some (Exception (FutureError broken_promise))) r]>
                           (futs w)) w)
  | Some (SState (Some _) _) => (MOk tt, w)
  | None => (MUndef, w)
  end.

(** ** Objects *)

(** The allocator returns an address no live object has. *)
Definition alloc (a : addr) (o : obj) : M unit := fun w =>
  match heap w !! a with
  | None => (MOk tt, set_heap (<[a := o]> (heap w)) w)
  | Some _ => (MUndef, w)
  end.

Definition load (a : addr) : M obj := fun w =>
  match heap w !! a with
  | Some o => (MOk o, w)
  | None => (MUndef, w)
  end.

Definition update (a : addr) (o : obj) : M unit := fun w =>
  match heap w !! a with
  | Some _ => (MOk tt, set_heap (<[a := o]> (heap w)) w)
  | None => (MUndef, w)
  end.

Definition obj_promises (o : obj) : list fut :=
  match o with
  | OPromise _ p => [p]
  | OWatcher w => [w_event_promise w; w_data_promise w]
  | OCompleter c => [c_prom c]
  end.

(** [delete]: the promises the object holds are destroyed with it. *)
Definition free (a : addr) : M unit :=
  let! o := load a in
  miter destroy_promise (obj_promises o) ;;;
  mmodify (fun w => set_heap (delete a (heap w)) w).

#[global] Arguments free : simpl never.

(** A call into the C client: the arguments are logged, the integer it returns is
    the environment's choice. *)
Definition zoo_call (r : request) (rc_in : Z) : M Z := fun w =>
  (MOk rc_in, set_sent (sent w ++ [r]) w).

(** ** Equations

    One equation per primitive on the case in which it succeeds; [mrun] rewrites a
    run of a computation with them. *)

Lemma mseq_ok {A B} (m : M A) (k : A -> M B) w a w' :
  m w = (MOk a, w') -> mseq m k w = k a w'.
Proof. unfold mseq. by intros ->. Qed.

Lemma mseq_throw {A B} (m : M A) (k : A -> M B) w e w' :
  m w = (MThrow e, w') -> mseq m k w = (MThrow e, w').
Proof. unfold mseq. by intros ->. Qed.

Lemma store_ok f o r w :
  futs w !! f = Some (SState None r) ->
  store f o w = (MOk tt, set_futs (<[f := SState (Some o) r]> (futs w)) w).
Proof. unfold store. by intros ->. Qed.

Lemma store_again f o o' r w :
  futs w !! f = Some (SState (Some o') r) ->
  store f o w = (MThrow (FutureError promise_already_satisfied), w).
Proof. unfold store. by intros ->. Qed.

Lemma get_future_ok f o w :
  futs w !! f = Some (SState o false) ->
  get_future f w = (MOk f, set_futs (<[f := SState o true]> (futs w)) w).
Proof. unfold get_future. by intros ->. Qed.

Lemma get_future_again f o w :
  futs w !! f = Some (SState o true) ->
  get_future f w = (MThrow (FutureError future_already_retrieved), w).
Proof. unfold get_future. by intros ->. Qed.

Lemma destroy_satisfied f o r w :
  futs w !! f = Some (SState (Some o) r) -> destroy_promise f w = (MOk tt, w).
Proof. unfold destroy_promise. by intros ->. Qed.

Lemma destroy_unsatisfied f r w :
  futs w !! f = Some (SState None r) ->
  destroy_promise f w =
    (MOk tt, set_futs (<[f := SState (Some (Exception (FutureError broken_promise))) r]>
                         (futs w)) w).
Proof. unfold destroy_promise. by intros ->. Qed.

Lemma alloc_ok a o w :
  heap w !! a = None -> alloc a o w = (MOk tt, set_heap (<[a := o]> (heap w)) w).
Proof. unfold alloc. by intros ->. Qed.

Lemma load_ok a o w : heap w !! a = Some o -> load a w = (MOk o, w).
Proof. unfold load. by intros ->. Qed.

Lemma update_ok a o o' w :
  heap w !! a = Some o' -> update a o w = (MOk tt, set_heap (<[a := o]> (heap w)) w).
Proof. unfold update. by intros ->. Qed.

(** Freeing an object all of whose promises are satisfied touches no future. *)
Lemma free_satisfied a o w :
  heap w !! a = Some o ->
  Forall (fun p => exists x r, futs w !! p = Some (SState (Some x) r)) (obj_promises o) ->
  free a w = (MOk tt, set_heap (delete a (heap w)) w).
Proof.
  intros Ha Hp. unfold free. rewrite (mseq_ok _ _ _ _ _ (load_ok _ _ _ Ha)).
  unfold mseq at 1. replace (miter destroy_promise (obj_promises o) w) with (MOk (), w); [done|].
  symmetry. induction Hp as [|p ps (x & r & Hx) _ IH]; [done|].
  cbn [miter]. rewrite (mseq_ok _ _ _ _ _ (destroy_satisfied _ _ _ _ Hx)). exact IH.
Qed.
