(* ===== verification/ConnectionZk.v ===== *)
(** * ConnectionZk: src/zk/connection.cpp (class [connection]) and
      src/zk/connection_zk.cpp (class [connection_zk])

    Every operation is a computation on the [world]. A call into the C client is
    an environment action: the address the allocator gives the context object
    ([a]) and the integer the call returns ([rc_in]) are arguments, the arguments
    passed to the C client are logged in [sent], and the later completion of the
    call is a separate computation, [on_completion], which the environment starts
    with the raw values it passes to the callback. *)

From S2P Require Import Prelude Text OrdMap Types Error Acl Native Results Multi World.
Local Open Scope Z_scope.

(** ** Raw arguments of the completion callbacks

    [PData] for [data_completion_t], [PStrings] for [strings_stat_completion_t],
    [PStat] for [stat_completion_t], [PName] for [string_completion_t], [PVoid]
    for [void_completion_t], [PAcl] for [acl_completion_t]; [PMulti] is what the
    C client left in the result array of [zoo_amulti]. Pointers are passed as
    what they point to: the C client passes valid ones when [rc] is [ZOK], and
    the callbacks dereference them in no other case. *)
Inductive payload :=
| PVoid
| PData (data : str) (st : raw_stat)
| PStrings (strings : Z * list str) (st : raw_stat)
| PStat (st : raw_stat)
| PName (name : str)
| PAcl (rules : raw_acl_vector) (st : raw_stat)
| PMulti (results : list raw_result).

(** ** The base class: state watches *)

Definition watch_state : M fut :=
  let! p := new_promise in
  mmodify (fun w => set_state_promises (state_promises w ++ [p]) w) ;;;
  get_future p.

Definition session_event_outcome (new_state : Z) : outcome :=
  if new_state =? state.expired_session
  then Exception (get_exception_ptr_of error_code.session_expired)
  else if new_state =? state.authentication_failed
  then Exception (get_exception_ptr_of error_code.authentication_failed)
  else Value (VState new_state).

(** The promises are moved out under the lock and then filled; they are destroyed
    when the local vector is. *)
Definition on_session_event (new_state : Z) : M unit :=
  let! l_state_change_promises := mget state_promises in
  mmodify (set_state_promises []) ;;;
  miter (fun p => store p (session_event_outcome new_state)) l_state_change_promises ;;;
  miter destroy_promise l_state_change_promises.

Section connection_zk.
Context `{!ZooConsts}.

(** ** Watchers *)

Definition load_watcher (a : addr) : M watcher :=
  let! o := load a in
  match o with OWatcher w => mreturn w | _ => mundef end.

(** [basic_watcher::deliver_data]: [exchange] sets the flag and returns the old
    value. [std::move( *data)] of an empty optional is undefined. *)
Definition deliver_data (a : addr) (data : option value) (ex_ptr : option exn) : M unit :=
  let! w := load_watcher a in
  update a (OWatcher (Watcher (w_kind w) (w_event_delivered w) (w_event_promise w)
                        true (w_data_promise w))) ;;;
  if w_data_delivered w then mreturn tt
  else match ex_ptr, data with
       | Some e, _ => set_exception (w_data_promise w) e
       | None, Some v => set_value (w_data_promise w) v
       | None, None => mundef
       end.

(** [watcher::deliver_event] *)
Definition deliver_event_base (a : addr) (ev : event) : M unit :=
  let! w := load_watcher a in
  update a (OWatcher (Watcher (w_kind w) true (w_event_promise w)
                        (w_data_delivered w) (w_data_promise w))) ;;;
  if w_event_delivered w then mreturn tt
  else set_value (w_event_promise w) (VEvent ev).

(** [basic_watcher::deliver_event] *)
Definition deliver_event (a : addr) (ev : event) : M unit :=
  let! w := load_watcher a in
  (if w_data_delivered w then mreturn tt
   else deliver_data a None (Some (get_exception_ptr_of error_code.closed))) ;;;
  deliver_event_base a ev.

Definition get_event_future (a : addr) : M fut :=
  let! w := load_watcher a in get_future (w_event_promise w).

Definition get_data_future (a : addr) : M fut :=
  let! w := load_watcher a in get_future (w_data_promise w).

(** [data_watcher::deliver_raw] *)
Definition data_deliver_raw (a : addr) (rc_in : Z) (data : str) (pstat : raw_stat) : M unit :=
  let rc := error_code_from_raw rc_in in
  if rc =? error_code.ok then
    let! next := get_event_future a in
    deliver_data a
      (Some (VWatch (WatchResult (GetResult data (stat_from_raw pstat)) next))) None
  else deliver_data a None (Some (get_exception_ptr_of rc)).

(** [child_watcher::deliver_raw] *)
Definition child_deliver_raw (a : addr) (rc_in : Z) (strings : Z * list str)
    (stat_in : raw_stat) : M unit :=
  let rc := error_code_from_raw rc_in in
  mtry
    (if negb (rc =? error_code.ok) then mthrow (get_exception_ptr_of rc)
     else
       let! next := get_event_future a in
       deliver_data a
         (Some (VWatchChildren (WatchChildrenResult
            (GetChildrenResult (string_vector_from_raw strings) (stat_from_raw stat_in))
            next))) None)
    (fun e => deliver_data a None (Some e)).

(** [exists_watcher::deliver_raw] *)
Definition exists_deliver_raw (a : addr) (rc_in : Z) (stat_in : raw_stat) : M unit :=
  let rc := error_code_from_raw rc_in in
  if rc =? error_code.ok then
    let! next := get_event_future a in
    deliver_data a
      (Some (VWatchExists (WatchExistsResult (ExistsResult (Some (stat_from_raw stat_in))) next)))
      None
  else if rc =? error_code.no_entry then
    let! next := get_event_future a in
    deliver_data a (Some (VWatchExists (WatchExistsResult (ExistsResult None) next))) None
  else deliver_data a None (Some (get_exception_ptr_of rc)).

Definition try_extract_watch (a : addr) : M bool :=
  let! found := mget (fun w => bool_decide (a ∈ watches w)) in
  if found then mmodify (fun w => set_watches (watches w ∖ {[a]}) w) ;;; mreturn true
  else mreturn false.

(** The extracted [shared_ptr] is the last owner: the watcher dies after the
    delivery. *)
Definition deliver_watch (type_in state_in : Z) (a : addr) : M unit :=
  let! found := try_extract_watch a in
  if found then
    deliver_event a (Event (event_from_raw type_in) (state_from_raw state_in)) ;;; free a
  else mreturn tt.

(** ** Session state *)

Definition close (zookeeper_close_rc : Z) : M unit :=
  let! h := mget handle in
  if h then
    let err := error_code_from_raw zookeeper_close_rc in
    if negb (err =? error_code.ok) then mthrow (get_exception_ptr_of err)
    else
      mmodify (set_handle false) ;;;
      let! l_watches := mget watches in
      mmodify (set_watches ∅) ;;;
      miter (fun a => deliver_event a (Event event_type.session state.closed))
        (elements l_watches) ;;;
      miter free (elements l_watches)
  else mreturn tt.

Definition connection_state (zoo_state : Z) (w : world) : Z :=
  if handle w then state_from_raw zoo_state else state.closed.

(** A session callback with any other event type is only reported on [cerr]. *)
Definition on_session_event_raw (ev_type state_in : Z) : M unit :=
  if negb (event_from_raw ev_type =? event_type.session) then mreturn tt
  else on_session_event (state_from_raw state_in).

(** ** Completion callbacks of the simple operations *)

Definition get_callback (rc_in : Z) (data : str) (pstat : raw_stat) : outcome :=
  let rc := error_code_from_raw rc_in in
  if rc =? error_code.ok then Value (VGet (GetResult data (stat_from_raw pstat)))
  else Exception (get_exception_ptr_of rc).

Definition get_children_callback (rc_in : Z) (strings : Z * list str) (st : raw_stat)
    : outcome :=
  let rc := error_code_from_raw rc_in in
  if negb (rc =? error_code.ok) then Exception (get_exception_ptr_of rc)
  else Value (VGetChildren
         (GetChildrenResult (string_vector_from_raw strings) (stat_from_raw st))).

Definition exists_callback (rc_in : Z) (st : raw_stat) : outcome :=
  let rc := error_code_from_raw rc_in in
  if rc =? error_code.ok then Value (VExists (ExistsResult (Some (stat_from_raw st))))
  else if rc =? error_code.no_entry then Value (VExists (ExistsResult None))
  else Exception (get_exception_ptr_of rc).

Definition create_callback (rc_in : Z) (name : str) : outcome :=
  let rc := error_code_from_raw rc_in in
  if rc =? error_code.ok then Value (VCreate (CreateResult name))
  else Exception (get_exception_ptr_of rc).

Definition set_callback (rc_in : Z) (st : raw_stat) : outcome :=
  let rc := error_code_from_raw rc_in in
  if rc =? error_code.ok then Value (VSet (SetResult (stat_from_raw st)))
  else Exception (get_exception_ptr_of rc).

(** The same callback serves [erase], [set_acl] and [load_fence]. *)
Definition void_callback (rc_in : Z) : outcome :=
  let rc := error_code_from_raw rc_in in
  if rc =? error_code.ok then Value VVoid else Exception (get_exception_ptr_of rc).

Definition get_acl_callback (rc_in : Z) (rules : raw_acl_vector) (st : raw_stat) : outcome :=
  let rc := error_code_from_raw rc_in in
  if rc =? error_code.ok
  then Value (VGetAcl (GetAclResult (acl_from_raw rules) (stat_from_raw st)))
  else Exception (get_exception_ptr_of rc).

(** The callback each context was registered with; [None] when the arguments are
    not those of its C type. *)
Definition callback (k : call_kind) (rc_in : Z) (p : payload) : option outcome :=
  match k, p with
  | KGet, PData data st => Some (get_callback rc_in data st)
  | KGetChildren, PStrings strings st => Some (get_children_callback rc_in strings st)
  | KExists, PStat st => Some (exists_callback rc_in st)
  | KCreate, PName name => Some (create_callback rc_in name)
  | KSet, PStat st => Some (set_callback rc_in st)
  | KErase, PVoid => Some (void_callback rc_in)
  | KGetAcl, PAcl rules st => Some (get_acl_callback rc_in rules st)
  | KSetAcl, PVoid => Some (void_callback rc_in)
  | KLoadFence, PName _ => Some (void_callback rc_in)
  | _, _ => None
  end.

(** ** The simple operations *)

(** What [get], [get_children], [exists], [create], [set], [erase], [get_acl] and
    [set_acl] share, in two parts, since the C client may run the completion on its
    own thread as soon as it has the call. First the promise is allocated, its future
    taken and the call made; then, if the call succeeded, the C client owns the
    promise and only the future is used, otherwise the promise is filled with the
    error and deleted. *)
Definition async_call (k : call_kind) (r : request) (a : addr) (rc_in : Z) : M (fut * Z) :=
  let! p := new_promise in
  alloc a (OPromise k p) ;;;
  let! f := get_future p in
  let! raw := zoo_call r rc_in in
  mreturn (f, raw).

Definition async_return (a : addr) (f : fut) (raw : Z) : M fut :=
  let rc := error_code_from_raw raw in
  if rc =? error_code.ok then mreturn f
  else
    let! o := load a in
    match o with
    | OPromise _ p =>
        set_exception p (get_exception_ptr_of rc) ;;;
        free a ;;;
        mreturn f
    | _ => mundef
    end.

Definition async_op (k : call_kind) (r : request) (a : addr) (rc_in : Z) : M fut :=
  let! called := async_call k r a rc_in in
  async_return a called.1 called.2.

Definition get (path : str) : addr -> Z -> M fut := async_op KGet (zoo_aget (with_str path)).

Definition get_children (path : str) : addr -> Z -> M fut :=
  async_op KGetChildren (zoo_aget_children2 (with_str path)).

Definition exists_ (path : str) : addr -> Z -> M fut :=
  async_op KExists (zoo_aexists (with_str path)).

Definition create (path : str) (data : buffer) (rules : acl) (mode : Z) : addr -> Z -> M fut :=
  async_op KCreate
    (zoo_acreate (with_str path) data (i32 (Z.of_nat (length data))) (with_acl rules) (i32 mode)).

Definition set (path : str) (data : buffer) (check : version) : addr -> Z -> M fut :=
  async_op KSet
    (zoo_aset (with_str path) data (i32 (Z.of_nat (length data))) (sid_value check)).

Definition erase (path : str) (check : version) : addr -> Z -> M fut :=
  async_op KErase (zoo_adelete (with_str path) (sid_value check)).

Definition get_acl (path : str) : addr -> Z -> M fut :=
  async_op KGetAcl (zoo_aget_acl (with_str path)).

Definition set_acl (path : str) (rules : acl) (check : acl_version) : addr -> Z -> M fut :=
  async_op KSetAcl (zoo_aset_acl (with_str path) (sid_value check) (with_acl rules)).

(** Here the future is taken from the promise after the call, through the pointer
    the C client has been given. *)
Definition load_fence_call (a : addr) (rc_in : Z) : M Z :=
  let! p := new_promise in
  alloc a (OPromise KLoadFence p) ;;;
  zoo_call (zoo_async "/") rc_in.

Definition load_fence_return (a : addr) (raw : Z) : M fut :=
  let rc := error_code_from_raw raw in
  let! o := load a in
  match o with
  | OPromise _ p =>
      if rc =? error_code.ok then get_future p
      else
        set_exception p (get_exception_ptr_of rc) ;;;
        let! f := get_future p in
        free a ;;;
        mreturn f
  | _ => mundef
  end.

Definition load_fence (a : addr) (rc_in : Z) : M fut :=
  let! raw := load_fence_call a rc_in in
  load_fence_return a raw.

(** ** The watch operations *)

(** What [watch], [watch_children] and [watch_exists] share, under the lock of
    [_watches]. After a failed call the local [shared_ptr] is the only owner. *)
Definition watch_op (k : watch_kind) (r : request) (a : addr) (rc_in : Z) : M fut :=
  let! event_promise := new_promise in
  let! data_promise := new_promise in
  alloc a (OWatcher (Watcher k false event_promise false data_promise)) ;;;
  let! raw := zoo_call r rc_in in
  let rc := error_code_from_raw raw in
  (if rc =? error_code.ok then mmodify (fun w => set_watches (watches w ∪ {[a]}) w)
   else deliver_data a None (Some (get_exception_ptr_of rc))) ;;;
  let! f := get_data_future a in
  (if rc =? error_code.ok then mreturn tt else free a) ;;;
  mreturn f.

Definition watch (path : str) : addr -> Z -> M fut :=
  watch_op WData (zoo_awget (with_str path)).

Definition watch_children (path : str) : addr -> Z -> M fut :=
  watch_op WChild (zoo_awget_children2 (with_str path)).

Definition watch_exists (path : str) : addr -> Z -> M fut :=
  watch_op WExists (zoo_awexists (with_str path)).

End connection_zk.
