(* ===== verification/Watcher.v ===== *)
(** * Watcher: the threads that meet in one watcher

    [basic_watcher] in src/zk/connection_zk.cpp is touched by the thread that
    completes the call ([deliver_raw], [deliver_data]) and by threads that deliver an
    event ([deliver_event], from a notification or from [close]) without a common
    lock: only two atomic flags decide who stores into the promises. Here the same
    code as in ConnectionZk.v is cut into its atomic actions, and any number of
    threads interleave. *)

From S2P Require Import Prelude Text Types Error Results World ConnectionZk.

(** ** State *)

(** The members of the watcher, with what their promises hold. [failed] records that a
    promise was stored to twice or its future taken twice: an exception in the thread
    that did it. *)
Record shared := Shared {
  data_flag : bool;
  event_flag : bool;
  data_out : option outcome;
  event_out : option event;
  event_taken : bool;
  failed : bool;
}.

Definition fresh_watcher : shared := Shared false false None None false false.

(** [deliver_event]: load [_data_delivered]; if it was false, the exchange and store of
    [deliver_data]; then the exchange and store of the base class. *)
Inductive estage := ELoad | EExchData | ESetData | EExchEvent | ESetEvent | EDone.

(** [deliver_raw]: take the event future if there is data ([take]); exchange; store. *)
Inductive dstage := DTake | DExch | DSet | DDone.

Inductive thread :=
| TEvent (ev : event) (s : estage)
| TData (take : bool) (o : outcome) (s : dstage).

Definition closed_outcome : outcome := Exception (get_exception_ptr_of error_code.closed).

Definition store_data (o : outcome) (sh : shared) : shared :=
  match data_out sh with
  | None => Shared (data_flag sh) (event_flag sh) (Some o) (event_out sh) (event_taken sh) (failed sh)
  | Some _ => Shared (data_flag sh) (event_flag sh) (data_out sh) (event_out sh) (event_taken sh) true
  end.

Definition store_event (ev : event) (sh : shared) : shared :=
  match event_out sh with
  | None => Shared (data_flag sh) (event_flag sh) (data_out sh) (Some ev) (event_taken sh) (failed sh)
  | Some _ => Shared (data_flag sh) (event_flag sh) (data_out sh) (event_out sh) (event_taken sh) true
  end.

Definition take_event (sh : shared) : shared :=
  Shared (data_flag sh) (event_flag sh) (data_out sh) (event_out sh) true
    (failed sh || event_taken sh).

(** [flag.exchange(true)] *)
Definition raise_data (sh : shared) : shared :=
  Shared true (event_flag sh) (data_out sh) (event_out sh) (event_taken sh) (failed sh).
Definition raise_event (sh : shared) : shared :=
  Shared (data_flag sh) true (data_out sh) (event_out sh) (event_taken sh) (failed sh).

(** One atomic action of a thread. *)
Definition tstep (t : thread) (sh : shared) : thread * shared :=
  match t with
  | TEvent ev ELoad => (TEvent ev (if data_flag sh then EExchEvent else EExchData), sh)
  | TEvent ev EExchData =>
      (TEvent ev (if data_flag sh then EExchEvent else ESetData), raise_data sh)
  | TEvent ev ESetData => (TEvent ev EExchEvent, store_data closed_outcome sh)
  | TEvent ev EExchEvent =>
      (TEvent ev (if event_flag sh then EDone else ESetEvent), raise_event sh)
  | TEvent ev ESetEvent => (TEvent ev EDone, store_event ev sh)
  | TEvent ev EDone => (t, sh)
  | TData take o DTake => (TData take o DExch, if take then take_event sh else sh)
  | TData take o DExch =>
      (TData take o (if data_flag sh then DDone else DSet), raise_data sh)
  | TData take o DSet => (TData take o DDone, store_data o sh)
  | TData take o DDone => (t, sh)
  end.

Definition done_thread (t : thread) : bool :=
  match t with TEvent _ EDone | TData _ _ DDone => true | _ => false end.

(** Any thread that is not done may act next. *)
Inductive wstep : shared * list thread -> shared * list thread -> Prop :=
| wstep_thread sh ts i t t' sh' :
    ts !! i = Some t -> done_thread t = false -> tstep t sh = (t', sh') ->
    wstep (sh, ts) (sh', <[i := t']> ts).

Definition is_event (t : thread) : bool := match t with TEvent _ _ => true | _ => false end.
Definition is_data (t : thread) : bool := negb (is_event t).

(** The thread before its first action. *)
Definition start_of (t : thread) : thread :=
  match t with TEvent ev _ => TEvent ev ELoad | TData take o _ => TData take o DTake end.
Definition starts (t : thread) : bool :=
  match t with TEvent _ ELoad | TData _ _ DTake => true | _ => false end.

(** The most actions a thread may still take. *)
Definition actions_left (t : thread) : nat :=
  match t with
  | TEvent _ ELoad => 5 | TEvent _ EExchData => 4 | TEvent _ ESetData => 3
  | TEvent _ EExchEvent => 2 | TEvent _ ESetEvent => 1 | TEvent _ EDone => 0
  | TData _ _ DTake => 3 | TData _ _ DExch => 2 | TData _ _ DSet => 1 | TData _ _ DDone => 0
  end.

(** ** Counting threads *)

(** The threads about to store into a promise, and those about to take the event
    future. *)
Definition sets_data (t : thread) : bool :=
  match t with TEvent _ ESetData | TData _ _ DSet => true | _ => false end.
Definition sets_event (t : thread) : bool :=
  match t with TEvent _ ESetEvent => true | _ => false end.
Definition takes (t : thread) : bool :=
  match t with TData true _ DTake => true | _ => false end.

(** The threads that have taken the event future. *)
Definition took (t : thread) : bool :=
  match t with TData true _ (DExch | DSet | DDone) => true | _ => false end.

(** What a thread that has got this far has seen to. *)
Definition knows (sh : shared) (t : thread) : Prop :=
  match t with
  | TEvent _ (ESetData | EExchEvent) => data_flag sh = true
  | TEvent _ (ESetEvent | EDone) => data_flag sh = true /\ event_flag sh = true
  | TData _ _ (DSet | DDone) => data_flag sh = true
  | _ => True
  end.

Definition brings (t : thread) (o : outcome) : Prop :=
  match t with TEvent _ _ => o = closed_outcome | TData _ o' _ => o = o' end.
Definition brings_event (t : thread) (ev : event) : Prop :=
  match t with TEvent ev' _ => ev = ev' | _ => False end.

Definition unset {A} (o : option A) : bool := match o with None => true | Some _ => false end.

(** A flag is raised by exactly one thread that has yet to store, or the store is
    done. *)
Record winv (sh : shared) (ts : list thread) : Prop := Winv {
  wi_data : count sets_data ts = b2n (data_flag sh && unset (data_out sh));
  wi_data_low : data_flag sh = false -> data_out sh = None;
  wi_event : count sets_event ts = b2n (event_flag sh && unset (event_out sh));
  wi_event_low : event_flag sh = false -> event_out sh = None;
  wi_take : count takes ts + b2n (event_taken sh) <= 1;
  wi_took : count took ts = b2n (event_taken sh);
  wi_fine : failed sh = false;
  wi_knows : Forall (knows sh) ts;
  wi_data_from : forall o, data_out sh = Some o -> Exists (fun t => brings t o) ts;
  wi_event_from : forall ev, event_out sh = Some ev -> Exists (fun t => brings_event t ev) ts;
}.

(** ** The invariant *)

Lemma exists_insert (P : thread -> Prop) ts i t t' :
  ts !! i = Some t -> (P t -> P t') -> Exists P ts -> Exists P (<[i := t']> ts).
Proof.
  rewrite !list.Exists_exists. intros Hi Ht (x & (j & Hj)%list_elem_of_lookup & Hx).
  destruct (decide (i = j)) as [->|Hne].
  - exists t'. replace x with t in Hx by congruence. split; [|auto].
    apply list_elem_of_lookup. exists j. apply list_lookup_insert_eq. by eapply lookup_lt_Some.
  - exists x. split; [|done]. apply list_elem_of_lookup. exists j. by rewrite list_lookup_insert_ne.
Qed.

Lemma exists_here (P : thread -> Prop) ts i t' :
  i < length ts -> P t' -> Exists P (<[i := t']> ts).
Proof.
  intros Hi Ht. apply list.Exists_exists. exists t'. split; [|done].
  apply list_elem_of_lookup. exists i. by apply list_lookup_insert_eq.
Qed.

(** Threads keep what they bring, and flags are never lowered. *)
Lemma tstep_brings t sh t' sh' :
  tstep t sh = (t', sh') ->
  (forall o, brings t o -> brings t' o) /\ (forall ev, brings_event t ev -> brings_event t' ev).
Proof. destruct t as [ev []|tk o []]; cbn; intros [= <- <-]; done. Qed.

Lemma tstep_knows t sh t' sh' :
  tstep t sh = (t', sh') -> knows sh t ->
  knows sh' t' /\ (forall u, knows sh u -> knows sh' u).
Proof.
  intros E K. destruct sh as [df ef dt et tk fl].
  destruct t as [ev []|tk' o []]; cbn in *; injection E as <- <-; cbn;
    try destruct df; try destruct ef; try destruct tk'; try destruct dt; try destruct et; cbn in *;
    (split; [naive_solver|]); intros [ev2 []|tk2 o2 []]; cbn; naive_solver.
Qed.

Ltac count_all ts i Hi t' :=
  pose proof (count_insert sets_data ts i _ t' Hi);
  pose proof (count_insert sets_event ts i _ t' Hi);
  pose proof (count_insert takes ts i _ t' Hi);
  pose proof (count_insert took ts i _ t' Hi).

Lemma winv_step sh ts sh' ts' : winv sh ts -> wstep (sh, ts) (sh', ts') -> winv sh' ts'.
Proof.
  intros [I1 I2 I3 I4 I5 It I6 I7 I8 I9] W. inversion W as [? ? i t t' ? Hi Hd E]; subst.
  pose proof (lookup_lt_Some _ _ _ Hi) as Hlt.
  pose proof (Forall_lookup_1 _ _ _ _ I7 Hi) as K.
  destruct (tstep_brings _ _ _ _ E) as [Bd Be].
  destruct (tstep_knows _ _ _ _ E K) as [K' Ku].
  pose proof (fun o => exists_insert (fun t => brings t o) ts i t t' Hi (Bd o)) as Xd.
  pose proof (fun ev => exists_insert (fun t => brings_event t ev) ts i t t' Hi (Be ev)) as Xe.
  pose proof (fun o => exists_here (fun t => brings t o) ts i t' Hlt) as Yd.
  pose proof (fun ev => exists_here (fun t => brings_event t ev) ts i t' Hlt) as Ye.
  assert (K7 : Forall (knows sh') (<[i := t']> ts))
    by (apply Forall_insert; [by eapply Forall_impl|done]).
  count_all ts i Hi t'. clear I7 Ku.
  destruct sh as [df ef dt et tk fl]. cbn in I1, I2, I3, I4, I5, It, I6, I8, I9, K. subst fl.
  destruct t as [ev []|tk' o []]; cbn in E; injection E as <- <-; try done;
    destruct df, dt; try solve [discriminate (I2 eq_refl)];
    destruct ef, et; try solve [discriminate (I4 eq_refl)]; cbn in *; try lia;
    try destruct tk'; cbn in *; split; cbn; try lia; auto;
    intros; simplify_eq; auto;
    (destruct tk; [exfalso; cbn in I5; lia|done]).
Qed.

Lemma winv_start ts : Forall starts ts -> count is_data ts <= 1 -> winv fresh_watcher ts.
Proof.
  intros F Hd.
  assert (C : count sets_data ts = 0 /\ count sets_event ts = 0 /\ count took ts = 0 /\
              count takes ts <= count is_data ts /\ Forall (knows fresh_watcher) ts).
  { clear Hd. induction F as [|t ts Ht F (C1 & C2 & C5 & C3 & C4)]; cbn; [by auto|].
    destruct t as [ev []|[] o []]; cbn in Ht |- *; try done; repeat split; auto; lia. }
  destruct C as (C1 & C2 & C5 & C3 & C4). split; cbn; try done; lia.
Qed.

(** ** Every interleaving *)

Fixpoint total_left (ts : list thread) : nat :=
  match ts with [] => 0 | t :: rest => actions_left t + total_left rest end.

Lemma total_left_insert ts (i : nat) t t' :
  ts !! i = Some t -> total_left (<[i := t']> ts) + actions_left t = total_left ts + actions_left t'.
Proof.
  revert i; induction ts as [|x ts IH]; intros [|i] H; cbn in *; try done.
  - injection H as ->. lia.
  - rewrite <- !Nat.add_assoc. f_equal. exact (IH i H).
Qed.

Lemma tstep_less t sh t' sh' :
  tstep t sh = (t', sh') -> done_thread t = false -> actions_left t' < actions_left t.
Proof.
  destruct t as [ev []|tk o []], (data_flag sh) eqn:D, (event_flag sh) eqn:Ev; cbn; rewrite ?D, ?Ev;
    intros [= <- <-] ?; cbn; try lia; try done.
Qed.

Lemma wstep_less sh ts sh' ts' : wstep (sh, ts) (sh', ts') -> total_left ts' < total_left ts.
Proof.
  intros W; inversion W as [? ? i t t' ? Hi Hd E]; subst.
  pose proof (total_left_insert ts i t t' Hi). pose proof (tstep_less _ _ _ _ E Hd). lia.
Qed.

Lemma wstep_start_of sh ts sh' ts' :
  wstep (sh, ts) (sh', ts') -> map start_of ts' = map start_of ts.
Proof.
  intros W; inversion W as [? ? i t t' ? Hi Hd E]; subst.
  change (start_of <$> <[i := t']> ts = start_of <$> ts).
  rewrite list_fmap_insert. apply list_insert_id. rewrite list_lookup_fmap, Hi. cbn. f_equal.
  destruct t as [ev []|tk o []]; cbn in E; injection E as <- <-; done.
Qed.

Lemma runs_inv n sh ts sh' ts' :
  nsteps wstep n (sh, ts) (sh', ts') -> winv sh ts ->
  winv sh' ts' /\ map start_of ts' = map start_of ts /\ n + total_left ts' <= total_left ts.
Proof.
  remember (sh, ts) as x eqn:Ex. remember (sh', ts') as y eqn:Ey. intros R. revert sh ts Ex Ey.
  induction R as [x|n x [sh1 ts1] y W R IH]; intros sh ts -> Ey I.
  - injection Ey as -> ->. auto.
  - destruct (IH sh1 ts1 eq_refl Ey (winv_step _ _ _ _ I W)) as (I' & M & L).
    pose proof (wstep_less _ _ _ _ W). rewrite M, (wstep_start_of _ _ _ _ W).
    split; [done|]. split; [done|lia].
Qed.

Lemma starts_start_of ts : Forall starts ts -> map start_of ts = ts.
Proof.
  induction 1 as [|t ts Ht F IH]; cbn; [done|]. rewrite IH. f_equal.
  by destruct t as [ev []|tk o []].
Qed.

Lemma total_left_starts ts : total_left ts <= 5 * length ts.
Proof. induction ts as [|[ev []|tk o []] ts IH]; cbn; lia. Qed.

(** A thread that brings something was there, not yet started, at the beginning. *)
Lemma exists_start (P : thread -> Prop) ts ts0 :
  (forall t, P t -> P (start_of t)) -> map start_of ts = ts0 -> Exists P ts -> Exists P ts0.
Proof.
  intros HP <- X. induction X as [t ts X|t ts X IH]; cbn; [left; auto|right; auto].
Qed.

Lemma all_done_counts ts :
  Forall done_thread ts -> count sets_data ts = 0 /\ count sets_event ts = 0.
Proof. induction 1 as [|[ev []|tk o []] ts Ht F [I1 I2]]; cbn in *; done. Qed.

(** What a watcher holds once all threads are done. *)
Lemma all_done_state ts0 n sh ts :
  Forall starts ts0 -> count is_data ts0 <= 1 ->
  nsteps wstep n (fresh_watcher, ts0) (sh, ts) -> Forall done_thread ts ->
  (ts0 <> [] -> is_Some (data_out sh)) /\
  (Exists is_event ts0 <-> is_Some (event_out sh)) /\
  data_flag sh = negb (unset (data_out sh)) /\ event_flag sh = negb (unset (event_out sh)).
Proof.
  intros F Hd R D. destruct (runs_inv _ _ _ _ _ R (winv_start _ F Hd)) as (I & M & _).
  rewrite (starts_start_of _ F) in M. destruct I as [I1 I2 I3 I4 I5 It I6 I7 I8 I9].
  destruct (all_done_counts _ D) as [D1 D2]. rewrite D1 in I1. rewrite D2 in I3.
  assert (data_flag sh = negb (unset (data_out sh))) as Ed.
  { destruct (data_flag sh), (data_out sh); try done. by specialize (I2 eq_refl). }
  assert (event_flag sh = negb (unset (event_out sh))) as Ee.
  { destruct (event_flag sh), (event_out sh); try done. by specialize (I4 eq_refl). }
  split_and!; [| |done|done].
  - intros Hne. destruct ts as [|t ts]; [by cbn in M|].
    assert (data_flag sh = true) as Fl.
    { inversion D as [|? ? Dt _]; inversion I7 as [|? ? K _]; subst.
      destruct t as [ev []|tk o []]; cbn in *; naive_solver. }
    rewrite Fl in Ed. destruct (data_out sh); [by eauto|done].
  - split.
    + rewrite <- M. intros X.
      assert (event_flag sh = true) as Fl.
      { clear - X D I7. induction ts as [|t ts IH]; cbn in X; [inversion X|].
        inversion D as [|? ? Dt Dr]; inversion I7 as [|? ? K Kr]; subst.
        inversion X as [? ? Xt|? ? Xr]; subst; [|by apply IH].
        destruct t as [ev []|tk o []]; cbn in *; naive_solver. }
      rewrite Fl in Ee. destruct (event_out sh); [by eauto|done].
    + intros [ev E]. apply (exists_start is_event ts ts0); [by intros []|exact M|].
      eapply Exists_impl; [by apply I9|]. by intros [].
Qed.

(** C7: whatever threads meet in a watcher - any number delivering events, at most one
    delivering data - and however they interleave: no promise is ever stored to twice
    and the event future is never taken twice; the threads take at most five actions
    each; what the promises hold was brought by one of the threads (the data
    promise then holds either that thread's result or the closed error); and once all
    threads are done the data promise is satisfied if there was any thread, and the
    event promise if any thread delivered an event. *)
Theorem watcher_threads ts0 n sh ts :
  Forall starts ts0 -> count is_data ts0 <= 1 ->
  nsteps wstep n (fresh_watcher, ts0) (sh, ts) ->
  failed sh = false /\ n <= 5 * length ts0 /\
  (forall o, data_out sh = Some o -> Exists (fun t => brings t o) ts0) /\
  (forall ev, event_out sh = Some ev -> Exists (fun t => brings_event t ev) ts0) /\
  (Forall done_thread ts ->
   (ts0 <> [] -> is_Some (data_out sh)) /\
   (Exists is_event ts0 -> is_Some (event_out sh))).
Proof.
  intros F Hd R. destruct (runs_inv _ _ _ _ _ R (winv_start _ F Hd)) as (I & M & L).
  rewrite (starts_start_of _ F) in M. pose proof (total_left_starts ts0).
  destruct I as [I1 I2 I3 I4 I5 It I6 I7 I8 I9].
  split; [done|]. split; [lia|].
  split; [intros o E; eapply exists_start; [|exact M|by apply I8]; by intros []|].
  split; [intros ev E; eapply exists_start; [|exact M|by apply I9]; by intros []|].
  intros D. destruct (all_done_state _ _ _ _ F Hd R D) as (Sd & Se & _). split; [exact Sd|].
  intros X. by apply Se.
Qed.

(** A notification and [close] race with the completion of the call: the notification
    reads the data flag, the completion takes the event future and raises the flag, the
    notification finds it raised. *)
Definition race_threads : list thread :=
  [TEvent (Event event_type.changed state.connected) ELoad; TData true (Value VVoid) DTake].

Lemma race_run :
  exists n sh ts, nsteps wstep n (fresh_watcher, race_threads) (sh, ts) /\ Forall done_thread ts.
Proof.
  eexists _, _, _. split.
  - eapply nsteps_l; [eapply (wstep_thread _ _ 0%nat); reflexivity|].
    eapply nsteps_l; [eapply (wstep_thread _ _ 1%nat); reflexivity|].
    eapply nsteps_l; [eapply (wstep_thread _ _ 1%nat); reflexivity|].
    eapply nsteps_l; [eapply (wstep_thread _ _ 0%nat); reflexivity|].
    eapply nsteps_l; [eapply (wstep_thread _ _ 0%nat); reflexivity|].
    eapply nsteps_l; [eapply (wstep_thread _ _ 1%nat); reflexivity|].
    eapply nsteps_l; [eapply (wstep_thread _ _ 0%nat); reflexivity|].
    apply nsteps_O.
  - repeat constructor.
Qed.

Lemma watcher_threads_witness :
  exists n sh ts,
    nsteps wstep n (fresh_watcher, race_threads) (sh, ts) /\ Forall done_thread ts /\
    (failed sh = false /\ n <= 5 * length race_threads /\
     (forall o, data_out sh = Some o -> Exists (fun t => brings t o) race_threads) /\
     (forall ev, event_out sh = Some ev -> Exists (fun t => brings_event t ev) race_threads) /\
     (Forall done_thread ts ->
      (race_threads <> [] -> is_Some (data_out sh)) /\
      (Exists is_event race_threads -> is_Some (event_out sh)))).
Proof.
  destruct race_run as (n & sh & ts & R & D). exists n, sh, ts. split; [exact R|]. split; [exact D|].
  apply (watcher_threads race_threads n sh ts); [repeat constructor|cbn; lia|exact R].
Defined.
