(* ===== verification/Commit.v ===== *)
(** * Commit: [connection_zk::commit] and [connection_zk_commit_completer] of
      src/zk/connection_zk.cpp

    The encoding of a transaction into the C client's operation array, with the
    two variable-length arrays for ACLs and the cursors into them, and the
    delivery of the result. *)

From S2P Require Import Prelude Text OrdMap Types Error Acl Native Results Multi World.
From S2P Require Import ConnectionZk.
Local Open Scope Z_scope.

(** ** The encoding *)

(** An array of fixed length whose cells start uninitialised. A write outside of
    it is undefined behaviour ([None]). *)
Definition arr_write {A} (arr : list (option A)) (i : nat) (x : A) : option (list (option A)) :=
  if decide (i < length arr)%nat then Some (<[i := Some x]> arr) else None.

Record encoder := Encoder {
  en_ops : list raw_op;                  (* raw_ops, filled up to the current index *)
  en_acls : list (option (Z * nat));     (* encoded_acls: count, offset of data in acl_pieces *)
  en_acl_iter : nat;                     (* encoded_acl_iter - encoded_acls *)
  en_pieces : list (option raw_acl);     (* acl_pieces *)
  en_piece_iter : nat;                   (* acl_piece_iter - acl_pieces *)
  en_path_buffers : list (Z * Z);        (* pcompleter->path_buffers: index, size *)
  en_raw_stats : list (Z * unit);        (* pcompleter->raw_stats *)
}.

(** The first loop of [commit]: [create_op_count] and [acl_piece_count]. *)
Definition count_acls (txn : multi_op) : nat * nat :=
  foldl (fun '(ops, pieces) tx =>
           match tx with
           | OpCreate d => (S ops, pieces + length (create_rules d))%nat
           | _ => (ops, pieces)
           end) (0, 0)%nat txn.

(** [path_buffer_for]: room for a NUL, or for the sequence number and a NUL. *)
Definition path_buffer_size (path : str) (mode : Z) : Z :=
  Z.of_nat (length path) + (if is_set mode create_mode.sequential then 12 else 1).

(** [for (acl : cdata.rules) { *acl_piece_iter = encode_acl_part(acl); ++acl_piece_iter; }] *)
Fixpoint write_pieces (rules : acl) (pieces : list (option raw_acl)) (iter : nat)
    : option (list (option raw_acl) * nat) :=
  match rules with
  | [] => Some (pieces, iter)
  | r :: rest => match arr_write pieces iter (encode_acl_part r) with
                 | Some pieces' => write_pieces rest pieces' (S iter)
                 | None => None
                 end
  end.

(** One round of the second loop, on the operation [src_op] at index [idx]. *)
Definition encode_op (idx : Z) (src_op : op) (en : encoder) : option encoder :=
  match src_op with
  | OpCheck d =>
      Some (Encoder (en_ops en ++ [RawCheck (c_str (check_path d)) (sid_value (check_version d))])
              (en_acls en) (en_acl_iter en) (en_pieces en) (en_piece_iter en)
              (en_path_buffers en) (en_raw_stats en))
  | OpCreate d =>
      let rules := create_rules d in
      match arr_write (en_acls en) (en_acl_iter en)
              (i32 (Z.of_nat (length rules)), en_piece_iter en),
            write_pieces rules (en_pieces en) (en_piece_iter en) with
      | Some acls, Some (pieces, piece_iter) =>
          let sz := path_buffer_size (create_path d) (create_mode_of d) in
          Some (Encoder
                  (en_ops en ++
                   [RawCreate (c_str (create_path d)) (create_data_buf d)
                      (i32 (Z.of_nat (length (create_data_buf d))))
                      (en_acl_iter en) (i32 (create_mode_of d)) (i32 sz)])
                  acls (S (en_acl_iter en)) pieces piece_iter
                  (om_assign idx sz (en_path_buffers en)) (en_raw_stats en))
      | _, _ => None
      end
  | OpErase d =>
      Some (Encoder (en_ops en ++ [RawDelete (c_str (erase_path d)) (sid_value (erase_version d))])
              (en_acls en) (en_acl_iter en) (en_pieces en) (en_piece_iter en)
              (en_path_buffers en) (en_raw_stats en))
  | OpSet d =>
      Some (Encoder
              (en_ops en ++
               [RawSet (c_str (set_path d)) (set_data_buf d)
                  (i32 (Z.of_nat (length (set_data_buf d)))) (sid_value (set_version d)) idx])
              (en_acls en) (en_acl_iter en) (en_pieces en) (en_piece_iter en)
              (en_path_buffers en) (om_insert idx tt (en_raw_stats en)))
  end.

Fixpoint encode_ops (idx : Z) (txn : multi_op) (en : encoder) : option encoder :=
  match txn with
  | [] => Some en
  | o :: rest => match encode_op idx o en with
                 | Some en' => encode_ops (idx + 1) rest en'
                 | None => None
                 end
  end.

Definition encode_txn (txn : multi_op) : option encoder :=
  let '(create_op_count, acl_piece_count) := count_acls txn in
  encode_ops 0 txn
    (Encoder [] (replicate create_op_count None) 0 (replicate acl_piece_count None) 0 [] []).

(** What the C client reads through an [ACL_vector]: [count] cells of
    [acl_pieces] from [data] on; an uninitialised cell is undefined. *)
Definition read_acl_vector (pieces : list (option raw_acl)) (v : Z * nat)
    : option raw_acl_vector :=
  RawAclVector v.1 <$> mapM id (take (Z.to_nat v.1) (drop v.2 pieces)).

Definition read_acls (en : encoder) : option (list raw_acl_vector) :=
  mapM (fun c => c ≫= read_acl_vector (en_pieces en)) (en_acls en).

(** ** The result *)

(** [std::partition_point]: binary search for the first element that does not
    satisfy [pred]. Each round at least halves [len], so [len] rounds suffice. *)
Fixpoint partition_point_loop {A} (fuel : nat) (pred : A -> bool) (l : list A)
    (first len : nat) : nat :=
  match fuel with
  | O => first
  | S f =>
      match len with
      | O => first
      | _ =>
          let half := Nat.div2 len in
          let mid := (first + half)%nat in
          match l !! mid with
          | Some x => if pred x
                      then partition_point_loop f pred l (S mid) (len - half - 1)%nat
                      else partition_point_loop f pred l first half
          | None => first
          end
      end
  end.

Definition partition_point {A} (pred : A -> bool) (l : list A) : nat :=
  partition_point_loop (length l) pred l 0 (length l).

(** The loop of [deliver] over the operations of the transaction. Reading past
    the result array is undefined ([None]). *)
Fixpoint collect_parts (txn : multi_op) (raw_results : list raw_result)
    : option multi_result :=
  match txn, raw_results with
  | [], _ => Some []
  | o :: txn', raw_res :: results' =>
      let p := match op_type_of o with
               | op_create => part_of_create (CreateResult (rr_value raw_res))
               | op_set => part_of_set (SetResult (stat_from_raw (rr_stat raw_res)))
               | t => part_of_type t
               end in
      match collect_parts txn' results' with
      | Some ps => Some (p :: ps)
      | None => None
      end
  | _ :: _, [] => None
  end.

(** The outcome [deliver(rc)] stores. *)
Definition deliver_outcome (txn : multi_op) (rc : Z) (raw_results : list raw_result)
    : option outcome :=
  if rc =? error_code.ok then
    match collect_parts txn raw_results with
    | Some out => Some (Value (VMulti out))
    | None => None
    end
  else
    Some (Exception (ZkError (make_transaction_failed rc
      (Z.of_nat (partition_point (fun r => rr_err r =? 0) raw_results))))).

Definition deliver (c : completer) (rc : Z) (raw_results : list raw_result) : M unit :=
  match deliver_outcome (c_source_txn c) rc raw_results with
  | Some o => mtry (store (c_prom c) o) (fun e => set_exception (c_prom c) e)
  | None => mundef
  end.

Section commit.
Context `{!ZooConsts}.

(** ** commit *)

Definition commit (txn : multi_op) (a : addr) (rc_in : Z) : M fut :=
  let! p := new_promise in
  alloc a (OCompleter (Completer txn p [] [])) ;;;
  mtry
    (match encode_txn txn with
     | None => mundef
     | Some en =>
         match read_acls en with
         | None => mundef
         | Some acls =>
             update a (OCompleter (Completer txn p (en_path_buffers en) (en_raw_stats en))) ;;;
             let! f := get_future p in
             let! raw := zoo_call
               (zoo_amulti (i32 (Z.of_nat (length txn))) (en_ops en) acls) rc_in in
             let rc := error_code_from_raw raw in
             if rc =? error_code.ok then mreturn f
             else
               set_exception p (get_exception_ptr_of rc) ;;;
               let! f' := get_future p in
               free a ;;;
               mreturn f'
         end
     end)
    (fun e =>
       (** The handler itself may throw; the [unique_ptr] is destroyed either way. *)
       mtry (set_exception p e ;;; let! f' := get_future p in free a ;;; mreturn f')
         (fun e' => free a ;;; mthrow e')).

(** ** Completions

    What the environment runs when it completes the call whose context is [a]. *)
Definition on_completion (a : addr) (rc_in : Z) (p : payload) : M unit :=
  let! o := load a in
  match o with
  | OPromise k f =>
      match callback k rc_in p with
      | Some out => store f out ;;; free a
      | None => mundef
      end
  | OWatcher w =>
      match w_kind w, p with
      | WData, PData data st => data_deliver_raw a rc_in data st
      | WChild, PStrings strings st => child_deliver_raw a rc_in strings st
      | WExists, PStat st => exists_deliver_raw a rc_in st
      | _, _ => mundef
      end
  | OCompleter c =>
      match p with
      | PMulti results => deliver c (error_code_from_raw rc_in) results ;;; free a
      | _ => mundef
      end
  end.

End commit.

(** * Reference encoding

    What the arrays should hold, without cursors: the raw operation of each
    operation ([k] counts the create operations before it), the ACL pieces of all
    create operations in order, and the vector of each with its offset. *)

Definition spec_op (idx : Z) (k : nat) (o : op) : raw_op :=
  match o with
  | OpCheck d => RawCheck (c_str (check_path d)) (sid_value (check_version d))
  | OpCreate d =>
      RawCreate (c_str (create_path d)) (create_data_buf d)
        (i32 (Z.of_nat (length (create_data_buf d)))) k (i32 (create_mode_of d))
        (i32 (path_buffer_size (create_path d) (create_mode_of d)))
  | OpErase d => RawDelete (c_str (erase_path d)) (sid_value (erase_version d))
  | OpSet d => RawSet (c_str (set_path d)) (set_data_buf d)
                 (i32 (Z.of_nat (length (set_data_buf d)))) (sid_value (set_version d)) idx
  end.

Fixpoint spec_ops (idx : Z) (k : nat) (txn : multi_op) : list raw_op :=
  match txn with
  | [] => []
  | o :: rest => spec_op idx k o
                 :: spec_ops (idx + 1) (match o with OpCreate _ => S k | _ => k end) rest
  end.

Fixpoint txn_rules (txn : multi_op) : list acl :=
  match txn with
  | [] => []
  | OpCreate d :: rest => create_rules d :: txn_rules rest
  | _ :: rest => txn_rules rest
  end.

Definition spec_pieces (rules : list acl) : list raw_acl := encode_acl_part <$> mjoin rules.

Fixpoint spec_vectors (off : nat) (rules : list acl) : list (Z * nat) :=
  match rules with
  | [] => []
  | r :: rest => (i32 (Z.of_nat (length r)), off) :: spec_vectors (off + length r) rest
  end.

(** * Lemmas *)

Lemma count_acls_from txn a b :
  foldl (fun '(ops, pieces) tx =>
           match tx with
           | OpCreate d => (S ops, pieces + length (create_rules d))%nat
           | _ => (ops, pieces)
           end) (a, b) txn
  = (a + length (txn_rules txn), b + length (mjoin (txn_rules txn)))%nat.
Proof.
  revert a b; induction txn as [|[] txn IH]; intros a b; cbn [foldl txn_rules];
    try (rewrite IH; done).
  - simpl. f_equal; lia.
  - rewrite IH. cbn [length]. change (mjoin (create_rules d :: txn_rules txn))
      with (create_rules d ++ mjoin (txn_rules txn)). rewrite length_app. f_equal; lia.
Qed.

Lemma arr_write_next {A} (xs : list A) n x :
  arr_write ((Some <$> xs) ++ replicate (S n) None) (length xs) x
  = Some ((Some <$> xs ++ [x]) ++ replicate n None).
Proof.
  unfold arr_write. rewrite decide_True by (rewrite length_app, length_fmap; simpl; lia).
  f_equal. rewrite <- (length_fmap Some xs), <- (Nat.add_0_r (length (Some <$> xs))).
  rewrite insert_app_r. simpl. by rewrite fmap_app, <- app_assoc.
Qed.

Lemma write_pieces_ok rules xs n :
  write_pieces rules ((Some <$> xs) ++ replicate (length rules + n) None) (length xs)
  = Some ((Some <$> xs ++ (encode_acl_part <$> rules)) ++ replicate n None,
          length xs + length rules)%nat.
Proof.
  revert xs; induction rules as [|r rules IH]; intros xs; cbn [write_pieces length].
  - rewrite app_nil_r. by rewrite Nat.add_0_r.
  - cbn [Nat.add]. rewrite arr_write_next.
    replace (S (length xs)) with (length (xs ++ [encode_acl_part r]))
      by (rewrite length_app; simpl; lia).
    rewrite IH, <- app_assoc. cbn [fmap list_fmap app]. f_equal. f_equal.
    rewrite length_app; simpl; lia.
Qed.

(** The loop invariant: the arrays hold what was written, followed by exactly as
    many free cells as the remaining operations need. *)
Lemma encode_ops_ok txn idx ops vs ps bufs stats :
  exists bufs' stats',
    encode_ops idx txn
      (Encoder ops ((Some <$> vs) ++ replicate (length (txn_rules txn)) None) (length vs)
         ((Some <$> ps) ++ replicate (length (mjoin (txn_rules txn))) None) (length ps)
         bufs stats)
    = Some (Encoder (ops ++ spec_ops idx (length vs) txn)
        (Some <$> vs ++ spec_vectors (length ps) (txn_rules txn))
        (length vs + length (txn_rules txn))
        (Some <$> ps ++ spec_pieces (txn_rules txn))
        (length ps + length (mjoin (txn_rules txn))) bufs' stats').
Proof.
  revert idx ops vs ps bufs stats.
  induction txn as [|o txn IH]; intros idx ops vs ps bufs stats.
  { exists bufs, stats. cbn. unfold spec_pieces; cbn. by rewrite !app_nil_r, !Nat.add_0_r. }
  destruct o as [d|d|d|d]; cbn [encode_ops encode_op txn_rules spec_ops];
    cbn [en_ops en_acls en_acl_iter en_pieces en_piece_iter en_path_buffers en_raw_stats].
  2: {
    cbn [length]. rewrite arr_write_next.
    change (mjoin (create_rules d :: txn_rules txn))
      with (create_rules d ++ mjoin (txn_rules txn)).
    rewrite length_app, write_pieces_ok.
    specialize (IH (idx + 1) (ops ++ [spec_op idx (length vs) (OpCreate d)])
      (vs ++ [(i32 (Z.of_nat (length (create_rules d))), length ps)])
      (ps ++ (encode_acl_part <$> create_rules d))
      (om_assign idx (path_buffer_size (create_path d) (create_mode_of d)) bufs) stats).
    destruct IH as (bufs' & stats' & IH). exists bufs', stats'.
    rewrite !length_app, length_fmap in IH. cbn [length] in IH.
    replace (length vs + 1)%nat with (S (length vs)) in IH by lia. etrans; [exact IH|].
    unfold spec_pieces. change (mjoin (create_rules d :: txn_rules txn))
      with (create_rules d ++ mjoin (txn_rules txn)).
    rewrite (fmap_app encode_acl_part), <- !app_assoc. cbn [app spec_vectors].
    f_equal; f_equal; lia. }
  all: match goal with |- context [encode_ops _ _ (Encoder ?ops' _ _ _ _ ?bf ?st)] =>
         destruct (IH (idx + 1) ops' vs ps bf st) as (b & s & E) end;
    exists b, s; etrans; [exact E|]; by rewrite <- app_assoc.
Qed.

Lemma mapM_id_some {A} (l : list A) : mapM id (Some <$> l) = Some l.
Proof. induction l as [|x l IH]; [done|]. cbn. by rewrite IH. Qed.

Lemma read_acl_vector_mid pre (r : acl) post :
  Z.of_nat (length r) <= INT32_MAX ->
  read_acl_vector (Some <$> pre ++ (encode_acl_part <$> r) ++ post)
    (i32 (Z.of_nat (length r)), length pre) = Some (with_acl r).
Proof.
  intros Hr. unfold read_acl_vector, with_acl. cbn [fst snd].
  rewrite i32_small, Nat2Z.id by (unfold INT32_MIN; lia).
  rewrite !(fmap_app Some), drop_app_length' by by rewrite length_fmap.
  rewrite take_app_length' by by rewrite !length_fmap. by rewrite mapM_id_some.
Qed.

Lemma mapM_read_cons pieces v vs x xs :
  read_acl_vector pieces v = Some x ->
  mapM (fun c => c ≫= read_acl_vector pieces) (Some <$> vs) = Some xs ->
  mapM (fun c => c ≫= read_acl_vector pieces) (Some <$> v :: vs) = Some (x :: xs).
Proof. intros Hx Hxs. cbn in *. rewrite Hx. cbn. by rewrite Hxs. Qed.

(** Each vector reads back the pieces of its own create operation. *)
Lemma read_spec_vectors rules pre :
  Forall (fun r : acl => Z.of_nat (length r) <= INT32_MAX) rules ->
  mapM (fun c => c ≫= read_acl_vector (Some <$> pre ++ spec_pieces rules))
    (Some <$> spec_vectors (length pre) rules)
  = Some (with_acl <$> rules).
Proof.
  revert pre; induction rules as [|r rules IH]; intros pre H; [done|].
  apply Forall_cons in H as [Hr H].
  assert (spec_pieces (r :: rules) = (encode_acl_part <$> r) ++ spec_pieces rules) as ->
    by apply fmap_app.
  cbn [spec_vectors]. apply mapM_read_cons; [by apply read_acl_vector_mid|].
  specialize (IH (pre ++ (encode_acl_part <$> r)) H).
  rewrite length_app, length_fmap, <- app_assoc in IH. exact IH.
Qed.

Lemma encode_txn_spec txn :
  exists bufs stats,
    encode_txn txn =
      Some (Encoder (spec_ops 0 0 txn) (Some <$> spec_vectors 0 (txn_rules txn))
              (length (txn_rules txn)) (Some <$> spec_pieces (txn_rules txn))
              (length (mjoin (txn_rules txn))) bufs stats).
Proof.
  unfold encode_txn, count_acls. rewrite count_acls_from.
  exact (encode_ops_ok txn 0 [] [] [] [] []).
Qed.

(** ** Binary search *)

(** The elements that satisfy [pred] are exactly the first [n]. *)
Definition partitioned {A} (pred : A -> bool) (l : list A) (n : nat) : Prop :=
  (n <= length l)%nat /\ forall i x, l !! i = Some x -> (pred x = true <-> (i < n)%nat).

Lemma partition_point_loop_spec {A} (pred : A -> bool) l n fuel first len :
  partitioned pred l n ->
  (first <= n <= first + len)%nat -> (first + len <= length l)%nat -> (len <= fuel)%nat ->
  partition_point_loop fuel pred l first len = n.
Proof.
  intros [Hn Hp]. revert first len.
  induction fuel as [|fuel IH]; intros first len Hr Hl Hf; cbn [partition_point_loop]; [lia|].
  destruct len as [|len']; [lia|]. remember (S len') as len eqn:Elen.
  assert (Nat.div2 len < len)%nat as Hh by (apply Nat.lt_div2; lia).
  generalize dependent (Nat.div2 len). intros half Hh.
  destruct (lookup_lt_is_Some_2 l (first + half) ltac:(lia)) as [x Hx].
  rewrite Hx. specialize (Hp _ _ Hx).
  destruct (pred x) eqn:Epred.
  - assert (first + half < n)%nat by by apply Hp. apply IH; lia.
  - assert (~ (first + half < n)%nat) by (rewrite <- Hp; done). apply IH; lia.
Qed.

Lemma partition_point_spec {A} (pred : A -> bool) l n :
  partitioned pred l n -> partition_point pred l = n.
Proof.
  intros Hp. apply partition_point_loop_spec; [done|..]; destruct Hp; lia.
Qed.

(** ** Collecting the result *)

Lemma collect_parts_ok txn results :
  length results = length txn ->
  exists ps, collect_parts txn results = Some ps /\
    Forall2 (fun o p => part_type p = op_type_of o /\ part_wf p = true) txn ps.
Proof.
  revert results; induction txn as [|o txn IH]; intros [|r results] Hlen; try done.
  - exists []. by split.
  - injection Hlen as Hlen. destruct (IH _ Hlen) as (ps & E & HF). cbn [collect_parts].
    rewrite E. eexists; split; [done|]. constructor; [|done]. by destruct o.
Qed.

Lemma print_part_wf p : part_wf p = true -> exists s, print_part p = Ok s.
Proof.
  destruct p as [t s]. unfold part_wf, print_part; cbn.
  destruct t, s; try done; intros _; unfold part_as_create, part_as_set, part_as; cbn; eauto.
Qed.

Lemma print_parts_wf ps first os :
  Forall (fun p => part_wf p = true) ps -> exists s, print_parts_loop first os ps = Ok s.
Proof.
  revert first os; induction ps as [|p ps IH]; intros first os H; cbn; [eauto|].
  apply Forall_cons in H as [Hp H]. destruct (print_part_wf _ Hp) as [x ->]. cbn. auto.
Qed.

(** ** Running [commit] *)

Definition txn_fits (txn : multi_op) : Prop :=
  Forall (fun r : acl => Z.of_nat (length r) <= INT32_MAX) (txn_rules txn).

Section runs.
Context `{!ZooConsts}.

(** The request a transaction is sent as. *)
Definition txn_request (txn : multi_op) : request :=
  zoo_amulti (i32 (Z.of_nat (length txn))) (spec_ops 0 0 txn) (with_acl <$> txn_rules txn).

(** The state up to the call, in both cases. *)
Lemma commit_run txn a rc_in w :
  heap w !! a = None -> txn_fits txn ->
  exists c, c_source_txn c = txn /\ c_prom c = next_fut w /\
  let w' := World (handle w) (watches w) (state_promises w)
              (<[a := OCompleter c]> (heap w))
              (<[next_fut w := SState None true]> (futs w)) (S (next_fut w))
              (sent w ++ [txn_request txn]) in
  commit txn a rc_in w =
    if error_code_from_raw rc_in =? error_code.ok then (MOk (next_fut w), w')
    else
      (MThrow (FutureError promise_already_satisfied),
       World (handle w) (watches w) (state_promises w) (heap w)
         (<[next_fut w := SState
              (Some (Exception (get_exception_ptr_of (error_code_from_raw rc_in)))) true]> (futs w))
         (S (next_fut w)) (sent w ++ [txn_request txn])).
Proof.
  intros Ha Hfit. destruct (encode_txn_spec txn) as (bufs & stats & E).
  exists (Completer txn (next_fut w) bufs stats). split_and!; [done..|]. cbv zeta.
  unfold commit. rewrite E. unfold read_acls. cbn [en_acls en_pieces en_ops].
  pose proof (read_spec_vectors (txn_rules txn) [] Hfit) as Hr. cbn [length app] in Hr.
  rewrite Hr.
  unfold mtry, mseq, new_promise, alloc, update, get_future, zoo_call. cbn.
  rewrite Ha. cbn. rewrite lookup_insert_eq. cbn. rewrite lookup_insert_eq. cbn.
  destruct (error_code_from_raw rc_in =? error_code.ok) eqn:Erc.
  - unfold mreturn, txn_request. cbn. unfold set_sent, set_futs, set_heap; cbn.
    by rewrite !insert_insert_eq.
  - unfold set_exception, store. cbn. rewrite lookup_insert_eq. cbn. rewrite lookup_insert_eq.
    cbn. rewrite lookup_insert_eq. cbn.
    erewrite free_satisfied; cbn; [|by rewrite lookup_insert_eq|].
    + unfold mthrow, set_sent, set_futs, set_heap; cbn.
      by rewrite !insert_insert_eq, delete_insert_id.
    + constructor; [|constructor]. cbn. rewrite lookup_insert_eq. eauto.
Qed.

End runs.

(** * Properties *)

(** C5: encoding a transaction never writes outside the two ACL arrays and fills
    them exactly; every operation is encoded in its place with its own path, data
    and version; and the vector each create operation points to reads back as the
    encoding of that operation's own rules. *)
Theorem commit_encoding_correct txn :
  txn_fits txn ->
  exists en, encode_txn txn = Some en /\
    en_ops en = spec_ops 0 0 txn /\ length (en_ops en) = length txn /\
    read_acls en = Some (with_acl <$> txn_rules txn) /\
    en_acl_iter en = length (en_acls en) /\ en_piece_iter en = length (en_pieces en).
Proof.
  intros Hfit. destruct (encode_txn_spec txn) as (bufs & stats & ->).
  eexists; split_and!; [done|done|..]; cbn.
  - generalize 0, 0%nat. induction txn as [|o txn IH]; intros i k; cbn; [done|].
    f_equal. apply IH. unfold txn_fits in *. destruct o; cbn in Hfit; try done.
    by apply Forall_cons in Hfit as [_ ?].
  - exact (read_spec_vectors (txn_rules txn) [] Hfit).
  - rewrite length_fmap. generalize 0%nat. clear.
    induction (txn_rules txn) as [|r l IH]; intros off; cbn; [done|]. by rewrite <- IH.
  - unfold spec_pieces. by rewrite !length_fmap.
Qed.

Definition example_txn : multi_op :=
  [op_make_check "/" version_any;
   op_make_create_default "/test-" "1" create_mode.sequential;
   op_make_erase "/a" (StrongId 3);
   op_make_create "/b" "2" (acls.read_unsafe ++ acls.creator_all) create_mode.normal;
   op_make_set "/c" "data" version_any].

Lemma commit_encoding_correct_witness :
  exists en, encode_txn example_txn = Some en /\ length (en_ops en) = 5%nat /\
    read_acls en = Some [with_acl acls.open_unsafe;
                         with_acl (acls.read_unsafe ++ acls.creator_all)].
Proof.
  destruct (commit_encoding_correct example_txn) as (en & E & _ & Hl & Ha & _).
  - repeat constructor; vm_compute; discriminate.
  - exists en. split_and!; [exact E | exact Hl | exact Ha].
Defined.

(** C28: when a transaction fails with [rc] and the C client has left a zero error
    for the operations before the failing one and non-zero ones from it on, the
    future gets [transaction_failed] whose cause is [rc] and whose
    [failed_op_index] is the index of the failing operation: the binary search of
    [std::partition_point] finds it. *)
Theorem commit_failed_index txn rc before failed :
  rc <> error_code.ok ->
  Forall (fun r => rr_err r = 0) before -> Forall (fun r => rr_err r <> 0) failed ->
  deliver_outcome txn rc (before ++ failed)
  = Some (Exception (ZkError (make_transaction_failed rc (Z.of_nat (length before))))).
Proof.
  intros Hrc Hb Hf. unfold deliver_outcome. destruct (Z.eqb_spec rc error_code.ok); [done|].
  rewrite (partition_point_spec _ _ (length before)); [done|]. split.
  - rewrite length_app; lia.
  - intros i r Hi. rewrite Z.eqb_eq. apply lookup_app_Some in Hi as [Hi|[Hge Hi]].
    + pose proof (Forall_lookup_1 _ _ _ _ Hb Hi) as H0. apply lookup_lt_Some in Hi. naive_solver.
    + pose proof (Forall_lookup_1 _ _ _ _ Hf Hi) as H0. split; [done|lia].
Qed.

Definition no_raw_stat : raw_stat := RawStat 0 0 0 0 0 0 0 0 0 0 0.

Lemma commit_failed_index_witness :
  deliver_outcome (take 3 example_txn) error_code.no_entry
    ([RawResult 0 [] no_raw_stat] ++
     [RawResult (-101) [] no_raw_stat; RawResult (-2) [] no_raw_stat])
  = Some (Exception (ZkError (make_transaction_failed error_code.no_entry 1))).
Proof.
  apply (commit_failed_index (take 3 example_txn) error_code.no_entry
    [RawResult 0 [] no_raw_stat]
    [RawResult (-101) [] no_raw_stat; RawResult (-2) [] no_raw_stat]).
  - discriminate.
  - repeat constructor.
  - repeat constructor; discriminate.
Defined.

(** C29: a successful commit delivers one part per operation, in order, each of
    the type of its operation and holding the data that type announces, so the
    checked accessors for it do not throw and printing the result does not
    either. *)
Theorem commit_result_wf txn results :
  length results = length txn ->
  exists ps, deliver_outcome txn error_code.ok results = Some (Value (VMulti ps)) /\
    part_type <$> ps = op_type_of <$> txn /\
    Forall (fun p => (part_type p = op_create -> is_ok (part_as_create p) = true) /\
                     (part_type p = op_set -> is_ok (part_as_set p) = true)) ps /\
    is_ok (print_multi_result ps) = true.
Proof.
  intros Hlen. destruct (collect_parts_ok _ _ Hlen) as (ps & E & HF).
  exists ps. unfold deliver_outcome. rewrite Z.eqb_refl, E. split_and!; [done|..].
  - clear -HF. induction HF as [|o p txn ps [Ht _] _ IH]; [done|]. by rewrite !fmap_cons, Ht, IH.
  - clear -HF. induction HF as [|o p txn ps [_ Hwf] _ IH]; constructor; [|exact IH].
    destruct p as [t s]. by destruct t, s.
  - destruct (print_parts_wf ps true "[") as [s Hs]; [|by unfold print_multi_result; rewrite Hs].
    clear -HF. induction HF as [|o p txn ps [_ Hwf] _ IH]; by constructor.
Qed.

Lemma commit_result_wf_witness :
  exists ps, deliver_outcome example_txn error_code.ok
      (replicate 5 (RawResult 0 "/x" no_raw_stat)) = Some (Value (VMulti ps)) /\
    is_ok (print_multi_result ps) = true.
Proof.
  destruct (commit_result_wf example_txn (replicate 5 (RawResult 0 "/x" no_raw_stat)))
    as (ps & E & _ & _ & Hp); [reflexivity|].
  exists ps; split; [exact E | exact Hp].
Defined.

(** C36: when [zoo_amulti] itself fails, [commit] does not deliver the error
    through the returned future, as every other operation does: it takes the
    future of the promise a second time, the handler for the resulting exception
    stores into the satisfied promise, and [promise_already_satisfied] leaves the
    function. Nothing is leaked and the C client holds no context. *)
Theorem commit_immediate_error `{!ZooConsts} txn a rc_in w :
  heap w !! a = None -> txn_fits txn -> error_code_from_raw rc_in <> error_code.ok ->
  exists w', commit txn a rc_in w
             = (MThrow (FutureError promise_already_satisfied), w') /\
    heap w' = heap w /\ sent w' = sent w ++ [txn_request txn].
Proof.
  intros Ha Hfit Hrc. destruct (commit_run txn a rc_in w Ha Hfit) as (c & _ & _ & E).
  apply Z.eqb_neq in Hrc. cbn zeta in E. rewrite Hrc in E. rewrite E. eauto.
Qed.

Definition empty_world : world := World true ∅ [] ∅ ∅ 0 [].

Lemma commit_immediate_error_witness :
  exists w', @commit zookeeper_3_5 example_txn 1%positive (-4) empty_world
             = (MThrow (FutureError promise_already_satisfied), w') /\ heap w' = ∅.
Proof.
  destruct (@commit_immediate_error zookeeper_3_5 example_txn 1%positive (-4) empty_world)
    as (w' & E & Hh & _); [reflexivity | | discriminate | ].
  - repeat constructor; vm_compute; discriminate.
  - exists w'; split; [exact E | exact Hh].
Defined.
