(* ===== verification/Runs.v ===== *)
(** * Runs: what the operations of a connection do to the world

    One equation per operation and outcome, with the resulting world written out.
    The protocol is analysed on these equations only. *)

From S2P Require Import Prelude Text OrdMap Types Error Acl Native Results Multi World.
From S2P Require Import ConnectionZk Commit.
Local Open Scope Z_scope.

(** Symbolic execution: unfold the primitives and compute, resolving each lookup
    with the hypotheses at hand. *)
Ltac mstep :=
  cbn [miter handle watches state_promises heap futs next_fut sent
       set_handle set_watches set_state_promises set_heap set_futs set_next set_sent
       w_kind w_event_delivered w_event_promise w_data_delivered w_data_promise
       obj_promises c_source_txn c_prom].
Ltac munfold :=
  unfold mseq, mtry, mget, mmodify, mreturn, mthrow, mundef, new_promise, get_future,
    set_value, set_exception, store, destroy_promise, alloc, load, update, zoo_call.
Ltac mrun :=
  repeat (first
    [ progress munfold
    | progress mstep
    | match goal with
      | H : ?m !! ?k = _ |- context [?m !! ?k] => rewrite H
      end
    | rewrite lookup_insert_eq
    | rewrite lookup_insert_ne by (congruence || lia) ]).

Section runs.
Context `{!ZooConsts}.

(** The outcome of a call the C client refused. *)
Definition refused (rc_in : Z) : outcome :=
  Exception (get_exception_ptr_of (error_code_from_raw rc_in)).

Definition ok_rc (rc_in : Z) : bool := error_code_from_raw rc_in =? error_code.ok.

(** The world after a call was sent with context [o] at [a] and the futures [fs]
    (a map of fresh shared states). *)
Definition after_launch (a : addr) (o : obj) (s : sstate) (r : request) (w : world) : world :=
  World (handle w) (watches w) (state_promises w) (<[a := o]> (heap w))
    (<[next_fut w := s]> (futs w)) (S (next_fut w)) (sent w ++ [r]).

Definition after_refusal (s : sstate) (r : request) (w : world) : world :=
  World (handle w) (watches w) (state_promises w) (heap w)
    (<[next_fut w := s]> (futs w)) (S (next_fut w)) (sent w ++ [r]).

Lemma async_op_run k r a rc_in w :
  heap w !! a = None ->
  async_op k r a rc_in w =
    (MOk (next_fut w),
     if ok_rc rc_in then after_launch a (OPromise k (next_fut w)) (SState None true) r w
     else after_refusal (SState (Some (refused rc_in)) true) r w).
Proof.
  intros Ha. unfold async_op, async_call, async_return, ok_rc. mrun. cbn [fst snd].
  destruct (error_code_from_raw rc_in =? error_code.ok) eqn:Erc.
  - unfold after_launch. by rewrite insert_insert_eq.
  - mrun. erewrite free_satisfied; mstep; [|by rewrite lookup_insert_eq|].
    + unfold after_refusal, refused. by rewrite !insert_insert_eq, delete_insert_id.
    + constructor; [|done]. rewrite lookup_insert_eq. eauto.
Qed.

Lemma load_fence_run a rc_in w :
  heap w !! a = None ->
  load_fence a rc_in w =
    (MOk (next_fut w),
     if ok_rc rc_in
     then after_launch a (OPromise KLoadFence (next_fut w)) (SState None true) (zoo_async "/") w
     else after_refusal (SState (Some (refused rc_in)) true) (zoo_async "/") w).
Proof.
  intros Ha. unfold load_fence, load_fence_call, load_fence_return, ok_rc. mrun.
  destruct (error_code_from_raw rc_in =? error_code.ok) eqn:Erc.
  - mrun. unfold after_launch. by rewrite insert_insert_eq.
  - mrun. erewrite free_satisfied; mstep; [|by rewrite lookup_insert_eq|].
    + unfold after_refusal, refused. by rewrite !insert_insert_eq, delete_insert_id.
    + constructor; [|done]. rewrite lookup_insert_eq. eauto.
Qed.

(** A watch operation makes two promises: the one for the event first. *)
Definition after_watch (k : watch_kind) (a : addr) (r : request) (w : world) : world :=
  let n := next_fut w in
  World (handle w) (watches w ∪ {[a]}) (state_promises w)
    (<[a := OWatcher (Watcher k false n false (S n))]> (heap w))
    (<[S n := SState None true]> (<[n := SState None false]> (futs w)))
    (S (S n)) (sent w ++ [r]).

Definition after_watch_refusal (rc_in : Z) (r : request) (w : world) : world :=
  let n := next_fut w in
  World (handle w) (watches w) (state_promises w) (heap w)
    (<[S n := SState (Some (refused rc_in)) true]>
      (<[n := SState (Some (Exception (FutureError broken_promise))) false]> (futs w)))
    (S (S n)) (sent w ++ [r]).

Lemma watch_op_run k r a rc_in w :
  heap w !! a = None ->
  watch_op k r a rc_in w =
    (MOk (S (next_fut w)),
     if ok_rc rc_in then after_watch k a r w else after_watch_refusal rc_in r w).
Proof.
  intros Ha. unfold watch_op, ok_rc, deliver_data, get_data_future, load_watcher. mrun.
  destruct (error_code_from_raw rc_in =? error_code.ok) eqn:Erc.
  - mrun. unfold after_watch. by rewrite insert_insert_eq.
  - mrun. unfold free. mrun. unfold after_watch_refusal, refused.
    rewrite !insert_insert_eq, delete_insert_id by done.
    rewrite (insert_insert_ne _ (next_fut w)) by lia. by rewrite !insert_insert_eq.
Qed.

(** ** Completions *)

(** The context is settled: its promise got its outcome and the object is gone. *)
Definition settled (a : addr) (p : fut) (s : sstate) (w : world) : world :=
  set_heap (delete a (heap w)) (set_futs (<[p := s]> (futs w)) w).

Lemma promise_completion_run a rc_in p k f out r w :
  heap w !! a = Some (OPromise k f) -> callback k rc_in p = Some out ->
  futs w !! f = Some (SState None r) ->
  on_completion a rc_in p w = (MOk tt, settled a f (SState (Some out) r) w).
Proof.
  intros Ha Hc Hf. unfold on_completion. mrun. rewrite Hc. mrun.
  erewrite free_satisfied; mstep; [done..|].
  constructor; [|done]. rewrite lookup_insert_eq. eauto.
Qed.

Lemma commit_completion_run a rc_in results c out r w :
  heap w !! a = Some (OCompleter c) ->
  deliver_outcome (c_source_txn c) (error_code_from_raw rc_in) results = Some out ->
  futs w !! c_prom c = Some (SState None r) ->
  on_completion a rc_in (PMulti results) w
  = (MOk tt, settled a (c_prom c) (SState (Some out) r) w).
Proof.
  intros Ha Hc Hf. unfold on_completion, deliver. mrun. rewrite Hc. mrun.
  erewrite free_satisfied; mstep; [done..|].
  constructor; [|done]. rewrite lookup_insert_eq. eauto.
Qed.

(** What a watcher stores as its data and whether it takes the future of its event
    promise for it: [None] if the arguments do not have the type of the callback. *)
Definition watch_outcome (v : watcher) (rc_in : Z) (p : payload) : option (outcome * bool) :=
  let next := w_event_promise v in
  match w_kind v, p with
  | WData, PData data st =>
      Some (if ok_rc rc_in
            then (Value (VWatch (WatchResult (GetResult data (stat_from_raw st)) next)), true)
            else (refused rc_in, false))
  | WChild, PStrings strings st =>
      Some (if ok_rc rc_in
            then (Value (VWatchChildren (WatchChildrenResult
                    (GetChildrenResult (string_vector_from_raw strings) (stat_from_raw st))
                    next)), true)
            else (refused rc_in, false))
  | WExists, PStat st =>
      Some (if ok_rc rc_in
            then (Value (VWatchExists (WatchExistsResult
                    (ExistsResult (Some (stat_from_raw st))) next)), true)
            else if error_code_from_raw rc_in =? error_code.no_entry
            then (Value (VWatchExists (WatchExistsResult (ExistsResult None) next)), true)
            else (refused rc_in, false))
  | _, _ => None
  end.

Definition data_done (v : watcher) : watcher :=
  Watcher (w_kind v) (w_event_delivered v) (w_event_promise v) true (w_data_promise v).

Definition event_done (v : watcher) : watcher :=
  Watcher (w_kind v) true (w_event_promise v) (w_data_delivered v) (w_data_promise v).

(** The world after the data of the watcher at [a] was delivered. *)
Definition after_data (a : addr) (v : watcher) (out : outcome) (taken : bool) (w : world)
    : world :=
  set_heap (<[a := OWatcher (data_done v)]> (heap w))
    (set_futs (<[w_data_promise v := SState (Some out) true]>
                (<[w_event_promise v := SState None taken]> (futs w))) w).

Lemma watcher_completion_run a rc_in p v out taken w :
  heap w !! a = Some (OWatcher v) ->
  w_data_delivered v = false -> w_event_promise v <> w_data_promise v ->
  futs w !! w_data_promise v = Some (SState None true) ->
  futs w !! w_event_promise v = Some (SState None false) ->
  watch_outcome v rc_in p = Some (out, taken) ->
  on_completion a rc_in p w = (MOk tt, after_data a v out taken w).
Proof.
  intros Ha Hd Hne Hfd Hfe Ho. unfold on_completion. mrun.
  unfold watch_outcome, ok_rc in Ho. unfold after_data, data_done.
  destruct (w_kind v) eqn:Ek, p; try discriminate;
    [unfold data_deliver_raw | unfold child_deliver_raw | unfold exists_deliver_raw];
    (destruct (error_code_from_raw rc_in =? error_code.ok) eqn:Erc;
      [|try destruct (error_code_from_raw rc_in =? error_code.no_entry) eqn:Erc']);
    injection Ho as <- <-; cbn [negb];
    unfold get_event_future, deliver_data, load_watcher; mrun; rewrite ?Hd; mrun;
    rewrite ?Ek; try done.
  all: rewrite (insert_id (futs w) (w_event_promise v)) by done; done.
Qed.

(** ** Notifications *)

Lemma deliver_event_run a v ev r w :
  heap w !! a = Some (OWatcher v) -> w_data_delivered v = true -> w_event_delivered v = false ->
  futs w !! w_event_promise v = Some (SState None r) ->
  deliver_event a ev w =
    (MOk tt, set_heap (<[a := OWatcher (event_done v)]> (heap w))
       (set_futs (<[w_event_promise v := SState (Some (Value (VEvent ev))) r]> (futs w)) w)).
Proof.
  intros Ha Hd He Hf. unfold deliver_event, deliver_event_base, load_watcher.
  mrun. rewrite Hd. mrun. rewrite He. mrun. done.
Qed.

Definition raw_event (type_in state_in : Z) : event :=
  Event (event_from_raw type_in) (state_from_raw state_in).

Lemma deliver_watch_run type_in state_in a v x r r' w :
  a ∈ watches w -> heap w !! a = Some (OWatcher v) ->
  w_data_delivered v = true -> w_event_delivered v = false ->
  w_event_promise v <> w_data_promise v ->
  futs w !! w_event_promise v = Some (SState None r) ->
  futs w !! w_data_promise v = Some (SState (Some x) r') ->
  deliver_watch type_in state_in a w =
    (MOk tt, set_watches (watches w ∖ {[a]})
       (settled a (w_event_promise v)
          (SState (Some (Value (VEvent (raw_event type_in state_in)))) r) w)).
Proof.
  intros Hw Ha Hd He Hne Hf Hfd. unfold deliver_watch, try_extract_watch. mrun.
  rewrite bool_decide_true by done. mrun.
  erewrite deliver_event_run; mstep; [|done..].
  erewrite free_satisfied; mstep; [|by rewrite lookup_insert_eq|].
  - by rewrite delete_insert_eq.
  - repeat constructor; [rewrite lookup_insert_eq|rewrite lookup_insert_ne by done]; eauto.
Qed.

Lemma deliver_watch_unknown type_in state_in a w :
  a ∉ watches w -> deliver_watch type_in state_in a w = (MOk tt, w).
Proof.
  intros Hw. unfold deliver_watch, try_extract_watch. mrun.
  by rewrite bool_decide_false.
Qed.

(** ** Loops over promises and watchers *)

(** Storing an outcome in each of the promises [l]. *)
Lemma store_all_run o l w :
  NoDup l -> (forall f, f ∈ l -> exists r, futs w !! f = Some (SState None r)) ->
  exists m, miter (fun p => store p o) l w = (MOk tt, set_futs m w) /\
    (forall f, f ∉ l -> m !! f = futs w !! f) /\
    (forall f r, f ∈ l -> futs w !! f = Some (SState None r) -> m !! f = Some (SState (Some o) r)).
Proof.
  revert w; induction l as [|p l IH]; intros w Hnd Hl.
  { exists (futs w). split_and!; [by destruct w|done|]. intros ?? []%elem_of_nil. }
  apply NoDup_cons in Hnd as [Hp Hnd].
  destruct (Hl p ltac:(left)) as [r Hr]. cbn [miter].
  rewrite (mseq_ok _ _ _ _ _ (store_ok _ _ _ _ Hr)).
  destruct (IH (set_futs (<[p := SState (Some o) r]> (futs w)) w) Hnd) as (m & E & Hout & Hin).
  { intros f Hf. cbn. rewrite lookup_insert_ne by set_solver. apply Hl. by right. }
  exists m. rewrite E. cbn in *. split_and!; [done|..].
  - intros f Hf. rewrite Hout by set_solver. rewrite lookup_insert_ne; [done|set_solver].
  - intros f r' [->|Hf]%elem_of_cons Hr'.
    + rewrite Hout by done. rewrite lookup_insert_eq. congruence.
    + apply Hin; [done|]. rewrite lookup_insert_ne; [done|set_solver].
Qed.

Lemma destroy_all_run l w :
  (forall f, f ∈ l -> exists o r, futs w !! f = Some (SState (Some o) r)) ->
  miter destroy_promise l w = (MOk tt, w).
Proof.
  induction l as [|p l IH]; intros Hl; [done|]. cbn [miter].
  destruct (Hl p ltac:(left)) as (o & r & Hr).
  rewrite (mseq_ok _ _ _ _ _ (destroy_satisfied _ _ _ _ Hr)).
  apply IH. intros f Hf. apply Hl. by right.
Qed.

Lemma watch_state_eq w :
  watch_state w = (MOk (next_fut w),
    World (handle w) (watches w) (state_promises w ++ [next_fut w]) (heap w)
      (<[next_fut w := SState None true]> (futs w)) (S (next_fut w)) (sent w)).
Proof. unfold watch_state. mrun. by rewrite insert_insert_eq. Qed.

Lemma on_session_event_run st w :
  NoDup (state_promises w) ->
  (forall f, f ∈ state_promises w -> exists r, futs w !! f = Some (SState None r)) ->
  exists m, on_session_event st w = (MOk tt, set_state_promises [] (set_futs m w)) /\
    (forall f, f ∉ state_promises w -> m !! f = futs w !! f) /\
    (forall f r, f ∈ state_promises w -> futs w !! f = Some (SState None r) ->
       m !! f = Some (SState (Some (session_event_outcome st)) r)).
Proof.
  intros Hnd Hl.
  destruct (store_all_run (session_event_outcome st) (state_promises w)
              (set_state_promises [] w) Hnd Hl) as (m & E & Hout & Hin).
  exists m. split_and!; [|exact Hout|exact Hin].
  unfold on_session_event, mseq, mget, mmodify. rewrite E. apply destroy_all_run. intros f Hf. destruct (Hl f Hf) as [r Hr].
  cbn. rewrite (Hin f r Hf Hr). eauto.
Qed.

(** A watcher that has its data and waits for its event. *)
Definition awaits_event (w : world) (v : watcher) : Prop :=
  w_data_delivered v = true /\ w_event_delivered v = false /\
  w_event_promise v <> w_data_promise v /\
  (exists r, futs w !! w_event_promise v = Some (SState None r)) /\
  exists x r, futs w !! w_data_promise v = Some (SState (Some x) r).

(** Delivering an event to every watcher of [l], whose promises are pairwise
    distinct. *)
Lemma deliver_all_run ev l w :
  NoDup l ->
  (forall a, a ∈ l -> exists v, heap w !! a = Some (OWatcher v) /\ awaits_event w v) ->
  (forall a b v v' f, a ∈ l -> b ∈ l -> heap w !! a = Some (OWatcher v) ->
     heap w !! b = Some (OWatcher v') -> f ∈ obj_promises (OWatcher v) ->
     f ∈ obj_promises (OWatcher v') -> a = b) ->
  exists h m, miter (fun a => deliver_event a ev) l w
              = (MOk tt, set_heap h (set_futs m w)) /\
    (forall a, a ∉ l -> h !! a = heap w !! a) /\
    (forall a v, a ∈ l -> heap w !! a = Some (OWatcher v) ->
       h !! a = Some (OWatcher (event_done v)) /\
       forall r, futs w !! w_event_promise v = Some (SState None r) ->
         m !! w_event_promise v = Some (SState (Some (Value (VEvent ev))) r)) /\
    (forall f, (forall a v, a ∈ l -> heap w !! a = Some (OWatcher v) -> f <> w_event_promise v) ->
       m !! f = futs w !! f).
Proof.
  revert w; induction l as [|p l IH]; intros w Hnd Hl Hdis.
  { exists (heap w), (futs w). split_and!; [by destruct w|done|by intros ?? []%elem_of_nil|done]. }
  apply NoDup_cons in Hnd as [Hp Hnd].
  destruct (Hl p ltac:(left)) as (v & Hv & Hd & He & Hne & (r & Hr) & x & r' & Hx).
  cbn [miter]. rewrite (mseq_ok _ _ _ _ _ (deliver_event_run _ _ ev _ _ Hv Hd He Hr)).
  set (w1 := set_heap _ _).
  assert (forall a, a ∈ l -> heap w1 !! a = heap w !! a) as Hh1.
  { intros a Ha. cbn. rewrite lookup_insert_ne; [done|]. intros <-. done. }
  assert (forall a u f, a ∈ l -> heap w !! a = Some (OWatcher u) -> f ∈ obj_promises (OWatcher u) ->
            w_event_promise v <> f /\ futs w1 !! f = futs w !! f) as Hf1.
  { intros a u f Ha Hu Hf. assert (w_event_promise v <> f) as Hn.
    { intros <-. assert (p = a) as ->; [|done].
      eapply (Hdis p a v u (w_event_promise v)); try done; [left|by right|left]. }
    split; [done|]. cbn. by rewrite lookup_insert_ne. }
  destruct (IH w1 Hnd) as (h & m & E & Hh & Hin & Hout).
  { intros a Ha. destruct (Hl a ltac:(by right)) as (u & Hu & Hau).
    exists u. rewrite Hh1 by done. split; [done|]. destruct Hau as (? & ? & ? & Hs1 & Hs2).
    unfold awaits_event. split_and!; try done.
    - destruct (Hf1 a u (w_event_promise u) Ha Hu ltac:(left)) as [_ ->]. done.
    - destruct (Hf1 a u (w_data_promise u) Ha Hu ltac:(right; left)) as [_ ->]. done. }
  { intros a b u u' f Ha Hb. rewrite !Hh1 by done. intros. eapply Hdis; eauto; by right. }
  exists h, m. rewrite E. split_and!; [done|..].
  - intros a Ha. rewrite Hh by set_solver. cbn. rewrite lookup_insert_ne; [done|set_solver].
  - intros a u [->|Ha]%elem_of_cons Hu.
    + assert (u = v) as -> by congruence. split.
      * rewrite Hh by done. cbn. by rewrite lookup_insert_eq.
      * intros r0 Hr0. rewrite Hout.
        -- cbn. rewrite lookup_insert_eq. congruence.
        -- intros b u' Hb. rewrite Hh1 by done. intros Hu'.
           destruct (Hf1 b u' (w_event_promise u') Hb Hu' ltac:(left)); done.
    + destruct (Hin a u Ha) as [Hin1 Hin2]; [by rewrite Hh1|]. split; [done|].
      intros r0 Hr0. apply Hin2. destruct (Hf1 a u (w_event_promise u) Ha Hu ltac:(left)) as [_ ->].
      done.
  - intros f Hf. rewrite Hout.
    + cbn. rewrite lookup_insert_ne; [done|]. symmetry. eapply Hf; [left|done].
    + intros a u Ha. rewrite Hh1 by done. intros Hu. eapply Hf; [by right|done].
Qed.

(** Freeing objects whose promises are all satisfied. *)
Lemma free_all_run l w :
  NoDup l ->
  (forall a, a ∈ l -> exists o, heap w !! a = Some o /\
     Forall (fun p => exists x r, futs w !! p = Some (SState (Some x) r)) (obj_promises o)) ->
  exists h, miter free l w = (MOk tt, set_heap h w) /\
    (forall a, a ∈ l -> h !! a = None) /\ (forall a, a ∉ l -> h !! a = heap w !! a).
Proof.
  revert w; induction l as [|p l IH]; intros w Hnd Hl.
  { exists (heap w). split_and!; [by destruct w|by intros ? []%elem_of_nil|done]. }
  apply NoDup_cons in Hnd as [Hp Hnd]. destruct (Hl p ltac:(left)) as (o & Ho & Hsat).
  cbn [miter]. rewrite (mseq_ok _ _ _ _ _ (free_satisfied _ _ _ Ho Hsat)).
  destruct (IH (set_heap (delete p (heap w)) w) Hnd) as (h & E & Hin & Hout).
  { intros a Ha. destruct (Hl a ltac:(by right)) as (oa & Hoa & Hs). exists oa.
    split; [|done]. cbn. rewrite lookup_delete_ne; [done|]. by intros <-. }
  exists h. rewrite E. split_and!; [done|..].
  - intros a [->|Ha]%elem_of_cons; [|by apply Hin]. rewrite Hout by done. cbn. by rewrite lookup_delete_eq.
  - intros a Ha. rewrite Hout by set_solver. cbn. rewrite lookup_delete_ne; [done|set_solver].
Qed.

(** [close] on an open handle whose watchers all wait for their event. *)
Definition closed_event : event := Event event_type.session state.closed.

Lemma close_run rc w :
  handle w = true -> ok_rc rc = true ->
  (forall a, a ∈ watches w -> exists v, heap w !! a = Some (OWatcher v) /\ awaits_event w v) ->
  (forall a b v v' f, heap w !! a = Some (OWatcher v) ->
     heap w !! b = Some (OWatcher v') -> f ∈ obj_promises (OWatcher v) ->
     f ∈ obj_promises (OWatcher v') -> a = b) ->
  exists h m, close rc w
      = (MOk tt, World false ∅ (state_promises w) h m (next_fut w) (sent w)) /\
    (forall a, a ∈ watches w -> h !! a = None) /\
    (forall a, a ∉ watches w -> h !! a = heap w !! a) /\
    (forall a v r, a ∈ watches w -> heap w !! a = Some (OWatcher v) ->
       futs w !! w_event_promise v = Some (SState None r) ->
       m !! w_event_promise v = Some (SState (Some (Value (VEvent closed_event))) r)) /\
    (forall f, (forall a v, a ∈ watches w -> heap w !! a = Some (OWatcher v) ->
                  f <> w_event_promise v) -> m !! f = futs w !! f).
Proof.
  intros Hh Hrc Hw Hdis. unfold close, mseq at 1, mget. rewrite Hh.
  unfold ok_rc in Hrc. rewrite Hrc. cbn [negb].
  destruct (deliver_all_run closed_event (elements (watches w))
    (set_watches ∅ (set_handle false w)) (NoDup_elements _)) as (h & m & E & Hh1 & Hin & Hout).
  { intros a Ha%elem_of_elements. by apply Hw. }
  { intros. eapply Hdis; eauto. }
  destruct (free_all_run (elements (watches w))
    (set_heap h (set_futs m (set_watches ∅ (set_handle false w)))) (NoDup_elements _))
    as (h' & E' & Hin' & Hout').
  { intros a Ha. pose proof (Hw a ltac:(by apply elem_of_elements)) as (v & Hv & Hav).
    destruct (Hin a v Ha Hv) as [Hh2 Hm]. exists (OWatcher (event_done v)). split; [done|].
    destruct Hav as (_ & _ & Hne & (r & Hr) & x & r' & Hx).
    repeat constructor; cbn; [by rewrite (Hm r Hr); eauto|].
    rewrite Hout; [eauto|]. cbn. intros b u Hb Hu Heq.
    assert (a = b) as <- by (eapply (Hdis a b v u (w_data_promise v)); [done|done|..];
      rewrite ?Heq; cbn; rewrite ?Heq; set_solver).
    assert (u = v) as -> by (cbn in Hu; congruence). done. }
  exists h', m. unfold mseq, mmodify. cbn [watches set_handle]. fold closed_event.
  rewrite E, E'. split_and!; [done|..].
  - intros a Ha. apply Hin'. by apply elem_of_elements.
  - intros a Ha. rewrite Hout' by (by rewrite elem_of_elements). apply Hh1. by rewrite elem_of_elements.
  - intros a v r Ha Hv Hr. destruct (Hin a v) as [_ H']; [by apply elem_of_elements|done|by apply H'].
  - intros f Hf. apply Hout. intros a v Ha%elem_of_elements. by apply Hf.
Qed.

End runs.
