(* ===== verification/WatcherRefinement.v ===== *)
(** * WatcherRefinement: the threads of a watcher refine the atomic operations

    Protocol.v takes [deliver_event] and the completion of a watch as atomic steps.
    Watcher.v cuts them into atomic actions and lets the threads interleave. Here the
    two meet: whatever the interleaving, the watcher ends as if the operations of
    ConnectionZk.v had been run one after the other, in some order. *)

From S2P Require Import Prelude Text Types Error Acl Native Results Multi World.
From S2P Require Import ConnectionZk Commit Runs Watcher.

(** ** A thread on its own *)

(** All the actions of a thread without another in between. *)
Definition alone (t : thread) (sh : shared) : shared :=
  (Nat.iter 5 (fun p => tstep p.1 p.2) (t, sh)).2.

Definition run_alone (order : list thread) (sh : shared) : shared :=
  foldl (fun sh t => alone t sh) sh order.

Lemma run_alone_cons t order sh : run_alone (t :: order) sh = run_alone order (alone t sh).
Proof. unfold run_alone. cbn [foldl]. reflexivity. Qed.

(** Flags and promises agree when no thread is in between. *)
Definition calm (sh : shared) : Prop :=
  data_flag sh = negb (unset (data_out sh)) /\ event_flag sh = negb (unset (event_out sh)) /\
  failed sh = false.

Definition wants_future (t : thread) : bool := match t with TData b _ _ => b | _ => false end.

Lemma alone_event ev sh :
  calm sh ->
  alone (TEvent ev ELoad) sh =
    Shared true true (Some (default closed_outcome (data_out sh))) (Some (default ev (event_out sh)))
      (event_taken sh) false.
Proof.
  destruct sh as [df ef dt et tk fl]. intros (H1 & H2 & H3); cbn in *; subst.
  by destruct dt, et.
Qed.

Lemma alone_data take o sh :
  calm sh -> (take = true -> event_taken sh = false) ->
  alone (TData take o DTake) sh =
    Shared true (event_flag sh) (Some (default o (data_out sh))) (event_out sh)
      (event_taken sh || take) false.
Proof.
  destruct sh as [df ef dt et tk fl]. intros (H1 & H2 & H3) Ht; cbn in *; subst.
  destruct dt, take; cbn; rewrite ?Ht by done; by rewrite ?orb_false_r.
Qed.

Lemma alone_calm t sh :
  starts t -> calm sh -> (wants_future t = true -> event_taken sh = false) -> calm (alone t sh).
Proof.
  intros Hs Hc Hw. destruct t as [ev []|take o []]; try done.
  - by rewrite alone_event.
  - rewrite alone_data by done. destruct Hc as (H1 & H2 & H3). split_and!; cbn; done.
Qed.

Lemma alone_taken t sh :
  starts t -> calm sh -> (wants_future t = true -> event_taken sh = false) ->
  event_taken (alone t sh) = event_taken sh || wants_future t.
Proof.
  intros Hs Hc Hw. destruct t as [ev []|take o []]; try done.
  - rewrite alone_event by done. cbn. by rewrite orb_false_r.
  - by rewrite alone_data.
Qed.

(** Once both promises are satisfied, only the event future can still be taken. *)
Lemma run_alone_settled order d e tk :
  Forall starts order -> count wants_future order + b2n tk <= 1 ->
  run_alone order (Shared true true (Some d) (Some e) tk false) =
    Shared true true (Some d) (Some e) (tk || existsb wants_future order) false.
Proof.
  unfold run_alone. intros F. revert tk.
  induction F as [|t order Ht F IH]; intros tk Hc; cbn [foldl existsb count] in *.
  { by rewrite orb_false_r. }
  destruct t as [ev []|take o []]; try done; cbn [wants_future b2n] in *.
  - rewrite alone_event by done. cbn. apply IH. lia.
  - rewrite alone_data; [|done|intros ->; cbn in *; destruct tk; cbn in *; [lia|done]]. cbn.
    rewrite IH; [by rewrite orb_assoc|]. destruct take, tk; cbn in *; lia.
Qed.

(** ** Serialisation *)

Lemma existsb_count {A} (p : A -> bool) ts : existsb p ts = negb (Nat.eqb (count p ts) 0).
Proof. induction ts as [|t ts IH]; cbn; [done|]. rewrite IH. by destruct (p t). Qed.

Lemma count_perm {A} (p : A -> bool) ts ts' : ts ≡ₚ ts' -> count p ts = count p ts'.
Proof. induction 1; cbn; lia. Qed.

Lemma took_done ts : Forall done_thread ts -> count took ts = count wants_future (map start_of ts).
Proof. induction 1 as [|[ev []|[] o []] ts Ht F IH]; cbn in *; try done; lia. Qed.

Lemma wants_data ts : count wants_future ts <= count is_data ts.
Proof. induction ts as [|[ev s|[] o s] ts IH]; cbn; lia. Qed.

Lemma brings_event_start ts ev :
  Forall starts ts -> Exists (fun t => brings_event t ev) ts -> TEvent ev ELoad ∈ ts.
Proof.
  intros F X. apply list.Exists_exists in X as (t & Hin & Hb).
  rewrite Forall_forall in F. specialize (F t Hin). destruct t as [ev' []|]; try done. cbn in Hb. by subst.
Qed.

Lemma brings_start ts o :
  Forall starts ts -> Exists (fun t => brings t o) ts ->
  (o = closed_outcome /\ Exists is_event ts) \/ exists take, TData take o DTake ∈ ts.
Proof.
  intros F X. apply list.Exists_exists in X as (t & Hin & Hb).
  rewrite Forall_forall in F. specialize (F t Hin). destruct t as [ev' []|take o' []]; try done.
  - left. split; [done|]. apply list.Exists_exists. eauto.
  - right. exists take. cbn in Hb. by subst.
Qed.

Lemma no_events ts : ~ Exists is_event ts -> count is_data ts = length ts.
Proof.
  induction ts as [|t ts IH]; intros H; cbn; [done|]. rewrite IH by (intros X; apply H; by right).
  destruct t; [|done]. exfalso. apply H. by left.
Qed.

Lemma wants_perm ts ts' : ts ≡ₚ ts' -> existsb wants_future ts = existsb wants_future ts'.
Proof. intros H. by rewrite !existsb_count, (count_perm _ _ _ H). Qed.

(** An order for outcomes the threads bring: the thread that brought the data first, if
    it was the completion, then the one that brought the event. *)
Lemma order_with_event ts ev o :
  Forall starts ts -> count is_data ts <= 1 -> TEvent ev ELoad ∈ ts ->
  (o = closed_outcome \/ exists take, TData take o DTake ∈ ts) ->
  exists order, order ≡ₚ ts /\
    run_alone order fresh_watcher = Shared true true (Some o) (Some ev) (existsb wants_future ts) false.
Proof.
  intros F Hd Hev [->|[take HD]].
  - apply elem_of_Permutation in Hev as [rest Hp]. exists (TEvent ev ELoad :: rest).
    split; [by symmetry|]. rewrite Hp in F. apply Forall_cons in F as [_ F].
    rewrite (count_perm _ _ _ Hp) in Hd. cbn in Hd. pose proof (wants_data rest).
    rewrite run_alone_cons, alone_event by done. cbn [event_taken data_out event_out fresh_watcher default].
    by rewrite run_alone_settled, (wants_perm _ _ Hp) by (done || cbn; lia).
  - apply elem_of_Permutation in HD as [rest1 Hp1]. rewrite Hp1 in Hev.
    apply elem_of_cons in Hev as [?|Hev]; [done|].
    apply elem_of_Permutation in Hev as [rest Hp2]. rewrite Hp2 in Hp1.
    exists (TData take o DTake :: TEvent ev ELoad :: rest). split; [by symmetry|].
    rewrite Hp1 in F. do 2 apply Forall_cons in F as [_ F].
    rewrite (count_perm _ _ _ Hp1) in Hd. cbn in Hd. pose proof (wants_data rest).
    rewrite !run_alone_cons, alone_data by done.
    cbn [event_flag data_out event_out event_taken fresh_watcher default orb].
    rewrite alone_event by done. cbn [data_out event_out event_taken default].
    by rewrite run_alone_settled, (wants_perm _ _ Hp1) by (done || destruct take; cbn; lia).
Qed.

Lemma order_without_event ts take o :
  Forall starts ts -> count is_data ts <= 1 -> ~ Exists is_event ts -> TData take o DTake ∈ ts ->
  run_alone ts fresh_watcher = Shared true false (Some o) None (existsb wants_future ts) false.
Proof.
  intros F Hd Hno Hin. pose proof (no_events _ Hno) as Hlen.
  destruct ts as [|t [|t' ts]]; [by apply elem_of_nil in Hin| |cbn in *; lia].
  apply list_elem_of_singleton in Hin as <-. rewrite run_alone_cons, alone_data by done. cbn.
  by rewrite orb_false_r.
Qed.

(** The final state of any interleaving is that of running the threads whole, one after
    the other. *)
Lemma serial_order ts0 n sh ts :
  Forall starts ts0 -> count is_data ts0 <= 1 ->
  nsteps wstep n (fresh_watcher, ts0) (sh, ts) -> Forall done_thread ts ->
  exists order, order ≡ₚ ts0 /\ run_alone order fresh_watcher = sh.
Proof.
  intros F Hd R D. destruct (all_done_state _ _ _ _ F Hd R D) as (Sd & Se & Fd & Fe).
  destruct (runs_inv _ _ _ _ _ R (winv_start _ F Hd)) as ([_ _ _ _ _ It I6 _ I8 I9] & M & _).
  rewrite (starts_start_of _ F) in M. rewrite (took_done _ D), M in It.
  assert (forall o, data_out sh = Some o -> Exists (fun t => brings t o) ts0) as Bd
    by (intros o E; eapply exists_start; [|exact M|by apply I8]; by intros []).
  assert (forall ev, event_out sh = Some ev -> Exists (fun t => brings_event t ev) ts0) as Be
    by (intros ev E; eapply exists_start; [|exact M|by apply I9]; by intros []).
  clear I8 I9 R M D. destruct sh as [df ef dt et tk fl]; cbn in *; subst df ef fl.
  assert (tk = existsb wants_future ts0) as -> by (rewrite existsb_count, It; by destruct tk).
  destruct (decide (ts0 = [])) as [->|Hne].
  { exists []. split; [done|]. destruct dt as [o|]; [by specialize (Bd o eq_refl); inv Bd|].
    destruct et as [ev|]; [by specialize (Be ev eq_refl); inv Be|done]. }
  destruct (Sd Hne) as [o ->]. pose proof (brings_start _ _ F (Bd o eq_refl)) as Ho.
  destruct et as [ev|].
  - apply order_with_event; [done|done|by apply brings_event_start, Be|].
    destruct Ho as [[-> _]|?]; auto.
  - assert (~ Exists is_event ts0) as Hno by (intros X; apply Se in X as [? ?]; done).
    destruct Ho as [[_ X]|[take Hin]]; [done|]. exists ts0. split; [done|].
    by eapply order_without_event.
Qed.

(** ** The operations of a connection *)

Section refinement.
Context `{!ZooConsts}.

(** The operation a thread runs, as ConnectionZk.v has it. *)
Definition atomic_op (a : addr) (t : thread) : M unit :=
  match t with
  | TEvent ev _ => deliver_event a ev
  | TData take o _ =>
      (if take then let! _f := get_event_future a in mreturn tt else mreturn tt) ;;;
      match o with
      | Value v => deliver_data a (Some v) None
      | Exception e => deliver_data a None (Some e)
      end
  end.

(** The watcher at [a] with promises [ep] and [dp] is in the state [sh]. *)
Definition represents (a : addr) (ep dp : fut) (w : world) (sh : shared) : Prop :=
  ep <> dp /\ exists k rd,
    heap w !! a = Some (OWatcher (Watcher k (event_flag sh) ep (data_flag sh) dp)) /\
    futs w !! dp = Some (SState (data_out sh) rd) /\
    futs w !! ep = Some (SState ((fun e => Value (VEvent e)) <$> event_out sh) (event_taken sh)).

Lemma data_op_refines a ep dp w sh o :
  represents a ep dp w sh -> calm sh ->
  exists w', (match o with
              | Value v => deliver_data a (Some v) None
              | Exception e => deliver_data a None (Some e)
              end) w = (MOk tt, w') /\
    represents a ep dp w' (Shared true (event_flag sh) (Some (default o (data_out sh)))
                             (event_out sh) (event_taken sh) false).
Proof.
  intros (Hne & k & rd & Ha & Hd & He) (C1 & C2 & C3).
  destruct sh as [df ef dt et tk fl]; cbn in *; subst.
  destruct dt as [x|], o as [v|e]; cbn [unset negb] in Ha; unfold deliver_data, load_watcher; mrun;
    eexists; (split; [reflexivity|]); (split; [done|]); exists k, rd; cbn;
    rewrite ?lookup_insert_eq; repeat (rewrite lookup_insert_ne by done); done.
Qed.

Lemma event_op_refines a ep dp w sh ev :
  represents a ep dp w sh -> calm sh ->
  exists w', deliver_event_base a ev w = (MOk tt, w') /\
    represents a ep dp w' (Shared (data_flag sh) true (data_out sh) (Some (default ev (event_out sh)))
                             (event_taken sh) false).
Proof.
  intros (Hne & k & rd & Ha & Hd & He) (C1 & C2 & C3).
  destruct sh as [df ef dt et tk fl]; cbn in *; subst.
  destruct et as [x|]; cbn [unset negb] in Ha; cbn in He; unfold deliver_event_base, load_watcher; mrun;
    eexists; (split; [reflexivity|]); (split; [done|]); exists k, rd; cbn;
    rewrite ?lookup_insert_eq; repeat (rewrite lookup_insert_ne by done); done.
Qed.

Lemma take_refines a ep dp w sh :
  represents a ep dp w sh -> event_taken sh = false ->
  exists w', get_event_future a w = (MOk ep, w') /\
    represents a ep dp w' (Shared (data_flag sh) (event_flag sh) (data_out sh) (event_out sh) true (failed sh)).
Proof.
  intros (Hne & k & rd & Ha & Hd & He) Ht. rewrite Ht in He.
  unfold get_event_future, load_watcher; mrun. eexists. split; [reflexivity|].
  split; [done|]. exists k, rd. cbn. rewrite lookup_insert_eq. by rewrite lookup_insert_ne by done.
Qed.

Lemma load_watcher_run a ep dp w sh :
  represents a ep dp w sh ->
  exists v, load_watcher a w = (MOk v, w) /\ w_data_delivered v = data_flag sh.
Proof. intros (_ & k & rd & Ha & _). unfold load_watcher. mrun. eexists. by split. Qed.

(** An operation run as a whole does to the watcher what its thread does on its own. *)
Lemma atomic_op_refines a ep dp w sh t :
  represents a ep dp w sh -> calm sh -> starts t ->
  (wants_future t = true -> event_taken sh = false) ->
  exists w', atomic_op a t w = (MOk tt, w') /\ represents a ep dp w' (alone t sh).
Proof.
  intros R C Hs Hw. destruct t as [ev []|take o []]; try done; cbn [atomic_op].
  - rewrite alone_event by done. unfold deliver_event.
    destruct (load_watcher_run _ _ _ _ _ R) as (v & Hv & Hd).
    unfold mseq at 1. rewrite Hv, Hd. destruct (data_flag sh) eqn:Df.
    + destruct (event_op_refines a ep dp w sh ev R C) as (w' & E & R').
      exists w'. split; [exact E|]. destruct C as (C1 & _). rewrite Df in *.
      by destruct (data_out sh).
    + destruct (data_op_refines a ep dp w sh closed_outcome R C) as (w1 & E1 & R1).
      unfold closed_outcome in E1. unfold mseq. rewrite E1.
      edestruct (event_op_refines a ep dp w1 _ ev R1) as (w' & E & R'); [|by exists w'].
      destruct C as (C1 & C2 & C3). by split_and!.
  - rewrite alone_data by done. destruct take.
    + destruct (take_refines a ep dp w sh R (Hw eq_refl)) as (w1 & E1 & R1).
      edestruct (data_op_refines a ep dp w1 _ o R1) as (w' & E & R'); [exact C|].
      exists w'. unfold mseq. rewrite E1. split; [exact E|]. by rewrite (Hw eq_refl).
    + destruct (data_op_refines a ep dp w sh o R C) as (w' & E & R').
      exists w'. split; [exact E|]. by rewrite orb_false_r.
Qed.

Lemma atomic_ops_refine a ep dp order w sh :
  represents a ep dp w sh -> calm sh -> Forall starts order ->
  count wants_future order + b2n (event_taken sh) <= 1 ->
  exists w', miter (atomic_op a) order w = (MOk tt, w') /\
             represents a ep dp w' (run_alone order sh).
Proof.
  intros R C F. revert w sh R C. induction F as [|t order Ht F IH]; intros w sh R C Hc; cbn [miter count] in *.
  { exists w. by split. }
  assert (wants_future t = true -> event_taken sh = false) as Hw.
  { intros E. rewrite E in Hc. destruct (event_taken sh); [cbn in Hc; lia|done]. }
  destruct (atomic_op_refines a ep dp w sh t R C Ht Hw) as (w1 & E1 & R1).
  destruct (IH w1 (alone t sh) R1) as (w' & E & R'); [by apply alone_calm| |].
  { rewrite alone_taken by done. destruct (wants_future t), (event_taken sh); cbn in *; lia. }
  exists w'. unfold mseq. rewrite E1, run_alone_cons. by split.
Qed.

End refinement.

(** ** Properties *)

(** C14: the watcher operations that run in several threads at once refine the atomic
    ones. Take any interleaving, to the end, of the actions of any number of event
    deliveries and at most one completion. In some order, the operations
    [deliver_event] and [deliver_data] of ConnectionZk.v, each run as a whole on a world
    whose watcher is new, all return normally, and leave the watcher and its two promises
    in exactly the state the interleaving left them in. *)
Theorem watcher_refines `{!ZooConsts} ts0 n sh ts a ep dp w :
  Forall starts ts0 -> count is_data ts0 <= 1 ->
  nsteps wstep n (fresh_watcher, ts0) (sh, ts) -> Forall done_thread ts ->
  represents a ep dp w fresh_watcher ->
  exists order w', order ≡ₚ ts0 /\
    miter (atomic_op a) order w = (MOk tt, w') /\ represents a ep dp w' sh.
Proof.
  intros F Hd R D Hw. destruct (serial_order ts0 n sh ts F Hd R D) as (order & Hp & <-).
  destruct (atomic_ops_refine a ep dp order w fresh_watcher) as (w' & E & R'); [done|done| | |].
  - by rewrite Hp.
  - rewrite (count_perm _ _ _ Hp). pose proof (wants_data ts0). cbn. lia.
  - by exists order, w'.
Qed.

#[local] Existing Instance zookeeper_3_5.

Definition one_watcher : world :=
  World true {[7%positive]} [] {[7%positive := OWatcher (Watcher WData false 0 false 1)]}
    (<[0%nat := SState None false]> {[1%nat := SState None true]}) 2 [].

Lemma watcher_refines_witness :
  exists n sh ts order w',
    nsteps wstep n (fresh_watcher, race_threads) (sh, ts) /\ order ≡ₚ race_threads /\
    miter (atomic_op 7%positive) order one_watcher = (MOk tt, w') /\ represents 7%positive 0 1 w' sh.
Proof.
  destruct race_run as (n & sh & ts & R & D). exists n, sh, ts.
  destruct (watcher_refines race_threads n sh ts 7%positive 0 1 one_watcher) as (order & w' & H);
    [repeat constructor|cbn; lia|exact R|exact D| |exists order, w'; exact (conj R H)].
  split; [discriminate|]. by exists WData, true.
Defined.
