(* ===== verification/Registration.v ===== *)
(** * Registration: a watch is filed while its event may already be on the way

    [watch], [watch_children] and [watch_exists] of src/zk/connection_zk.cpp hand the
    watcher to the C client first and enter it into [_watches] afterwards; a thread of the
    C client may complete the call, and then run [deliver_watch] for it, before [watch]
    has returned. What keeps the event from being lost is that both sides work under
    [_watches_protect]. Here one such call, its completion, any number of notifications
    for it and any number of other users of the mutex interleave, action by action. The
    deliveries into the watcher are one action each, as WatcherRefinement.v allows. *)

From S2P Require Import Prelude Text Types Error Results World ConnectionZk Watcher.
From S2P Require Import WatcherRefinement.

(** ** State *)

(** The mutex is held by nobody, by the call of [watch], or by one of the other threads. *)
Inductive owner := Nobody | TheWatch | Other (i : nat).

#[global] Instance owner_eq_dec : EqDecision owner.
Proof. solve_decision. Defined.

Record reg_state := RegState {
  mutex : owner;
  filed : bool;             (** the watcher is in [_watches] *)
  refs : nat;               (** the [shared_ptr]s to it *)
  body : shared;            (** its members *)
  data_future_taken : bool;
  accepted : bool;          (** the C client took the call *)
  completed : bool;         (** its completion has run *)
  broken_rule : bool;       (** a dead watcher was used, or a future taken twice *)
}.

Definition reg_start : reg_state := RegState Nobody false 0 fresh_watcher false false false false.

Definition set_mutex (o : owner) (s : reg_state) : reg_state :=
  RegState o (filed s) (refs s) (body s) (data_future_taken s) (accepted s) (completed s)
    (broken_rule s).
Definition set_filed (b : bool) (n : nat) (s : reg_state) : reg_state :=
  RegState (mutex s) b n (body s) (data_future_taken s) (accepted s) (completed s) (broken_rule s).

(** Use of the members: undefined once the last owner is gone. *)
Definition use (f : shared -> shared) (s : reg_state) : reg_state :=
  RegState (mutex s) (filed s) (refs s) (f (body s)) (data_future_taken s) (accepted s) (completed s)
    (broken_rule s || Nat.eqb (refs s) 0).

(** [watch]: lock, [make_shared], the call, [emplace] or [deliver_data], the future, and
    the locals [watcher] and [ax] destroyed in this order. *)
Inductive wstage := WLock | WMake | WCall | WFile | WTake | WDrop | WUnlock | WRet.

(** [deliver_watch]: lock, [find] and [extract], unlock; if the watcher was found, deliver
    and let it go. *)
Inductive nstage := NLock | NFind | NUnlock (found : bool) | NDeliver | NDrop | NRet.

(** Any other use of the mutex. *)
Inductive ostage := OLock | OHold | ORet.

(** [deliver_raw] of the completion, and other users of the mutex. *)
Inductive rthread :=
| RNotify (ev : event) (st : nstage)
| RComplete (take : bool) (o : outcome) (ret : bool)
| ROther (st : ostage).

Definition watch_action (ok : bool) (err : outcome) (st : wstage) (s : reg_state)
    : option (wstage * reg_state) :=
  match st with
  | WLock => if decide (mutex s = Nobody) then Some (WMake, set_mutex TheWatch s) else None
  | WMake => Some (WCall, set_filed (filed s) 1 s)
  | WCall =>
      Some (WFile, RegState (mutex s) (filed s) (refs s) (body s) (data_future_taken s) ok
                     (completed s) (broken_rule s))
  | WFile =>
      Some (WTake, if ok then set_filed true (S (refs s)) s
                   else use (alone (TData false err DTake)) s)
  | WTake =>
      Some (WDrop, RegState (mutex s) (filed s) (refs s) (body s) true (accepted s) (completed s)
                     (broken_rule s || data_future_taken s || Nat.eqb (refs s) 0))
  | WDrop => Some (WUnlock, set_filed (filed s) (pred (refs s)) s)
  | WUnlock => Some (WRet, set_mutex Nobody s)
  | WRet => None
  end.

(** The C client completes a call it accepted, and notifies after the completion. *)
Definition thread_action (i : nat) (t : rthread) (s : reg_state) : option (rthread * reg_state) :=
  match t with
  | RNotify ev NLock =>
      if completed s && bool_decide (mutex s = Nobody)
      then Some (RNotify ev NFind, set_mutex (Other i) s) else None
  | RNotify ev NFind => Some (RNotify ev (NUnlock (filed s)), set_filed false (refs s) s)
  | RNotify ev (NUnlock found) =>
      Some (RNotify ev (if found then NDeliver else NRet), set_mutex Nobody s)
  | RNotify ev NDeliver => Some (RNotify ev NDrop, use (alone (TEvent ev ELoad)) s)
  | RNotify ev NDrop => Some (RNotify ev NRet, set_filed (filed s) (pred (refs s)) s)
  | RNotify _ NRet => None
  | RComplete take o false =>
      if accepted s then
        let s' := use (alone (TData take o DTake)) s in
        Some (RComplete take o true,
              RegState (mutex s') (filed s') (refs s') (body s') (data_future_taken s') (accepted s')
                true (broken_rule s'))
      else None
  | RComplete _ _ true => None
  | ROther OLock =>
      if decide (mutex s = Nobody) then Some (ROther OHold, set_mutex (Other i) s) else None
  | ROther OHold => Some (ROther ORet, set_mutex Nobody s)
  | ROther ORet => None
  end.

(** The call of [watch] with what the C client answers, where it is, and the others. *)
Record race := Race { r_state : reg_state; r_stage : wstage; r_others : list rthread }.

Inductive rstep (ok : bool) (err : outcome) : race -> race -> Prop :=
| rstep_watch s st ts s' st' :
    watch_action ok err st s = Some (st', s') -> rstep ok err (Race s st ts) (Race s' st' ts)
| rstep_other s st ts i t t' s' :
    ts !! i = Some t -> thread_action i t s = Some (t', s') ->
    rstep ok err (Race s st ts) (Race s' st (<[i := t']> ts)).

Definition not_started (t : rthread) : bool :=
  match t with RNotify _ NLock | RComplete _ _ false | ROther OLock => true | _ => false end.

Definition is_completion (t : rthread) : bool :=
  match t with RComplete _ _ _ => true | _ => false end.

(** ** The invariant *)

(** Stages of the call: it has the mutex; it owns the watcher; the call was made; the
    watcher is filed or refused; the future is taken. *)
Definition w_holds (st : wstage) : bool := match st with WLock | WRet => false | _ => true end.
Definition w_owns (st : wstage) : bool :=
  match st with WCall | WFile | WTake | WDrop => true | _ => false end.
Definition w_called (st : wstage) : bool := match st with WLock | WMake | WCall => false | _ => true end.
Definition w_filed (st : wstage) : bool :=
  match st with WTake | WDrop | WUnlock | WRet => true | _ => false end.
Definition w_took (st : wstage) : bool := match st with WDrop | WUnlock | WRet => true | _ => false end.

Definition holds (t : rthread) : bool :=
  match t with
  | RNotify _ (NFind | NUnlock _) => true
  | ROther OHold => true
  | _ => false
  end.

(** A notification that extracted the watcher: it owns it; it has not delivered yet. *)
Definition owns (t : rthread) : bool :=
  match t with RNotify _ (NUnlock true | NDeliver | NDrop) => true | _ => false end.
Definition delivers (t : rthread) : bool :=
  match t with RNotify _ (NUnlock true | NDeliver) => true | _ => false end.

Definition completes (t : rthread) : bool := match t with RComplete _ _ b => b | _ => false end.

(** A notification that has begun. *)
Definition started (t : rthread) : bool :=
  match t with RNotify _ NLock => false | RNotify _ _ => true | _ => false end.

(** A notification that has looked for the watcher. *)
Definition looked (t : rthread) : bool :=
  match t with RNotify _ (NLock | NFind) => false | RNotify _ _ => true | _ => false end.

(** The mutex is where its holder is. *)
Definition lock_ok (o : owner) (st : wstage) (ts : list rthread) : Prop :=
  (o = TheWatch <-> w_holds st = true) /\
  (forall i, o = Other i <-> exists t, ts !! i = Some t /\ holds t = true).

Record rinv (ok : bool) (s : reg_state) (st : wstage) (ts : list rthread) : Prop := RInv {
  ri_lock : lock_ok (mutex s) st ts;
  ri_refs : refs s = b2n (w_owns st) + b2n (filed s) + count owns ts;
  ri_event : b2n (filed s) + count delivers ts + b2n (negb (unset (event_out (body s))))
             = b2n (ok && w_filed st);
  ri_drop : count owns ts <= count delivers ts + b2n (negb (unset (event_out (body s))));
  ri_early : filed s = false -> ok && w_filed st = true -> st = WRet;
  ri_looked : 0 < count looked ts -> filed s = false /\ st = WRet;
  ri_accepted : accepted s = ok && w_called st;
  ri_completed : b2n (completed s) = count completes ts;
  ri_completions : count is_completion ts <= 1;
  ri_owed : completed s = true -> accepted s = true;
  ri_started : completed s = false ->
    count started ts = 0 /\ unset (event_out (body s)) = true /\ event_taken (body s) = false;
  ri_calm : calm (body s);
  ri_data : unset (data_out (body s)) = negb (completed s || (negb ok && w_filed st));
  ri_future : data_future_taken s = w_took st;
  ri_rule : broken_rule s = false;
}.

(** ** The mutex *)

Lemma lock_same o st ts i t t' :
  lock_ok o st ts -> ts !! i = Some t -> holds t' = holds t -> lock_ok o st (<[i := t']> ts).
Proof.
  intros [Hw Ho] Hi Hh. split; [done|]. intros j. rewrite Ho.
  destruct (decide (i = j)) as [<-|Hne]; [|by rewrite list_lookup_insert_ne].
  rewrite list_lookup_insert_eq by (by eapply lookup_lt_Some). split.
  - intros (x & Hx & Hb). exists t'. split; [done|]. congruence.
  - intros (x & [= <-] & Hb). exists t. split; [done|]. congruence.
Qed.

Lemma lock_acquire st ts i t t' :
  lock_ok Nobody st ts -> ts !! i = Some t -> holds t' = true ->
  lock_ok (Other i) st (<[i := t']> ts).
Proof.
  intros [Hw Ho] Hi Hh. split.
  - split; [done|]. intros E. by apply Hw in E.
  - intros j. destruct (decide (i = j)) as [<-|Hne].
    + rewrite list_lookup_insert_eq by (by eapply lookup_lt_Some). split; [eauto|done].
    + rewrite list_lookup_insert_ne by done. split; [congruence|]. intros E. by apply Ho in E.
Qed.

Lemma lock_release o st ts i t t' :
  lock_ok o st ts -> ts !! i = Some t -> holds t = true -> holds t' = false ->
  lock_ok Nobody st (<[i := t']> ts).
Proof.
  intros [Hw Ho] Hi Ht Ht'. assert (o = Other i) as -> by (apply Ho; eauto). split.
  - split; [done|]. intros E. by apply Hw in E.
  - intros j. split; [done|]. destruct (decide (i = j)) as [<-|Hne].
    + rewrite list_lookup_insert_eq by (by eapply lookup_lt_Some). intros (x & [= <-] & Hb). congruence.
    + rewrite list_lookup_insert_ne by done. intros E. apply Ho in E. congruence.
Qed.

Lemma lock_watch o o' st st' ts :
  lock_ok o st ts -> (forall i, o <> Other i) -> (forall i, o' <> Other i) ->
  (o' = TheWatch <-> w_holds st' = true) -> lock_ok o' st' ts.
Proof.
  intros [_ Ho] Hn Hn' Hw. split; [done|]. intros i. split; [by intros ?%Hn'|].
  intros E%Ho. by apply Hn in E.
Qed.

Lemma watch_mutex o st ts : lock_ok o st ts -> w_holds st = true -> o = TheWatch.
Proof. intros [H _]. apply H. Qed.

Lemma other_mutex o st ts i t : lock_ok o st ts -> ts !! i = Some t -> holds t = true -> o = Other i.
Proof. intros [_ H] Hi Ht. apply H. eauto. Qed.

Lemma free_ret o st ts i t :
  lock_ok o st ts -> ts !! i = Some t -> holds t = true -> w_called st = true -> st = WRet.
Proof.
  intros L Hi Ht Hc. pose proof (other_mutex _ _ _ _ _ L Hi Ht) as ->. destruct L as [[_ L] _].
  destruct st; try done; by specialize (L eq_refl).
Qed.

(** ** The call of [watch] *)

Lemma watch_keeps ok err s st ts st' s' :
  rinv ok s st ts -> watch_action ok err st s = Some (st', s') -> rinv ok s' st' ts.
Proof.
  intros [L R E D Ea Lo A C Cn Ow St Ca Da Fu Br] W.
  destruct s as [o f n b dt ac co br]; cbn in *.
  destruct ok, st; cbn in W; try (case_hyp W; [|done]); simplify_eq; cbn in *;
    try (pose proof (watch_mutex _ _ _ L eq_refl) as ->).
  all: split; cbn; try done; try lia; try (by eapply lock_watch);
    try (intros Hf; by specialize (Ea Hf eq_refl)); try (intros Hl; by destruct (Lo Hl)).
  all: rewrite alone_data by done; cbn; try done; try lia.
  - by rewrite orb_false_r.
  - destruct Ca as (_ & Ce & Cf). by split_and!.
Qed.

(** ** The other threads *)

(** A notification begins after the completion. *)
Lemma notify_completed ok s st ts i ev ns t' s' :
  rinv ok s st ts -> ts !! i = Some (RNotify ev ns) ->
  thread_action i (RNotify ev ns) s = Some (t', s') -> completed s = true.
Proof.
  intros I Hi W. destruct (completed s) eqn:Hc; [done|].
  destruct (ri_started _ _ _ _ I Hc) as (S0 & _).
  destruct ns; cbn in W; try rewrite Hc in W; try done;
    pose proof (count_lookup started ts i _ Hi eq_refl); lia.
Qed.

Lemma notify_keeps ok s st ts i ev ns t' s' :
  rinv ok s st ts -> ts !! i = Some (RNotify ev ns) ->
  thread_action i (RNotify ev ns) s = Some (t', s') -> rinv ok s' st (<[i := t']> ts).
Proof.
  intros I Hi W. pose proof (notify_completed _ _ _ _ _ _ _ _ _ I Hi W) as Hco.
  destruct I as [L R E D Ea Lo A C Cn Ow St Ca Da Fu Br].
  destruct s as [o f n b dt ac co br]; cbn in *. subst co.
  assert (forall p, count p (<[i := t']> ts) + b2n (p (RNotify ev ns)) = count p ts + b2n (p t')) as K
    by (intros p; by apply count_insert).
  pose proof (K owns) as K1. pose proof (K delivers) as K2. pose proof (K completes) as K3.
  pose proof (K is_completion) as K4. pose proof (K looked) as K6. clear K St.
  destruct ns as [| |[]| | |]; cbn in W; try (case_hyp W; [|done]); bool_prop; simplify_eq; cbn in *.
  all: split; cbn; try done; try lia;
    try (by eapply lock_same); try (by eapply lock_acquire); try (by eapply lock_release);
    try (intros Hl; apply Lo; lia); try (intros _; apply Lo, (count_lookup looked ts i _ Hi eq_refl));
    try rewrite alone_event by done; cbn; try done.
  - destruct f; cbn in *; lia.
  - destruct f; cbn in *; lia.
  - intros _ Hf. by apply (free_ret o st ts i (RNotify ev NFind)); destruct st, ok.
  - intros _. split; [done|]. specialize (Ow eq_refl).
    by apply (free_ret o st ts i (RNotify ev NFind)); destruct st, ok.
  - destruct (unset (event_out b)), f, (ok && w_filed st); cbn in *; lia.
  - destruct (unset (event_out b)), f, (ok && w_filed st); cbn in *; lia.
  - apply Nat.eqb_neq. pose proof (count_lookup owns ts i _ Hi eq_refl). lia.
Qed.

Lemma completes_le ts : count completes ts <= count is_completion ts.
Proof. induction ts as [|[ev ns|take o []|b] ts IH]; cbn; lia. Qed.

(** The one completion has not run while it is still to run. *)
Lemma completion_first ts i take o c :
  ts !! i = Some (RComplete take o false) -> b2n c = count completes ts ->
  count is_completion ts <= 1 -> c = false.
Proof.
  intros Hi Hc Hone. pose proof (count_insert completes ts i _ (RComplete take o true) Hi) as K1.
  pose proof (count_insert is_completion ts i _ (RComplete take o true) Hi) as K2.
  pose proof (completes_le (<[i := RComplete take o true]> ts)) as K3. cbn in K1, K2.
  destruct c; [cbn in Hc; lia|done].
Qed.

(** The completion finds the watcher alive: it is filed, or [watch] still holds it. *)
Lemma complete_keeps ok s st ts i take o t' s' :
  rinv ok s st ts -> ts !! i = Some (RComplete take o false) ->
  thread_action i (RComplete take o false) s = Some (t', s') -> rinv ok s' st (<[i := t']> ts).
Proof.
  intros [L R E D Ea Lo A C Cn Ow St Ca Da Fu Br] Hi W.
  destruct s as [mo f n b dt ac co br]; cbn in *.
  assert (forall p, count p (<[i := t']> ts) + b2n (p (RComplete take o false)) = count p ts + b2n (p t')) as K
    by (intros p; by apply count_insert).
  pose proof (K owns) as K1. pose proof (K delivers) as K2. pose proof (K completes) as K3.
  pose proof (K is_completion) as K4. pose proof (K looked) as K6. clear K.
  destruct ac; [|done]. simplify_eq. cbn in *.
  pose proof (completion_first _ _ _ _ _ Hi C Cn) as ->.
  destruct (St eq_refl) as (S1 & S2 & S3). rewrite S2 in E, D. symmetry in A.
  apply andb_true_iff in A as [-> A].
  assert (count delivers ts = 0) as D0.
  { apply count_zero. apply count_zero in S1. eapply Forall_impl; [exact S1|].
    intros [ev []| |]; cbn; try case_goal; done. }
  split; cbn; try done; try lia; try (by eapply lock_same); try (intros Hl; apply Lo; lia);
    try rewrite alone_data by (done || by intros ?); cbn in *; rewrite ?S2; cbn; try done; try lia.
  - by destruct Ca as (_ & Ce & Cf).
  - apply Nat.eqb_neq. destruct st, f; cbn in *; (done || lia).
Qed.

Lemma other_keeps ok s st ts i b t' s' :
  rinv ok s st ts -> ts !! i = Some (ROther b) ->
  thread_action i (ROther b) s = Some (t', s') -> rinv ok s' st (<[i := t']> ts).
Proof.
  intros [L R E D Ea Lo A C Cn Ow St Ca Da Fu Br] Hi W.
  destruct s as [mo f n bd dt ac co br]; cbn in *.
  assert (forall p, count p (<[i := t']> ts) + b2n (p (ROther b)) = count p ts + b2n (p t')) as K
    by (intros p; by apply count_insert).
  pose proof (K owns) as K1. pose proof (K delivers) as K2. pose proof (K completes) as K3.
  pose proof (K is_completion) as K4. pose proof (K started) as K5. pose proof (K looked) as K6. clear K.
  destruct b; cbn in W; try done; try (case_hyp W; [|done]); simplify_eq; cbn in *;
    (split; cbn; try done; try lia; try (by eapply lock_acquire); try (by eapply lock_release);
       try (intros Hl; apply Lo; lia));
    intros Hc; destruct (St Hc) as (? & ? & ?); split_and!; done || lia.
Qed.

Lemma rstep_inv ok err r r' :
  rinv ok (r_state r) (r_stage r) (r_others r) -> rstep ok err r r' ->
  rinv ok (r_state r') (r_stage r') (r_others r').
Proof.
  intros I H. revert I. destruct H as [s st ts s' st' W|s st ts i t t' s' Hi W];
    cbn [r_state r_stage r_others]; intros I.
  - exact (watch_keeps _ _ _ _ _ _ _ I W).
  - destruct t as [ev ns|take o []|b]; [|done| |].
    + exact (notify_keeps _ _ _ _ _ _ _ _ _ I Hi W).
    + exact (complete_keeps _ _ _ _ _ _ _ _ _ I Hi W).
    + exact (other_keeps _ _ _ _ _ _ _ _ I Hi W).
Qed.

Lemma idle_zero p ts :
  (forall t, not_started t = true -> p t = false) -> Forall not_started ts -> count p ts = 0.
Proof. intros Hp F. apply count_zero. eapply Forall_impl; [exact F|]. auto using Is_true_true_1. Qed.

Lemma rinv_start ok ts :
  Forall not_started ts -> count is_completion ts <= 1 -> rinv ok reg_start WLock ts.
Proof.
  intros F Hc.
  assert (forall p, (forall t, not_started t = true -> p t = false) -> count p ts = 0) as Z
    by eauto using idle_zero.
  assert (count owns ts = 0 /\ count delivers ts = 0 /\ count completes ts = 0 /\
          count started ts = 0 /\ count looked ts = 0 /\ count holds ts = 0)
    as (Z1 & Z2 & Z3 & Z4 & Z5 & Z6).
  { split_and!; apply Z; intros [ev []|take o []|[]]; done. }
  split; cbn; rewrite ?Z1, ?Z2, ?Z3, ?Z4, ?Z5, ?andb_false_r; try done; try lia.
  split; [done|]. intros i. split; [done|]. intros (t & Hi & Ht).
  pose proof (count_lookup holds ts i t Hi Ht). lia.
Qed.

(** ** What is stored, and how long it takes *)

(** A thread before its first action. *)
Definition reset (t : rthread) : rthread :=
  match t with
  | RNotify ev _ => RNotify ev NLock
  | RComplete take o _ => RComplete take o false
  | ROther _ => ROther OLock
  end.

Definition from_threads (ok : bool) (err : outcome) (ts : list rthread) (b : shared) : Prop :=
  (forall ev, event_out b = Some ev -> RNotify ev NLock ∈ map reset ts) /\
  (forall o, data_out b = Some o ->
     if ok then exists take, RComplete take o false ∈ map reset ts else o = err).

(** The most actions the call and a thread have before them. *)
Definition w_left (st : wstage) : nat :=
  match st with
  | WLock => 7 | WMake => 6 | WCall => 5 | WFile => 4 | WTake => 3 | WDrop => 2 | WUnlock => 1 | WRet => 0
  end.
Definition t_left (t : rthread) : nat :=
  match t with
  | RNotify _ NLock => 5 | RNotify _ NFind => 4 | RNotify _ (NUnlock _) => 3
  | RNotify _ NDeliver => 2 | RNotify _ NDrop => 1 | RNotify _ NRet => 0
  | RComplete _ _ b => b2n (negb b)
  | ROther OLock => 2 | ROther OHold => 1 | ROther ORet => 0
  end.

Lemma action_reset i t s t' s' : thread_action i t s = Some (t', s') -> reset t' = reset t.
Proof.
  destruct t as [ev []|take o []|[]]; cbn; intros W; try done; try (case_hyp W; [|done]);
    by injection W as <- <-.
Qed.

Lemma action_left i t s t' s' : thread_action i t s = Some (t', s') -> t_left t' < t_left t.
Proof.
  destruct t as [ev [| |[]| | |]|take o []|[]]; cbn; intros W; try done;
    try (case_hyp W; [|done]); injection W as <- <-; cbn; lia.
Qed.

Lemma watch_left ok err st s st' s' : watch_action ok err st s = Some (st', s') -> w_left st' < w_left st.
Proof.
  destruct st; cbn; intros W; try done; try (case_hyp W; [|done]); injection W as <- <-; cbn; lia.
Qed.

Lemma map_reset_insert ts i t t' :
  ts !! i = Some t -> reset t' = reset t -> map reset (<[i := t']> ts) = map reset ts.
Proof.
  revert i; induction ts as [|x ts IH]; intros [|i] Hi Hr; cbn in *; try done.
  - injection Hi as ->. by rewrite Hr.
  - f_equal. by apply IH.
Qed.

(** ** Runs *)

(** All that is kept along a run: the invariant, the threads but for their progress, and
    where the outcomes come from. *)
Record run_ok (ok : bool) (err : outcome) (ts0 : list rthread) (r : race) : Prop := RunOk {
  ro_inv : rinv ok (r_state r) (r_stage r) (r_others r);
  ro_threads : map reset (r_others r) = map reset ts0;
  ro_from : from_threads ok err ts0 (body (r_state r));
}.

Lemma step_from ok err ts0 r r' :
  run_ok ok err ts0 r -> rstep ok err r r' -> from_threads ok err ts0 (body (r_state r')).
Proof.
  intros [I T F] H. revert I T F. destruct H as [s st ts s' st' W|s st ts i t t' s' Hi W];
    cbn [r_state r_stage r_others]; intros I T F.
  - destruct st; cbn in W; try (case_hyp W; [|done]); simplify_eq; cbn; try done.
    destruct ok; [done|]. cbn. rewrite alone_data by (done || apply I). cbn.
    destruct F as [F1 F2]. split; [done|]. intros o [= <-].
    destruct (data_out (body s)); cbn; [by apply F2|done].
  - assert (reset t ∈ map reset ts0) as Hin.
    { rewrite <- T. apply list_elem_of_fmap. exists t. split; [done|]. by eapply list_elem_of_lookup_2. }
    destruct t as [ev []|take o []|[]]; cbn in W; try (case_hyp W; [|done]); simplify_eq; cbn;
      try done; destruct F as [F1 F2].
    + rewrite alone_event by apply I. cbn. pose proof (ri_data _ _ _ _ I) as Hd.
      rewrite (notify_completed _ _ _ _ _ _ _ _ _ I Hi eq_refl) in Hd. cbn in Hd.
      destruct (data_out (body s)) as [o|]; [|done]. split; [|by intros ? [= <-]; apply F2].
      intros x [= <-]. destruct (event_out (body s)); cbn; [by apply F1|done].
    + rewrite alone_data; [|apply I|].
      2: { intros _. pose proof (completion_first _ _ _ _ _ Hi (ri_completed _ _ _ _ I)
                                   (ri_completions _ _ _ _ I)) as Ec.
           by destruct (ri_started _ _ _ _ I Ec) as (_ & _ & ?). }
      cbn. split; [done|]. intros x [= <-]. destruct (data_out (body s)); cbn; [by apply F2|].
      pose proof (ri_accepted _ _ _ _ I) as Ha. destruct ok; [by exists take|]. cbn in Ha. congruence.
Qed.

Lemma run_step ok err ts0 r r' :
  run_ok ok err ts0 r -> rstep ok err r r' ->
  run_ok ok err ts0 r' /\
  w_left (r_stage r') + sum_list_with t_left (r_others r')
  < w_left (r_stage r) + sum_list_with t_left (r_others r).
Proof.
  intros R H. pose proof (step_from _ _ _ _ _ R H) as F'. destruct R as [I T F].
  pose proof (rstep_inv _ _ _ _ I H) as I'. split.
  - split; [done| |done]. revert T. destruct H as [|s st ts i t t' s' Hi W]; cbn; [done|]. intros <-.
    by eapply map_reset_insert, action_reset.
  - destruct H as [s st ts s' st' W|s st ts i t t' s' Hi W]; cbn.
    + apply watch_left in W. lia.
    + apply action_left in W. pose proof (sum_insert t_left _ _ _ t' Hi). lia.
Qed.

Lemma run_all ok err ts0 n r r' :
  run_ok ok err ts0 r -> nsteps (rstep ok err) n r r' ->
  run_ok ok err ts0 r' /\ n <= w_left (r_stage r) + sum_list_with t_left (r_others r).
Proof.
  intros R H. revert R. induction H as [r|n r1 r2 r3 H12 _ IH]; intros R; [split; [done|lia]|].
  destruct (run_step _ _ _ _ _ R H12) as [R2 L]. destruct (IH R2) as [R3 L3]. split; [done|lia].
Qed.

(** The holder of the mutex can act. *)
Lemma holder_acts ok err s st ts :
  rinv ok s st ts -> mutex s <> Nobody -> exists r', rstep ok err (Race s st ts) r'.
Proof.
  intros I Hm. destruct (ri_lock _ _ _ _ I) as [Lw Lo]. destruct (mutex s) as [| |i]; [done| |].
  - assert (w_holds st = true) as Hst by by apply Lw.
    assert (exists x, watch_action ok err st s = Some x) as [[st' s'] W].
    { destruct st; try done; eexists; reflexivity. }
    eexists. by apply rstep_watch.
  - destruct (Lo i) as [H _]. destruct (H eq_refl) as (t & Hi & Ht).
    assert (exists x, thread_action i t s = Some x) as [[t' s'] W].
    { destruct t as [ev []|take o []|[]]; try done; eexists; reflexivity. }
    eexists. by eapply rstep_other.
Qed.

Definition is_notification (t : rthread) : bool :=
  match t with RNotify _ _ => true | _ => false end.

Lemma existsb_lookup {A} (p : A -> bool) (l : list A) :
  existsb p l = true <-> exists (i : nat) x, l !! i = Some x /\ p x = true.
Proof.
  rewrite existsb_exists. setoid_rewrite <- list_elem_of_In. setoid_rewrite list_elem_of_lookup.
  naive_solver.
Qed.

(** When nothing can act, [watch] has returned and so has everything that could begin. *)
Lemma quiet_state ok err s st ts :
  rinv ok s st ts -> (forall r', ~ rstep ok err (Race s st ts) r') ->
  st = WRet /\ (ok = true -> existsb is_completion ts = true -> completed s = true) /\
  (forall i t, ts !! i = Some t -> owns t = false /\ delivers t = false /\
     (completed s = true -> is_notification t = true -> looked t = true)).
Proof.
  intros I Q. assert (mutex s = Nobody) as Hm.
  { destruct (decide (mutex s = Nobody)) as [|Hm]; [done|].
    destruct (holder_acts ok err s st ts I Hm) as [r' H]. by destruct (Q r'). }
  assert (st = WRet) as ->.
  { destruct (watch_action ok err st s) as [[st' s']|] eqn:W; [by destruct (Q _ (rstep_watch _ _ _ _ _ _ _ W))|].
    destruct st; cbn in W; try done. by rewrite decide_True in W. }
  assert (forall i t, ts !! i = Some t -> thread_action i t s = None) as N.
  { intros i t Hi. destruct (thread_action i t s) as [[t' s']|] eqn:W; [|done].
    by destruct (Q _ (rstep_other _ _ _ _ _ _ _ _ _ Hi W)). }
  split_and!; [done| |].
  - intros -> (i & t & Hi & Ht)%existsb_lookup.
    pose proof (N i t Hi) as W. destruct t as [|take o []|]; try done.
    + pose proof (ri_completed _ _ _ _ I) as Hc. pose proof (count_lookup completes ts i _ Hi eq_refl).
      destruct (completed s); [done|]. cbn in Hc. lia.
    + cbn in W. by rewrite (ri_accepted _ _ _ _ I) in W.
  - intros i t Hi. pose proof (N i t Hi) as W. destruct t as [ev []|take o []|[]]; cbn in W; try done.
    split_and!; try done. intros Hc. rewrite Hc, bool_decide_true in W by done. done.
Qed.

Lemma reset_idle ts : Forall not_started ts -> map reset ts = ts.
Proof. induction 1 as [|[ev []|take o []|[]] ts Ht _ IH]; cbn in *; by rewrite ?IH. Qed.

Lemma left_bound ts : sum_list_with t_left ts <= 5 * length ts.
Proof. induction ts as [|[ev []|take o []|[]] ts IH]; cbn in *; lia. Qed.

Lemma existsb_reset p ts :
  (forall t, p (reset t) = p t) -> existsb p (map reset ts) = existsb p ts.
Proof. intros H. induction ts as [|t ts IH]; cbn; [done|]. by rewrite H, IH. Qed.

Lemma count_none {A} (p : A -> bool) (ts : list A) : (forall i t, ts !! i = Some t -> p t = false) -> count p ts = 0.
Proof. intros H. apply count_zero, Forall_lookup. exact H. Qed.

Lemma quiet_outcome ok err ts0 s st ts :
  rinv ok s st ts -> map reset ts = ts0 -> from_threads ok err ts0 (body s) ->
  map reset ts0 = ts0 -> (forall r', ~ rstep ok err (Race s st ts) r') ->
  st = WRet /\ data_future_taken s = true /\
  if ok then
    existsb is_completion ts0 = true ->
    (exists o take, data_out (body s) = Some o /\ RComplete take o false ∈ ts0) /\
    if existsb is_notification ts0 then
      (exists ev, event_out (body s) = Some ev /\ RNotify ev NLock ∈ ts0) /\
      filed s = false /\ refs s = 0
    else event_out (body s) = None /\ filed s = true /\ refs s = 1
  else data_out (body s) = Some err /\ filed s = false /\ refs s = 0.
Proof.
  intros I T [F1 F2] T0 Q. destruct (quiet_state ok err s st ts I Q) as (-> & Hc & Hq).
  assert (count owns ts = 0) as O0 by (apply count_none; intros; by eapply Hq).
  assert (count delivers ts = 0) as D0 by (apply count_none; intros; by eapply Hq).
  pose proof (ri_event _ _ _ _ I) as E. pose proof (ri_refs _ _ _ _ I) as R.
  pose proof (ri_data _ _ _ _ I) as Dt. rewrite D0 in E. rewrite O0 in R. cbn in E, R, Dt.
  rewrite T0 in F1, F2. split_and!; [done|apply I|]. destruct ok; cbn in *.
  - intros X. assert (completed s = true) as Hco.
    { apply Hc; [done|]. rewrite <- T, existsb_reset in X by by intros []. done. }
    rewrite Hco in Dt. split.
    { destruct (data_out (body s)) as [o|]; [|done].
      destruct (F2 o eq_refl) as [take Hin]. eauto. }
    rewrite <- T, existsb_reset by by intros [].
    destruct (existsb is_notification ts) eqn:X2.
    + apply existsb_lookup in X2 as (i & t & Hi & Ht).
      destruct (Hq i t Hi) as (_ & _ & Hl). pose proof (count_lookup looked ts i t Hi (Hl Hco Ht)) as Hlk.
      destruct (ri_looked _ _ _ _ I Hlk) as [Hf _]. rewrite Hf in E, R. split_and!; [|done|done].
      rewrite T. destruct (event_out (body s)) as [ev|]; [|done]. eauto.
    + assert (event_out (body s) = None) as He.
      { destruct (event_out (body s)) as [ev|] eqn:Ee; [|done]. specialize (F1 ev eq_refl).
        rewrite <- T in F1. apply list_elem_of_fmap in F1 as (t & Et & Hin).
        apply list_elem_of_lookup in Hin as [i Hi].
        assert (existsb is_notification ts = true) by (apply existsb_lookup; exists i, t; by destruct t).
        congruence. }
      rewrite He in E. cbn in E. destruct (filed s); [|done]. done.
  - destruct (filed s), (event_out (body s)); try done.
    destruct (data_out (body s)) as [o|]; [|by rewrite orb_true_r in Dt].
    by rewrite (F2 o eq_refl).
Qed.

(** ** Properties *)

(** C13: a watch never misses its event because the event was too fast. One call of
    [watch] (accepted or refused by the C client), its completion, any number of
    notifications for it and any number of other users of the mutex run as threads, in any
    interleaving; a notification may come while [watch] is still between its call and its
    [emplace]. Always: the watcher is not used after its last owner is gone, no future is
    taken twice and no promise stored twice; the mutex is held by at most one of them and
    its holder can go on; and a run has at most 7 + 5 actions per thread. When nothing
    can act any more, [watch] has returned. If it was accepted and completed, the data is
    what the completion brought; if there was a notification, the event of one of them is
    in the event future and the watcher is gone from [_watches] and freed; if there was
    none, the watcher is still filed and alive, with one owner. A refused watch has the
    error and left nothing behind. *)
Theorem registration_race ok err ts0 n s st ts :
  Forall not_started ts0 -> count is_completion ts0 <= 1 ->
  nsteps (rstep ok err) n (Race reg_start WLock ts0) (Race s st ts) ->
  broken_rule s = false /\ failed (body s) = false /\ n <= 7 + 5 * length ts0 /\
  (forall i j t u, ts !! i = Some t -> ts !! j = Some u -> holds t = true -> holds u = true ->
     i = j /\ w_holds st = false) /\
  (mutex s <> Nobody -> exists r', rstep ok err (Race s st ts) r') /\
  ((forall r', ~ rstep ok err (Race s st ts) r') ->
   st = WRet /\ data_future_taken s = true /\
   if ok then
     existsb is_completion ts0 = true ->
     (exists o take, data_out (body s) = Some o /\ RComplete take o false ∈ ts0) /\
     if existsb is_notification ts0 then
       (exists ev, event_out (body s) = Some ev /\ RNotify ev NLock ∈ ts0) /\
       filed s = false /\ refs s = 0
     else event_out (body s) = None /\ filed s = true /\ refs s = 1
   else data_out (body s) = Some err /\ filed s = false /\ refs s = 0).
Proof.
  intros F0 Hone R. pose proof (rinv_start ok ts0 F0 Hone) as I0.
  destruct (run_all ok err ts0 n (Race reg_start WLock ts0) (Race s st ts)) as [[I T F] Hn];
    [by split|done|]. cbn [r_state r_stage r_others] in *.
  rewrite (reset_idle _ F0) in T. split_and!.
  - apply I.
  - apply I.
  - etrans; [exact Hn|]. cbn [w_left]. pose proof (left_bound ts0). lia.
  - intros i j t u Hi Hj Ht Hu. destruct (ri_lock _ _ _ _ I) as [Lw Lo].
    assert (mutex s = Other i) as E by (apply Lo; eauto).
    assert (mutex s = Other j) as E' by (apply Lo; eauto).
    split; [congruence|]. destruct (w_holds st); [|done]. destruct Lw as [_ Lw].
    specialize (Lw eq_refl). congruence.
  - by apply holder_acts.
  - intros Q. apply (quiet_outcome ok err ts0 s st ts); [done|done|done|by apply reset_idle|done].
Qed.

(** ** A run: the completion and the notification arrive before [emplace], and the
    notification has to wait for the mutex. *)

Definition early_threads : list rthread :=
  [RComplete true (Value VVoid) false; RNotify (Event 3 3) NLock; ROther OLock].

(** The call ([None]) and the other threads act in this order. *)
Fixpoint run_schedule (ok : bool) (err : outcome) (l : list (option nat)) (r : race) : option race :=
  match l with
  | [] => Some r
  | None :: rest =>
      match watch_action ok err (r_stage r) (r_state r) with
      | Some (st', s') => run_schedule ok err rest (Race s' st' (r_others r))
      | None => None
      end
  | Some i :: rest =>
      match r_others r !! i with
      | Some t =>
          match thread_action i t (r_state r) with
          | Some (t', s') => run_schedule ok err rest (Race s' (r_stage r) (<[i := t']> (r_others r)))
          | None => None
          end
      | None => None
      end
  end.

Lemma run_schedule_steps ok err l r r' :
  run_schedule ok err l r = Some r' -> nsteps (rstep ok err) (length l) r r'.
Proof.
  revert r. induction l as [|[i|] l IH]; intros [s st ts] E; cbn in *.
  - simplify_eq. constructor.
  - destruct (ts !! i) as [t|] eqn:Hi; [|done].
    destruct (thread_action i t s) as [[t' s']|] eqn:W; [|done].
    econstructor; [by eapply rstep_other|by apply IH].
  - destruct (watch_action ok err st s) as [[st' s']|] eqn:W; [|done].
    econstructor; [by apply rstep_watch|by apply IH].
Qed.

Definition early_schedule : list (option nat) :=
  [None; None; None; Some 0; None; None; None; None; Some 2; Some 2; Some 1; Some 1; Some 1; Some 1;
   Some 1].

(** No notification can begin while the call holds the mutex, although the completion has
    run. *)
Example notification_waits :
  option_map (fun r => thread_action 1 (RNotify (Event 3 3) NLock) (r_state r))
    (run_schedule true closed_outcome [None; None; None; Some 0] (Race reg_start WLock early_threads))
  = Some None.
Proof. reflexivity. Qed.

Definition early_end : race :=
  default (Race reg_start WLock [])
    (run_schedule true closed_outcome early_schedule (Race reg_start WLock early_threads)).

Lemma early_run :
  nsteps (rstep true closed_outcome) 15 (Race reg_start WLock early_threads)
    (Race (r_state early_end) (r_stage early_end) (r_others early_end)).
Proof. apply (run_schedule_steps _ _ early_schedule). vm_compute. reflexivity. Qed.

Lemma early_quiet r' :
  ~ rstep true closed_outcome (Race (r_state early_end) (r_stage early_end) (r_others early_end)) r'.
Proof.
  vm_compute. intros St. inversion St as [? ? ? ? ? W|? ? ? [|[|[|i]]] ? ? ? Hi W]; subst;
    [done|cbn in Hi; simplify_eq; done..].
Qed.

Lemma registration_race_witness :
  broken_rule (r_state early_end) = false /\ failed (body (r_state early_end)) = false /\
  (exists ev, event_out (body (r_state early_end)) = Some ev /\ RNotify ev NLock ∈ early_threads) /\
  refs (r_state early_end) = 0.
Proof.
  destruct (registration_race true closed_outcome early_threads 15 (r_state early_end)
              (r_stage early_end) (r_others early_end)) as (H1 & H2 & _ & _ & _ & H).
  - repeat constructor.
  - vm_compute. lia.
  - exact early_run.
  - destruct (H early_quiet) as (_ & _ & H3). destruct (H3 eq_refl) as (_ & He & _ & Hr).
    split_and!; [exact H1|exact H2|exact He|exact Hr].
Defined.
