(* ===== verification/Protocol.v ===== *)
(** * Protocol: the life of a connection

    A step relation for one connection and its environment: API calls, completions
    and watch notifications from the C client's threads, session events and
    [close]. Operations are atomic steps: those that touch [_watches] or the state
    promises do so under their mutex, and the others use, once they have called the
    C client, only the future they return. There is one exception: [load_fence] uses
    the promise after the call, when the completion may have deleted it; the step for
    it is the run in which the completion comes after the return, and Fence.v treats
    the other one. The interleavings inside the watchers are treated in Watcher.v.

    [pending] is the environment's side: the contexts whose completion the C client
    still owes. The assumptions on the C client are guards of the steps:
    - the completion of a call is called at most once, and only if the call
      returned [ZOK], with arguments of its type ([step_complete]);
    - a watch is registered by the client when the completion of the call that set
      it is delivered, so a notification for a context comes after its completion
      ([step_notify]); it may name any address without an outstanding completion,
      also one that was freed long ago;
    - [zookeeper_close] completes all outstanding calls before it returns [ZOK]
      ([step_close]);
    - the functions fail on a null handle ([step_api]).
    The allocator may return an address that was freed, but the guard of [step_notify]
    leaves out the case that the C client still holds that address for an old watch,
    whose notification would then hit the new call. Stale.v has the system with that
    case: it keeps the C client's watches, shows that the steps are those below as
    long as no address the C client holds is reused, and what goes wrong otherwise. *)

From S2P Require Import Prelude Text OrdMap Types Error Acl Native Results Multi World.
From S2P Require Import ConnectionZk Commit Runs.
Local Open Scope Z_scope.

(** ** Steps *)

Inductive api_call :=
| CGet (path : str)
| CGetChildren (path : str)
| CExists (path : str)
| CCreate (path : str) (data : buffer) (rules : acl) (mode : Z)
| CSet (path : str) (data : buffer) (check : version)
| CErase (path : str) (check : version)
| CGetAcl (path : str)
| CSetAcl (path : str) (rules : acl) (check : acl_version)
| CLoadFence
| CCommit (txn : multi_op)
| CWatch (path : str)
| CWatchChildren (path : str)
| CWatchExists (path : str).

Record sys := Sys { conn : world; pending : gset addr }.

Section protocol.
Context `{!ZooConsts}.

Definition run_api (c : api_call) (a : addr) (rc_in : Z) : M fut :=
  match c with
  | CGet path => get path a rc_in
  | CGetChildren path => get_children path a rc_in
  | CExists path => exists_ path a rc_in
  | CCreate path data rules mode => create path data rules mode a rc_in
  | CSet path data check => set path data check a rc_in
  | CErase path check => erase path check a rc_in
  | CGetAcl path => get_acl path a rc_in
  | CSetAcl path rules check => set_acl path rules check a rc_in
  | CLoadFence => load_fence a rc_in
  | CCommit txn => commit txn a rc_in
  | CWatch path => watch path a rc_in
  | CWatchChildren path => watch_children path a rc_in
  | CWatchExists path => watch_exists path a rc_in
  end.

Definition call_fits (c : api_call) : Prop :=
  match c with CCommit txn => txn_fits txn | _ => True end.

(** The arguments of a completion are of the type of the callback; the result
    array of a transaction has one cell per operation. *)
Definition payload_ok (o : obj) (p : payload) : bool :=
  match o, p with
  | OPromise k _, _ => match callback k 0 p with Some _ => true | None => false end
  | OWatcher w, PData _ _ => bool_decide (w_kind w = WData)
  | OWatcher w, PStrings _ _ => bool_decide (w_kind w = WChild)
  | OWatcher w, PStat _ => bool_decide (w_kind w = WExists)
  | OCompleter c, PMulti rs => bool_decide (length rs = length (c_source_txn c))
  | _, _ => false
  end.

Inductive step : sys -> sys -> Prop :=
| step_api c a rc_in r w w' P :
    heap w !! a = None -> call_fits c ->
    (handle w = false -> ok_rc rc_in = false) ->
    run_api c a rc_in w = (r, w') ->
    step (Sys w P) (Sys w' (if ok_rc rc_in then P ∪ {[a]} else P))
| step_complete a rc_in p o r w w' P :
    a ∈ P -> heap w !! a = Some o -> payload_ok o p = true ->
    on_completion a rc_in p w = (r, w') ->
    step (Sys w P) (Sys w' (P ∖ {[a]}))
| step_notify a type_in state_in r w w' P :
    a ∉ P ->
    deliver_watch type_in state_in a w = (r, w') ->
    step (Sys w P) (Sys w' P)
| step_session ev_type state_in r w w' P :
    on_session_event_raw ev_type state_in w = (r, w') ->
    step (Sys w P) (Sys w' P)
| step_watch_state r w w' P :
    watch_state w = (r, w') ->
    step (Sys w P) (Sys w' P)
| step_close rc r w w' P :
    (ok_rc rc = true -> P = ∅) ->
    close rc w = (r, w') ->
    step (Sys w P) (Sys w' P).

(** A connection just constructed. *)
Definition initial : sys := Sys (World true ∅ [] ∅ ∅ 0 []) ∅.

Definition reachable (s : sys) : Prop := rtc step initial s.

(** ** The invariant *)

(** A shared state that waits for its value, with its future taken. *)
Definition waiting (w : world) (f : fut) : Prop := futs w !! f = Some (SState None true).

(** What a live object looks like between steps. *)
Definition obj_ok (w : world) (P : gset addr) (a : addr) (o : obj) : Prop :=
  match o with
  | OPromise _ p => a ∈ P /\ waiting w p
  | OCompleter c => a ∈ P /\ waiting w (c_prom c)
  | OWatcher v =>
      a ∈ watches w /\ w_event_delivered v = false /\
      w_event_promise v <> w_data_promise v /\
      if w_data_delivered v
      then a ∉ P /\ (exists x, futs w !! w_data_promise v = Some (SState (Some x) true)) /\
           (exists r, futs w !! w_event_promise v = Some (SState None r))
      else a ∈ P /\ waiting w (w_data_promise v) /\
           futs w !! w_event_promise v = Some (SState None false)
  end.

Record inv (s : sys) : Prop := Inv {
  inv_fresh : forall f, (next_fut (conn s) <= f)%nat -> futs (conn s) !! f = None;
  inv_obj : forall a o, heap (conn s) !! a = Some o -> obj_ok (conn s) (pending s) a o;
  inv_pending : forall a, a ∈ pending s -> is_Some (heap (conn s) !! a);
  inv_watches : forall a, a ∈ watches (conn s) ->
    exists v, heap (conn s) !! a = Some (OWatcher v);
  inv_disjoint : forall a b o o' f,
    heap (conn s) !! a = Some o -> heap (conn s) !! b = Some o' ->
    f ∈ obj_promises o -> f ∈ obj_promises o' -> a = b;
  inv_state : NoDup (state_promises (conn s)) /\
    forall f, f ∈ state_promises (conn s) -> waiting (conn s) f /\
      forall a o, heap (conn s) !! a = Some o -> f ∉ obj_promises o;
  inv_owned : forall f, waiting (conn s) f ->
    f ∈ state_promises (conn s) \/
    exists a o, heap (conn s) !! a = Some o /\ f ∈ obj_promises o;
  inv_closed : handle (conn s) = false -> pending s = ∅ /\ watches (conn s) = ∅;
}.

(** ** Stability

    A computation is stable when it neither changes nor removes a stored outcome
    and keeps the supply of fresh shared states. Stability is compositional. *)

Definition fresh_futs (w : world) : Prop :=
  forall f, (next_fut w <= f)%nat -> futs w !! f = None.

Definition keeps_outcomes (w w' : world) : Prop :=
  forall f o r, futs w !! f = Some (SState (Some o) r) ->
  exists r', futs w' !! f = Some (SState (Some o) r').

Class Stable {A} (m : M A) : Prop :=
  stable : forall w r w', m w = (r, w') -> fresh_futs w -> fresh_futs w' /\ keeps_outcomes w w'.

End protocol.

Lemma keeps_refl w : keeps_outcomes w w.
Proof. intros f o r ->. eauto. Qed.

Lemma keeps_trans w1 w2 w3 :
  keeps_outcomes w1 w2 -> keeps_outcomes w2 w3 -> keeps_outcomes w1 w3.
Proof. intros H1 H2 f o r Hf. apply H1 in Hf as [r' Hf]. by eapply H2. Qed.

(** A computation that does not touch the futures. *)
Lemma stable_frame {A} (m : M A) :
  (forall w r w', m w = (r, w') -> futs w' = futs w /\ next_fut w' = next_fut w) -> Stable m.
Proof.
  intros H w r w' E Hfr. destruct (H _ _ _ E) as [Hf Hn]. split.
  - intros f. rewrite Hf, Hn. apply Hfr.
  - intros f o b. rewrite Hf. eauto.
Qed.

#[global] Instance stable_return {A} (a : A) : Stable (mreturn a).
Proof. apply stable_frame. by intros ??? [= <- <-]. Qed.
#[global] Instance stable_throw {A} e : Stable (@mthrow A e).
Proof. apply stable_frame. by intros ??? [= <- <-]. Qed.
#[global] Instance stable_undef {A} : Stable (@mundef A).
Proof. apply stable_frame. by intros ??? [= <- <-]. Qed.
#[global] Instance stable_mget {A} (f : world -> A) : Stable (mget f).
Proof. apply stable_frame. by intros ??? [= <- <-]. Qed.
#[global] Instance stable_zoo_call r rc : Stable (zoo_call r rc).
Proof. apply stable_frame. by intros ??? [= <- <-]. Qed.
#[global] Instance stable_set_handle b : Stable (mmodify (set_handle b)).
Proof. apply stable_frame. by intros ??? [= <- <-]. Qed.
#[global] Instance stable_set_watches f : Stable (mmodify (fun w => set_watches (f w) w)).
Proof. apply stable_frame. by intros ??? [= <- <-]. Qed.
#[global] Instance stable_set_watches' x : Stable (mmodify (set_watches x)).
Proof. apply stable_frame. by intros ??? [= <- <-]. Qed.
#[global] Instance stable_set_state_promises f :
  Stable (mmodify (fun w => set_state_promises (f w) w)).
Proof. apply stable_frame. by intros ??? [= <- <-]. Qed.
#[global] Instance stable_set_state_promises' x : Stable (mmodify (set_state_promises x)).
Proof. apply stable_frame. by intros ??? [= <- <-]. Qed.
#[global] Instance stable_set_heap f : Stable (mmodify (fun w => set_heap (f w) w)).
Proof. apply stable_frame. by intros ??? [= <- <-]. Qed.
#[global] Instance stable_alloc a o : Stable (alloc a o).
Proof. apply stable_frame. intros w r w'. unfold alloc. case_goal; by intros [= <- <-]. Qed.
#[global] Instance stable_load a : Stable (load a).
Proof. apply stable_frame. intros w r w'. unfold load. case_goal; by intros [= <- <-]. Qed.
#[global] Instance stable_update a o : Stable (update a o).
Proof. apply stable_frame. intros w r w'. unfold update. case_goal; by intros [= <- <-]. Qed.

#[global] Instance stable_mseq {A B} (m : M A) (k : A -> M B) :
  Stable m -> (forall a, Stable (k a)) -> Stable (mseq m k).
Proof.
  intros Hm Hk w r w'. unfold mseq. destruct (m w) as [[a|e|] w1] eqn:E; intros E' Hfr;
    destruct (Hm _ _ _ E Hfr) as [Hfr1 Hk1].
  - destruct (Hk _ _ _ _ E' Hfr1) as [? ?]. split; [done|]. by eapply keeps_trans.
  - by injection E' as <- <-.
  - by injection E' as <- <-.
Qed.

#[global] Instance stable_mtry {A} (m : M A) (h : exn -> M A) :
  Stable m -> (forall e, Stable (h e)) -> Stable (mtry m h).
Proof.
  intros Hm Hk w r w'. unfold mtry. destruct (m w) as [[a|e|] w1] eqn:E; intros E' Hfr;
    destruct (Hm _ _ _ E Hfr) as [Hfr1 Hk1].
  - by injection E' as <- <-.
  - destruct (Hk _ _ _ _ E' Hfr1) as [? ?]. split; [done|]. by eapply keeps_trans.
  - by injection E' as <- <-.
Qed.

#[global] Instance stable_miter {A} (f : A -> M unit) l :
  (forall a, Stable (f a)) -> Stable (miter f l).
Proof. intros Hf. induction l; cbn; apply _. Qed.

(** Overwriting a shared state that holds no outcome, or one by itself. *)
Lemma keeps_insert w f s s' :
  futs w !! f = Some s -> (ss_outcome s = None \/ ss_outcome s' = ss_outcome s) ->
  keeps_outcomes w (set_futs (<[f := s']> (futs w)) w).
Proof.
  intros Hs Hor g o r Hg. cbn. destruct (decide (f = g)) as [->|]; simplify_map_eq; [|eauto].
  destruct s' as [o' r'], Hor as [Hor|Hor]; cbn in *; [done|]. subst. eauto.
Qed.

Lemma fresh_insert w f s s' :
  futs w !! f = Some s -> fresh_futs w -> fresh_futs (set_futs (<[f := s']> (futs w)) w).
Proof.
  intros Hs Hfr g Hg. cbn in *. destruct (decide (f = g)) as [->|]; simplify_map_eq; [|auto].
  by rewrite Hfr in Hs.
Qed.

#[global] Instance stable_new_promise : Stable new_promise.
Proof.
  intros w r w' [= <- <-] Hfr. split.
  - intros f Hf. cbn in *. rewrite lookup_insert_ne by lia. apply Hfr. lia.
  - intros f o r Hf. cbn. rewrite lookup_insert_ne; [eauto|]. intros <-. by rewrite Hfr in Hf.
Qed.

#[global] Instance stable_get_future f : Stable (get_future f).
Proof.
  intros w r w'. unfold get_future. destruct (futs w !! f) as [[o []]|] eqn:E;
    intros [= <- <-] Hfr; split; eauto using keeps_refl, fresh_insert.
  apply (keeps_insert _ _ _ _ E). by right.
Qed.

#[global] Instance stable_store f o : Stable (store f o).
Proof.
  intros w r w'. unfold store. destruct (futs w !! f) as [[[]]|] eqn:E;
    intros [= <- <-] Hfr; split; eauto using keeps_refl, fresh_insert.
  apply (keeps_insert _ _ _ _ E). by left.
Qed.

#[global] Instance stable_destroy f : Stable (destroy_promise f).
Proof.
  intros w r w'. unfold destroy_promise. destruct (futs w !! f) as [[[]]|] eqn:E;
    intros [= <- <-] Hfr; split; eauto using keeps_refl, fresh_insert.
  apply (keeps_insert _ _ _ _ E). by left.
Qed.

#[global] Instance stable_set_value f v : Stable (set_value f v).
Proof. apply stable_store. Qed.
#[global] Instance stable_set_exception f e : Stable (set_exception f e).
Proof. apply stable_store. Qed.

(** A stable computation stays stable under a case analysis of its program text. *)
Ltac stable_tac :=
  repeat match goal with
  | |- Stable (match ?x with _ => _ end) => destruct x
  | |- Stable (mseq _ _) => apply stable_mseq; [|intros ?]
  | |- Stable (mtry _ _) => apply stable_mtry; [|intros ?]
  | |- Stable (miter _ _) => apply stable_miter; intros ?
  | |- Stable (let _ := _ in _) => cbv zeta
  | |- Stable _ => apply _
  end.

#[global] Instance stable_free a : Stable (free a).
Proof. unfold free. stable_tac. Qed.
#[global] Instance stable_load_watcher a : Stable (load_watcher a).
Proof. unfold load_watcher. stable_tac. Qed.
#[global] Instance stable_deliver_data a d e : Stable (deliver_data a d e).
Proof. unfold deliver_data. stable_tac. Qed.
#[global] Instance stable_deliver_event a e : Stable (deliver_event a e).
Proof. unfold deliver_event, deliver_event_base. stable_tac. Qed.
#[global] Instance stable_get_event_future a : Stable (get_event_future a).
Proof. unfold get_event_future. stable_tac. Qed.
#[global] Instance stable_get_data_future a : Stable (get_data_future a).
Proof. unfold get_data_future. stable_tac. Qed.

Section stable_operations.
Context `{!ZooConsts}.

#[global] Instance stable_on_completion a rc p : Stable (on_completion a rc p).
Proof.
  unfold on_completion, data_deliver_raw, child_deliver_raw, exists_deliver_raw, deliver.
  stable_tac.
Qed.
#[global] Instance stable_deliver_watch t st a : Stable (deliver_watch t st a).
Proof. unfold deliver_watch, try_extract_watch. stable_tac. Qed.
#[global] Instance stable_session t st : Stable (on_session_event_raw t st).
Proof. unfold on_session_event_raw, on_session_event. stable_tac. Qed.
#[global] Instance stable_watch_state : Stable watch_state.
Proof. unfold watch_state. stable_tac. Qed.
#[global] Instance stable_close rc : Stable (close rc).
Proof. unfold close. stable_tac. Qed.
#[global] Instance stable_async_op k r a rc : Stable (async_op k r a rc).
Proof. unfold async_op, async_call, async_return. stable_tac. Qed.
#[global] Instance stable_watch_op k r a rc : Stable (watch_op k r a rc).
Proof. unfold watch_op. stable_tac. Qed.
#[global] Instance stable_run_api c a rc : Stable (run_api c a rc).
Proof.
  destruct c; cbn [run_api]; try apply stable_async_op; try apply stable_watch_op;
    [unfold load_fence, load_fence_call, load_fence_return | unfold commit]; stable_tac.
Qed.

Lemma step_stable s s' :
  step s s' -> fresh_futs (conn s) ->
  fresh_futs (conn s') /\ keeps_outcomes (conn s) (conn s').
Proof.
  intros [] Hfr; cbn [conn] in *;
    match goal with H : ?m ?w = (?r, ?w') |- _ => exact (@stable _ m _ w r w' H Hfr) end.
Qed.

End stable_operations.
