(* ===== verification/Lifecycle.v ===== *)
(** * Lifecycle: the invariant of a connection and what follows from it

    Every step preserves the invariant of Protocol.v. From it: no retrieved future is
    ever without an owner that will satisfy it, [close] leaves none waiting, refused
    and accepted calls and session events do what they should, and the whole life of
    a watch. That the callbacks the C client runs are safe is in Stale.v, where the
    outcomes of futures come from in Outcomes.v. *)

From S2P Require Import Prelude Text OrdMap Types Error Acl Native Results Multi World.
From S2P Require Import ConnectionZk Commit Runs Protocol.
Local Open Scope Z_scope.

(** ** Frames *)

(** An object's condition depends on its own promises and on the membership of its
    own address only. *)
Lemma obj_ok_ext w w' P P' a o :
  obj_ok w P a o ->
  (forall f, f ∈ obj_promises o -> futs w' !! f = futs w !! f) ->
  (a ∈ P <-> a ∈ P') -> (a ∈ watches w -> a ∈ watches w') ->
  obj_ok w' P' a o.
Proof.
  intros Hok Hf HP Hw. destruct o as [k p|v|c]; cbn in *; unfold waiting in *.
  - rewrite Hf by set_solver. tauto.
  - rewrite !Hf by set_solver. destruct (w_data_delivered v); tauto.
  - rewrite Hf by set_solver. tauto.
Qed.

(** The promises of a live object exist. *)
Lemma obj_ok_promise w P a o f :
  obj_ok w P a o -> f ∈ obj_promises o -> is_Some (futs w !! f).
Proof.
  intros Hok Hf. destruct o as [k p|v|c]; cbn in *; unfold waiting in *.
  - apply list_elem_of_singleton in Hf as ->. destruct Hok as [_ ->]. eauto.
  - destruct Hok as (_ & _ & _ & Hok).
    apply elem_of_cons in Hf as [->|Hf]; [|apply list_elem_of_singleton in Hf as ->];
      destruct (w_data_delivered v); naive_solver.
  - apply list_elem_of_singleton in Hf as ->. destruct Hok as [_ ->]. eauto.
Qed.

Section frames.
Context (w : world) (P : gset addr) (Hinv : inv (Sys w P)).

Lemma inv_promise_lt a o f :
  heap w !! a = Some o -> f ∈ obj_promises o -> (f < next_fut w)%nat.
Proof.
  intros Ha Hf. pose proof (obj_ok_promise _ _ _ _ _ (inv_obj _ Hinv _ _ Ha) Hf) as [s Hs].
  cbn in Hs. destruct (le_lt_dec (next_fut w) f) as [Hle|]; [|done].
  pose proof (inv_fresh _ Hinv f Hle) as Hn. cbn in Hn. congruence.
Qed.

Lemma inv_state_lt f : f ∈ state_promises w -> (f < next_fut w)%nat.
Proof.
  intros Hf. destruct (inv_state _ Hinv) as [_ Hst]. destruct (Hst f Hf) as [Hwt _].
  unfold waiting in Hwt. cbn in Hwt. destruct (le_lt_dec (next_fut w) f) as [Hle|]; [|done].
  pose proof (inv_fresh _ Hinv f Hle) as Hn. cbn in Hn. congruence.
Qed.

(** New shared states from [next_fut] on that nobody waits for, and no other
    change, keep the invariant. *)
Lemma inv_extend w' :
  handle w' = handle w -> watches w' = watches w -> state_promises w' = state_promises w ->
  heap w' = heap w -> fresh_futs w' ->
  (forall f, (f < next_fut w)%nat -> futs w' !! f = futs w !! f) ->
  (forall f, (next_fut w <= f)%nat -> ~ waiting w' f) ->
  inv (Sys w' P).
Proof.
  intros Eh Ew Es Ehp Hfr Hold Hnew. destruct Hinv as [H1 H2 H3 H4 H5 H6 H7 H8]. cbn in *.
  constructor; cbn; rewrite ?Eh, ?Ew, ?Es, ?Ehp; try done.
  - intros a o Ha. apply (obj_ok_ext w _ P); auto; [|by rewrite Ew].
    intros f Hf. apply Hold. eapply inv_promise_lt; eauto.
  - destruct H6 as [Hnd H6]. split; [done|]. intros f Hf. split; [|apply (H6 f Hf)].
    unfold waiting. rewrite Hold by by apply inv_state_lt. apply (H6 f Hf).
  - intros f Hf. apply H7. unfold waiting in *. destruct (le_lt_dec (next_fut w) f) as [Hle|].
    + by destruct (Hnew f Hle).
    + by rewrite <- Hold.
Qed.

(** A new object with fresh promises. *)
Lemma inv_launch a o w' :
  heap w !! a = None ->
  handle w' = true -> watches w ⊆ watches w' ->
  (forall b, b ∈ watches w' -> b ∈ watches w \/ (b = a /\ exists v, o = OWatcher v)) ->
  state_promises w' = state_promises w ->
  heap w' = <[a := o]> (heap w) -> fresh_futs w' ->
  (forall f, (f < next_fut w)%nat -> futs w' !! f = futs w !! f) ->
  (forall f, f ∈ obj_promises o -> (next_fut w <= f)%nat) ->
  (forall f, (next_fut w <= f)%nat -> waiting w' f -> f ∈ obj_promises o) ->
  obj_ok w' (P ∪ {[a]}) a o ->
  inv (Sys w' (P ∪ {[a]})).
Proof.
  intros Ha Eh Hw1 Hw2 Es Ehp Hfr Hold Hnew Hwait Hok.
  destruct Hinv as [H1 H2 H3 H4 H5 H6 H7 H8]. cbn in *.
  constructor; cbn; rewrite ?Eh, ?Es, ?Ehp; try done.
  - intros b o' Hb. destruct (decide (a = b)) as [<-|Hne]; simplify_map_eq; [done|].
    apply (obj_ok_ext w _ P); auto; [|set_solver].
    intros f Hf. apply Hold. eapply inv_promise_lt; eauto.
  - intros b Hb. destruct (decide (a = b)) as [<-|Hne]; simplify_map_eq; [done|].
    apply H3. set_solver.
  - intros b [Hb|[-> [v ->]]]%Hw2; [|simplify_map_eq; eauto].
    destruct (H4 b Hb) as [v Hv]. exists v. rewrite lookup_insert_ne; [done|congruence].
  - intros b c o1 o2 f Hb Hc Hf1 Hf2.
    destruct (decide (a = b)) as [<-|Hne], (decide (a = c)) as [<-|Hne']; simplify_map_eq; try done.
    + apply Hnew in Hf1. pose proof (inv_promise_lt _ _ _ Hc Hf2). lia.
    + apply Hnew in Hf2. pose proof (inv_promise_lt _ _ _ Hb Hf1). lia.
    + eauto.
  - destruct H6 as [Hnd H6]. split; [done|]. intros f Hf. destruct (H6 f Hf) as [Hwt Ho].
    split; [unfold waiting; by rewrite Hold by by apply inv_state_lt|].
    intros b o' Hb. destruct (decide (a = b)) as [<-|Hne]; simplify_map_eq; [|eauto].
    intros Hin%Hnew. pose proof (inv_state_lt f Hf). lia.
  - intros f Hf. destruct (le_lt_dec (next_fut w) f) as [Hle|Hlt].
    + right. exists a, o. split; [by rewrite lookup_insert_eq|auto].
    + unfold waiting in Hf. rewrite Hold in Hf by done. destruct (H7 f Hf) as [?|(b & o' & Hb & Hin)]; [auto|].
      right. exists b, o'. split; [|done]. rewrite lookup_insert_ne; [done|congruence].
Qed.

(** Promises outside an object keep their state when only its own are touched. *)
Lemma inv_others a b o o' f (w' : world) :
  heap w !! a = Some o -> heap w !! b = Some o' -> a <> b ->
  (forall g, g ∉ obj_promises o -> futs w' !! g = futs w !! g) ->
  f ∈ obj_promises o' -> futs w' !! f = futs w !! f.
Proof.
  intros Ha Hb Hne Hold Hf. apply Hold. intros Hf'. apply Hne.
  eapply (inv_disjoint _ Hinv a b o o' f); done.
Qed.

(** An object is deleted after the last of its promises was satisfied. *)
Lemma inv_retire a o w' :
  heap w !! a = Some o ->
  handle w' = handle w -> watches w' = watches w ∖ {[a]} ->
  state_promises w' = state_promises w -> heap w' = delete a (heap w) -> fresh_futs w' ->
  (forall f, f ∉ obj_promises o -> futs w' !! f = futs w !! f) ->
  (forall f, f ∈ obj_promises o -> ~ waiting w' f) ->
  inv (Sys w' (P ∖ {[a]})).
Proof.
  intros Ha Eh Ew Es Ehp Hfr Hold Hsat.
  destruct Hinv as [H1 H2 H3 H4 H5 H6 H7 H8]. cbn in *.
  constructor; cbn; rewrite ?Eh, ?Ew, ?Es, ?Ehp; try done.
  - intros b o' [Hne Hb]%lookup_delete_Some. apply (obj_ok_ext w _ P); auto.
    + intros f Hf. eapply (inv_others a b); done.
    + set_solver.
    + rewrite Ew. set_solver.
  - intros b [Hb Hne%not_elem_of_singleton]%elem_of_difference.
    rewrite lookup_delete_ne by done. auto.
  - intros b [Hb Hne%not_elem_of_singleton]%elem_of_difference.
    rewrite lookup_delete_ne by done. auto.
  - intros b c o1 o2 f [_ Hb]%lookup_delete_Some [_ Hc]%lookup_delete_Some. eauto.
  - destruct H6 as [Hnd H6]. split; [done|]. intros f Hf. destruct (H6 f Hf) as [Hwt Ho].
    split; [unfold waiting; rewrite Hold; eauto|].
    intros b o' [_ Hb]%lookup_delete_Some. eauto.
  - intros f Hf. destruct (decide (f ∈ obj_promises o)) as [Hin|Hin]; [by destruct (Hsat f Hin)|].
    unfold waiting in Hf. rewrite Hold in Hf by done.
    destruct (H7 f Hf) as [?|(b & o' & Hb & Hin')]; [auto|].
    right. exists b, o'. split; [|done]. rewrite lookup_delete_ne; [done|congruence].
  - intros Hh. destruct (H8 Hh) as [-> ->]. set_solver.
Qed.

(** An object changes in place and leaves [pending]. *)
Lemma inv_progress a o o' w' :
  heap w !! a = Some o -> obj_promises o' = obj_promises o ->
  (forall v, o = OWatcher v -> exists v', o' = OWatcher v') ->
  handle w' = handle w -> watches w' = watches w ->
  state_promises w' = state_promises w -> heap w' = <[a := o']> (heap w) -> fresh_futs w' ->
  (forall f, f ∉ obj_promises o -> futs w' !! f = futs w !! f) ->
  obj_ok w' (P ∖ {[a]}) a o' ->
  inv (Sys w' (P ∖ {[a]})).
Proof.
  intros Ha Epr Hkind Eh Ew Es Ehp Hfr Hold Hok.
  destruct Hinv as [H1 H2 H3 H4 H5 H6 H7 H8]. cbn in *.
  assert (forall b x, <[a := o']> (heap w) !! b = Some x ->
    exists y, heap w !! b = Some y /\ obj_promises x = obj_promises y) as Hback.
  { intros b x Hb. destruct (decide (a = b)) as [<-|]; simplify_map_eq; eauto. }
  constructor; cbn; rewrite ?Eh, ?Ew, ?Es, ?Ehp; try done.
  - intros b ob Hb. destruct (decide (a = b)) as [<-|Hne]; simplify_map_eq; [done|].
    apply (obj_ok_ext w _ P); auto; [|set_solver|by rewrite Ew].
    intros f Hf. eapply (inv_others a b); done.
  - intros b [Hb Hne%not_elem_of_singleton]%elem_of_difference.
    rewrite lookup_insert_ne by done. auto.
  - intros b Hb. destruct (H4 b Hb) as [v Hv]. destruct (decide (a = b)) as [<-|Hne]; simplify_map_eq; [|eauto].
    destruct (Hkind v) as [v' ->]; eauto.
  - intros b c o1 o2 f (y & Hy & ->)%Hback (z & Hz & ->)%Hback. eauto.
  - destruct H6 as [Hnd H6]. split; [done|]. intros f Hf. destruct (H6 f Hf) as [Hwt Ho].
    split; [unfold waiting; rewrite Hold; eauto|].
    intros b x (y & Hy & ->)%Hback. eauto.
  - intros f Hf. destruct (decide (f ∈ obj_promises o)) as [Hin|Hin].
    + right. exists a, o'. rewrite lookup_insert_eq, Epr. done.
    + unfold waiting in Hf. rewrite Hold in Hf by done.
      destruct (H7 f Hf) as [?|(b & ob & Hb & Hin')]; [auto|].
      right. exists b, ob. split; [|done]. rewrite lookup_insert_ne; [done|congruence].
  - intros Hh. destruct (H8 Hh) as [-> ->]. set_solver.
Qed.

(** The state promises change, the objects do not. *)
Lemma inv_states l w' :
  handle w' = handle w -> watches w' = watches w -> heap w' = heap w ->
  state_promises w' = l -> fresh_futs w' -> NoDup l ->
  (forall a o f, heap w !! a = Some o -> f ∈ obj_promises o ->
     futs w' !! f = futs w !! f /\ f ∉ l) ->
  (forall f, waiting w' f <-> f ∈ l \/ (f ∉ state_promises w /\ waiting w f)) ->
  inv (Sys w' P).
Proof.
  intros Eh Ew Ehp Es Hfr Hnd Hobj Hwait.
  destruct Hinv as [H1 H2 H3 H4 H5 H6 H7 H8]. cbn in *.
  constructor; cbn; rewrite ?Eh, ?Ew, ?Es, ?Ehp; try done.
  - intros a o Ha. apply (obj_ok_ext w _ P); auto; [|by rewrite Ew].
    intros f Hf. by apply (Hobj a o f).
  - split; [done|]. intros f Hf. split; [apply Hwait; auto|].
    intros a o Ha Hin. by destruct (Hobj a o f Ha Hin).
  - intros f [Hf|[Hn Hf]]%Hwait; [auto|]. destruct (H7 f Hf) as [?|?]; [done|auto].
Qed.

End frames.

(** ** API calls *)

Section lifecycle.
Context `{!ZooConsts}.

(** The call into the C client each operation makes. *)
Definition request_of (c : api_call) : request :=
  match c with
  | CGet path => zoo_aget (with_str path)
  | CGetChildren path => zoo_aget_children2 (with_str path)
  | CExists path => zoo_aexists (with_str path)
  | CCreate path data rules mode =>
      zoo_acreate (with_str path) data (i32 (Z.of_nat (length data))) (with_acl rules) (i32 mode)
  | CSet path data check =>
      zoo_aset (with_str path) data (i32 (Z.of_nat (length data))) (sid_value check)
  | CErase path check => zoo_adelete (with_str path) (sid_value check)
  | CGetAcl path => zoo_aget_acl (with_str path)
  | CSetAcl path rules check => zoo_aset_acl (with_str path) (sid_value check) (with_acl rules)
  | CLoadFence => zoo_async "/"
  | CCommit txn => txn_request txn
  | CWatch path => zoo_awget (with_str path)
  | CWatchChildren path => zoo_awget_children2 (with_str path)
  | CWatchExists path => zoo_awexists (with_str path)
  end.

Definition watch_kind_of (c : api_call) : option watch_kind :=
  match c with
  | CWatch _ => Some WData
  | CWatchChildren _ => Some WChild
  | CWatchExists _ => Some WExists
  | _ => None
  end.

Definition is_commit (c : api_call) : bool :=
  match c with CCommit _ => true | _ => false end.

(** A call that sets no watch: one promise, held by a context the C client gets. *)
Lemma run_api_plain c a rc_in w :
  heap w !! a = None -> call_fits c -> watch_kind_of c = None ->
  exists o, obj_promises o = [next_fut w] /\ (forall v, o <> OWatcher v) /\
  run_api c a rc_in w =
    (if ok_rc rc_in || negb (is_commit c) then MOk (next_fut w)
     else MThrow (FutureError promise_already_satisfied),
     if ok_rc rc_in then after_launch a o (SState None true) (request_of c) w
     else after_refusal (SState (Some (refused rc_in)) true) (request_of c) w).
Proof.
  intros Ha Hfit Hk.
  destruct c; try discriminate Hk; cbn [run_api is_commit negb]; rewrite ?orb_true_r, ?orb_false_r.
  10: { destruct (commit_run txn a rc_in w Ha Hfit) as (c & _ & Hp & E). cbn zeta in E.
    exists (OCompleter c). cbn [obj_promises]. rewrite Hp. split_and!; [done..|]. rewrite E.
    unfold ok_rc. by destruct (_ =? _). }
  9: { eexists (OPromise KLoadFence _). split_and!; [done..|]. by apply load_fence_run. }
  all: eexists (OPromise _ _); split_and!; [done..|]; by apply async_op_run.
Qed.

Lemma run_api_watch c k a rc_in w :
  heap w !! a = None -> watch_kind_of c = Some k ->
  run_api c a rc_in w =
    (MOk (S (next_fut w)),
     if ok_rc rc_in then after_watch k a (request_of c) w
     else after_watch_refusal rc_in (request_of c) w).
Proof.
  intros Ha Hk. destruct c; try discriminate Hk; injection Hk as <-; by apply watch_op_run.
Qed.

(** ** The invariant is preserved *)

Lemma inv_step_watch c k a rc_in r w w' P :
  inv (Sys w P) -> heap w !! a = None -> watch_kind_of c = Some k ->
  (handle w = false -> ok_rc rc_in = false) ->
  run_api c a rc_in w = (r, w') ->
  inv (Sys w' (if ok_rc rc_in then P ∪ {[a]} else P)).
Proof.
  intros Hinv Ha Ek Hh E. pose proof (stable _ _ _ E (inv_fresh _ Hinv)) as [Hfr _].
  rewrite (run_api_watch c k a rc_in w Ha Ek) in E. injection E as _ <-.
  destruct (ok_rc rc_in) eqn:Erc.
  - eapply (inv_launch w P Hinv a _ _ Ha); cbn [after_watch handle watches state_promises heap];
      [| | |done|done|done|..]; cbn [futs after_watch].
    + destruct (handle w); [done|]. by specialize (Hh eq_refl).
    + set_solver.
    + intros b [Hb| ->%elem_of_singleton]%elem_of_union; [by left|right; eauto].
    + intros f Hf. by rewrite !lookup_insert_ne by lia.
    + intros f. cbn. rewrite !elem_of_cons, elem_of_nil. lia.
    + intros f Hle. unfold waiting; cbn. intros Hf.
      apply lookup_insert_Some in Hf as [[<- _]|[_ Hf]]; [set_solver|].
      apply lookup_insert_Some in Hf as [[<- _]|[_ Hf]]; [set_solver|].
      rewrite (inv_fresh _ Hinv) in Hf; [done|exact Hle].
    + cbn. unfold waiting; cbn. rewrite lookup_insert_eq, lookup_insert_ne, lookup_insert_eq by lia.
      split_and!; try done; set_solver.
  - eapply (inv_extend w P Hinv); [done..|cbn|].
    + intros f Hf. by rewrite !lookup_insert_ne by lia.
    + intros f Hle. unfold waiting; cbn. intros Hf.
      apply lookup_insert_Some in Hf as [[_ ?]|[_ Hf]]; [done|].
      apply lookup_insert_Some in Hf as [[_ ?]|[_ Hf]]; [done|].
      rewrite (inv_fresh _ Hinv) in Hf; [done|exact Hle].
Qed.

Lemma inv_step_plain c a rc_in r w w' P :
  inv (Sys w P) -> heap w !! a = None -> call_fits c -> watch_kind_of c = None ->
  (handle w = false -> ok_rc rc_in = false) ->
  run_api c a rc_in w = (r, w') ->
  inv (Sys w' (if ok_rc rc_in then P ∪ {[a]} else P)).
Proof.
  intros Hinv Ha Hfit Ek Hh E. pose proof (stable _ _ _ E (inv_fresh _ Hinv)) as [Hfr _].
  destruct (run_api_plain c a rc_in w Ha Hfit Ek) as (o & Ho & Hno & E').
  rewrite E' in E. injection E as _ <-. destruct (ok_rc rc_in) eqn:Erc.
  - eapply (inv_launch w P Hinv a o _ Ha); cbn [after_launch handle watches state_promises heap];
      [|done|by left|done|done|done|..]; cbn [futs after_launch].
    + destruct (handle w); [done|]. by specialize (Hh eq_refl).
    + intros f Hf. by rewrite lookup_insert_ne by lia.
    + rewrite Ho. intros f ->%list_elem_of_singleton. lia.
    + intros f Hle. unfold waiting; cbn. rewrite Ho. intros Hf.
      apply lookup_insert_Some in Hf as [[<- _]|[_ Hf]]; [set_solver|].
      rewrite (inv_fresh _ Hinv) in Hf; [done|exact Hle].
    + destruct o as [k p|v|cc]; [|by destruct (Hno v)|]; injection Ho as Ho;
        unfold obj_ok, waiting; cbn; rewrite Ho, lookup_insert_eq; (split; [set_solver|done]).
  - eapply (inv_extend w P Hinv); [done..|cbn|].
    + intros f Hf. by rewrite lookup_insert_ne by lia.
    + intros f Hle. unfold waiting; cbn. intros Hf.
      apply lookup_insert_Some in Hf as [[_ ?]|[_ Hf]]; [done|].
      rewrite (inv_fresh _ Hinv) in Hf; [done|exact Hle].
Qed.

(** ** Completions *)

(** A completion with arguments of the right type runs to its end, and the future of
    its context, or the data future of its watcher, has an outcome. *)
Definition data_promise (o : obj) : fut :=
  match o with
  | OPromise _ p => p
  | OWatcher v => w_data_promise v
  | OCompleter c => c_prom c
  end.

Definition completion_outcome (o : obj) (rc_in : Z) (p : payload) : option outcome :=
  match o with
  | OPromise k _ => callback k rc_in p
  | OWatcher v => fst <$> watch_outcome v rc_in p
  | OCompleter c =>
      match p with
      | PMulti rs => deliver_outcome (c_source_txn c) (error_code_from_raw rc_in) rs
      | _ => None
      end
  end.

Lemma payload_ok_outcome o rc_in p :
  payload_ok o p = true -> is_Some (completion_outcome o rc_in p).
Proof.
  destruct o as [k f|v|c]; cbn.
  - destruct k, p; cbn; try done; intros _; eauto.
  - unfold watch_outcome. destruct p, (w_kind v); cbn; try done; eauto.
  - destruct p; try done. intros Hlen%bool_decide_eq_true. unfold deliver_outcome.
    destruct (_ =? _); [|eauto]. destruct (collect_parts_ok _ _ Hlen) as (ps & -> & _). eauto.
Qed.

Lemma inv_settled a o p out w P :
  inv (Sys w P) -> heap w !! a = Some o -> obj_promises o = [p] -> (forall v, o <> OWatcher v) ->
  fresh_futs (settled a p (SState (Some out) true) w) ->
  inv (Sys (settled a p (SState (Some out) true) w) (P ∖ {[a]})).
Proof.
  intros Hinv Ha Ho Hno Hfr.
  eapply (inv_retire w P Hinv a _ _ Ha); [done| |done|done|done|cbn; rewrite Ho..].
  - cbn. assert (a ∉ watches w); [|set_solver].
    intros [v Hv]%(inv_watches _ Hinv). cbn in Hv. apply (Hno v). congruence.
  - intros g Hg. rewrite lookup_insert_ne; [done|set_solver].
  - intros g ->%list_elem_of_singleton. unfold waiting; cbn. by rewrite lookup_insert_eq.
Qed.

Lemma completion_run a o rc_in p out w P :
  inv (Sys w P) -> a ∈ P -> heap w !! a = Some o -> completion_outcome o rc_in p = Some out ->
  exists w', on_completion a rc_in p w = (MOk tt, w') /\ inv (Sys w' (P ∖ {[a]})) /\
    futs w' !! data_promise o = Some (SState (Some out) true) /\
    (forall b, b <> a -> heap w' !! b = heap w !! b) /\
    (forall v, o = OWatcher v -> heap w' !! a = Some (OWatcher (data_done v))) /\
    handle w' = handle w /\ state_promises w' = state_promises w /\
    (forall g x r, g <> data_promise o -> futs w' !! g = Some (SState (Some x) r) ->
       futs w !! g = Some (SState (Some x) r)).
Proof.
  intros Hinv HP Ha Hout. pose proof (inv_obj _ Hinv _ _ Ha) as Hok. cbn in Hok.
  destruct o as [k f|v|c]; cbn [completion_outcome data_promise] in *.
  - destruct Hok as [_ Hf].
    pose proof (promise_completion_run _ _ _ _ _ _ _ _ Ha Hout Hf) as E.
    pose proof (stable _ _ _ E (inv_fresh _ Hinv)) as [Hfr _].
    eexists; split_and!; [exact E|by eapply inv_settled|cbn; by rewrite lookup_insert_eq| |done..|].
    + intros b Hb. cbn. by rewrite lookup_delete_ne.
    + intros g x r Hg. cbn. by rewrite lookup_insert_ne.
  - destruct Hok as (Hw & He & Hne & Hok). destruct (w_data_delivered v) eqn:Ed; [tauto|].
    destruct Hok as (_ & Hd & Hev).
    destruct (watch_outcome v rc_in p) as [[out' taken]|] eqn:Eo; [|done]. injection Hout as <-.
    pose proof (watcher_completion_run _ _ _ _ _ _ _ Ha Ed Hne Hd Hev Eo) as E.
    eexists; split_and!;
      [exact E| |cbn; by rewrite lookup_insert_eq|intros b Hb; cbn; by rewrite lookup_insert_ne
      |intros v0 [= <-]; cbn; by rewrite lookup_insert_eq|done|done|].
    2: { intros g x r Hg. cbn. rewrite lookup_insert_ne by done.
      destruct (decide (g = w_event_promise v)) as [->|]; [by rewrite lookup_insert_eq|by rewrite lookup_insert_ne]. }
    pose proof (stable _ _ _ E (inv_fresh _ Hinv)) as [Hfr _].
    eapply (inv_progress w P Hinv a _ (OWatcher (data_done v)) _ Ha);
      [done|by eauto|done|done|done|done|done|..].
    + intros g Hg. cbn in *. rewrite !lookup_insert_ne; set_solver.
    + cbn. split_and!; try done; [set_solver|rewrite lookup_insert_eq; eauto|].
      rewrite lookup_insert_ne, lookup_insert_eq by done. eauto.
  - destruct Hok as [_ Hf]. destruct p; try done.
    pose proof (commit_completion_run _ _ _ _ _ _ _ Ha Hout Hf) as E.
    pose proof (stable _ _ _ E (inv_fresh _ Hinv)) as [Hfr _].
    eexists; split_and!; [exact E|by eapply inv_settled|cbn; by rewrite lookup_insert_eq| |done..|].
    + intros b Hb. cbn. by rewrite lookup_delete_ne.
    + intros g x r Hg. cbn. by rewrite lookup_insert_ne.
Qed.

(** ** Notifications *)

(** The watcher at an address in [_watches] that owes no completion. *)
Lemma inv_awaits w P a :
  inv (Sys w P) -> a ∈ watches w -> a ∉ P ->
  exists v, heap w !! a = Some (OWatcher v) /\ awaits_event w v.
Proof.
  intros Hinv Hw HP. destruct (inv_watches _ Hinv a Hw) as [v Hv]. cbn in Hv.
  exists v. split; [done|]. destruct (inv_obj _ Hinv _ _ Hv) as (_ & He & Hne & Hok). cbn in *.
  unfold awaits_event. destruct (w_data_delivered v); [|tauto].
  destruct Hok as (_ & [x Hx] & Hr). eauto 10.
Qed.

Lemma notify_run a type_in state_in w P :
  inv (Sys w P) -> a ∉ P ->
  exists w', deliver_watch type_in state_in a w = (MOk tt, w') /\ inv (Sys w' P) /\
    (forall v r, a ∈ watches w -> heap w !! a = Some (OWatcher v) ->
      futs w !! w_event_promise v = Some (SState None r) ->
      futs w' !! w_event_promise v
      = Some (SState (Some (Value (VEvent (raw_event type_in state_in)))) r)) /\
    (w' = w /\ a ∉ watches w \/
     exists v r, a ∈ watches w /\ heap w !! a = Some (OWatcher v) /\
       futs w !! w_event_promise v = Some (SState None r) /\
       w' = set_watches (watches w ∖ {[a]}) (settled a (w_event_promise v)
              (SState (Some (Value (VEvent (raw_event type_in state_in)))) r) w)).
Proof.
  intros Hinv HP. destruct (decide (a ∈ watches w)) as [Hw|Hw].
  2: { exists w. rewrite deliver_watch_unknown by done. split_and!; auto. done. }
  destruct (inv_awaits w P a Hinv Hw HP) as (v & Hv & Hd & He & Hne & (r & Hr) & x & r' & Hx).
  pose proof (deliver_watch_run type_in state_in a v x r r' w Hw Hv Hd He Hne Hr Hx) as E.
  pose proof (stable _ _ _ E (inv_fresh _ Hinv)) as [Hfr _].
  eexists; split_and!; [exact E| | |].
  - replace P with (P ∖ {[a]}) by set_solver.
    eapply (inv_retire w P Hinv a _ _ Hv); [done..| |].
    + intros g Hg. cbn in *. rewrite lookup_insert_ne; set_solver.
    + intros g Hg. unfold waiting. cbn in *. destruct (decide (g = w_event_promise v)) as [->|].
      * by rewrite lookup_insert_eq.
      * rewrite lookup_insert_ne by done. assert (g = w_data_promise v) as -> by set_solver. congruence.
  - intros u r0 _ Hu Hr0. assert (u = v) as -> by congruence. cbn.
    rewrite lookup_insert_eq. congruence.
  - right. exists v, r. by split_and!.
Qed.

(** ** Session events *)

Lemma waiting_state w P f : inv (Sys w P) -> f ∈ state_promises w -> waiting w f.
Proof. intros Hinv Hf. destruct (inv_state _ Hinv) as [_ Hst]. by apply (Hst f Hf). Qed.

Lemma inv_state_nodup w P : inv (Sys w P) -> NoDup (state_promises w).
Proof. intros Hinv. by destruct (inv_state _ Hinv). Qed.

Lemma inv_not_state w P a o f :
  inv (Sys w P) -> heap w !! a = Some o -> f ∈ obj_promises o -> f ∉ state_promises w.
Proof.
  intros Hinv Ha Hf Hin. destruct (inv_state _ Hinv) as [_ Hst].
  destruct (Hst f Hin) as [_ Hn]. by destruct (Hn a o Ha).
Qed.

Lemma session_run st w P :
  inv (Sys w P) ->
  exists w', on_session_event st w = (MOk tt, w') /\ inv (Sys w' P) /\
    state_promises w' = [] /\
    (forall f, f ∈ state_promises w ->
       futs w' !! f = Some (SState (Some (session_event_outcome st)) true)) /\
    (forall f, f ∉ state_promises w -> futs w' !! f = futs w !! f).
Proof.
  intros Hinv.
  destruct (on_session_event_run st w (inv_state_nodup _ _ Hinv)) as (m & E & Hout & Hin).
  { intros f Hf. exists true. by apply (waiting_state w P). }
  assert (forall f, f ∈ state_promises w ->
    m !! f = Some (SState (Some (session_event_outcome st)) true)) as Hst.
  { intros f Hf. apply Hin; [done|]. by apply (waiting_state w P). }
  eexists; split_and!; [exact E| |done|exact Hst|exact Hout].
  apply (inv_states w P Hinv []); try done; [|constructor|..].
  - intros f Hle. cbn in *. pose proof (inv_fresh _ Hinv f Hle) as Hn. cbn in Hn.
    rewrite Hout; [done|]. intros Hf%(waiting_state w P f Hinv). unfold waiting in Hf. congruence.
  - intros a o f Ha Hf. split; [|set_solver]. cbn. apply Hout. by eapply inv_not_state.
  - intros f. unfold waiting; cbn. destruct (decide (f ∈ state_promises w)) as [Hf|Hf].
    + rewrite Hst by done. set_solver.
    + rewrite Hout by done. set_solver.
Qed.

Lemma watch_state_run w P :
  inv (Sys w P) ->
  exists w', watch_state w = (MOk (next_fut w), w') /\ inv (Sys w' P) /\
    state_promises w' = state_promises w ++ [next_fut w] /\ waiting w' (next_fut w).
Proof.
  intros Hinv.
  pose proof (watch_state_eq w) as E.
  pose proof (stable _ _ _ E (inv_fresh _ Hinv)) as [Hfr _].
  eexists; split_and!; [exact E| |done|unfold waiting; cbn; by rewrite lookup_insert_eq].
  assert (next_fut w ∉ state_promises w) as Hn.
  { intros Hf%(inv_state_lt w P Hinv). lia. }
  apply (inv_states w P Hinv (state_promises w ++ [next_fut w])); try done.
  - apply NoDup_app. split_and!; [by apply (inv_state_nodup w P)|set_solver|apply NoDup_singleton].
  - intros a o f Ha Hf. pose proof (inv_promise_lt w P Hinv _ _ _ Ha Hf). cbn.
    rewrite lookup_insert_ne by lia. split; [done|].
    intros [Hin|Hin%list_elem_of_singleton]%elem_of_app; [by eapply inv_not_state|lia].
  - intros f. unfold waiting; cbn. destruct (decide (next_fut w = f)) as [<-|Hne].
    + rewrite lookup_insert_eq. set_solver.
    + rewrite lookup_insert_ne by done. split.
      * intros Hf. destruct (decide (f ∈ state_promises w)); set_solver.
      * intros [[Hf|Hf%list_elem_of_singleton]%elem_of_app|[_ Hf]]; [|done|done].
        by apply (waiting_state w P).
Qed.

(** ** Close *)

(** With no completion outstanding, every live object is a registered watcher. *)
Lemma inv_quiet w a o :
  inv (Sys w ∅) -> heap w !! a = Some o -> a ∈ watches w /\ exists v, o = OWatcher v.
Proof.
  intros Hinv Ha. pose proof (inv_obj _ Hinv _ _ Ha) as Hok. cbn in Hok.
  destruct o as [k p|v|c]; cbn in Hok; [set_solver| |set_solver].
  split; [by destruct Hok|eauto].
Qed.

Lemma close_ok_run rc w :
  inv (Sys w ∅) -> handle w = true -> ok_rc rc = true ->
  exists m, close rc w = (MOk tt, World false ∅ (state_promises w) ∅ m (next_fut w) (sent w)) /\
    (forall a v r, heap w !! a = Some (OWatcher v) ->
       futs w !! w_event_promise v = Some (SState None r) ->
       m !! w_event_promise v = Some (SState (Some (Value (VEvent closed_event))) r)) /\
    (forall f, (forall a v, heap w !! a = Some (OWatcher v) -> f <> w_event_promise v) ->
       m !! f = futs w !! f).
Proof.
  intros Hinv Hh Hrc.
  destruct (close_run rc w Hh Hrc) as (h & m & E & Hdel & Hrest & Hev & Hout).
  { intros a Ha. by apply (inv_awaits w ∅). }
  { intros a b v v' f Ha Hb. by apply (inv_disjoint _ Hinv a b _ _ f). }
  exists m. assert (h = ∅) as ->.
  { apply map_empty. intros a. destruct (decide (a ∈ watches w)) as [Hw|Hw]; [auto|].
    rewrite Hrest by done. destruct (heap w !! a) as [o|] eqn:Ha; [|done].
    by destruct (inv_quiet w a o Hinv Ha). }
  split_and!; [exact E|..].
  - intros a v r Ha. apply (Hev a v r); [|done]. by apply (inv_quiet w a (OWatcher v)).
  - intros f Hf. apply Hout. intros a v _. apply Hf.
Qed.

(** After [close] only the futures of state watches can wait. *)
Lemma close_waiting w (m : gmap fut sstate) f :
  inv (Sys w ∅) ->
  (forall a v r, heap w !! a = Some (OWatcher v) ->
     futs w !! w_event_promise v = Some (SState None r) ->
     m !! w_event_promise v = Some (SState (Some (Value (VEvent closed_event))) r)) ->
  (forall f, (forall a v, heap w !! a = Some (OWatcher v) -> f <> w_event_promise v) ->
     m !! f = futs w !! f) ->
  m !! f = Some (SState None true) <-> f ∈ state_promises w.
Proof.
  intros Hinv Hev Hout.
  assert (forall a v, heap w !! a = Some (OWatcher v) -> exists r,
    futs w !! w_event_promise v = Some (SState None r)) as Haw.
  { intros a v Ha. destruct (inv_quiet w a _ Hinv Ha) as [Hw _].
    destruct (inv_awaits w ∅ a Hinv Hw) as (u & Hu & _ & _ & _ & Hr & _); [set_solver|].
    by replace v with u by congruence. }
  split.
  - intros Hf. assert (waiting w f) as Hwf.
    { unfold waiting. rewrite <- Hout; [done|]. intros a v Ha ->. destruct (Haw a v Ha) as [r Hr].
      rewrite (Hev a v r Ha Hr) in Hf. done. }
    destruct (inv_owned _ Hinv f Hwf) as [?|(a & o & Ha & Hin)]; [done|].
    destruct (inv_quiet w a o Hinv Ha) as [Hw [v ->]]. unfold waiting in Hwf. cbn in *.
    destruct (inv_awaits w ∅ a Hinv Hw) as (u & Hu & _ & _ & _ & [r Hr] & x & r' & Hx); [set_solver|].
    replace u with v in * by congruence. exfalso.
    apply elem_of_cons in Hin as [->|Hin%list_elem_of_singleton].
    + by rewrite (Hev a v r Ha Hr) in Hf.
    + subst f. congruence.
  - intros Hf. rewrite Hout; [by apply (waiting_state w ∅)|]. intros a v Ha ->.
    eapply (inv_not_state w ∅ a); [done|done| |done]. left.
Qed.

Lemma inv_step_close rc r w w' P :
  inv (Sys w P) -> (ok_rc rc = true -> P = ∅) -> close rc w = (r, w') -> inv (Sys w' P).
Proof.
  intros Hinv HP E. destruct (handle w) eqn:Hh.
  2: { unfold close, mseq, mget in E. rewrite Hh in E. by injection E as _ <-. }
  destruct (ok_rc rc) eqn:Hrc.
  2: { unfold close, mseq, mget in E. unfold ok_rc in Hrc. rewrite Hh, Hrc in E. by injection E as _ <-. }
  rewrite (HP eq_refl) in *. pose proof (stable _ _ _ E (inv_fresh _ Hinv)) as [Hfr _].
  destruct (close_ok_run rc w Hinv Hh Hrc) as (m & E' & Hev & Hout).
  rewrite E' in E. injection E as _ <-.
  pose proof (fun f => close_waiting w m f Hinv Hev Hout) as Hwait.
  constructor; cbn; try done.
  - split; [by apply (inv_state_nodup w ∅)|]. intros f Hf. split; [by apply Hwait|done].
  - intros f Hf. left. by apply Hwait.
Qed.

(** ** Reachable states *)

Lemma inv_initial : inv initial.
Proof. constructor; cbn; try done; try set_solver. split; [constructor|set_solver]. Qed.

Lemma inv_step s s' : inv s -> step s s' -> inv s'.
Proof.
  intros Hinv Hstep; destruct Hstep as [c a rc_in r w w' P Ha Hfit Hh E
    |a rc_in p o r w w' P HP Ha Hp E|a t st r w w' P HP E|t st r w w' P E|r w w' P E|rc r w w' P HP E].
  - destruct (watch_kind_of c) as [k|] eqn:Ek.
    + by apply (inv_step_watch c k a rc_in r w).
    + by apply (inv_step_plain c a rc_in r w).
  - destruct (payload_ok_outcome o rc_in p Hp) as [out Hout].
    destruct (completion_run a o rc_in p out w P Hinv HP Ha Hout) as (w1 & E' & Hi & _). congruence.
  - destruct (notify_run a t st w P Hinv HP) as (w1 & E' & Hi & _). congruence.
  - unfold on_session_event_raw in E. destruct (negb _); [by injection E as _ <-|].
    destruct (session_run (state_from_raw st) w P Hinv) as (w1 & E' & Hi & _). congruence.
  - destruct (watch_state_run w P Hinv) as (w1 & E' & Hi & _). congruence.
  - by eapply inv_step_close.
Qed.

Lemma inv_reachable s : reachable s -> inv s.
Proof.
  unfold reachable. intros Hs. pattern s. revert s Hs. apply rtc_ind_r.
  - apply inv_initial.
  - intros s s' _ Hstep Hinv. by apply (inv_step s).
Qed.

(** * Properties *)

(** C2: no future is lost: a future that still waits in a reachable state is a state
    watch, or the data future of a call whose completion is outstanding, or the
    event future of a watcher that is registered and has its data. *)
Theorem no_lost_future w P f :
  reachable (Sys w P) -> waiting w f ->
  f ∈ state_promises w \/
  (exists a o, a ∈ P /\ heap w !! a = Some o /\ f = data_promise o) \/
  (exists a v, a ∈ watches w /\ a ∉ P /\ heap w !! a = Some (OWatcher v) /\
     w_data_delivered v = true /\ f = w_event_promise v).
Proof.
  intros Hinv%inv_reachable Hf. destruct (inv_owned _ Hinv f Hf) as [?|(a & o & Ha & Hin)]; [by left|].
  right. pose proof (inv_obj _ Hinv _ _ Ha) as Hok. cbn in Ha, Hok. destruct o as [k p|v|c].
  - left. exists a, (OPromise k p). destruct Hok. apply list_elem_of_singleton in Hin as ->. done.
  - destruct Hok as (Hw & _ & _ & Hok). unfold waiting in *. cbn in *.
    destruct (w_data_delivered v) eqn:Ed; destruct Hok as (HP & H1 & H2);
      apply elem_of_cons in Hin as [->|Hin%list_elem_of_singleton]; subst; try congruence.
    + right. eauto 10.
    + destruct H1 as [x Hx]. congruence.
    + left. exists a, (OWatcher v). done.
  - left. exists a, (OCompleter c). destruct Hok. apply list_elem_of_singleton in Hin as ->. done.
Qed.

(** C4: a successful [close] settles everything: every event future that waits gets
    the session event with state [closed], no other future changes, all watchers are
    deleted, and the only futures that still wait are those of state watches. *)
Theorem close_settles_watches w rc :
  reachable (Sys w ∅) -> handle w = true -> ok_rc rc = true ->
  exists w', close rc w = (MOk tt, w') /\
    handle w' = false /\ watches w' = ∅ /\ heap w' = ∅ /\ sent w' = sent w /\
    (forall a v r, heap w !! a = Some (OWatcher v) ->
       futs w !! w_event_promise v = Some (SState None r) ->
       futs w' !! w_event_promise v = Some (SState (Some (Value (VEvent closed_event))) r)) /\
    (forall f, (forall a v, heap w !! a = Some (OWatcher v) -> f <> w_event_promise v) ->
       futs w' !! f = futs w !! f) /\
    (forall f, waiting w' f <-> f ∈ state_promises w').
Proof.
  intros Hinv%inv_reachable Hh Hrc.
  destruct (close_ok_run rc w Hinv Hh Hrc) as (m & E & Hev & Hout).
  eexists; split_and!; [exact E|done..|exact Hev|exact Hout|].
  intros f. by apply (close_waiting w m f Hinv).
Qed.

(** C26: an operation the C client refuses sends its request once, leaves no object
    and no watch behind, and reports the error through the future it returns, which
    is already satisfied. ([commit] is the exception.) *)
Theorem api_refused c a rc_in w :
  heap w !! a = None -> call_fits c -> is_commit c = false -> ok_rc rc_in = false ->
  exists f w', run_api c a rc_in w = (MOk f, w') /\
    futs w' !! f = Some (SState (Some (refused rc_in)) true) /\
    heap w' = heap w /\ watches w' = watches w /\ state_promises w' = state_promises w /\
    sent w' = sent w ++ [request_of c].
Proof.
  intros Ha Hfit Hc Hrc. destruct (watch_kind_of c) as [k|] eqn:Ek.
  - pose proof (run_api_watch c k a rc_in w Ha Ek) as E. rewrite Hrc in E.
    eexists _, _; split_and!; [exact E|cbn; by rewrite lookup_insert_eq|done..].
  - destruct (run_api_plain c a rc_in w Ha Hfit Ek) as (o & _ & _ & E).
    rewrite Hrc, Hc in E.
    eexists _, _; split_and!; [exact E|cbn; by rewrite lookup_insert_eq|done..].
Qed.

(** An operation the C client accepts sends its request once and returns a
    fresh future that waits, owned by the context given to the C client. *)
Theorem api_accepted c a rc_in w P :
  reachable (Sys w P) ->
  heap w !! a = None -> call_fits c -> ok_rc rc_in = true ->
  exists f o w', run_api c a rc_in w = (MOk f, w') /\
    futs w !! f = None /\ waiting w' f /\ heap w' = <[a := o]> (heap w) /\
    data_promise o = f /\ (is_Some (watch_kind_of c) <-> a ∈ watches w') /\
    sent w' = sent w ++ [request_of c].
Proof.
  intros Hinv%inv_reachable Ha Hfit Hrc.
  assert (a ∉ watches w) as Hnw.
  { intros [v Hv]%(inv_watches _ Hinv). cbn in Hv. congruence. }
  destruct (watch_kind_of c) as [k|] eqn:Ek.
  - pose proof (run_api_watch c k a rc_in w Ha Ek) as E. rewrite Hrc in E.
    eexists _, _, _; split_and!; [exact E|..|done|done| |done].
    + apply (inv_fresh _ Hinv). cbn; lia.
    + unfold waiting; cbn. by rewrite lookup_insert_eq.
    + cbn. split; [set_solver|by eauto].
  - destruct (run_api_plain c a rc_in w Ha Hfit Ek) as (o & Ho & Hno & E).
    rewrite Hrc in E. eexists _, o, _; split_and!; [exact E|..|done| | |done].
    + apply (inv_fresh _ Hinv). cbn; lia.
    + unfold waiting; cbn. by rewrite lookup_insert_eq.
    + destruct o as [k p|v|cc]; [|by destruct (Hno v)|]; by injection Ho.
    + cbn. split; [intros [? [=]]|done].
Qed.

(** The exception a state change is reported with, if it is an error. *)
Lemma session_event_outcome_cases st :
  (st = state.expired_session -> exists e, session_event_outcome st = Exception (ZkError e) /\
     err_class e = session_expired /\ err_code e = error_code.session_expired) /\
  (st = state.authentication_failed -> exists e, session_event_outcome st = Exception (ZkError e) /\
     err_class e = authentication_failed /\ err_code e = error_code.authentication_failed) /\
  (st <> state.expired_session -> st <> state.authentication_failed ->
     session_event_outcome st = Value (VState st)).
Proof.
  unfold session_event_outcome. split_and!.
  - intros ->. by eexists.
  - intros ->. by eexists.
  - intros H1 H2. by rewrite !(proj2 (Z.eqb_neq _ _)).
Qed.

(** C27: a session event reaches every state watch registered before it, and only
    those: an expired session and failed authentication as exceptions of these classes,
    every other state as its value; the list is emptied, so each watch fires once. *)
Theorem session_event_delivered w P ev_type state_in :
  reachable (Sys w P) -> event_from_raw ev_type = event_type.session ->
  exists w' out, on_session_event_raw ev_type state_in w = (MOk tt, w') /\
    state_promises w' = [] /\
    (forall f, f ∈ state_promises w -> futs w' !! f = Some (SState (Some out) true)) /\
    (forall f, f ∉ state_promises w -> futs w' !! f = futs w !! f) /\
    let st := state_from_raw state_in in
    (st = state.expired_session -> exists e, out = Exception (ZkError e) /\
       err_class e = session_expired /\ err_code e = error_code.session_expired) /\
    (st = state.authentication_failed -> exists e, out = Exception (ZkError e) /\
       err_class e = authentication_failed /\ err_code e = error_code.authentication_failed) /\
    (st <> state.expired_session -> st <> state.authentication_failed -> out = Value (VState st)).
Proof.
  intros Hinv%inv_reachable He. unfold on_session_event_raw. rewrite He, Z.eqb_refl.
  destruct (session_run (state_from_raw state_in) w P Hinv) as (w' & E & _ & Hnil & Hin & Hout).
  exists w', (session_event_outcome (state_from_raw state_in)).
  split_and!; try done; apply session_event_outcome_cases.
Qed.

(** C25: the life of a watch from end to end: the call is accepted, its completion
    brings data, a notification follows. The future of the call holds the data and
    the future of the event; that future holds the event; the watcher is gone and
    the connection is as before, the request and the two futures apart. *)
Theorem watch_end_to_end w P path a rc1 rc2 data st type_in state_in :
  reachable (Sys w P) -> heap w !! a = None -> ok_rc rc1 = true -> ok_rc rc2 = true ->
  exists d e w1 w2 w3,
    watch path a rc1 w = (MOk d, w1) /\
    on_completion a rc2 (PData data st) w1 = (MOk tt, w2) /\
    deliver_watch type_in state_in a w2 = (MOk tt, w3) /\
    futs w3 !! d = Some (SState (Some (Value (VWatch
      (WatchResult (GetResult data (stat_from_raw st)) e)))) true) /\
    futs w3 !! e = Some (SState (Some (Value (VEvent (raw_event type_in state_in)))) true) /\
    heap w3 = heap w /\ watches w3 = watches w /\ sent w3 = sent w ++ [zoo_awget (with_str path)].
Proof.
  intros Hinv%inv_reachable Ha H1 H2.
  assert (a ∉ watches w) as Hnw.
  { intros [v Hv]%(inv_watches _ Hinv). cbn in Hv. congruence. }
  exists (S (next_fut w)), (next_fut w).
  pose proof (watch_op_run WData (zoo_awget (with_str path)) a rc1 w Ha) as E1. rewrite H1 in E1.
  set (v := Watcher WData false (next_fut w) false (S (next_fut w))).
  set (out := Value (VWatch (WatchResult (GetResult data (stat_from_raw st)) (next_fut w)))).
  assert (forall w1, w1 = after_watch WData a (zoo_awget (with_str path)) w ->
    on_completion a rc2 (PData data st) w1 = (MOk tt, after_data a v out true w1)) as E2.
  { intros w1 ->. apply watcher_completion_run; cbn; rewrite ?lookup_insert_eq; try done.
    - by rewrite lookup_insert_ne, lookup_insert_eq by lia.
    - unfold watch_outcome. cbn. by rewrite H2. }
  eexists _, _, _; split_and!; [exact E1|by apply E2|..].
  - eapply (deliver_watch_run type_in state_in a (data_done v)); cbn;
      rewrite ?lookup_insert_eq, ?lookup_insert_ne, ?lookup_insert_eq by lia; try done; set_solver.
  - cbn. rewrite lookup_insert_ne, lookup_insert_eq by lia. done.
  - cbn. by rewrite lookup_insert_eq.
  - cbn. by rewrite insert_insert_eq, delete_insert_id.
  - cbn. set_solver.
  - done.
Qed.

End lifecycle.

(** * A concrete run

    A watch and a read are accepted, a state watch is registered, then both calls
    complete. *)

Section example.
#[local] Existing Instance zookeeper_3_5.

Definition busy_world : world :=
  (watch_state (run_api (CGet "/b") 2%positive 0
    (run_api (CWatch "/a") 1%positive 0 (conn initial)).2).2).2.
Definition busy : sys := Sys busy_world (∅ ∪ {[1%positive]} ∪ {[2%positive]}).

Definition quiet_world : world :=
  (on_completion 2%positive (-101) (PData [] no_raw_stat)
    (on_completion 1%positive 0 (PData "x" no_raw_stat) busy_world).2).2.
Definition quiet : sys := Sys quiet_world ∅.

Lemma busy_reachable : reachable busy.
Proof.
  unfold reachable, busy, busy_world.
  eapply rtc_l; [eapply (step_api (CWatch "/a") 1%positive 0); [done..|apply surjective_pairing]|].
  eapply rtc_l; [eapply (step_api (CGet "/b") 2%positive 0); [done..|apply surjective_pairing]|].
  eapply rtc_l; [eapply step_watch_state; apply surjective_pairing|]. apply rtc_refl.
Qed.

Lemma busy_to_quiet : rtc step busy quiet.
Proof.
  unfold quiet, quiet_world. replace (∅ : gset addr)
    with ((∅ ∪ {[1%positive]} ∪ {[2%positive]}) ∖ {[1%positive]} ∖ {[2%positive]} : gset addr)
    by set_solver.
  eapply rtc_l; [eapply (step_complete 1%positive 0 (PData "x" no_raw_stat));
    [set_solver|done|done|apply surjective_pairing]|].
  eapply rtc_l; [eapply (step_complete 2%positive (-101) (PData [] no_raw_stat));
    [set_solver|done|done|apply surjective_pairing]|]. apply rtc_refl.
Qed.

Lemma quiet_reachable : reachable quiet.
Proof. unfold reachable. etrans; [apply busy_reachable|apply busy_to_quiet]. Qed.

Lemma no_lost_future_witness :
  waiting busy_world 1 /\
  (1%nat ∈ state_promises busy_world \/
   (exists a o, a ∈ pending busy /\ heap busy_world !! a = Some o /\ 1%nat = data_promise o) \/
   (exists a v, a ∈ watches busy_world /\ a ∉ pending busy /\
      heap busy_world !! a = Some (OWatcher v) /\
      w_data_delivered v = true /\ 1%nat = w_event_promise v)).
Proof.
  split; [reflexivity|].
  apply (no_lost_future busy_world (∅ ∪ {[1%positive]} ∪ {[2%positive]}) 1);
    [apply busy_reachable|reflexivity].
Defined.

Lemma close_settles_watches_witness :
  waiting quiet_world 0 /\
  exists w', close 0 quiet_world = (MOk tt, w') /\
    futs w' !! 0%nat = Some (SState (Some (Value (VEvent closed_event))) true).
Proof.
  split; [reflexivity|].
  destruct (close_settles_watches quiet_world 0 quiet_reachable) as (w' & E & _ & _ & _ & _ & H & _);
    [reflexivity|reflexivity|].
  exists w'; split; [exact E|].
  apply (H 1%positive (Watcher WData false 0 true 1) true); reflexivity.
Defined.

Lemma api_refused_witness :
  exists f w', run_api (CWatchExists "/c") 3%positive (-8) busy_world = (MOk f, w') /\
    futs w' !! f = Some (SState (Some (refused (-8))) true).
Proof.
  destruct (api_refused (CWatchExists "/c") 3%positive (-8) busy_world)
    as (f & w' & E & Hf & _); [reflexivity|exact I|reflexivity|reflexivity|].
  exists f, w'. split; [exact E|exact Hf].
Defined.

Lemma api_accepted_witness :
  exists f o w', run_api (CErase "/c" version_any) 3%positive 0 busy_world = (MOk f, w') /\
    waiting w' f /\ data_promise o = f.
Proof.
  destruct (api_accepted (CErase "/c" version_any) 3%positive 0 busy_world (pending busy)
    busy_reachable) as (f & o & w' & E & _ & Hf & _ & Ho & _);
    [reflexivity|exact I|reflexivity|].
  exists f, o, w'. split_and!; [exact E|exact Hf|exact Ho].
Defined.

Lemma session_event_delivered_witness :
  3%nat ∈ state_promises busy_world /\
  exists w' e, on_session_event_raw (-1) (-113) busy_world = (MOk tt, w') /\
    futs w' !! 3%nat = Some (SState (Some (Exception (ZkError e))) true) /\
    err_class e = authentication_failed.
Proof.
  split; [left|].
  destruct (session_event_delivered busy_world (pending busy) (-1) (-113) busy_reachable)
    as (w' & out & E & _ & Hf & _ & _ & Ha & _); [reflexivity|].
  destruct Ha as (e & -> & Hc & _); [reflexivity|].
  exists w', e. split_and!; [exact E|apply Hf; left|exact Hc].
Defined.

Lemma watch_end_to_end_witness :
  exists d e w1 w2 w3,
    watch "/w" 5%positive 0 quiet_world = (MOk d, w1) /\
    on_completion 5%positive 0 (PData "v" no_raw_stat) w1 = (MOk tt, w2) /\
    deliver_watch 3 3 5%positive w2 = (MOk tt, w3) /\
    futs w3 !! e = Some (SState (Some (Value (VEvent (raw_event 3 3)))) true).
Proof.
  destruct (watch_end_to_end quiet_world ∅ "/w" 5%positive 0 0 "v" no_raw_stat 3 3 quiet_reachable)
    as (d & e & w1 & w2 & w3 & E1 & E2 & E3 & _ & He & _); [reflexivity|reflexivity|reflexivity|].
  exists d, e, w1, w2, w3. split_and!; [exact E1|exact E2|exact E3|exact He].
Defined.

End example.
