(* ===== verification/Outcomes.v ===== *)
(** * Outcomes: where the outcome of a future comes from

    Every outcome in the shared state of a future was stored by one action: the
    completion of the call the future belongs to, the notification of the watcher it is
    the event of, a session event, [close], or the refusal of the call that made it.
    This determines what a caller can find in a future, in particular that it is never
    the [broken_promise] of a promise that was deleted without being satisfied. *)

From S2P Require Import Prelude Text OrdMap Types Error Acl Native Results Multi World.
From S2P Require Import ConnectionZk Commit Runs Protocol Lifecycle.
Local Open Scope Z_scope.

Section outcomes.
Context `{!ZooConsts}.

(** What stored the outcome of the future [f], if it got one between the states. *)
Inductive stored_by (s s' : sys) (f : fut) : outcome -> Prop :=
| by_completion a o rc_in p out :
    a ∈ pending s -> pending s' = pending s ∖ {[a]} ->
    heap (conn s) !! a = Some o -> payload_ok o p = true -> f = data_promise o ->
    completion_outcome o rc_in p = Some out -> waiting (conn s) f ->
    stored_by s s' f out
| by_notification a v type_in state_in :
    a ∈ watches (conn s) -> a ∉ pending s -> heap (conn s) !! a = Some (OWatcher v) ->
    f = w_event_promise v -> watches (conn s') = watches (conn s) ∖ {[a]} ->
    stored_by s s' f (Value (VEvent (raw_event type_in state_in)))
| by_session_event st :
    f ∈ state_promises (conn s) -> state_promises (conn s') = [] ->
    stored_by s s' f (session_event_outcome st)
| by_close a v :
    heap (conn s) !! a = Some (OWatcher v) -> f = w_event_promise v ->
    handle (conn s) = true -> handle (conn s') = false ->
    stored_by s s' f (Value (VEvent closed_event))
| by_refusal rc_in :
    futs (conn s) !! f = None -> ok_rc rc_in = false ->
    futs (conn s') !! f = Some (SState (Some (refused rc_in)) true) ->
    stored_by s s' f (refused rc_in)
| by_refused_watch :
    futs (conn s) !! f = None ->
    futs (conn s') !! f = Some (SState (Some (Exception (FutureError broken_promise))) false) ->
    stored_by s s' f (Exception (FutureError broken_promise)).

Definition holds (s : sys) (f : fut) (o : outcome) (r : bool) : Prop :=
  futs (conn s) !! f = Some (SState (Some o) r).

(** ** One step *)

Lemma api_stores c a rc_in r w w' P P' f o b :
  inv (Sys w P) -> heap w !! a = None -> call_fits c -> run_api c a rc_in w = (r, w') ->
  futs w' !! f = Some (SState (Some o) b) ->
  futs w !! f = Some (SState (Some o) b) \/ stored_by (Sys w P) (Sys w' P') f o.
Proof.
  intros Hinv Ha Hfit E Hf.
  assert (forall n, (next_fut w <= n)%nat -> futs w !! n = None) as Hfr by apply (inv_fresh _ Hinv).
  destruct (watch_kind_of c) as [k|] eqn:Ek.
  - rewrite (run_api_watch c k a rc_in w Ha Ek) in E. injection E as _ <-.
    destruct (ok_rc rc_in) eqn:Erc; pose proof Hf as Hf'; cbn in Hf';
      (apply lookup_insert_Some in Hf' as [[<- Hx]|[_ Hf']];
        [|apply lookup_insert_Some in Hf' as [[<- Hx]|[_ Hf']]; [|by left]]); try discriminate Hx;
      injection Hx as <- <-; right.
    + apply by_refusal; cbn; auto.
    + apply by_refused_watch; cbn; auto.
  - destruct (run_api_plain c a rc_in w Ha Hfit Ek) as (ob & _ & _ & E').
    rewrite E' in E. injection E as _ <-.
    destruct (ok_rc rc_in) eqn:Erc; pose proof Hf as Hf'; cbn in Hf';
      (apply lookup_insert_Some in Hf' as [[<- Hx]|[_ Hf']]; [|by left]); try discriminate Hx.
    injection Hx as <- <-. right. apply by_refusal; cbn; auto.
Qed.

(** Whether [f] is the event future of a live watcher. *)
Lemma event_future_cases w f :
  (exists a v, heap w !! a = Some (OWatcher v) /\ f = w_event_promise v) \/
  (forall a v, heap w !! a = Some (OWatcher v) -> f <> w_event_promise v).
Proof.
  pose (is_event := fun (_ : addr) (o : obj) =>
    match o with OWatcher v => bool_decide (f = w_event_promise v) = true | _ => False end).
  assert (forall a o, Decision (is_event a o)) by (intros a []; cbn; apply _).
  destruct (decide (map_Exists is_event (heap w))) as [(a & [|v|] & Ha & Hv)|Hno]; try done.
  - left. exists a, v. by apply bool_decide_eq_true in Hv.
  - right. intros a v Ha ->. apply Hno. exists a, (OWatcher v). split; [done|]. by apply bool_decide_eq_true.
Qed.

Lemma close_stores rc r w w' P f o b :
  inv (Sys w P) -> (ok_rc rc = true -> P = ∅) -> close rc w = (r, w') ->
  futs w' !! f = Some (SState (Some o) b) ->
  futs w !! f = Some (SState (Some o) b) \/ stored_by (Sys w P) (Sys w' P) f o.
Proof.
  intros Hinv HP E Hf. unfold close in E. destruct (handle w) eqn:Hh.
  2: { unfold mseq, mget in E. rewrite Hh in E. injection E as _ <-. by left. }
  destruct (ok_rc rc) eqn:Hrc.
  2: { unfold mseq, mget in E. unfold ok_rc in Hrc. rewrite Hh, Hrc in E. injection E as _ <-. by left. }
  rewrite (HP eq_refl) in *.
  destruct (close_ok_run rc w Hinv Hh Hrc) as (m & E' & Hev & Hout).
  unfold close in E'. rewrite E' in E. injection E as _ <-. cbn in Hf.
  destruct (event_future_cases w f) as [(a & v & Ha & ->)|Hno].
  - destruct (inv_quiet w a _ Hinv Ha) as [Hw _].
    destruct (inv_awaits w ∅ a Hinv Hw) as (u & Hu & _ & _ & _ & [x Hx] & _); [set_solver|].
    replace u with v in * by congruence. rewrite (Hev a v x Ha Hx) in Hf. injection Hf as <- <-.
    right. by eapply (by_close _ _ _ a v).
  - left. by rewrite <- Hout.
Qed.

Lemma step_stores s s' f o r :
  inv s -> step s s' -> holds s' f o r -> holds s f o r \/ stored_by s s' f o.
Proof.
  unfold holds. intros Hinv Hstep; destruct Hstep as [c a rc_in x w w' P Ha Hfit Hh E
    |a rc_in p ob x w w' P HP Ha Hp E|a t st x w w' P HP E|t st x w w' P E|x w w' P E|rc x w w' P HP E];
    cbn [conn]; intros Hf.
  - by eapply api_stores.
  - destruct (payload_ok_outcome ob rc_in p Hp) as [out Hout].
    destruct (completion_run a ob rc_in p out w P Hinv HP Ha Hout)
      as (w1 & E' & _ & Hd & _ & _ & _ & _ & Hfr).
    rewrite E' in E. injection E as _ <-. destruct (decide (f = data_promise ob)) as [->|Hne]; [|eauto].
    rewrite Hd in Hf. injection Hf as <- <-. right.
    eapply (by_completion _ _ _ a ob rc_in p); try done.
    pose proof (inv_obj _ Hinv _ _ Ha) as Hok. cbn in Hok. destruct ob as [k q|v|cc]; cbn in *; [tauto| |tauto].
    destruct Hok as (_ & _ & _ & Hok). destruct (w_data_delivered v); tauto.
  - destruct (notify_run a t st w P Hinv HP) as (w1 & E' & _ & _ & Hor).
    rewrite E' in E. injection E as _ <-.
    destruct Hor as [[-> _]|(v & b & Hw & Ha & Hv & ->)]; [by left|]. cbn in Hf.
    apply lookup_insert_Some in Hf as [[<- Hx]|[_ Hf]]; [|by left]. injection Hx as <- <-.
    right. by eapply (by_notification _ _ _ a v).
  - unfold on_session_event_raw in E. destruct (negb _); [injection E as _ <-; by left|].
    destruct (session_run (state_from_raw st) w P Hinv) as (w1 & E' & _ & Hnil & Hin & Hout).
    rewrite E' in E. injection E as _ <-. destruct (decide (f ∈ state_promises w)) as [Hs|Hs].
    + rewrite Hin in Hf by done. injection Hf as <- <-. right. by apply by_session_event.
    + left. by rewrite <- Hout.
  - rewrite watch_state_eq in E. injection E as _ <-. cbn in Hf.
    apply lookup_insert_Some in Hf as [[_ Hx]|[_ Hf]]; [done|by left].
  - by eapply close_stores.
Qed.

(** The action that stores an outcome finds none. *)
Lemma stored_by_unsatisfied s s' f o :
  inv s -> stored_by s s' f o -> forall x r, ~ holds s f x r.
Proof.
  intros Hinv Hst x r Hf. unfold holds in Hf. destruct Hst as [a ob rc p out HP HP' Ha Hp -> Ho Hw
    |a v t st Hw HP Ha -> Hw'|st Hs Hs'|a v Ha -> Hh Hh'|rc Hn Hrc Hf'|Hn Hf']; try congruence.
  - destruct s as [w P]. destruct (inv_awaits w P a Hinv Hw HP) as (u & Hu & _ & _ & _ & [b Hb] & _).
    cbn in *. replace u with v in * by congruence. congruence.
  - destruct s as [w P]. pose proof (waiting_state w P f Hinv Hs) as Hw. unfold waiting in Hw. cbn in *. congruence.
  - destruct s as [w P]. destruct (inv_obj _ Hinv _ _ Ha) as (Hw & _ & Hne & Hok). cbn in *.
    destruct (w_data_delivered v); [destruct Hok as (_ & _ & [b Hb])|destruct Hok as (_ & _ & Hb)]; congruence.
Qed.

Lemma step_keeps s s' f o r : inv s -> step s s' -> holds s f o r -> holds s' f o r.
Proof.
  intros Hinv Hstep Hf.
  destruct (proj2 (step_stable s s' Hstep (inv_fresh _ Hinv)) f o r Hf) as [r' Hf'].
  destruct (step_stores s s' f o r' Hinv Hstep Hf') as [Hold|Hst].
  - unfold holds in *. congruence.
  - by destruct (stored_by_unsatisfied s s' f o Hinv Hst o r).
Qed.

(** ** What a caller finds *)

(** A value, or an exception of the library's own hierarchy. *)
Definition library_outcome (o : outcome) : Prop :=
  (exists v, o = Value v) \/ exists e, o = Exception (ZkError e).

Lemma refused_library rc_in : library_outcome (refused rc_in).
Proof. right. by eexists. Qed.

Lemma session_library st : library_outcome (session_event_outcome st).
Proof. unfold session_event_outcome. repeat case_match; [right|right|left]; by eexists. Qed.

Lemma callback_library k rc_in p o : callback k rc_in p = Some o -> library_outcome o.
Proof.
  destruct k, p; try done; intros [= <-];
    unfold get_callback, get_children_callback, exists_callback, create_callback, set_callback,
      void_callback, get_acl_callback; repeat case_match; (left; by eexists) || (right; by eexists).
Qed.

Lemma watch_library v rc_in p o taken : watch_outcome v rc_in p = Some (o, taken) -> library_outcome o.
Proof.
  unfold watch_outcome. repeat case_match; try done; intros [= <- <-];
    (left; by eexists) || apply refused_library.
Qed.

Lemma commit_library txn rc rs o : deliver_outcome txn rc rs = Some o -> library_outcome o.
Proof.
  unfold deliver_outcome. repeat case_match; try done; intros [= <-]; (left; by eexists) || (right; by eexists).
Qed.

Lemma completion_library o rc_in p out : completion_outcome o rc_in p = Some out -> library_outcome out.
Proof.
  destruct o as [k f|v|c]; cbn.
  - apply callback_library.
  - destruct (watch_outcome v rc_in p) as [[x taken]|] eqn:E; [|done]. intros [= <-]. by eapply watch_library.
  - destruct p; try done. apply commit_library.
Qed.

Lemma reachable_library s f o r :
  reachable s -> holds s f o r ->
  library_outcome o \/ (r = false /\ o = Exception (FutureError broken_promise)).
Proof.
  intros Hs. revert f o r. pattern s. revert s Hs. apply rtc_ind_r.
  - intros f o r Hf. by cbv in Hf.
  - intros s s' Hs Hstep IH f o r Hf. pose proof (inv_reachable s Hs) as Hinv.
    destruct (step_stores s s' f o r Hinv Hstep Hf) as [Hold|Hst]; [by apply (IH f)|].
    destruct Hst as [a ob rc p out ? ? ? ? ? Ho| |st| | |Hn Hf'].
    + left. by eapply completion_library.
    + left. left. by eexists.
    + left. apply session_library.
    + left. left. by eexists.
    + left. apply refused_library.
    + right. unfold holds in Hf. split; [congruence|done].
Qed.

(** ** Properties *)

(** C3: no outcome is lost, replaced or invented. Between a reachable state and the next,
    a future that holds an outcome keeps it. A future that gets one had none, and gets it
    from the completion of its own call, with the outcome of that completion; from the
    notification of its own watcher, whose data has come; from a session event, if it is a
    state watch; from [close], if it is the event of a watch that is still set; or, if it
    is new, from the refusal of the call that made it. So what a caller finds in a future
    while the connection lives is a value or an exception of the library: an error of
    [std::future] itself, that of a promise deleted without an outcome, is only in the event
    future of a watch that was refused, which nobody has. *)
Theorem outcome_provenance s s' f :
  reachable s -> step s s' ->
  (forall o r, holds s f o r -> holds s' f o r) /\
  (forall o r, holds s' f o r ->
     holds s f o r \/ (forall x b, ~ holds s f x b) /\ stored_by s s' f o) /\
  (forall o r, holds s' f o r ->
     library_outcome o \/ (r = false /\ o = Exception (FutureError broken_promise))).
Proof.
  intros R Hstep. pose proof (inv_reachable s R) as Hinv. split_and!; intros o r Hf.
  - by eapply step_keeps.
  - destruct (step_stores s s' f o r Hinv Hstep Hf) as [Hold|Hst]; [by left|right].
    split; [|done]. by eapply stored_by_unsatisfied.
  - eapply reachable_library; [|exact Hf]. by eapply rtc_r.
Qed.

End outcomes.

(** ** Runs *)

Section example.
#[local] Existing Instance zookeeper_3_5.

(** [close] after both calls of the example have completed. *)
Lemma outcome_provenance_witness :
  holds quiet 2 (refused (-101)) true /\
  holds (Sys (close 0 quiet_world).2 ∅) 2 (refused (-101)) true /\
  stored_by quiet (Sys (close 0 quiet_world).2 ∅) 0 (Value (VEvent closed_event)).
Proof.
  assert (step quiet (Sys (close 0 quiet_world).2 ∅)) as S
    by (eapply (step_close 0); [done|apply surjective_pairing]).
  split_and!; [reflexivity|..].
  - by apply (proj1 (outcome_provenance quiet _ 2 quiet_reachable S)).
  - destruct (outcome_provenance quiet _ 0 quiet_reachable S) as (_ & H & _).
    destruct (H (Value (VEvent closed_event)) true) as [Hold|[_ Hst]];
      [reflexivity|discriminate Hold|exact Hst].
Defined.

End example.
