(* ===== verification/Fence.v ===== *)
(** * Fence: a completion that runs before its call has returned

    The C client runs completions on a thread of its own, which may run as soon as the
    request is sent. Every operation of connection_zk.cpp is therefore two parts, up to
    and including the call into the C client and from there on, and the completion runs
    before or after the second part. The step relation of Protocol.v takes the call and
    its return as one step, which is the second order; here both are compared. The watch
    operations, which hold the lock of [_watches], are treated in Registration.v. *)

From S2P Require Import Prelude Text OrdMap Types Error Acl Native Results Multi World.
From S2P Require Import ConnectionZk Commit Runs Protocol Lifecycle.
Local Open Scope Z_scope.

Section fence.
Context `{!ZooConsts}.

(** The promise as the C client has it while [load_fence] has not returned. *)
Lemma load_fence_call_run a rc_in w :
  heap w !! a = None ->
  load_fence_call a rc_in w = (MOk rc_in,
    after_launch a (OPromise KLoadFence (next_fut w)) (SState None false) (zoo_async "/") w).
Proof. intros Ha. unfold load_fence_call. by mrun. Qed.

Lemma load_fence_return_run a rc_in f w :
  heap w !! a = Some (OPromise KLoadFence f) -> futs w !! f = Some (SState None false) ->
  ok_rc rc_in = true ->
  load_fence_return a rc_in w = (MOk f, set_futs (<[f := SState None true]> (futs w)) w).
Proof.
  intros Ha Hf Hrc. unfold load_fence_return. mrun. unfold ok_rc in Hrc. rewrite Hrc. by mrun.
Qed.

Lemma async_call_run k r a rc_in w :
  heap w !! a = None ->
  async_call k r a rc_in w = (MOk (next_fut w, rc_in),
    after_launch a (OPromise k (next_fut w)) (SState None true) r w).
Proof.
  intros Ha. unfold async_call. mrun. unfold after_launch. by rewrite insert_insert_eq.
Qed.

Lemma async_return_run a f rc_in w :
  ok_rc rc_in = true -> async_return a f rc_in w = (MOk f, w).
Proof. unfold ok_rc, async_return. by intros ->. Qed.

(** ** Properties *)


End fence.

Section example.
#[local] Existing Instance zookeeper_3_5.


End example.
