(* ===== verification/Stale.v ===== *)
(** * Stale: notifications for watchers that are gone

    The C client gets the address of a watcher as the context of its watch and passes it
    to [deliver_watch] with every event for that watch. Its documentation says that an
    event on the node uses the watch up, while a session event goes to all watches and
    leaves them set. [deliver_watch] takes the watcher out of [_watches] and deletes it at
    the first event of either kind. After a session event the C client therefore still
    holds the address of a watcher that is gone.

    Here the state of Protocol.v is extended by the addresses the C client holds. As long
    as the allocator does not give such an address to a new object, the extended system
    takes the steps of Protocol.v and all callbacks are safe; if it does, the notification
    of the old watch can delete the context of the new call. *)

From stdpp Require Import gmultiset.
From S2P Require Import Prelude Text OrdMap Types Error Acl Native Results Multi World.
From S2P Require Import ConnectionZk Commit Runs Protocol Lifecycle.
Local Open Scope Z_scope.

(** ** The C client's watches *)

(** [known]: the contexts of the watches the C client has, one for each watch. *)
Record csys := CSys { base : sys; known : gmultiset addr }.

Section stale.
Context `{!ZooConsts}.

(** Whether the C client sets the watch with this completion: the call succeeded, or
    asked for the existence of a node there is not. *)
Definition sets_watch (o : obj) (rc_in : Z) : bool :=
  match o with
  | OWatcher v => ok_rc rc_in ||
      bool_decide (w_kind v = WExists) && (error_code_from_raw rc_in =? error_code.no_entry)
  | _ => false
  end.

(** An event on the node uses the watch up. *)
Definition after_notification (type_in : Z) (a : addr) (K : gmultiset addr) : gmultiset addr :=
  if event_from_raw type_in =? event_type.session then K else K ∖ {[+ a +]}.

(** The steps of a connection with the C client's watches; [reuse] says whether the
    allocator may return an address the C client still holds. *)
Inductive cstep (reuse : bool) : csys -> csys -> Prop :=
| cstep_api c a rc_in r w w' P K :
    heap w !! a = None -> (reuse = false -> a ∉ K) -> call_fits c ->
    (handle w = false -> ok_rc rc_in = false) ->
    run_api c a rc_in w = (r, w') ->
    cstep reuse (CSys (Sys w P) K) (CSys (Sys w' (if ok_rc rc_in then P ∪ {[a]} else P)) K)
| cstep_complete a rc_in p o r w w' P K :
    a ∈ P -> heap w !! a = Some o -> payload_ok o p = true ->
    on_completion a rc_in p w = (r, w') ->
    cstep reuse (CSys (Sys w P) K)
      (CSys (Sys w' (P ∖ {[a]})) (if sets_watch o rc_in then K ⊎ {[+ a +]} else K))
| cstep_notify a type_in state_in r w w' P K :
    a ∈ K ->
    deliver_watch type_in state_in a w = (r, w') ->
    cstep reuse (CSys (Sys w P) K) (CSys (Sys w' P) (after_notification type_in a K))
| cstep_session ev_type state_in r w w' P K :
    on_session_event_raw ev_type state_in w = (r, w') ->
    cstep reuse (CSys (Sys w P) K) (CSys (Sys w' P) K)
| cstep_watch_state r w w' P K :
    watch_state w = (r, w') ->
    cstep reuse (CSys (Sys w P) K) (CSys (Sys w' P) K)
| cstep_close rc r w w' P K :
    (ok_rc rc = true -> P = ∅) ->
    close rc w = (r, w') ->
    cstep reuse (CSys (Sys w P) K) (CSys (Sys w' P) (if handle w' then K else ∅)).

Definition cinitial : csys := CSys initial ∅.

Definition creachable (reuse : bool) (s : csys) : Prop := rtc (cstep reuse) cinitial s.

(** ** Without reuse *)

(** No watch of the C client has the context of an outstanding call. *)
Definition apart (s : csys) : Prop := forall a, a ∈ known s -> a ∉ pending (base s).

Lemma after_notification_in t a b K : b ∈ after_notification t a K -> b ∈ K.
Proof. unfold after_notification. destruct (_ =? _); multiset_solver. Qed.

Lemma cstep_sound s s' :
  apart s -> cstep false s s' -> apart s' /\ step (base s) (base s').
Proof.
  intros Hap Hstep; destruct Hstep as [c a rc_in r w w' P K Ha HK Hfit Hh E
    |a rc_in p o r w w' P K HP Ha Hp E|a t st r w w' P K HK E|t st r w w' P K E
    |r w w' P K E|rc r w w' P K HP E]; unfold apart in *; cbn [known base pending] in *.
  - split; [|by eapply step_api]. intros b Hb. specialize (Hap b Hb).
    destruct (ok_rc rc_in); [|done]. specialize (HK eq_refl). set_solver.
  - split; [|by eapply step_complete]. intros b Hb.
    destruct (decide (b = a)) as [->|Hne]; [set_solver|].
    assert (b ∈ K) as HbK by (destruct (sets_watch o rc_in); multiset_solver).
    specialize (Hap b HbK). set_solver.
  - split; [|eapply step_notify; [by apply Hap|done]].
    intros b Hb%after_notification_in. by apply Hap.
  - split; [done|]. by eapply step_session.
  - split; [done|]. by eapply step_watch_state.
  - split; [|by eapply step_close]. intros b Hb. destruct (handle w'); [by apply Hap|multiset_solver].
Qed.

Lemma creachable_sound s : creachable false s -> apart s /\ reachable (base s).
Proof.
  unfold creachable. intros Hs. pattern s. revert s Hs. apply rtc_ind_r.
  - split; [|apply rtc_refl]. intros a Ha. cbn in Ha. multiset_solver.
  - intros s s' _ Hstep [Hap Hr]. destruct (cstep_sound s s' Hap Hstep) as [Hap' Hb].
    split; [done|]. by eapply rtc_r.
Qed.

(** ** With reuse *)

(** A notification for a watcher whose completion is outstanding. *)
Lemma deliver_watch_early t st a v w P :
  inv (Sys w P) -> a ∈ P -> heap w !! a = Some (OWatcher v) ->
  exists w', deliver_watch t st a w = (MOk tt, w') /\ heap w' = delete a (heap w) /\
    futs w' !! w_data_promise v
    = Some (SState (Some (Exception (get_exception_ptr_of error_code.closed))) true).
Proof.
  intros Hinv HP Ha. destruct (inv_obj _ Hinv _ _ Ha) as (Hw & He & Hne & Hok). cbn in *.
  destruct (w_data_delivered v) eqn:Ed; [tauto|]. destruct Hok as (_ & Hd & Hev). unfold waiting in Hd.
  unfold deliver_watch, try_extract_watch, deliver_event, deliver_event_base, deliver_data, load_watcher.
  mrun. rewrite bool_decide_true by done. mrun. rewrite Ed. mrun. rewrite Ed. mrun. rewrite He. mrun.
  unfold free. mrun. eexists. split; [done|]. cbn. split.
  - by rewrite !delete_insert_eq.
  - rewrite lookup_insert_ne, lookup_insert_eq by done. done.
Qed.

Lemma completion_of_nothing a rc_in p w :
  heap w !! a = None -> on_completion a rc_in p w = (MUndef, w).
Proof. intros Ha. unfold on_completion. by mrun. Qed.

(** The life of a watch at [a] up to the event, as equations. *)
Lemma watch_life_run path a rc data stat type_in state_in w P :
  inv (Sys w P) -> heap w !! a = None -> ok_rc rc = true ->
  exists w1 w2 w3, watch path a rc w = (MOk (S (next_fut w)), w1) /\
    heap w1 !! a = Some (OWatcher (Watcher WData false (next_fut w) false (S (next_fut w)))) /\
    on_completion a rc (PData data stat) w1 = (MOk tt, w2) /\
    deliver_watch type_in state_in a w2 = (MOk tt, w3) /\
    heap w3 = heap w /\ handle w3 = handle w /\ sent w3 = sent w ++ [zoo_awget (with_str path)].
Proof.
  intros Hinv Ha Hrc.
  pose proof (watch_op_run WData (zoo_awget (with_str path)) a rc w Ha) as E1. rewrite Hrc in E1.
  set (v := Watcher WData false (next_fut w) false (S (next_fut w))).
  set (out := Value (VWatch (WatchResult (GetResult data (stat_from_raw stat)) (next_fut w)))).
  assert (forall w1, w1 = after_watch WData a (zoo_awget (with_str path)) w ->
    on_completion a rc (PData data stat) w1 = (MOk tt, after_data a v out true w1)) as E2.
  { intros w1 ->. apply watcher_completion_run; cbn; rewrite ?lookup_insert_eq; try done.
    - by rewrite lookup_insert_ne, lookup_insert_eq by lia.
    - unfold watch_outcome. cbn. by rewrite Hrc. }
  eexists _, _, _; split_and!; [exact E1|cbn; by rewrite lookup_insert_eq|by apply E2|..].
  - eapply (deliver_watch_run type_in state_in a (data_done v)); cbn;
      rewrite ?lookup_insert_eq, ?lookup_insert_ne, ?lookup_insert_eq by lia; try done; set_solver.
  - cbn. by rewrite insert_insert_eq, delete_insert_id.
  - done.
  - done.
Qed.

(** A watch is set and completes, a session event deletes its watcher, and a second watch
    gets a watcher at the same address. *)
Lemma reused_reachable rc type_in path path' a :
  ok_rc rc = true -> event_from_raw type_in = event_type.session ->
  exists w v, creachable true (CSys (Sys w {[a]}) {[+ a +]}) /\ reachable (Sys w {[a]}) /\
    heap w !! a = Some (OWatcher v) /\
    sent w = [zoo_awget (with_str path); zoo_awget (with_str path')].
Proof.
  intros Hrc Ht.
  destruct (watch_life_run path a rc [] no_raw_stat type_in 0 (conn initial) ∅ inv_initial eq_refl Hrc)
    as (w1 & w2 & w3 & E1 & Ha1 & E2 & E3 & Hh3 & Hhd3 & Hs3).
  assert (creachable true (CSys (Sys w3 ∅) {[+ a +]}) /\ reachable (Sys w3 ∅)) as [C3 R3].
  { pose proof (cstep_api true (CWatch path) a rc _ (conn initial) w1 ∅ ∅ eq_refl ltac:(done) I ltac:(done) E1) as S1.
    pose proof (cstep_complete true a rc (PData [] no_raw_stat) _ _ _ w2 (∅ ∪ {[a]}) ∅
      ltac:(set_solver) Ha1 ltac:(done) E2) as S2.
    pose proof (step_api (CWatch path) a rc _ (conn initial) w1 ∅ eq_refl I ltac:(done) E1) as B1.
    pose proof (step_complete a rc (PData [] no_raw_stat) _ _ _ w2 (∅ ∪ {[a]})
      ltac:(set_solver) Ha1 ltac:(done) E2) as B2.
    cbn [sets_watch] in S2. rewrite Hrc in *. cbn [orb] in S2.
    replace ((∅ ∪ {[a]}) ∖ {[a]}) with (∅ : gset addr) in * by set_solver.
    replace (∅ ⊎ {[+ a +]}) with ({[+ a +]} : gmultiset addr) in S2 by multiset_solver.
    pose proof (cstep_notify true a type_in 0 _ _ w3 ∅ {[+ a +]} ltac:(multiset_solver) E3) as S3.
    pose proof (step_notify a type_in 0 _ _ w3 ∅ ltac:(set_solver) E3) as B3.
    unfold after_notification in S3. rewrite Ht, Z.eqb_refl in S3.
    split; (eapply rtc_l; [eassumption|]; eapply rtc_l; [eassumption|]; by apply rtc_once). }
  pose proof (watch_op_run WData (zoo_awget (with_str path')) a rc w3) as E4.
  rewrite Hrc in E4. specialize (E4 ltac:(by rewrite Hh3)).
  exists (after_watch WData a (zoo_awget (with_str path')) w3). eexists. split_and!.
  - pose proof (cstep_api true (CWatch path') a rc _ _ _ ∅ {[+ a +]} ltac:(by rewrite Hh3)
      ltac:(done) I ltac:(by rewrite Hhd3) E4) as S4. rewrite Hrc in S4.
    replace (∅ ∪ {[a]}) with ({[a]} : gset addr) in S4 by set_solver. by eapply rtc_r.
  - pose proof (step_api (CWatch path') a rc _ _ _ ∅ ltac:(by rewrite Hh3) I ltac:(by rewrite Hhd3) E4) as B4.
    rewrite Hrc in B4. replace (∅ ∪ {[a]}) with ({[a]} : gset addr) in B4 by set_solver. by eapply rtc_r.
  - cbn. by rewrite lookup_insert_eq.
  - cbn. by rewrite Hs3.
Qed.

(** * Properties *)

(** C1: while the allocator does not reuse an address the C client holds for a watch, the
    callbacks the C client can run are safe in every reachable state. The context of an
    outstanding completion is a live object, and its promise gets the outcome that belongs
    to the call. A notification for any watch the C client has, also one whose watcher was
    deleted by an earlier session event, is for no outstanding call: it satisfies the event
    future of the watcher, which is deleted, or, if the watcher is gone, changes nothing.
    Session events are delivered. No callback touches a freed object, throws into the C
    client, or stores into a promise twice. *)
Theorem callbacks_safe w P K :
  creachable false (CSys (Sys w P) K) ->
  (forall a, a ∈ P -> exists o, heap w !! a = Some o /\
     forall rc_in p, payload_ok o p = true -> exists out w',
       completion_outcome o rc_in p = Some out /\
       on_completion a rc_in p w = (MOk tt, w') /\
       futs w' !! data_promise o = Some (SState (Some out) true)) /\
  (forall a type_in state_in, a ∈ K -> a ∉ P /\ exists w',
     deliver_watch type_in state_in a w = (MOk tt, w') /\
     ((a ∉ watches w /\ w' = w) \/
      exists v r, a ∈ watches w /\ heap w !! a = Some (OWatcher v) /\
        futs w !! w_event_promise v = Some (SState None r) /\
        futs w' !! w_event_promise v
        = Some (SState (Some (Value (VEvent (raw_event type_in state_in)))) r) /\
        heap w' = delete a (heap w))) /\
  (forall ev_type state_in, exists w', on_session_event_raw ev_type state_in w = (MOk tt, w')).
Proof.
  intros [Hap Hinv%inv_reachable]%creachable_sound. unfold apart in Hap. cbn in Hap, Hinv. split_and!.
  - intros a HP. destruct (inv_pending _ Hinv a HP) as [o Ha]. exists o. split; [done|].
    intros rc_in p Hp. destruct (payload_ok_outcome o rc_in p Hp) as [out Hout].
    destruct (completion_run a o rc_in p out w P Hinv HP Ha Hout) as (w' & E & _ & Hf & _). eauto.
  - intros a t st HK. split; [by apply Hap|].
    destruct (notify_run a t st w P Hinv (Hap a HK)) as (w' & E & _ & Hev & Hor).
    exists w'. split; [done|]. destruct Hor as [[-> Hn]|(v & r & Hw & Ha & Hv & ->)]; [by left|right].
    exists v, r. split_and!; try done. cbn. by rewrite lookup_insert_eq.
  - intros t st. unfold on_session_event_raw. destruct (negb _); [by eexists|].
    destruct (session_run (state_from_raw st) w P Hinv) as (w' & E & _). eauto.
Qed.

(** C40: and if the allocator does reuse one, they are not. Two watches in a row at the same
    address [a], with a session event between them that deletes the first watcher, lead to
    a state in which the C client holds [a] for the first watch and owes the completion of
    the second. The notification of the first watch is then taken for one of the second:
    the future of the second call is told that the connection is closed, its watcher is
    deleted, and its completion, whatever it brings, uses the freed watcher. *)
Theorem stale_notification rc session_type path path' a type_in state_in :
  ok_rc rc = true -> event_from_raw session_type = event_type.session ->
  exists w v w', creachable true (CSys (Sys w {[a]}) {[+ a +]}) /\
    heap w !! a = Some (OWatcher v) /\
    sent w = [zoo_awget (with_str path); zoo_awget (with_str path')] /\
    deliver_watch type_in state_in a w = (MOk tt, w') /\
    futs w' !! w_data_promise v
    = Some (SState (Some (Exception (get_exception_ptr_of error_code.closed))) true) /\
    forall rc_in p, on_completion a rc_in p w' = (MUndef, w').
Proof.
  intros Hrc Ht. destruct (reused_reachable rc session_type path path' a Hrc Ht)
    as (w & v & HC & HR & Ha & Hs).
  destruct (deliver_watch_early type_in state_in a v w {[a]} (inv_reachable _ HR)
    ltac:(set_solver) Ha) as (w' & E & Hh & Hf).
  exists w, v, w'. split_and!; try done. intros rc_in p. apply completion_of_nothing.
  by rewrite Hh, lookup_delete_eq.
Qed.

End stale.

(** * Runs *)

Section example.
#[local] Existing Instance zookeeper_3_5.

(** The example of Lifecycle.v, with the watch the C client has after the completions. *)
Lemma quiet_creachable : creachable false (CSys quiet {[+ 1%positive +]}).
Proof.
  unfold creachable, quiet, quiet_world, busy_world.
  replace (∅ : gset addr)
    with ((∅ ∪ {[1%positive]} ∪ {[2%positive]}) ∖ {[1%positive]} ∖ {[2%positive]} : gset addr)
    by set_solver.
  replace ({[+ 1%positive +]} : gmultiset addr) with (∅ ⊎ {[+ 1%positive +]} : gmultiset addr)
    by multiset_solver.
  eapply rtc_l; [eapply (cstep_api false (CWatch "/a") 1%positive 0);
    [done|intros _; multiset_solver|done|done|apply surjective_pairing]|].
  eapply rtc_l; [eapply (cstep_api false (CGet "/b") 2%positive 0);
    [done|intros _; multiset_solver|done|done|apply surjective_pairing]|].
  eapply rtc_l; [eapply cstep_watch_state; apply surjective_pairing|].
  eapply rtc_l; [eapply (cstep_complete false 1%positive 0 (PData "x" no_raw_stat));
    [set_solver|done|done|apply surjective_pairing]|].
  eapply rtc_l; [eapply (cstep_complete false 2%positive (-101) (PData [] no_raw_stat));
    [set_solver|done|done|apply surjective_pairing]|]. apply rtc_refl.
Qed.

Lemma callbacks_safe_witness :
  exists w' v r, deliver_watch 3 3 1%positive quiet_world = (MOk tt, w') /\
    futs w' !! w_event_promise v = Some (SState (Some (Value (VEvent (raw_event 3 3)))) r).
Proof.
  destruct (callbacks_safe quiet_world ∅ {[+ 1%positive +]} quiet_creachable) as (_ & H & _).
  destruct (H 1%positive 3 3) as (_ & w' & E & [[Hn _]|(v & r & _ & _ & _ & Hf & _)]).
  - apply gmultiset_elem_of_singleton. reflexivity.
  - exfalso. apply Hn. vm_compute. reflexivity.
  - exists w', v, r. split; [exact E|exact Hf].
Defined.

Lemma stale_notification_witness :
  exists w w', creachable true (CSys (Sys w {[1%positive]}) {[+ 1%positive +]}) /\
    deliver_watch 3 3 1%positive w = (MOk tt, w') /\
    on_completion 1%positive 0 (PData "x" no_raw_stat) w' = (MUndef, w').
Proof.
  destruct (stale_notification 0 (-1) "/a" "/b" 1%positive 3 3)
    as (w & v & w' & HC & _ & _ & E & _ & H); [reflexivity|reflexivity|].
  exists w, w'. split_and!; [exact HC|exact E|apply H].
Defined.

End example.
