(* ===== verification/StateWatch.v ===== *)
(** * StateWatch: state watches and session events in several threads

    [connection::watch_state] and [connection::on_session_event] (src/zk/connection.cpp)
    share [_state_change_promises] under a mutex. The event moves the promises out under
    the lock and fills them after it has given the lock back, so that other threads
    register watches and deliver further events in between. Here both are cut into their
    actions on the world of World.v; whatever the interleaving, the threads end as the
    operations of ConnectionZk.v do when they run one after the other, in the order in
    which they reached the list. *)

From S2P Require Import Prelude Text Types Error Acl Native Results Multi World.
From S2P Require Import ConnectionZk Commit Runs Watcher Protocol Lifecycle.

(** ** Threads *)

(** [watch_state]: lock, [emplace_back], [get_future] of the last promise, unlock. *)
Inductive ws_stage := WsLock | WsPush | WsTake (f : fut) | WsUnlock (f : fut) | WsDone (f : fut).

(** [on_session_event]: lock, move the promises out, unlock, store into one after the
    other, destroy them. *)
Inductive ev_stage :=
| EvLock | EvMove | EvUnlock (l : list fut) | EvFill (filled todo : list fut)
| EvDestroy (todo : list fut) | EvDone.

Inductive sthread :=
| SWatch (st : ws_stage)
| SEvent (new_state : Z) (st : ev_stage).

(** The mutex, with the thread that holds it, and the world. *)
Record sw_state := SwState { sw_mutex : option nat; sw_world : world }.

Definition push_promise : M fut :=
  let! p := new_promise in
  mmodify (fun w => set_state_promises (state_promises w ++ [p]) w) ;;;
  mreturn p.

Definition move_promises : M (list fut) :=
  let! l := mget state_promises in
  mmodify (set_state_promises []) ;;;
  mreturn l.

(** A computation as an action that leads to the next stage. *)
Definition act {A} (m : M A) (next : A -> sthread) (s : sw_state) : option (mres sthread * sw_state) :=
  let '(r, w') := m (sw_world s) in
  Some (match r with MOk a => MOk (next a) | MThrow e => MThrow e | MUndef => MUndef end,
        SwState (sw_mutex s) w').

Definition lock (i : nat) (t : sthread) (s : sw_state) : option (mres sthread * sw_state) :=
  match sw_mutex s with
  | None => Some (MOk t, SwState (Some i) (sw_world s))
  | Some _ => None
  end.

Definition unlock (t : sthread) (s : sw_state) : option (mres sthread * sw_state) :=
  Some (MOk t, SwState None (sw_world s)).

(** One action of thread [i]; [None] while it waits for the mutex or has returned. *)
Definition saction (i : nat) (t : sthread) (s : sw_state) : option (mres sthread * sw_state) :=
  match t with
  | SWatch WsLock => lock i (SWatch WsPush) s
  | SWatch WsPush => act push_promise (fun f => SWatch (WsTake f)) s
  | SWatch (WsTake f) => act (get_future f) (fun f => SWatch (WsUnlock f)) s
  | SWatch (WsUnlock f) => unlock (SWatch (WsDone f)) s
  | SWatch (WsDone _) => None
  | SEvent st EvLock => lock i (SEvent st EvMove) s
  | SEvent st EvMove => act move_promises (fun l => SEvent st (EvUnlock l)) s
  | SEvent st (EvUnlock l) => unlock (SEvent st (EvFill [] l)) s
  | SEvent st (EvFill filled []) => Some (MOk (SEvent st (EvDestroy filled)), s)
  | SEvent st (EvFill filled (p :: todo)) =>
      act (store p (session_event_outcome st)) (fun _ => SEvent st (EvFill (filled ++ [p]) todo)) s
  | SEvent st (EvDestroy []) => Some (MOk (SEvent st EvDone), s)
  | SEvent st (EvDestroy (p :: todo)) =>
      act (destroy_promise p) (fun _ => SEvent st (EvDestroy todo)) s
  | SEvent _ EvDone => None
  end.

Inductive sstep : sw_state * list sthread -> sw_state * list sthread -> Prop :=
| sstep_thread s ts i t t' s' :
    ts !! i = Some t -> saction i t s = Some (MOk t', s') ->
    sstep (s, ts) (s', <[i := t']> ts).

(** Whether a thread has reached the list: added its promise, or moved the promises out. *)
Definition reached (t : sthread) : bool :=
  match t with
  | SWatch (WsLock | WsPush) | SEvent _ (EvLock | EvMove) => false
  | _ => true
  end.

(** The threads that have reached the list by an action of thread [i]. *)
Definition reaches (order : list nat) (i : nat) (t t' : sthread) : list nat :=
  if negb (reached t) && reached t' then order ++ [i] else order.

(** A run of [n] actions, and the order in which its threads reached the list. *)
Inductive srun (x0 : sw_state * list sthread) : nat -> list nat -> sw_state * list sthread -> Prop :=
| srun_nil : srun x0 0 [] x0
| srun_step n order s ts i t t' s' :
    srun x0 n order (s, ts) -> ts !! i = Some t -> saction i t s = Some (MOk t', s') ->
    srun x0 (S n) (reaches order i t t') (s', <[i := t']> ts).

Definition fresh_thread (t : sthread) : bool :=
  match t with SWatch WsLock | SEvent _ EvLock => true | _ => false end.
Definition returned (t : sthread) : bool :=
  match t with SWatch (WsDone _) | SEvent _ EvDone => true | _ => false end.

(** ** The operations one after the other *)

(** What a thread does: a watch, or the delivery of a state. *)
Definition job (t : sthread) : option Z :=
  match t with SWatch _ => None | SEvent st _ => Some st end.

Definition run_job (j : option Z) : M (option fut) :=
  match j with
  | None => let! f := watch_state in mreturn (Some f)
  | Some st => on_session_event st ;;; mreturn None
  end.

Fixpoint run_jobs (l : list (option Z)) : M (list (option fut)) :=
  match l with
  | [] => mreturn []
  | j :: rest => let! r := run_job j in let! rs := run_jobs rest in mreturn (r :: rs)
  end.

(** The future a thread was given. *)
Definition given (t : sthread) : option fut :=
  match t with
  | SWatch (WsTake f | WsUnlock f | WsDone f) => Some f
  | _ => None
  end.

Lemma run_jobs_snoc l j w rs w' r w'' :
  run_jobs l w = (MOk rs, w') -> run_job j w' = (MOk r, w'') ->
  run_jobs (l ++ [j]) w = (MOk (rs ++ [r]), w'').
Proof.
  revert w rs. induction l as [|k l IH]; intros w rs E Ej; cbn [run_jobs app] in *.
  - injection E as <- <-. rewrite (mseq_ok _ _ _ _ _ Ej). done.
  - unfold mseq at 1 in E. destruct (run_job k w) as [[x|e|] w1] eqn:Ek; try done.
    unfold mseq at 1 in E. destruct (run_jobs l w1) as [[xs|e|] w2] eqn:El; try done.
    injection E as <- <-. rewrite (mseq_ok _ _ _ _ _ Ek), (mseq_ok _ _ _ _ _ (IH _ _ El Ej)). done.
Qed.

(** ** The invariant *)

Definition sholds (t : sthread) : bool :=
  match t with
  | SWatch (WsPush | WsTake _ | WsUnlock _) | SEvent _ (EvMove | EvUnlock _) => true
  | _ => false
  end.

(** What a thread has still to do to the shared states of promises, after it reached the
    list: the state each will be in. *)
Definition debt (t : sthread) : list (fut * sstate) :=
  match t with
  | SWatch (WsTake f) => [(f, SState None true)]
  | SEvent st (EvUnlock l | EvFill _ l) =>
      (fun f => (f, SState (Some (session_event_outcome st)) true)) <$> l
  | _ => []
  end.

(** The state before. *)
Definition before (x : sstate) : sstate := SState None (negb (unset (ss_outcome x))).

Definition filled_by (t : sthread) : list fut :=
  match t with SEvent _ (EvFill l _ | EvDestroy l) => l | _ => [] end.

Definition owes (ts : list sthread) (i : nat) (f : fut) (x : sstate) : Prop :=
  exists t, ts !! i = Some t /\ (f, x) ∈ debt t.

Definition satisfied (w : world) (f : fut) : Prop :=
  exists o r, futs w !! f = Some (SState (Some o) r).

(** Two worlds that differ in their shared states only. *)
Definition same_but_futs (w w' : world) : Prop :=
  set_futs (futs w') w = w'.

(** [wa] is the world of the sequential run so far, [log] its threads with their jobs and
    results, in their order. *)
Record sinv (w0 : world) (s : sw_state) (ts : list sthread) (wa : world)
    (log : list (nat * option Z * option fut)) : Prop := SInv {
  si_run : run_jobs log.*1.*2 w0 = (MOk log.*2, wa);
  si_same : same_but_futs (sw_world s) wa;
  si_lock : forall i, sw_mutex s = Some i <-> exists t, ts !! i = Some t /\ sholds t = true;
  si_once : forall i j f x y, owes ts i f x -> owes ts j f y -> i = j;
  si_nodup : forall i t, ts !! i = Some t -> NoDup (debt t).*1;
  si_owed : forall i f x, owes ts i f x ->
    futs (sw_world s) !! f = Some (before x) /\ futs wa !! f = Some x;
  si_rest : forall f, (forall i x, ~ owes ts i f x) -> futs wa !! f = futs (sw_world s) !! f;
  si_list : NoDup (state_promises (sw_world s)) /\
    forall f, f ∈ state_promises (sw_world s) -> futs wa !! f = Some (SState None true);
  si_filled : forall i t f, ts !! i = Some t -> f ∈ filled_by t -> satisfied (sw_world s) f;
  si_fresh : fresh_futs (sw_world s);
  si_log : NoDup log.*1.*1;
  si_reached : forall i t, ts !! i = Some t ->
    if reached t then (i, job t, given t) ∈ log else i ∉ log.*1.*1;
  si_known : forall i, i ∈ log.*1.*1 -> i < length ts;
}.

(** ** Updating one thread *)

Lemma owes_other ts i j t' f x : i <> j -> owes (<[i := t']> ts) j f x <-> owes ts j f x.
Proof. intros Hne. unfold owes. by rewrite list_lookup_insert_ne. Qed.

Lemma owes_here ts i t t' f x :
  ts !! i = Some t -> owes (<[i := t']> ts) i f x <-> (f, x) ∈ debt t'.
Proof.
  intros Hi. unfold owes. rewrite list_lookup_insert_eq by (by eapply lookup_lt_Some).
  split; [by intros (u & [= <-] & H)|eauto].
Qed.

Lemma owes_same ts i t t' j f x :
  ts !! i = Some t -> debt t' = debt t -> owes (<[i := t']> ts) j f x <-> owes ts j f x.
Proof.
  intros Hi Hd. destruct (decide (i = j)) as [<-|Hne]; [|by apply owes_other].
  rewrite (owes_here _ _ _ _ _ _ Hi), Hd. unfold owes. split; [eauto|].
  intros (u & Hu & H). congruence.
Qed.

(** A thread that owed nothing comes to owe [debt t']. *)
Lemma owes_new ts i t t' j f x :
  ts !! i = Some t -> debt t = [] ->
  owes (<[i := t']> ts) j f x <-> (j = i /\ (f, x) ∈ debt t') \/ owes ts j f x.
Proof.
  intros Hi Hd. destruct (decide (i = j)) as [<-|Hne]; [|rewrite owes_other by done; naive_solver].
  rewrite (owes_here _ _ _ _ _ _ Hi). split; [naive_solver|]. intros [[_ H]|(u & Hu & H)]; [done|].
  assert (u = t) as -> by congruence. rewrite Hd in H. by apply elem_of_nil in H.
Qed.

(** A property of every thread, after one changed. *)
Lemma insert_all (ts : list sthread) i t' (P : nat -> sthread -> Prop) :
  P i t' -> (forall j t, ts !! j = Some t -> j <> i -> P j t) ->
  forall j t, <[i := t']> ts !! j = Some t -> P j t.
Proof.
  intros Hi Ho j t Hj. destruct (decide (i = j)) as [<-|Hne].
  - apply list_lookup_insert_Some in Hj as [(_ & -> & _)|[? _]]; done.
  - rewrite list_lookup_insert_ne in Hj by done. by apply Ho.
Qed.

(** The mutex, when the thread keeps it or stays without it. *)
Lemma held_same (ts : list sthread) (i : nat) t t' m :
  ts !! i = Some t -> sholds t' = sholds t ->
  (forall j, m = Some j <-> exists u, ts !! j = Some u /\ sholds u = true) ->
  forall j, m = Some j <-> exists u, <[i := t']> ts !! j = Some u /\ sholds u = true.
Proof.
  intros Hi Hs L j. rewrite L. destruct (decide (i = j)) as [<-|Hne].
  - rewrite list_lookup_insert_eq by (by eapply lookup_lt_Some). naive_solver congruence.
  - by rewrite list_lookup_insert_ne.
Qed.

Section steps.
Context (w0 : world) (s : sw_state) (ts : list sthread) (wa : world)
  (log : list (nat * option Z * option fut)) (I : sinv w0 s ts wa log).
Context (i : nat) (t t' : sthread) (Hi : ts !! i = Some t).

Lemma log_keep :
  reached t' = reached t -> job t' = job t -> given t' = given t ->
  (forall j u, <[i := t']> ts !! j = Some u ->
     if reached u then (j, job u, given u) ∈ log else j ∉ log.*1.*1) /\
  (forall j, j ∈ log.*1.*1 -> j < length (<[i := t']> ts)).
Proof.
  intros Hr Hj Hg. split.
  - apply (insert_all ts i t' (fun j u => if reached u then (j, job u, given u) ∈ log else j ∉ log.*1.*1));
      [|by intros; apply (si_reached _ _ _ _ _ I)].
    rewrite Hr, Hj, Hg. by apply (si_reached _ _ _ _ _ I).
  - intros j. rewrite length_insert. apply (si_known _ _ _ _ _ I).
Qed.

(** Nothing happens to the world. *)
Lemma sinv_quiet m :
  debt t' = debt t -> reached t' = reached t -> job t' = job t -> given t' = given t ->
  (forall f, f ∈ filled_by t' -> f ∈ filled_by t) ->
  (forall j, m = Some j <-> exists u, <[i := t']> ts !! j = Some u /\ sholds u = true) ->
  sinv w0 (SwState m (sw_world s)) (<[i := t']> ts) wa log.
Proof.
  intros Hd Hr Hj Hg Hf L. destruct (log_keep Hr Hj Hg) as [K1 K2].
  destruct I as [H1 H2 H3 H4 H5 H6 H7 H8 H9 H10 H11 H12 H13].
  assert (forall j f x, owes (<[i := t']> ts) j f x <-> owes ts j f x) as O by (intros; by eapply owes_same).
  split; cbn; try done.
  - intros j k f x y. rewrite !O. apply H4.
  - apply (insert_all ts i t' (fun _ u => NoDup (debt u).*1)); [rewrite Hd; by eapply H5|].
    intros j u Hu _. by eapply H5.
  - intros j f x. rewrite O. apply H6.
  - intros f Hn. apply H7. intros j x. by rewrite <- O.
  - intros j u f Hu. revert j u Hu f.
    apply (insert_all ts i t' (fun _ u => forall f, f ∈ filled_by u -> satisfied (sw_world s) f)); [|eauto].
    intros f Hin. by eapply H9, Hf.
Qed.

(** A promise gets the state it was owed. *)
Lemma sinv_pay f x :
  debt t = (f, x) :: debt t' -> sholds t' = sholds t ->
  reached t' = reached t -> job t' = job t -> given t' = given t ->
  (forall g, g ∈ filled_by t' -> g ∈ filled_by t \/ (g = f /\ unset (ss_outcome x) = false)) ->
  sinv w0 (SwState (sw_mutex s) (set_futs (<[f := x]> (futs (sw_world s))) (sw_world s)))
    (<[i := t']> ts) wa log.
Proof.
  intros Hd Hs Hr Hj Hg Hf. destruct (log_keep Hr Hj Hg) as [K1 K2].
  destruct I as [H1 H2 H3 H4 H5 H6 H7 H8 H9 H10 H11 H12 H13].
  assert (owes ts i f x) as Of by (exists t; split; [done|]; rewrite Hd; left).
  destruct (H6 _ _ _ Of) as [Hb Ha].
  assert (forall j g y, owes (<[i := t']> ts) j g y -> owes ts j g y /\ g <> f) as O.
  { intros j g y Hg'. destruct (decide (i = j)) as [<-|Hne].
    - apply (owes_here _ _ _ _ _ _ Hi) in Hg'. split.
      + exists t. split; [done|]. rewrite Hd. by right.
      + intros ->. pose proof (H5 i t Hi) as Hnd. rewrite Hd in Hnd. cbn in Hnd.
        apply NoDup_cons in Hnd as [Hn _]. apply Hn, list_elem_of_fmap. by exists (f, y).
    - apply owes_other in Hg'; [|done]. split; [done|]. intros ->. by apply Hne, (H4 _ _ _ _ _ Of Hg'). }
  split; cbn; try done.
  - by eapply held_same.
  - intros j k g y z Hy Hz. apply O in Hy as [Hy _], Hz as [Hz _]. by eapply H4.
  - apply (insert_all ts i t' (fun _ u => NoDup (debt u).*1)); [|intros j u Hu _; by eapply H5].
    pose proof (H5 i t Hi) as Hnd.
    rewrite Hd in Hnd. cbn in Hnd. by apply NoDup_cons in Hnd as [_ Hnd].
  - intros j g y Hg'. destruct (O _ _ _ Hg') as [Hy Hne]. rewrite lookup_insert_ne by done. by eapply H6.
  - intros g Hn. destruct (decide (f = g)) as [<-|Hne]; [by rewrite lookup_insert_eq|].
    rewrite lookup_insert_ne by done. apply H7. intros j y (u & Hu & Hin). apply (Hn j y).
    destruct (decide (i = j)) as [<-|Hij]; [|apply owes_other; [done|by exists u]].
    apply (owes_here _ _ _ _ _ _ Hi). assert (u = t) as -> by congruence. rewrite Hd in Hin.
    apply elem_of_cons in Hin as [[= -> ->]|Hin]; done.
  - intros j u g Hu. revert j u Hu g.
    set (w' := set_futs (<[f:=x]> (futs (sw_world s))) (sw_world s)).
    assert (forall g, satisfied (sw_world s) g -> satisfied w' g) as Hsat.
    { intros g (o & r & E). exists o, r. cbn. rewrite lookup_insert_ne; [done|]. intros ->. by rewrite E in Hb. }
    apply (insert_all ts i t' (fun _ u => forall g, g ∈ filled_by u -> satisfied w' g)); [|eauto].
    intros g [?|[-> Hx]]%Hf; [by eapply Hsat, H9|]. destruct x as [[o|] r]; [|done].
    exists o, r. cbn. by rewrite lookup_insert_eq.
  - intros g Hle. cbn. rewrite lookup_insert_ne; [by apply H10|]. intros ->. rewrite H10 in Hb; done.
Qed.

(** The thread reaches the list, and its job is run as a whole in the sequential world. *)
Lemma log_snoc j r :
  reached t = false -> reached t' = true -> job t' = j -> given t' = r ->
  NoDup (log ++ [(i, j, r)]).*1.*1 /\
  (forall k u, <[i := t']> ts !! k = Some u ->
     if reached u then (k, job u, given u) ∈ log ++ [(i, j, r)]
     else k ∉ (log ++ [(i, j, r)]).*1.*1) /\
  (forall k, k ∈ (log ++ [(i, j, r)]).*1.*1 -> k < length (<[i := t']> ts)).
Proof.
  intros Hr Hr' <- <-. rewrite !fmap_app. cbn.
  pose proof (si_reached _ _ _ _ _ I i t Hi) as Hn. rewrite Hr in Hn. split_and!.
  - apply NoDup_app. split_and!; [apply I| |apply NoDup_singleton].
    intros k Hk Ek%list_elem_of_singleton. by subst.
  - apply (insert_all ts i t' (fun k u => if reached u then (k, job u, given u) ∈ log ++ [(i, job t', given t')]
      else k ∉ log.*1.*1 ++ [i])).
    + rewrite Hr'. apply elem_of_app. right. by apply list_elem_of_singleton.
    + intros k u Hu Hne. pose proof (si_reached _ _ _ _ _ I k u Hu) as Hk.
      destruct (reached u); [apply elem_of_app; by left|].
      intros [?|Hk'%list_elem_of_singleton]%elem_of_app; done.
  - intros k. rewrite length_insert. intros [Hk|Hk%list_elem_of_singleton]%elem_of_app.
    + by apply (si_known _ _ _ _ _ I).
    + subst. by eapply lookup_lt_Some.
Qed.

Lemma owed_old j f x : owes ts j f x -> (f < next_fut (sw_world s))%nat.
Proof.
  intros O. destruct (le_lt_dec (next_fut (sw_world s)) f) as [Hle|]; [|done].
  destruct (si_owed _ _ _ _ _ I _ _ _ O) as [E _]. by rewrite (si_fresh _ _ _ _ _ I f Hle) in E.
Qed.

Lemma listed_old f : f ∈ state_promises (sw_world s) -> (f < next_fut (sw_world s))%nat.
Proof.
  intros Hf. destruct (le_lt_dec (next_fut (sw_world s)) f) as [Hle|]; [|done].
  destruct (si_list _ _ _ _ _ I) as [_ Hl]. specialize (Hl f Hf).
  rewrite (si_rest _ _ _ _ _ I), (si_fresh _ _ _ _ _ I f Hle) in Hl; [done|].
  intros j x O%owed_old. lia.
Qed.

End steps.

Lemma same_fields w w' :
  same_but_futs w w' ->
  handle w' = handle w /\ watches w' = watches w /\ state_promises w' = state_promises w /\
  heap w' = heap w /\ next_fut w' = next_fut w /\ sent w' = sent w.
Proof. unfold same_but_futs. by intros <-. Qed.

Lemma push_reaches w0 s ts wa log i :
  sinv w0 s ts wa log -> ts !! i = Some (SWatch WsPush) ->
  let f := next_fut (sw_world s) in
  exists w', push_promise (sw_world s) = (MOk f, w') /\
    sinv w0 (SwState (sw_mutex s) w') (<[i := SWatch (WsTake f)]> ts) (watch_state wa).2
      (log ++ [(i, None, Some f)]).
Proof.
  intros I Hi f. rewrite watch_state_eq. destruct s as [m w]; cbn in *.
  eexists. split; [reflexivity|].
  destruct (log_snoc _ _ _ _ _ I i _ (SWatch (WsTake f)) Hi None (Some f)) as (N & R & K); [done..|].
  pose proof (owed_old _ _ _ _ _ I) as Oo. pose proof (listed_old _ _ _ _ _ I) as Lo. cbn in Oo, Lo.
  destruct I as [H1 H2 H3 H4 H5 H6 H7 H8 H9 H10 H11 H12 H13]. cbn in *.
  destruct (same_fields _ _ H2) as (E1 & E2 & E3 & E4 & E5 & E6).
  rewrite E5.
  assert (forall j g x, owes (<[i := SWatch (WsTake f)]> ts) j g x <->
    (j = i /\ g = f /\ x = SState None true) \/ owes ts j g x) as O.
  { intros j g x. rewrite (owes_new _ _ _ _ _ _ _ Hi eq_refl). cbn. rewrite list_elem_of_singleton. naive_solver. }
  split; cbn; try done.
  - rewrite !fmap_app. eapply run_jobs_snoc; [done|]. cbn.
    rewrite (mseq_ok _ _ _ _ _ (watch_state_eq wa)). by rewrite E5.
  - unfold same_but_futs. cbn. rewrite E1, E2, E3, E4, E6. done.
  - by eapply held_same.
  - intros j k g x y [(-> & -> & ->)|Hx]%O [(-> & Eg & ->)|Hy]%O; try done.
    + apply Oo in Hy. unfold f in *. lia.
    + apply Oo in Hx. unfold f in *. subst. lia.
    + by eapply H4.
  - apply (insert_all ts i _ (fun _ u => NoDup (debt u).*1)); [apply NoDup_singleton|].
    intros j u Hu _. by eapply H5.
  - intros j g x [(-> & -> & ->)|Hx]%O; [by rewrite !lookup_insert_eq|].
    pose proof (Oo _ _ _ Hx). rewrite !lookup_insert_ne by (unfold f; lia). by eapply H6.
  - intros g Hn. assert (g <> f) as Hne by (intros ->; apply (Hn i (SState None true)), O; auto).
    rewrite !lookup_insert_ne by done. apply H7. intros j x Hx. apply (Hn j x), O. by right.
  - destruct H8 as [Hnd Hl]. split.
    + apply NoDup_app. split_and!; [done| |apply NoDup_singleton].
      intros g Hg Eg%list_elem_of_singleton. apply Lo in Hg. lia.
    + intros g [Hg|Eg%list_elem_of_singleton]%elem_of_app.
      * pose proof (Lo g Hg). rewrite lookup_insert_ne by lia. by apply Hl.
      * subst g. by rewrite lookup_insert_eq.
  - intros j u g Hu. revert j u Hu g. set (w' := set_state_promises _ _).
    apply (insert_all ts i _ (fun _ u => forall g, g ∈ filled_by u -> satisfied w' g)).
    { intros g Hg. by apply elem_of_nil in Hg. }
    intros j u Hu _ g Hg. destruct (H9 _ _ _ Hu Hg) as (o & r & E). exists o, r. cbn.
    rewrite lookup_insert_ne; [done|]. intros Eg. rewrite H10 in E; [done|]. unfold f in *. lia.
  - intros g Hle. cbn in *. rewrite lookup_insert_ne by (unfold f; lia). apply H10. lia.
Qed.

(** Nobody owes to a promise of the list when the holder of the mutex does not: a fill is
    stored in the sequential world, and the one who would take its future holds the
    mutex. *)
Lemma listed_free w0 s ts wa log i t :
  sinv w0 s ts wa log -> ts !! i = Some t -> debt t = [] -> sw_mutex s = Some i ->
  forall j f x, owes ts j f x -> f ∉ state_promises (sw_world s).
Proof.
  intros I Hi Hd Hm j f x Ox Hf. destruct (si_owed _ _ _ _ _ I _ _ _ Ox) as [Hb Ha].
  rewrite (proj2 (si_list _ _ _ _ _ I) f Hf) in Ha. injection Ha as <-.
  destruct Ox as (u & Hu & Hin). assert (Some i = Some j) as [= ->].
  { rewrite <- Hm. apply (si_lock _ _ _ _ _ I). exists u. split; [done|].
    destruct u as [[]|z []]; cbn in Hin; try by apply elem_of_nil in Hin.
    - done.
    - by apply list_elem_of_fmap in Hin as (? & [=] & _).
    - by apply list_elem_of_fmap in Hin as (? & [=] & _). }
  assert (u = t) as -> by congruence. rewrite Hd in Hin. by apply elem_of_nil in Hin.
Qed.

Lemma move_reaches w0 s ts wa log i st :
  sinv w0 s ts wa log -> ts !! i = Some (SEvent st EvMove) -> sw_mutex s = Some i ->
  let l := state_promises (sw_world s) in
  exists wa', sinv w0 (SwState (sw_mutex s) (set_state_promises [] (sw_world s)))
    (<[i := SEvent st (EvUnlock l)]> ts) wa' (log ++ [(i, Some st, None)]).
Proof.
  intros I Hi Hm l. pose proof (listed_free _ _ _ _ _ _ _ I Hi eq_refl Hm) as Free.
  destruct s as [m w]; cbn in *. subst m.
  destruct (log_snoc _ _ _ _ _ I i _ (SEvent st (EvUnlock l)) Hi (Some st) None) as (N & R & K); [done..|].
  destruct I as [H1 H2 H3 H4 H5 H6 H7 H8 H9 H10 H11 H12 H13]. cbn in *.
  destruct (same_fields _ _ H2) as (E1 & E2 & E3 & E4 & E5 & E6). destruct H8 as [Hnd Hl].
  destruct (on_session_event_run st wa) as (mm & E & Hout & Hin); [by rewrite E3| |].
  { intros f Hf. rewrite E3 in Hf. eauto. }
  rewrite E3 in Hout, Hin. exists (set_state_promises [] (set_futs mm wa)).
  set (o := session_event_outcome st) in *.
  assert (forall j f x, owes (<[i := SEvent st (EvUnlock l)]> ts) j f x <->
    (j = i /\ f ∈ l /\ x = SState (Some o) true) \/ owes ts j f x) as O.
  { intros j f x. rewrite (owes_new _ _ _ _ _ _ _ Hi eq_refl). cbn. rewrite list_elem_of_fmap. naive_solver. }
  split; cbn; try done.
  - rewrite !fmap_app. eapply run_jobs_snoc; [done|]. cbn. by rewrite (mseq_ok _ _ _ _ _ E).
  - unfold same_but_futs in *. by rewrite <- H2.
  - by eapply held_same.
  - intros j k f x y [(-> & Hf & ->)|Hx]%O [(-> & Hf' & ->)|Hy]%O; try done.
    + by destruct (Free _ _ _ Hy).
    + by destruct (Free _ _ _ Hx).
    + by eapply H4.
  - apply (insert_all ts i _ (fun _ u => NoDup (debt u).*1)); [|intros j u Hu _; by eapply H5].
    cbn. rewrite <- list_fmap_compose. by rewrite list_fmap_id.
  - intros j f x [(-> & Hf & ->)|Hx]%O.
    + specialize (Hl f Hf). rewrite (Hin f true Hf Hl). split; [|done]. cbn. rewrite <- (H7 f); [done|].
      intros k y Oy. by destruct (Free _ _ _ Oy).
    + rewrite Hout by by eapply Free. by eapply H6.
  - intros f Hn. assert (f ∉ l) as Hf by (intros Hf; apply (Hn i (SState (Some o) true)), O; auto).
    rewrite Hout by done. apply H7. intros j x Hx. apply (Hn j x), O. by right.
  - split; [constructor|]. intros f Hf. by apply elem_of_nil in Hf.
  - intros j u f Hu. revert j u Hu f. set (w' := set_state_promises _ _).
    apply (insert_all ts i _ (fun _ u => forall g, g ∈ filled_by u -> satisfied w' g)); [|eauto].
    intros g Hg. by apply elem_of_nil in Hg.
Qed.

(** ** Every action *)

Lemma held_acquire (ts : list sthread) (i : nat) t t' :
  ts !! i = Some t -> sholds t' = true ->
  (forall j, None = Some j <-> exists u, ts !! j = Some u /\ sholds u = true) ->
  forall j, Some i = Some j <-> exists u, <[i := t']> ts !! j = Some u /\ sholds u = true.
Proof.
  intros Hi Hs L j. destruct (decide (i = j)) as [<-|Hne].
  - rewrite list_lookup_insert_eq by (by eapply lookup_lt_Some). naive_solver.
  - rewrite list_lookup_insert_ne by done. rewrite <- L. naive_solver.
Qed.

Lemma held_release (ts : list sthread) (i : nat) t t' m :
  ts !! i = Some t -> sholds t = true -> sholds t' = false ->
  (forall j, m = Some j <-> exists u, ts !! j = Some u /\ sholds u = true) ->
  forall j, None = Some j <-> exists u, <[i := t']> ts !! j = Some u /\ sholds u = true.
Proof.
  intros Hi Ht Ht' L j. assert (m = Some i) as -> by (apply L; eauto).
  split; [done|]. destruct (decide (i = j)) as [<-|Hne].
  - rewrite list_lookup_insert_eq by (by eapply lookup_lt_Some). intros (u & [= <-] & Hu). congruence.
  - rewrite list_lookup_insert_ne by done. intros Hu%L. congruence.
Qed.

Lemma sw_eta s : SwState (sw_mutex s) (sw_world s) = s.
Proof. by destruct s. Qed.

Lemma saction_keeps w0 s ts wa log i t r s' :
  sinv w0 s ts wa log -> ts !! i = Some t -> saction i t s = Some (r, s') ->
  exists t' wa' log', r = MOk t' /\ sinv w0 s' (<[i := t']> ts) wa' log' /\
    log'.*1.*1 = reaches log.*1.*1 i t t'.
Proof.
  intros I Hi E. pose proof (si_lock _ _ _ _ _ I) as L.
  destruct t as [[| |f|f|f]|st [| |l|filled [|p todo]|[|p todo]|]]; cbn [saction] in E; try done.
  - unfold lock in E. destruct (sw_mutex s) eqn:Em; [done|]. injection E as <- <-.
    exists (SWatch WsPush), wa, log. split; [done|]. split; [|done]. eapply sinv_quiet; [done..|]. by eapply held_acquire.
  - destruct (push_reaches _ _ _ _ _ _ I Hi) as (w' & Ep & I'). unfold act in E. rewrite Ep in E.
    injection E as <- <-. eexists _, _, _. split; [done|]. split; [exact I'|]. by rewrite !fmap_app.
  - assert (owes ts i f (SState None true)) as Of by (exists (SWatch (WsTake f)); split; [done|left]).
    destruct (si_owed _ _ _ _ _ I _ _ _ Of) as [Hf _]. unfold act in E.
    rewrite (get_future_ok _ _ _ Hf) in E. injection E as <- <-.
    exists (SWatch (WsUnlock f)), wa, log. split; [done|]. split; [|done]. eapply sinv_pay; try done. intros g Hg. by left.
  - unfold unlock in E. injection E as <- <-. exists (SWatch (WsDone f)), wa, log. split; [done|]. split; [|done].
    eapply sinv_quiet; [done..|]. by eapply held_release.
  - unfold lock in E. destruct (sw_mutex s) eqn:Em; [done|]. injection E as <- <-.
    exists (SEvent st EvMove), wa, log. split; [done|]. split; [|done]. eapply sinv_quiet; [done..|]. by eapply held_acquire.
  - assert (sw_mutex s = Some i) as Hm by (apply L; eauto).
    destruct (move_reaches _ _ _ _ _ _ _ I Hi Hm) as (wa' & I'). injection E as <- <-.
    eexists _, _, _. split; [done|]. split; [exact I'|]. by rewrite !fmap_app.
  - unfold unlock in E. injection E as <- <-. exists (SEvent st (EvFill [] l)), wa, log. split; [done|]. split; [|done].
    eapply sinv_quiet; [done..|]. by eapply held_release.
  - injection E as <- <-. exists (SEvent st (EvDestroy filled)), wa, log. split; [done|]. split; [|done].
    rewrite <- (sw_eta s). eapply sinv_quiet; [done..|]. by eapply held_same.
  - assert (owes ts i p (SState (Some (session_event_outcome st)) true)) as Of.
    { exists (SEvent st (EvFill filled (p :: todo))). split; [done|left]. }
    destruct (si_owed _ _ _ _ _ I _ _ _ Of) as [Hf _]. unfold act in E.
    rewrite (store_ok _ _ _ _ Hf) in E. injection E as <- <-.
    exists (SEvent st (EvFill (filled ++ [p]) todo)), wa, log. split; [done|]. split; [|done].
    eapply sinv_pay; try done. cbn. intros g [Hg|Hg%list_elem_of_singleton]%elem_of_app; auto.
  - injection E as <- <-. exists (SEvent st EvDone), wa, log. split; [done|]. split; [|done].
    rewrite <- (sw_eta s). eapply sinv_quiet; [done..|]. by eapply held_same.
  - assert (satisfied (sw_world s) p) as (o & b & Hp)
      by (apply (si_filled _ _ _ _ _ I _ _ _ Hi); left).
    unfold act in E. rewrite (destroy_satisfied _ _ _ _ Hp) in E. injection E as <- <-.
    exists (SEvent st (EvDestroy todo)), wa, log. split; [done|]. split; [|done].
    eapply sinv_quiet; try done; [|by eapply held_same]. cbn. intros g Hg. by right.
Qed.

(** ** Runs *)

Definition runs_well (w0 : world) (ts0 : list sthread) (order : list nat)
    (x : sw_state * list sthread) : Prop :=
  (exists wa log, sinv w0 x.1 x.2 wa log /\ log.*1.*1 = order) /\ job <$> x.2 = job <$> ts0.

Lemma saction_job i t s t' s' : saction i t s = Some (MOk t', s') -> job t' = job t.
Proof.
  destruct t as [[]|st [| |l|filled [|p todo]|[|p todo]|]]; cbn [saction]; unfold lock, unlock, act;
    intros E; repeat case_hyp E; by simplify_eq.
Qed.

Lemma srun_well w0 ts0 n order x :
  runs_well w0 ts0 [] (SwState None w0, ts0) -> srun (SwState None w0, ts0) n order x ->
  runs_well w0 ts0 order x.
Proof.
  intros W R. induction R as [|n order s ts i t t' s' R IH Hi E]; [done|].
  destruct IH as [(wa & log & I & L) J]. cbn [fst snd] in *. split; cbn [fst snd].
  - destruct (saction_keeps _ _ _ _ _ _ _ _ _ I Hi E) as (u & wa' & log' & [= <-] & I' & L').
    exists wa', log'. by rewrite L', L.
  - rewrite list_fmap_insert, list_insert_id; [done|]. rewrite list_lookup_fmap, Hi. cbn [fmap option_fmap option_map].
    f_equal. symmetry. by eapply saction_job.
Qed.

(** The state a connection is in between its operations. *)
Definition list_ok (w : world) : Prop :=
  fresh_futs w /\ NoDup (state_promises w) /\ forall f, f ∈ state_promises w -> waiting w f.

Lemma well_start w0 ts0 :
  list_ok w0 -> Forall fresh_thread ts0 -> runs_well w0 ts0 [] (SwState None w0, ts0).
Proof.
  intros (Hfr & Hnd & Hl) F. split; [|done].
  assert (forall i t, ts0 !! i = Some t -> fresh_thread t = true) as Ft.
  { intros i t Hi. rewrite Forall_lookup in F. by apply Is_true_true, (F i). }
  assert (forall i f x, ~ owes ts0 i f x) as No.
  { intros i f x (t & Hi & Hin). specialize (Ft i t Hi). destruct t as [[]|st []]; try done;
      by apply elem_of_nil in Hin. }
  exists w0, []. split; [|done]. split; cbn; try done.
  - by destruct w0.
  - intros i. split; [done|]. intros (t & Hi & Ht). specialize (Ft i t Hi). by destruct t as [[]|st []].
  - intros i j f x y O. by destruct (No i f x).
  - intros i t Hi. specialize (Ft i t Hi). destruct t as [[]|st []]; try done; constructor.
  - intros i f x O. by destruct (No i f x).
  - intros i t f Hi Hf. specialize (Ft i t Hi). destruct t as [[]|st []]; try done; by apply elem_of_nil in Hf.
  - constructor.
  - intros i t Hi. specialize (Ft i t Hi). destruct t as [[]|st []]; try done; apply not_elem_of_nil.
  - intros i Hi'. by apply elem_of_nil in Hi'.
Qed.

(** A world all of whose threads have returned is the sequential one. *)
Lemma returned_same w0 s ts wa log :
  sinv w0 s ts wa log -> Forall returned ts -> sw_world s = wa.
Proof.
  intros I F. pose proof (si_same _ _ _ _ _ I) as H. unfold same_but_futs in H. rewrite <- H.
  assert (futs wa = futs (sw_world s)) as ->; [|by destruct (sw_world s)].
  apply map_eq. intros f. apply (si_rest _ _ _ _ _ I). intros i x (t & Hi & Hin).
  rewrite Forall_lookup in F. specialize (F i t Hi). destruct t as [[]|st []]; try done;
    by apply elem_of_nil in Hin.
Qed.

Lemma log_complete w0 s ts wa log :
  sinv w0 s ts wa log -> Forall returned ts -> log.*1.*1 ≡ₚ seq 0 (length ts).
Proof.
  intros I F. apply NoDup_Permutation; [apply I|apply NoDup_seq|]. intros i. rewrite elem_of_seq. split.
  - intros Hi%(si_known _ _ _ _ _ I). lia.
  - intros [_ [t Hi]%lookup_lt_is_Some]. rewrite Forall_lookup in F. specialize (F i t Hi).
    pose proof (si_reached _ _ _ _ _ I i t Hi) as R. destruct t as [[]|st []]; try done; cbn in R;
      apply list_elem_of_fmap; eexists (_, _); (split; [reflexivity|]); apply list_elem_of_fmap;
      eexists (_, _, _); (split; [reflexivity|exact R]).
Qed.

(** How many actions are left, a promise of the list counted for its store and its end. *)
Definition s_left (t : sthread) : nat :=
  match t with
  | SWatch WsLock => 6 | SWatch WsPush => 5 | SWatch (WsTake _) => 2 | SWatch (WsUnlock _) => 1
  | SWatch (WsDone _) => 0
  | SEvent _ EvLock => 5 | SEvent _ EvMove => 4 | SEvent _ (EvUnlock l) => 3 + 2 * length l
  | SEvent _ (EvFill filled todo) => 2 + length filled + 2 * length todo
  | SEvent _ (EvDestroy todo) => 1 + length todo | SEvent _ EvDone => 0
  end.

Definition all_left (x : sw_state * list sthread) : nat :=
  2 * length (state_promises (sw_world x.1)) + sum_list_with s_left x.2.

(** The actions on a promise leave the list alone. *)
Lemma list_kept f o w :
  state_promises (get_future f w).2 = state_promises w /\
  state_promises (store f o w).2 = state_promises w /\
  state_promises (destroy_promise f w).2 = state_promises w.
Proof. unfold get_future, store, destroy_promise. by destruct (futs w !! f) as [[[] []]|]. Qed.

Lemma act_ok {A} (m : M A) next s t' s' :
  act m next s = Some (MOk t', s') ->
  exists a, m (sw_world s) = (MOk a, sw_world s') /\ t' = next a.
Proof.
  unfold act. destruct (m (sw_world s)) as [[a|e|] w'] eqn:E; intros H; simplify_eq. eauto.
Qed.

Lemma sstep_left x x' : sstep x x' -> all_left x' < all_left x.
Proof.
  intros [s ts i t t' s' Hi E]. unfold all_left. cbn [fst snd]. pose proof (sum_insert s_left ts i t t' Hi) as S.
  enough (2 * length (state_promises (sw_world s')) + s_left t' <
          2 * length (state_promises (sw_world s)) + s_left t) by lia. clear S.
  destruct t as [[| |f|f|f]|st [| |l|filled [|p todo]|[|p todo]|]]; cbn [saction] in E; try done;
    try (apply act_ok in E as (a & E & ->)); unfold lock, unlock in E; try case_hyp E; simplify_eq; cbn; try lia.
  - injection E as <- <-. cbn. rewrite length_app. cbn. lia.
  - destruct (list_kept f (Value VVoid) (sw_world s)) as (K & _). rewrite E in K. cbn in K. rewrite K. lia.
  - injection E as <- <-. cbn. lia.
  - destruct (list_kept p (session_event_outcome st) (sw_world s)) as (_ & K & _).
    rewrite E in K. cbn in K. rewrite K, length_app. cbn. lia.
  - destruct (list_kept p (Value VVoid) (sw_world s)) as (_ & _ & K). rewrite E in K. cbn in K. rewrite K. lia.
Qed.

Lemma log_unique (log : list (nat * option Z * option fut)) i j f j' f' :
  NoDup log.*1.*1 -> (i, j, f) ∈ log -> (i, j', f') ∈ log -> j = j' /\ f = f'.
Proof.
  intros Hnd [a Ha]%list_elem_of_lookup [b Hb]%list_elem_of_lookup.
  assert (a = b) as ->; [|by rewrite Ha in Hb; injection Hb as -> ->].
  apply (NoDup_lookup _ _ _ i Hnd); by rewrite !list_lookup_fmap, ?Ha, ?Hb.
Qed.

(** Whoever holds the mutex can act; without a holder everybody can. *)
Lemma some_acts w0 s ts wa log :
  sinv w0 s ts wa log -> Forall returned ts \/ exists x', sstep (s, ts) x'.
Proof.
  intros I.
  assert (forall i t, ts !! i = Some t -> is_Some (saction i t s) -> exists x', sstep (s, ts) x') as Go.
  { intros i t Hi [[r s'] E]. destruct (saction_keeps _ _ _ _ _ _ _ _ _ I Hi E) as (t' & _ & _ & -> & _ & _).
    eexists. by eapply sstep_thread. }
  assert (forall t i, returned t = false -> (sholds t = true \/ sw_mutex s = None) -> is_Some (saction i t s)) as Can.
  { intros t i Hr Hh. destruct t as [[]|st [| |l|filled [|p todo]|[|p todo]|]]; cbn [saction] in *; try done;
      unfold act, unlock, lock; try (destruct Hh as [Hh|Hh]; [done|rewrite Hh]);
      repeat case_goal; eauto. }
  destruct (sw_mutex s) as [i|] eqn:Em.
  - destruct (si_lock _ _ _ _ _ I i) as [H _]. destruct (H Em) as (t & Hi & Ht). right.
    apply (Go i t Hi), Can; [by destruct t as [[]|st []]|by left].
  - destruct (decide (Forall returned ts)) as [|Hn]; [by left|right].
    apply not_Forall_Exists in Hn; [|apply _]. apply list.Exists_exists in Hn as (t & Hin & Hr).
    apply list_elem_of_lookup in Hin as [i Hi]. apply (Go i t Hi), Can; [|by right].
    cbn in Hr. by destruct (returned t).
Qed.

(** The worlds of Protocol.v. *)
Lemma reachable_list_ok `{!ZooConsts} w P : reachable (Sys w P) -> list_ok w.
Proof.
  intros I%inv_reachable. split_and!; [exact (inv_fresh _ I)|by eapply inv_state_nodup|].
  intros f Hf. by eapply waiting_state.
Qed.

(** ** Properties *)

(** C16: state watches and session events in any number of threads refine the atomic
    operations, although an event fills its promises after it gave the mutex back. In
    every interleaving no action throws (no promise is stored twice and no future taken
    twice), some thread can act until all have returned, and a run ends after at most 2
    actions per promise and 6 per thread. Once all have returned, the operations
    [watch_state] and [on_session_event] of ConnectionZk.v, each run as a whole in the order
    in which the threads reached the list, give every thread the future it got and leave
    exactly the world the threads left: each watch was satisfied by the first event behind
    it in this order. *)
Theorem state_watch_refines w0 ts0 n order s ts :
  list_ok w0 -> Forall fresh_thread ts0 -> srun (SwState None w0, ts0) n order (s, ts) ->
  (forall i t r s', ts !! i = Some t -> saction i t s = Some (r, s') -> exists t', r = MOk t') /\
  (Forall returned ts \/ exists x', sstep (s, ts) x') /\
  n <= 2 * length (state_promises w0) + 6 * length ts0 /\
  (Forall returned ts ->
   order ≡ₚ seq 0 (length ts0) /\
   exists log : list (nat * option Z * option fut),
     log.*1.*1 = order /\
     (forall i j f, (i, j, f) ∈ log -> job <$> ts0 !! i = Some j /\ given <$> ts !! i = Some f) /\
     run_jobs log.*1.*2 w0 = (MOk log.*2, sw_world s)).
Proof.
  intros Hl F R. pose proof (srun_well _ _ _ _ _ (well_start w0 ts0 Hl F) R) as [(wa & log & I & L) J].
  assert (n + all_left (s, ts) <= all_left (SwState None w0, ts0)) as Hn.
  { clear I J L. revert R. generalize (s, ts). intros x R.
    induction R as [|n' o s1 ts1 i t t' s' R IH Hi E]; [lia|].
    pose proof (sstep_left _ _ (sstep_thread _ _ _ _ _ _ Hi E)). lia. }
  cbn [fst snd] in I, J. split_and!.
  - intros i t r s' Hi E. destruct (saction_keeps _ _ _ _ _ _ _ _ _ I Hi E) as (t' & _ & _ & -> & _). eauto.
  - by eapply some_acts.
  - transitivity (all_left (SwState None w0, ts0)); [lia|]. unfold all_left. cbn [fst snd sw_world].
    enough (sum_list_with s_left ts0 <= 6 * length ts0) by lia. clear -F.
    induction F as [|t ts Ht _ IH]; cbn in *; [lia|]. destruct t as [[]|st []]; cbn in *; try done; lia.
  - intros D. pose proof (f_equal length J) as Hlen. rewrite !length_fmap in Hlen. split.
    { rewrite <- Hlen, <- L. by eapply log_complete. }
    exists log. split_and!; [done| |].
    + intros i j f Hin. assert (i < length ts) as [t Hi]%lookup_lt_is_Some.
      { apply (si_known _ _ _ _ _ I), list_elem_of_fmap. exists (i, j). split; [done|].
        apply list_elem_of_fmap. by exists (i, j, f). }
      pose proof (si_reached _ _ _ _ _ I i t Hi) as Hr. rewrite Forall_lookup in D. specialize (D i t Hi).
      assert (reached t = true) as Ht by by destruct t as [[]|st []]. rewrite Ht in Hr.
      destruct (log_unique _ _ _ _ _ _ (si_log _ _ _ _ _ I) Hin Hr) as [-> ->].
      rewrite <- list_lookup_fmap, <- J, list_lookup_fmap, Hi. done.
    + rewrite (returned_same _ _ _ _ _ I D). apply I.
Qed.

(** ** A run: a watch is registered while an event fills the promises it moved out, and is
    satisfied by the next event. *)

Fixpoint run_threads (l : list nat) (order : list nat) (x : sw_state * list sthread)
    : option (list nat * (sw_state * list sthread)) :=
  match l with
  | [] => Some (order, x)
  | i :: rest =>
      match x.2 !! i with
      | Some t =>
          match saction i t x.1 with
          | Some (MOk t', s') => run_threads rest (reaches order i t t') (s', <[i := t']> x.2)
          | _ => None
          end
      | None => None
      end
  end.

Lemma run_threads_srun x0 l n order x order' x' :
  srun x0 n order x -> run_threads l order x = Some (order', x') -> srun x0 (length l + n) order' x'.
Proof.
  revert n order x. induction l as [|i l IH]; intros n order [s ts] R E; cbn [run_threads fst snd] in E.
  - by simplify_eq.
  - destruct (ts !! i) as [t|] eqn:Hi; [|done].
    destruct (saction i t s) as [[[t'|e|] s']|] eqn:W; try done.
    cbn [length]. replace (S (length l) + n)%nat with (length l + S n)%nat by lia.
    eapply IH; [by eapply srun_step|exact E].
Qed.

Definition empty_world : world := World true ∅ [] ∅ ∅ 0 [].

Definition sample_threads : list sthread :=
  [SWatch WsLock; SEvent 1 EvLock; SWatch WsLock; SEvent (-112) EvLock].

Definition sample_schedule : list nat :=
  [0; 0; 0; 0; 1; 1; 1; 2; 2; 2; 2; 3; 3; 3; 3; 1; 1; 1; 1; 3; 3; 3]%nat.

Definition sample_run : list nat * (sw_state * list sthread) :=
  default ([], (SwState None empty_world, []))
    (run_threads sample_schedule [] (SwState None empty_world, sample_threads)).
Definition sample_end : sw_state * list sthread := sample_run.2.

Example sample_end_futures :
  futs (sw_world sample_end.1) !! 0%nat = Some (SState (Some (Value (VState 1))) true) /\
  futs (sw_world sample_end.1) !! 1%nat
  = Some (SState (Some (Exception (get_exception_ptr_of error_code.session_expired))) true).
Proof. split; vm_compute; reflexivity. Qed.

Lemma state_watch_refines_witness :
  Forall returned sample_end.2 /\
  exists log : list (nat * option Z * option fut),
    log.*1.*1 = [0; 1; 2; 3]%nat /\
    run_jobs log.*1.*2 empty_world = (MOk log.*2, sw_world sample_end.1).
Proof.
  assert (Forall returned sample_end.2) as D by (vm_compute; repeat constructor).
  split; [exact D|].
  destruct (state_watch_refines empty_world sample_threads 22 [0; 1; 2; 3] sample_end.1 sample_end.2)
    as (_ & _ & _ & H).
  - split_and!; [done|constructor|]. intros f Hf. by apply elem_of_nil in Hf.
  - repeat constructor.
  - apply (run_threads_srun _ sample_schedule 0 [] _ _ _ (srun_nil _)). vm_compute. reflexivity.
  - destruct (H D) as (_ & log & H1 & _ & H3). exists log. split; [exact H1|exact H3].
Defined.
