(* ===== verification/Destruction.v ===== *)
(** * Destruction: the end of a connection

    [~connection_zk] of src/zk/connection_zk.cpp: it closes the session, and then the
    members of the object and of its base class go. The C client answers every call that
    is still outstanding from inside [zookeeper_close]; here these answers come first,
    one per outstanding call, with any result. *)

From S2P Require Import Prelude Text OrdMap Types Error Acl Native Results Multi World.
From S2P Require Import ConnectionZk Commit Runs Protocol Lifecycle.
Local Open Scope Z_scope.

Section destruction.
Context `{!ZooConsts}.

(** The destructor is [noexcept]: an exception here ends the program. What is left of
    [_watches] is released, then [_state_change_promises]. *)
Definition destroy_connection (zookeeper_close_rc : Z) : M unit :=
  close zookeeper_close_rc ;;;
  let! l_watches := mget watches in
  mmodify (set_watches ∅) ;;;
  miter free (elements l_watches) ;;;
  let! l_state_change_promises := mget state_promises in
  mmodify (set_state_promises []) ;;;
  miter destroy_promise l_state_change_promises.

(** An answer of the C client: the context of the call, the result, its arguments. *)
Definition answer : Type := addr * Z * payload.

Definition settle_calls (answers : list answer) : M unit :=
  miter (fun '(a, rc_in, p) => on_completion a rc_in p) answers.

(** One answer for each outstanding call, of the type of its callback. *)
Definition answers_fit (w : world) (P : gset addr) (answers : list answer) : Prop :=
  NoDup answers.*1.*1 /\ (forall a, a ∈ P <-> a ∈ answers.*1.*1) /\
  (forall a rc_in p, (a, rc_in, p) ∈ answers ->
     exists o, heap w !! a = Some o /\ payload_ok o p = true).

(** ** Answering the outstanding calls *)

(** The event futures of the watchers stay with their watchers. *)
Definition watchers_stay (w w' : world) : Prop :=
  forall a v, heap w !! a = Some (OWatcher v) ->
  exists v', heap w' !! a = Some (OWatcher v') /\ w_event_promise v' = w_event_promise v.

#[local] Instance watchers_stay_preorder : PreOrder watchers_stay.
Proof.
  split.
  - intros w a v Ha. eauto.
  - intros w1 w2 w3 H12 H23 a v Ha. destruct (H12 a v Ha) as (v2 & H2 & E2).
    destruct (H23 a v2 H2) as (v3 & H3 & E3). exists v3. split; [done|congruence].
Qed.

Lemma answers_fit_rest w w' P a rc_in p rest :
  answers_fit w P ((a, rc_in, p) :: rest) ->
  (forall b, b <> a -> heap w' !! b = heap w !! b) ->
  answers_fit w' (P ∖ {[a]}) rest.
Proof.
  intros (Hnd & HP & Hp) Hh. cbn in Hnd, HP. apply NoDup_cons in Hnd as [Hn Hnd].
  split_and!; [done| |].
  - intros b. rewrite elem_of_difference, HP, elem_of_cons, elem_of_singleton.
    split; [by intros [[?|?] ?]|]. intros Hb. split; [by right|]. by intros ->.
  - intros b rc q Hb. destruct (Hp b rc q) as (o & Ho & Hq); [by right|]. exists o.
    rewrite Hh; [done|]. intros ->. apply Hn. apply list_elem_of_fmap.
    exists (a, rc). split; [done|]. apply list_elem_of_fmap. by exists (a, rc, q).
Qed.

#[local] Instance stable_settle answers : Stable (settle_calls answers).
Proof. apply stable_miter. intros [[a rc] p]. apply _. Qed.

Lemma settle_run answers w P :
  inv (Sys w P) -> answers_fit w P answers ->
  exists w', settle_calls answers w = (MOk tt, w') /\ inv (Sys w' ∅) /\
    handle w' = handle w /\ state_promises w' = state_promises w /\ watchers_stay w w' /\
    (forall a rc_in p o out, (a, rc_in, p) ∈ answers -> heap w !! a = Some o ->
       completion_outcome o rc_in p = Some out ->
       exists r, futs w' !! data_promise o = Some (SState (Some out) r)).
Proof.
  revert w P. induction answers as [|[[a rc] p] rest IH]; intros w P Hinv Hfit.
  - exists w. assert (P = ∅) as ->.
    { destruct Hfit as (_ & HP & _). apply set_eq. intros b. rewrite HP. cbn. set_solver. }
    split_and!; try done. intros b rc p o out Hb. by apply not_elem_of_nil in Hb.
  - pose proof Hfit as (Hnd & HP & Hp). destruct (Hp a rc p) as (o & Ha & Hpay); [by left|].
    assert (a ∈ P) as HaP by (apply HP; cbn; by left).
    destruct (payload_ok_outcome o rc p Hpay) as [out Hout].
    destruct (completion_run a o rc p out w P Hinv HaP Ha Hout)
      as (w1 & E & Hi & Hf & Hh & Hw & Hhd & Hst & _).
    destruct (IH w1 _ Hi (answers_fit_rest _ _ _ _ _ _ _ Hfit Hh))
      as (w2 & E2 & Hi2 & Hhd2 & Hst2 & Hws & Hout2).
    exists w2. assert (watchers_stay w w1) as Hws1.
    { intros b v Hb. destruct (decide (b = a)) as [->|Hne]; [|rewrite Hh by done; eauto].
      exists (data_done v). rewrite Ha in Hb. injection Hb as ->. by rewrite (Hw v). }
    split_and!; [|done|congruence|congruence|by transitivity w1|].
    { unfold settle_calls in *. cbn [miter]. by rewrite (mseq_ok _ _ _ _ _ E). }
    intros b rc' p' o' out' [[= -> -> ->]|Hb]%elem_of_cons Ho' Hc'.
    + assert (o' = o) as -> by congruence. assert (out' = out) as -> by congruence.
      exact (proj2 (stable _ _ _ E2 (inv_fresh _ Hi)) _ _ _ Hf).
    + apply (Hout2 b rc' p' o' out' Hb); [|done]. rewrite Hh; [done|]. intros ->.
      cbn in Hnd. apply NoDup_cons in Hnd as [Hn _]. apply Hn, list_elem_of_fmap.
      exists (a, rc'). split; [done|]. apply list_elem_of_fmap. by exists (a, rc', p').
Qed.

#[local] Instance stable_destroy_connection rc : Stable (destroy_connection rc).
Proof. unfold destroy_connection. stable_tac. Qed.

(** ** The promises of the state watches *)

Definition broken : outcome := Exception (FutureError broken_promise).

Lemma break_run ps w :
  NoDup ps -> (forall f, f ∈ ps -> waiting w f) ->
  exists m, miter destroy_promise ps w = (MOk tt, set_futs m w) /\
    (forall f, f ∈ ps -> m !! f = Some (SState (Some broken) true)) /\
    (forall f, f ∉ ps -> m !! f = futs w !! f).
Proof.
  revert w. induction ps as [|p ps IH]; intros w Hnd Hw.
  - exists (futs w). split_and!; [by destruct w|by intros f []%not_elem_of_nil|done].
  - apply NoDup_cons in Hnd as [Hn Hnd]. pose proof (Hw p ltac:(by left)) as Hp.
    cbn [miter]. rewrite (mseq_ok _ _ _ _ _ (destroy_unsatisfied _ _ _ Hp)).
    destruct (IH (set_futs (<[p:=SState (Some broken) true]> (futs w)) w) Hnd) as (m & E & Hin & Hout).
    { intros f Hf. unfold waiting. cbn. rewrite lookup_insert_ne by (by intros ->).
      apply Hw. by right. }
    exists m. split_and!; [exact E|intros f [->|Hf]%elem_of_cons; [|by auto]|].
    + rewrite Hout by done. cbn. by rewrite lookup_insert_eq.
    + intros f [Hne Hf]%not_elem_of_cons. rewrite Hout by done. cbn. by rewrite lookup_insert_ne.
Qed.

(** ** The destructor *)

(** A connection whose handle is null has no objects left. *)
Lemma inv_null w P : inv (Sys w P) -> handle w = false -> P = ∅ /\ watches w = ∅ /\ heap w = ∅.
Proof.
  intros Hinv Hh. destruct (inv_closed _ Hinv Hh) as [HP Hw]. cbn in HP, Hw. subst P.
  split_and!; [done|done|]. apply map_eq. intros a. rewrite lookup_empty.
  destruct (heap w !! a) as [o|] eqn:Ha; [|done].
  destruct (inv_quiet w a o Hinv Ha) as [Hin _]. set_solver.
Qed.

(** Closing in either case: the session is open, or it was closed before. *)
Lemma closing_run rc w :
  inv (Sys w ∅) -> (handle w = true -> ok_rc rc = true) ->
  exists m, close rc w = (MOk tt, World false ∅ (state_promises w) ∅ m (next_fut w) (sent w)) /\
    (forall f, m !! f = Some (SState None true) <-> f ∈ state_promises w) /\
    (forall a v r, heap w !! a = Some (OWatcher v) ->
       futs w !! w_event_promise v = Some (SState None r) ->
       m !! w_event_promise v = Some (SState (Some (Value (VEvent closed_event))) r)).
Proof.
  intros Hinv Hrc. destruct (handle w) eqn:Hh.
  - destruct (close_ok_run rc w Hinv Hh (Hrc eq_refl)) as (m & E & Hev & Hout).
    exists m. split_and!; [done| |done]. intros f. by apply (close_waiting w m f Hinv).
  - destruct (inv_null w ∅ Hinv Hh) as (_ & Hw & Hp). exists (futs w). split_and!.
    + unfold close, mseq, mget. rewrite Hh. cbn. f_equal. destruct w; cbn in *. by subst.
    + intros f. split.
      * intros Hf. destruct (inv_owned _ Hinv f Hf) as [?|(a & o & Ha & _)]; [done|].
        cbn in Ha. by rewrite Hp in Ha.
      * intros Hf. exact (waiting_state w ∅ f Hinv Hf).
    + intros a v r Ha. by rewrite Hp in Ha.
Qed.

Lemma destroy_run rc w :
  inv (Sys w ∅) -> (handle w = true -> ok_rc rc = true) ->
  exists m, destroy_connection rc w = (MOk tt, World false ∅ [] ∅ m (next_fut w) (sent w)) /\
    (forall f, m !! f <> Some (SState None true)) /\
    (forall f, f ∈ state_promises w -> m !! f = Some (SState (Some broken) true)) /\
    (forall a v r, heap w !! a = Some (OWatcher v) ->
       futs w !! w_event_promise v = Some (SState None r) ->
       m !! w_event_promise v = Some (SState (Some (Value (VEvent closed_event))) r)).
Proof.
  intros Hinv Hrc. destruct (closing_run rc w Hinv Hrc) as (m & E & Hwt & Hev).
  unfold destroy_connection. rewrite (mseq_ok _ _ _ _ _ E). cbn. rewrite elements_empty. cbn.
  destruct (break_run (state_promises w) (World false ∅ [] ∅ m (next_fut w) (sent w)))
    as (m' & E' & Hin & Hout).
  { apply (inv_state_nodup w ∅ Hinv). }
  { intros f Hf. by apply Hwt. }
  exists m'. split; [exact E'|]. cbn in Hout. split_and!; [|done|].
  - intros f Hf. destruct (decide (f ∈ state_promises w)) as [Hs|Hs].
    + by rewrite Hin in Hf.
    + rewrite Hout in Hf by done. by apply Hs, Hwt.
  - intros a v r Ha Hf. rewrite Hout; [by eapply Hev|].
    apply (inv_not_state w ∅ a (OWatcher v)); [done|done|]. cbn. set_solver.
Qed.

(** The answers and the destructor together, in both cases. *)
Lemma destruction_run w P answers rc :
  inv (Sys w P) -> answers_fit w P answers ->
  exists r w', (settle_calls answers ;;; destroy_connection rc) w = (r, w') /\
    if handle w && negb (ok_rc rc) then r = MThrow (get_exception_ptr_of (error_code_from_raw rc))
    else
      r = MOk tt /\ heap w' = ∅ /\ watches w' = ∅ /\ state_promises w' = [] /\
      (forall f, ~ waiting w' f) /\ keeps_outcomes w w' /\
      (forall a rc_in p o out, (a, rc_in, p) ∈ answers -> heap w !! a = Some o ->
         completion_outcome o rc_in p = Some out ->
         exists b, futs w' !! data_promise o = Some (SState (Some out) b)) /\
      (forall a v, heap w !! a = Some (OWatcher v) ->
         exists b, futs w' !! w_event_promise v
                   = Some (SState (Some (Value (VEvent closed_event))) b)) /\
      (forall f, f ∈ state_promises w -> futs w' !! f = Some (SState (Some broken) true)).
Proof.
  intros Hinv Hfit.
  destruct (settle_run answers w P Hinv Hfit) as (w1 & E1 & Hi1 & Hh1 & Hs1 & Hws & Hout).
  rewrite (mseq_ok _ _ _ _ _ E1). rewrite <- Hh1.
  destruct (handle w1 && negb (ok_rc rc)) eqn:Hbad.
  - apply andb_true_iff in Hbad as [Hh Hrc]. eexists _, w1. split; [|reflexivity].
    unfold destroy_connection, close, mseq, mget, ok_rc in *. by rewrite Hh, Hrc.
  - destruct (destroy_run rc w1 Hi1) as (m & E2 & Hnw & Hbr & Hev).
    { intros Hh. rewrite Hh in Hbad. by destruct (ok_rc rc). }
    assert (keeps_outcomes w1 (World false ∅ [] ∅ m (next_fut w1) (sent w1))) as K2.
    { exact (proj2 (stable _ _ _ E2 (inv_fresh _ Hi1))). }
    pose proof (proj2 (stable _ _ _ E1 (inv_fresh _ Hinv))) as K1. cbn in K1.
    eexists _, _. split; [exact E2|]. split_and!; try done.
    + by eapply keeps_trans.
    + intros a rc_in p o out Ha Ho Hc. destruct (Hout a rc_in p o out Ha Ho Hc) as [b Hb].
      exact (K2 _ _ _ Hb).
    + intros a v Ha. destruct (Hws a v Ha) as (v' & Hv' & <-).
      pose proof (inv_obj _ Hi1 _ _ Hv') as (_ & _ & _ & Hok). cbn in Hv', Hok.
      destruct (w_data_delivered v'); [|set_solver]. destruct Hok as (_ & _ & [b Hb]).
      exists b. by apply (Hev a).
    + intros f Hf. apply Hbr. by rewrite Hs1.
Qed.

(** ** Properties *)

(** C12: destroying a connection settles every future it ever gave out. From any
    reachable state, once the C client has answered the calls that are still outstanding
    (with whatever results) and closed the session, no future waits any more: the future
    of each outstanding call holds the outcome of its answer, the event future of every
    watcher the session event with state [closed], a state watch [broken_promise], and
    what was stored before is still there; no context, watcher or promise is leaked. If
    [zookeeper_close] fails instead, an exception leaves the destructor, which ends the
    program. *)
Theorem destruction_settles w P answers rc :
  reachable (Sys w P) -> answers_fit w P answers ->
  exists r w', (settle_calls answers ;;; destroy_connection rc) w = (r, w') /\
    if handle w && negb (ok_rc rc) then r = MThrow (get_exception_ptr_of (error_code_from_raw rc))
    else
      r = MOk tt /\ heap w' = ∅ /\ watches w' = ∅ /\ state_promises w' = [] /\
      (forall f, ~ waiting w' f) /\ keeps_outcomes w w' /\
      (forall a rc_in p o out, (a, rc_in, p) ∈ answers -> heap w !! a = Some o ->
         completion_outcome o rc_in p = Some out ->
         exists b, futs w' !! data_promise o = Some (SState (Some out) b)) /\
      (forall a v, heap w !! a = Some (OWatcher v) ->
         exists b, futs w' !! w_event_promise v
                   = Some (SState (Some (Value (VEvent closed_event))) b)) /\
      (forall f, f ∈ state_promises w -> futs w' !! f = Some (SState (Some broken) true)).
Proof. intros Hinv%inv_reachable. by apply destruction_run. Qed.

End destruction.

(** ** A run *)

Section example.
#[local] Existing Instance zookeeper_3_5.

(** A watch and a read are outstanding, and a state watch waits. *)
Definition closing_answers : list answer :=
  [(1%positive, -116, PData [] no_raw_stat); (2%positive, 0, PData "x" no_raw_stat)].

Lemma destruction_settles_witness :
  exists r w', (settle_calls closing_answers ;;; destroy_connection 0) busy_world = (r, w') /\
    r = MOk tt /\ heap w' = ∅ /\ (forall f, ~ waiting w' f) /\
    futs w' !! 3%nat = Some (SState (Some broken) true).
Proof.
  destruct (destruction_settles busy_world (∅ ∪ {[1%positive]} ∪ {[2%positive]}) closing_answers 0
              busy_reachable) as (r & w' & E & Hr & Hh & _ & _ & Hw & _ & _ & _ & Hs).
  - split_and!.
    + cbn. apply NoDup_cons; split; [set_solver|]. apply NoDup_singleton.
    + intros a. cbn. set_solver.
    + intros a rc p [[= -> -> ->]|[[= -> -> ->]|[]%not_elem_of_nil]%elem_of_cons]%elem_of_cons;
        eexists; split; reflexivity.
  - exists r, w'. split_and!; [exact E|exact Hr|exact Hh|exact Hw|]. apply (Hs 3%nat). left.
Defined.

End example.
