(* ===== verification/Client.v ===== *)
(** * Client: src/zk/client.cpp

    [client] forwards to a [connection]; [connect] waits until the session is
    established. The interface between the two is a class, and the theorem about
    [connect] is proved against what the class promises. *)

From S2P Require Import Prelude Text OrdMap Types Error Acl Native Results Multi World.
From S2P Require Import ConnectionParams ConnectionZk Commit Runs Protocol Lifecycle.
Local Open Scope Z_scope.

(** ** Forwarding *)

(** The virtual functions of [connection]: an operation is given the address of its
    context and the answer of the C client. *)
Class Connection := {
  conn_close : Z -> M unit;
  conn_get : str -> addr -> Z -> M fut;
  conn_watch : str -> addr -> Z -> M fut;
  conn_get_children : str -> addr -> Z -> M fut;
  conn_watch_children : str -> addr -> Z -> M fut;
  conn_exists : str -> addr -> Z -> M fut;
  conn_watch_exists : str -> addr -> Z -> M fut;
  conn_create : str -> buffer -> acl -> Z -> addr -> Z -> M fut;
  conn_set : str -> buffer -> version -> addr -> Z -> M fut;
  conn_erase : str -> version -> addr -> Z -> M fut;
  conn_get_acl : str -> addr -> Z -> M fut;
  conn_set_acl : str -> acl -> acl_version -> addr -> Z -> M fut;
  conn_load_fence : addr -> Z -> M fut;
  conn_commit : multi_op -> addr -> Z -> M fut;
}.

#[global] Instance connection_zk `{!ZooConsts} : Connection := {|
  conn_close := close; conn_get := get; conn_watch := watch;
  conn_get_children := get_children; conn_watch_children := watch_children;
  conn_exists := exists_; conn_watch_exists := watch_exists; conn_create := create;
  conn_set := set; conn_erase := erase; conn_get_acl := get_acl; conn_set_acl := set_acl;
  conn_load_fence := load_fence; conn_commit := commit;
|}.

Section client.
Context `{!Connection}.

Definition client_close := conn_close.
Definition client_get := conn_get.
Definition client_watch := conn_watch.
Definition client_get_children := conn_get_children.
Definition client_watch_children := conn_watch_children.
Definition client_exists := conn_exists.
Definition client_watch_exists := conn_watch_exists.
Definition client_create := conn_create.
(** The overload without rules. *)
Definition client_create_default (path : str) (data : buffer) (mode : Z) : addr -> Z -> M fut :=
  client_create path data acls.open_unsafe mode.
Definition client_set := conn_set.
Definition client_get_acl := conn_get_acl.
Definition client_set_acl := conn_set_acl.
Definition client_erase := conn_erase.
Definition client_load_fence := conn_load_fence.
Definition client_commit := conn_commit.

End client.

(** ** What [connect] needs of a connection *)

(** State watches: [src_watch] registers one, [src_event] delivers a session event;
    a watch registered before an event gets its outcome, and outcomes stay. *)
Class SessionSource (W : Type) := {
  src_ok : W -> Prop;
  src_watch : W -> fut * W;
  src_event : Z -> W -> W;
  src_outcome : W -> fut -> option outcome;
  src_pending : W -> fut -> Prop;
  src_watch_ok : forall w, src_ok w -> src_ok (src_watch w).2;
  src_event_ok : forall s w, src_ok w -> src_ok (src_event s w);
  src_watch_pending : forall w, src_ok w -> src_pending (src_watch w).2 (src_watch w).1;
  src_watch_waits : forall w, src_ok w -> src_outcome (src_watch w).2 (src_watch w).1 = None;
  src_event_fires : forall s w f, src_ok w -> src_pending w f ->
    src_outcome (src_event s w) f = Some (session_event_outcome s);
  src_event_only : forall s w f, src_ok w ->
    src_outcome (src_event s w) f = src_outcome w f \/
    src_outcome (src_event s w) f = Some (session_event_outcome s);
  src_event_keeps : forall s w f o, src_ok w -> src_outcome w f = Some o ->
    src_outcome (src_event s w) f = Some o;
}.

(** The connection of ConnectionZk.v provides it. *)
Section source.
Context `{!ZooConsts}.

Definition sys_watch (s : sys) : fut * sys :=
  match watch_state (conn s) with
  | (MOk f, w) => (f, Sys w (pending s))
  | (_, w) => (next_fut w, Sys w (pending s))
  end.

Definition sys_event (st : Z) (s : sys) : sys := Sys (on_session_event st (conn s)).2 (pending s).

#[global] Instance sys_source : SessionSource sys.
Proof.
  refine {| src_ok := inv; src_watch := sys_watch; src_event := sys_event;
            src_outcome s f := futs (conn s) !! f ≫= ss_outcome;
            src_pending s f := f ∈ state_promises (conn s) |}.
  - intros [w P] Hinv. unfold sys_watch. cbn [conn pending].
    destruct (watch_state_run w P Hinv) as (w' & -> & Hi & _). done.
  - intros st [w P] Hinv. unfold sys_event. cbn [conn pending].
    destruct (session_run st w P Hinv) as (w' & -> & Hi & _). done.
  - intros [w P] Hinv. unfold sys_watch. cbn [conn pending].
    destruct (watch_state_run w P Hinv) as (w' & -> & _ & Hs & _). cbn. rewrite Hs. set_solver.
  - intros [w P] Hinv. unfold sys_watch. cbn [conn pending].
    destruct (watch_state_run w P Hinv) as (w' & -> & _ & _ & Hw). unfold waiting in Hw. cbn.
    by rewrite Hw.
  - intros st [w P] f Hinv Hf. unfold sys_event. cbn [conn pending] in *.
    destruct (session_run st w P Hinv) as (w' & -> & _ & _ & Hin & _). cbn. by rewrite (Hin f Hf).
  - intros st [w P] f Hinv. unfold sys_event. cbn [conn pending].
    destruct (session_run st w P Hinv) as (w' & -> & _ & _ & Hin & Hout). cbn.
    destruct (decide (f ∈ state_promises w)) as [Hf|Hf].
    + right. by rewrite (Hin f Hf).
    + left. by rewrite (Hout f Hf).
  - intros st [w P] f o Hinv Hf. unfold sys_event. cbn [conn pending] in *.
    destruct (session_run st w P Hinv) as (w' & -> & _ & _ & Hin & Hout). cbn.
    rewrite Hout; [done|]. intros Hst. pose proof (waiting_state w P f Hinv Hst) as Hw.
    unfold waiting in Hw. by rewrite Hw in Hf.
Defined.

End source.

(** ** connect *)

(** The result of [connect] for what the state watch gave: the lambda run by
    [zk::async]. [None] if the future holds something else than a state. *)
Definition connect_result (o : outcome) : option (res unit) :=
  match o with
  | Value (VState s) =>
      Some (if s =? state.connected then Ok tt
            else Throw (RuntimeError ("Unexpected state: " ++ print_state s)))
  | Exception e => Some (Throw e)
  | _ => None
  end.

(** Where [connect] is: before [watch_state], before the test of [state()], in the
    task that waits for the future, or done. *)
Inductive pc :=
| AtWatch
| AtCheck (f : fut)
| AtWait (f : fut)
| Done (r : res unit).

Section connect.
Context `{!ZooConsts} {W : Type} `{!SessionSource W}.

(** Whether there is a handle, its state and the session events its threads still have
    to deliver, both raw. *)
Record cstate := CState {
  cs_src : W; cs_handle : bool; cs_zoo : Z; cs_queue : list Z; cs_pc : pc }.

(** The test of [conn->state()], which is [closed] without a handle. *)
Definition check_state (handle : bool) (zoo : Z) (f : fut) : pc :=
  if (if handle then state_from_raw zoo else state.closed) =? state.connected
  then Done (Ok tt) else AtWait f.

(** The steps of [connect] itself. *)
Inductive client_step : cstate -> cstate -> Prop :=
| do_watch w h z q : client_step (CState w h z q AtWatch)
    (CState (src_watch w).2 h z q (AtCheck (src_watch w).1))
| do_check w h z q f : client_step (CState w h z q (AtCheck f)) (CState w h z q (check_state h z f))
| do_wait w h z q f o r : src_outcome w f = Some o -> connect_result o = Some r ->
    client_step (CState w h z q (AtWait f)) (CState w h z q (Done r)).

(** The C client first changes the state of the handle and queues the session event,
    which another thread delivers later. Without a handle it does nothing. *)
Inductive env_change : cstate -> cstate -> Prop :=
| env_change_intro w z q p raw : env_change (CState w true z q p) (CState w true raw (q ++ [raw]) p).

Inductive env_deliver : cstate -> cstate -> Prop :=
| env_deliver_intro w z raw q p : env_deliver (CState w true z (raw :: q) p)
    (CState (src_event (state_from_raw raw) w) true z q p).

(** What runs while the handle stays as it is. *)
Definition settle_step (c c' : cstate) : Prop := client_step c c' \/ env_deliver c c'.

Definition cstep (c c' : cstate) : Prop := settle_step c c' \/ env_change c c'.

(** [zookeeper_init] was just called. *)
Inductive connect_start : cstate -> Prop :=
| connect_start_intro w h z : src_ok w -> connect_start (CState w h z [] AtWatch).

(** ** The invariant *)

Definition fired (w : W) (f : fut) : Prop := exists s, src_outcome w f = Some (session_event_outcome s).

Definition waits (w : W) (h : bool) (z : Z) (q : list Z) (p : pc) : Prop :=
  match p with
  | AtCheck f => fired w f \/ src_pending w f
  | AtWait f => fired w f \/
      (src_pending w f /\ (h = true /\ state_from_raw z = state.connected -> q <> []))
  | _ => True
  end.

Definition connect_inv (c : cstate) : Prop :=
  src_ok (cs_src c) /\ waits (cs_src c) (cs_handle c) (cs_zoo c) (cs_queue c) (cs_pc c).

Lemma connect_inv_step c c' : connect_inv c -> cstep c c' -> connect_inv c'.
Proof.
  intros [Hok Hw] [[Hs|Hs]|Hs]; destruct Hs; unfold connect_inv in *; cbn in *.
  - split; [by apply src_watch_ok|]. right. by apply src_watch_pending.
  - split; [done|]. unfold check_state. case_goal; [done|]. bool_prop.
    cbn. destruct Hw as [?|?]; [by left|]. right. split; [done|]. by intros [-> ?].
  - done.
  - split; [by apply src_event_ok|]. destruct p; cbn in *; try done.
    + left. destruct Hw as [[s Hs]|Hp]; [exists s; by apply src_event_keeps|].
      eexists. by apply src_event_fires.
    + left. destruct Hw as [[s Hs]|[Hp _]]; [exists s; by apply src_event_keeps|].
      eexists. by apply src_event_fires.
  - split; [done|]. destruct p; cbn in *; try done. destruct Hw as [?|[? _]]; [by left|].
    right. split; [done|]. intros _. by destruct q.
Qed.

Lemma connect_inv_reachable c c' : connect_start c -> rtc cstep c c' -> connect_inv c'.
Proof.
  intros Hc Hs. assert (connect_inv c) as Hinv by by destruct Hc.
  clear Hc. induction Hs as [c|c1 c2 c3 H12 _ IH]; [done|]. by eapply IH, connect_inv_step.
Qed.

Lemma connect_result_defined s : exists r, connect_result (session_event_outcome s) = Some r.
Proof. unfold session_event_outcome. repeat case_goal; cbn; eauto. Qed.

(** The steps [connect] has before it, and the deliveries. *)
Definition c_left (c : cstate) : nat :=
  length (cs_queue c) +
  match cs_pc c with AtWatch => 3 | AtCheck _ => 2 | AtWait _ => 1 | Done _ => 0 end.

Lemma settle_left c c' :
  settle_step c c' ->
  (c_left c' < c_left c)%nat /\ cs_handle c' = cs_handle c /\ cs_zoo c' = cs_zoo c.
Proof.
  intros [Hs|Hs]; destruct Hs; unfold c_left, check_state; cbn; (split; [|done]);
    repeat case_goal; lia.
Qed.

(** With the handle connected, [connect] is not stuck before it is done. *)
Lemma connect_moves c :
  connect_inv c -> cs_handle c = true -> state_from_raw (cs_zoo c) = state.connected ->
  (exists r, cs_pc c = Done r) \/ exists c', settle_step c c'.
Proof.
  intros [Hok Hw] Hh Hz. destruct c as [w h z q p]; cbn in *; subst h.
  destruct q as [|raw q]; [|right; eexists; right; constructor].
  destruct p as [|f|f|r]; [right; eexists; left; constructor|right; eexists; left; constructor| |eauto].
  right. destruct Hw as [[s Hs']|[_ Hq]]; [|by destruct (Hq (conj eq_refl Hz))].
  destruct (connect_result_defined s) as [r Hr]. eexists. left. by eapply do_wait.
Qed.

(** ** Success is genuine *)

Definition established (c0 c : cstate) : Prop :=
  exists c1, rtc cstep c0 c1 /\ rtc cstep c1 c /\
    cs_handle c1 = true /\ state_from_raw (cs_zoo c1) = state.connected.

(** Whoever has seen [connected] saw it of the handle. *)
Definition seen_only (E : Prop) (c : cstate) : Prop :=
  src_ok (cs_src c) /\
  (forall raw, raw ∈ cs_queue c -> state_from_raw raw = state.connected -> E) /\
  match cs_pc c with
  | AtWatch => True
  | AtCheck f | AtWait f => src_outcome (cs_src c) f = Some (Value (VState state.connected)) -> E
  | Done r => r = Ok tt -> E
  end.

Lemma seen_only_impl (E E' : Prop) c : (E -> E') -> seen_only E c -> seen_only E' c.
Proof.
  intros HE (Hok & Hq & Hp). split_and!; [done|eauto|]. destruct (cs_pc c); auto.
Qed.

Lemma outcome_connected s :
  session_event_outcome s = Value (VState state.connected) -> s = state.connected.
Proof. unfold session_event_outcome. repeat case_goal; by intros [= ->]. Qed.

Lemma seen_only_step (E : Prop) c c' :
  seen_only E c -> cstep c c' ->
  (cs_handle c' = true -> state_from_raw (cs_zoo c') = state.connected -> E) -> seen_only E c'.
Proof.
  intros (Hok & Hq & Hp) [[Hs|Hs]|Hs] HE;
    [destruct Hs as [w h z q|w h z q f|w h z q f o r Ho Hr]|destruct Hs as [w z raw q p]|
     destruct Hs as [w z q p raw]]; unfold seen_only in *; cbn in *.
  - split_and!; [by apply src_watch_ok|done|]. rewrite src_watch_waits by done. done.
  - split_and!; [done|done|]. unfold check_state. case_goal; [|done]. intros _. bool_prop.
    destruct h; [by apply HE|done].
  - split_and!; [done|done|]. intros ->. apply Hp. rewrite Ho. f_equal.
    destruct o as [[]|]; try done. cbn in Hr. case_hyp Hr; [|done]. bool_prop. by subst.
  - assert (forall f, (src_outcome w f = Some (Value (VState state.connected)) -> E) ->
      src_outcome (src_event (state_from_raw raw) w) f = Some (Value (VState state.connected)) -> E) as Hf.
    { intros f Hf0 Hf. destruct (src_event_only (state_from_raw raw) w f Hok) as [E1|E1]; rewrite E1 in Hf; [auto|].
      injection Hf as Hf%outcome_connected. apply (Hq raw); [left|done]. }
    split_and!; [by apply src_event_ok|intros x Hx; apply Hq; by right|].
    destruct p as [|f|f|r]; [done|by apply Hf|by apply Hf|done].
  - split_and!; [done| |done]. intros x [Hx|Hx%list_elem_of_singleton]%elem_of_app; [eauto|]. subst. auto.
Qed.

Lemma seen_only_reachable c0 c :
  connect_start c0 -> rtc cstep c0 c -> seen_only (established c0 c) c.
Proof.
  intros Hc Hs. revert c Hs. apply rtc_ind_r.
  - destruct Hc. split_and!; [done| |done]. intros raw Hr. by apply elem_of_nil in Hr.
  - intros c c' Hs St IH. eapply seen_only_step; [|exact St|].
    + eapply seen_only_impl; [|exact IH]. intros (c1 & ? & ? & ?). exists c1. split; [done|].
      split; [|done]. by eapply rtc_r.
    + intros Hh Hz. exists c'. split_and!; [by eapply rtc_r|done|done|done].
Qed.

(** * Properties *)

(** C10: [connect] does not miss the moment the session is established, however its
    steps interleave with those of the C client. Once the handle is connected, whatever
    runs without a further change of the handle (the steps of [connect] and the deliveries
    of session events) ends after at most 3 steps and one per undelivered event, and when
    nothing can run any more [connect] is done. The reason is the order of the code: it
    registers its state watch before it tests the state. And [connect] succeeds only if
    the handle was connected at some time since it began. Proved for every connection
    that keeps the promises of [SessionSource]. *)
Theorem connect_completes c0 c :
  connect_start c0 -> rtc cstep c0 c ->
  (cs_handle c = true -> state_from_raw (cs_zoo c) = state.connected ->
   forall n c', nsteps settle_step n c c' ->
     (n <= 3 + length (cs_queue c))%nat /\
     ((forall c'', ~ settle_step c' c'') -> exists r, cs_pc c' = Done r)) /\
  (cs_pc c = Done (Ok tt) -> established c0 c).
Proof.
  intros Hc Hs. split.
  - intros Hh Hz n c' Hn. pose proof (connect_inv_reachable _ _ Hc Hs) as Hi.
    assert (n + c_left c' <= c_left c /\ connect_inv c' /\ cs_handle c' = true /\
            state_from_raw (cs_zoo c') = state.connected)%nat as (Hl & Hi' & Hh' & Hz').
    { clear Hc Hs. revert Hh Hz Hi. induction Hn as [c|n c1 c2 c3 St _ IH]; intros Hh Hz Hi; [done|].
      destruct (settle_left _ _ St) as (L & Eh & Ez). rewrite <- Eh in Hh. rewrite <- Ez in Hz.
      destruct (IH Hh Hz) as (L' & R); [eapply connect_inv_step; [exact Hi|by left]|]. split; [lia|done]. }
    split; [unfold c_left in *; destruct (cs_pc c), (cs_pc c'); lia|].
    intros Q. destruct (connect_moves c' Hi' Hh' Hz') as [?|[c'' St]]; [done|]. by destruct (Q c'').
  - intros Hd. destruct (seen_only_reachable _ _ Hc Hs) as (_ & _ & HE). rewrite Hd in HE. by apply HE.
Qed.

(** ** What goes wrong before *)

(** The constructors: a connection is made and not waited for. *)
Definition make_client (params : connection_params) (handle_ok : bool) : res (init_call * bool) :=
  construct params handle_ok.
Definition make_client_string (conn_string : str) (handle_ok : bool) : mres (init_call * bool) :=
  ConnectionParams.connect conn_string handle_ok.

(** [connect] with parameters, where its [try] block begins to wait or its handler has put
    the exception into the future; and with a string. [handle_ok]: [zookeeper_init] returned
    a handle. *)
Definition client_connect (conn_params : connection_params) (handle_ok : bool) : pc :=
  match construct conn_params handle_ok with
  | Ok _ => AtWatch
  | Throw e => Done (Throw e)
  end.

Definition client_connect_string (conn_string : str) (handle_ok : bool) : mres pc :=
  conn_params <-? parse conn_string ;
  MOk (client_connect conn_params handle_ok).

(** Without a handle nobody stores into the state watch. *)
Definition deserted (c : cstate) : Prop :=
  src_ok (cs_src c) /\ cs_handle c = false /\
  match cs_pc c with
  | AtWatch => True
  | AtCheck f | AtWait f => src_outcome (cs_src c) f = None
  | Done _ => False
  end.

Lemma deserted_step c c' : deserted c -> cstep c c' -> deserted c'.
Proof.
  intros (Hok & Hh & Hp) [[Hs|Hs]|Hs]; destruct Hs; unfold deserted in *; cbn in *; subst; try done.
  - split_and!; [by apply src_watch_ok|done|by apply src_watch_waits].
  - congruence.
Qed.

(** C30: how [connect] fails before the session exists. A string that does not parse makes
    [connect] itself throw, so the caller gets no future; a schema other than [zk] is
    reported through the future; and if [zookeeper_init] gives no handle, the future of
    [connect] is never satisfied: whatever runs, it ends in the wait for a state watch that
    nobody stores into, where it can take no step. *)
Theorem connect_errors conn_string handle_ok :
  (forall e, parse conn_string = MThrow e -> client_connect_string conn_string handle_ok = MThrow e) /\
  (forall p, parse conn_string = MOk p -> connection_schema p <> "zk" ->
     exists msg, client_connect_string conn_string handle_ok = MOk (Done (Throw (InvalidArgument msg)))) /\
  (forall p, parse conn_string = MOk p -> connection_schema p = "zk" ->
     client_connect_string conn_string handle_ok = MOk AtWatch) /\
  (forall w z c, src_ok w -> rtc cstep (CState w false z [] AtWatch) c ->
     (forall r, cs_pc c <> Done r) /\
     (forall f, cs_pc c = AtWait f -> forall c', ~ cstep c c')).
Proof.
  unfold client_connect_string, client_connect, construct. split_and!.
  - by intros e ->.
  - intros p -> Hs. cbn. unfold str_eqb. rewrite bool_decide_false by done. cbn. eauto.
  - intros p -> Hs. cbn. by rewrite Hs.
  - intros w z c Hok Hs. assert (deserted c) as (Hc & Hh & Hp).
    { remember (CState w false z [] AtWatch) as c0 eqn:E.
      assert (deserted c0) as H0 by by subst. clear E.
      induction Hs as [|c1 c2 c3 H12 _ IH]; [done|]. by eapply IH, deserted_step. }
    split.
    + intros r E. by rewrite E in Hp.
    + intros f E c' [[St|St]|St]; destruct St; cbn in *; try done. congruence.
Qed.

End connect.

(** A run against the connection: the session is established between the test of the
    state and the wait. *)
Section example.
#[local] Existing Instance zookeeper_3_5.

Definition waiting_client : cstate :=
  CState (sys_watch initial).2 true 3 [3] (AtWait (sys_watch initial).1).

Definition done_client : cstate :=
  CState (src_event (state_from_raw 3) (sys_watch initial).2) true 3 [] (Done (Ok tt)).

Lemma waiting_reached : rtc cstep (CState initial true 1 [] AtWatch) waiting_client.
Proof.
  eapply rtc_l; [left; left; apply do_watch|]. eapply rtc_l; [left; left; apply do_check|].
  eapply rtc_l; [right; apply (env_change_intro _ _ _ _ 3)|]. apply rtc_refl.
Qed.

Lemma waiting_settles : nsteps settle_step 2 waiting_client done_client.
Proof.
  eapply nsteps_l; [right; apply env_deliver_intro|].
  eapply nsteps_l; [left; eapply do_wait; reflexivity|]. constructor.
Qed.

Lemma connect_completes_witness :
  ((2 <= 3 + length (cs_queue waiting_client))%nat /\
   ((forall c'', ~ settle_step done_client c'') -> exists r, cs_pc done_client = Done r)) /\
  established (CState initial true 1 [] AtWatch) done_client.
Proof.
  assert (connect_start (CState initial true 1 [] AtWatch)) as S0 by (constructor; apply inv_initial).
  split.
  - apply (connect_completes (CState initial true 1 [] AtWatch) waiting_client S0 waiting_reached);
      [reflexivity|reflexivity|exact waiting_settles].
  - apply (connect_completes (CState initial true 1 [] AtWatch) done_client S0); [|reflexivity].
    transitivity waiting_client; [exact waiting_reached|].
    eapply rtc_l; [left; right; apply env_deliver_intro|].
    eapply rtc_l; [left; left; eapply do_wait; reflexivity|]. apply rtc_refl.
Defined.

(** A malformed string, a schema nobody implements, and a good one. *)
Example connect_strings :
  (exists e, client_connect_string "zk:/localhost" true = MThrow e) /\
  (exists e, client_connect_string "fakezk://localhost:2181/" true = MOk (Done (Throw e))) /\
  client_connect_string "zk://localhost:2181/" false = MOk AtWatch.
Proof. split_and!; [eexists; vm_compute; reflexivity..|vm_compute; reflexivity]. Qed.

End example.
