(* ===== verification/Contract.v ===== *)
(** * Contract: what the caller of a client gets

    The operations of [client] from the call to the outcome of the future, through the
    forwarding of client.cpp, the calls and the completion callbacks of connection_zk.cpp
    and the conversion of codes to exceptions of error.cpp, against what client.hpp
    documents: the value for an answer of the server, and the exceptions named there. *)

From S2P Require Import Prelude Text OrdMap Types Error Acl Native Results Multi World.
From S2P Require Import ConnectionZk Commit Runs Protocol Lifecycle Client.
Local Open Scope Z_scope.

Section contract.
Context `{!ZooConsts}.

(** The operations of a client. *)
Definition client_operation (c : api_call) : addr -> Z -> M fut :=
  match c with
  | CGet path => client_get path
  | CGetChildren path => client_get_children path
  | CExists path => client_exists path
  | CCreate path data rules mode => client_create path data rules mode
  | CSet path data check => client_set path data check
  | CErase path check => client_erase path check
  | CGetAcl path => client_get_acl path
  | CSetAcl path rules check => client_set_acl path rules check
  | CLoadFence => client_load_fence
  | CCommit txn => client_commit txn
  | CWatch path => client_watch path
  | CWatchChildren path => client_watch_children path
  | CWatchExists path => client_watch_exists path
  end.

(** The exceptions documented for each operation, with the code the server reports. The
    class [invalid_acl] named for [create] does not exist: the code becomes
    [invalid_arguments]. For [commit] the documentation promises [transaction_failed] for
    the errors of the transaction itself, with the code as [underlying_cause]; the
    predicate [is_api_error] it refers to does not exist, and is read as
    [is_check_failed]. *)
Definition documented_throws (c : api_call) : list (Z * error_class) :=
  match c with
  | CGet _ | CWatch _ | CGetChildren _ | CGetAcl _ => [(error_code.no_entry, no_entry)]
  | CCreate _ _ _ _ =>
      [(error_code.entry_exists, entry_exists); (error_code.no_entry, no_entry);
       (error_code.no_children_for_ephemerals, no_children_for_ephemerals);
       (ZINVALIDACL, invalid_arguments); (error_code.invalid_arguments, invalid_arguments)]
  | CSet _ _ _ =>
      [(error_code.no_entry, no_entry); (error_code.version_mismatch, version_mismatch);
       (error_code.invalid_arguments, invalid_arguments)]
  | CSetAcl _ _ _ =>
      [(error_code.no_entry, no_entry); (error_code.version_mismatch, version_mismatch)]
  | CErase _ _ =>
      [(error_code.no_entry, no_entry); (error_code.version_mismatch, version_mismatch);
       (error_code.not_empty, not_empty)]
  | CCommit _ =>
      (fun code => (code, transaction_failed)) <$>
      [error_code.no_children_for_ephemerals; error_code.no_entry; error_code.entry_exists;
       error_code.not_empty; error_code.transaction_failed; error_code.version_mismatch]
  | CExists _ | CWatchChildren _ | CWatchExists _ | CLoadFence => []
  end.

(** The C client numbers its own errors apart from those the library names. *)
Definition codes_apart : Prop :=
  zoo_documented /\
  forall z, z ∈ [ZOPERATIONTIMEOUT; ZINVALIDCALLBACK; ZINVALIDACL; ZSESSIONMOVED] ->
    z ∉ throw_error_cases.*1.

(** ** Answers *)

(** An answer of the type of the operation's callback. *)
Definition answer_fits (c : api_call) (p : payload) : bool :=
  match c, p with
  | (CGet _ | CWatch _), PData _ _ => true
  | (CGetChildren _ | CWatchChildren _), PStrings _ _ => true
  | (CExists _ | CWatchExists _ | CSet _ _ _), PStat _ => true
  | (CCreate _ _ _ _ | CLoadFence), PName _ => true
  | (CErase _ _ | CSetAcl _ _ _), PVoid => true
  | CGetAcl _, PAcl _ _ => true
  | CCommit txn, PMulti rs => bool_decide (length rs = length txn)
  | _, _ => false
  end.

(** The value a successful answer is delivered as. A watch comes with the future of its
    event, which waits. *)
Definition answered (w : world) (c : api_call) (p : payload) (out : outcome) : Prop :=
  match c, p with
  | CGet _, PData data st => out = Value (VGet (GetResult data (stat_from_raw st)))
  | CGetChildren _, PStrings strings st =>
      out = Value (VGetChildren (GetChildrenResult (string_vector_from_raw strings) (stat_from_raw st)))
  | CExists _, PStat st => out = Value (VExists (ExistsResult (Some (stat_from_raw st))))
  | CCreate _ _ _ _, PName name => out = Value (VCreate (CreateResult name))
  | CSet _ _ _, PStat st => out = Value (VSet (SetResult (stat_from_raw st)))
  | CGetAcl _, PAcl rules st =>
      out = Value (VGetAcl (GetAclResult (acl_from_raw rules) (stat_from_raw st)))
  | (CErase _ _ | CSetAcl _ _ _), PVoid | CLoadFence, PName _ => out = Value VVoid
  | CCommit txn, PMulti _ => exists parts, out = Value (VMulti parts) /\
      Forall2 (fun o p => part_type p = op_type_of o /\ part_wf p = true) txn parts
  | CWatch _, PData data st => exists next, waiting w next /\
      out = Value (VWatch (WatchResult (GetResult data (stat_from_raw st)) next))
  | CWatchChildren _, PStrings strings st => exists next, waiting w next /\
      out = Value (VWatchChildren (WatchChildrenResult
        (GetChildrenResult (string_vector_from_raw strings) (stat_from_raw st)) next))
  | CWatchExists _, PStat st => exists next, waiting w next /\
      out = Value (VWatchExists (WatchExistsResult (ExistsResult (Some (stat_from_raw st))) next))
  | _, _ => False
  end.

(** The two operations for which a missing entry is an answer. *)
Definition reports_absence (c : api_call) : bool :=
  match c with CExists _ | CWatchExists _ => true | _ => false end.

Definition answered_absent (w : world) (c : api_call) (out : outcome) : Prop :=
  match c with
  | CExists _ => out = Value (VExists (ExistsResult None))
  | CWatchExists _ => exists next, waiting w next /\
      out = Value (VWatchExists (WatchExistsResult (ExistsResult None) next))
  | _ => False
  end.

(** The code an exception reports: [underlying_cause] of a [transaction_failed], [code]
    of any other. *)
Definition cause (e : zk_error) : Z :=
  match err_txn e with Some (underlying, _) => underlying | None => err_code e end.

Definition throws (cls : error_class) (code : Z) (out : outcome) : Prop :=
  exists e, out = Exception (ZkError e) /\ err_class e = cls /\ cause e = code.

(** What the future holds once the server has answered with [rc_in]. *)
Definition contract (w : world) (c : api_call) (rc_in : Z) (p : payload) (out : outcome) : Prop :=
  let code := error_code_from_raw rc_in in
  if ok_rc rc_in then answered w c p out
  else if reports_absence c && (code =? error_code.no_entry) then answered_absent w c out
  else if is_commit c then
    exists idx, out = Exception (ZkError (make_transaction_failed code idx))
  else out = Exception (ZkError (throw_error code)).

(** ** From the call to the outcome *)

Lemma client_operation_run c : client_operation c = run_api c.
Proof. by destruct c. Qed.

(** The context of a call that neither sets a watch nor commits. *)
Definition promise_kind (c : api_call) : option call_kind :=
  match c with
  | CGet _ => Some KGet
  | CGetChildren _ => Some KGetChildren
  | CExists _ => Some KExists
  | CCreate _ _ _ _ => Some KCreate
  | CSet _ _ _ => Some KSet
  | CErase _ _ => Some KErase
  | CGetAcl _ => Some KGetAcl
  | CSetAcl _ _ _ => Some KSetAcl
  | CLoadFence => Some KLoadFence
  | _ => None
  end.

(** The object an accepted call leaves with the C client. *)
Definition context_of (c : api_call) (o : obj) : Prop :=
  match o with
  | OPromise k _ => promise_kind c = Some k
  | OWatcher v => watch_kind_of c = Some (w_kind v) /\ w_data_delivered v = false
  | OCompleter cc => c = CCommit (c_source_txn cc)
  end.

Lemma accepted_object c a rc w :
  heap w !! a = None -> call_fits c -> ok_rc rc = true ->
  exists f o w1, run_api c a rc w = (MOk f, w1) /\ heap w1 !! a = Some o /\ data_promise o = f /\
    context_of c o.
Proof.
  intros Ha Hfit Hrc. destruct (promise_kind c) as [k|] eqn:Ek.
  - exists (next_fut w), (OPromise k (next_fut w)), (after_launch a (OPromise k (next_fut w)) (SState None true) (request_of c) w).
    split_and!; [|by cbn; rewrite lookup_insert_eq|done|done].
    destruct c; try discriminate Ek; injection Ek as <-; cbn [run_api];
      first [rewrite load_fence_run by done|etransitivity; [by apply async_op_run|]]; by rewrite Hrc.
  - destruct (watch_kind_of c) as [k|] eqn:Ew.
    + rewrite (run_api_watch c k a rc w Ha Ew), Hrc. eexists _, _, _.
      split_and!; [done|by cbn; rewrite lookup_insert_eq|done|]. by split.
    + destruct c as [| | | | | | | | |txn| | |]; try discriminate.
      destruct (commit_run txn a rc w Ha Hfit) as (cc & Ht & Hp & E). cbn [run_api]. rewrite E.
      unfold ok_rc in Hrc. rewrite Hrc. eexists _, (OCompleter cc), _.
      split_and!; [done|by cbn; rewrite lookup_insert_eq|done|cbn; by rewrite Ht].
Qed.

Lemma answer_payload c o p : answer_fits c p = true -> context_of c o -> payload_ok o p = true.
Proof.
  intros Hp. destruct o as [k f|v|cc]; cbn.
  - intros Hk. destruct c; try discriminate Hk; injection Hk as <-; by destruct p.
  - intros [Hk _]. destruct c; try discriminate Hk; injection Hk as <-; destruct p; done || by apply bool_decide_eq_true.
  - intros ->. by destruct p.
Qed.

(** The outcome each kind of context is given. *)
Lemma promise_contract w c k rc p out :
  promise_kind c = Some k -> callback k rc p = Some out -> contract w c rc p out.
Proof.
  intros Hk Hc. unfold contract, ok_rc. destruct c; try discriminate Hk; injection Hk as <-; destruct p;
    try discriminate Hc; injection Hc as <-; cbn -[error_code_from_raw throw_error];
    unfold get_callback, get_children_callback, exists_callback, create_callback, set_callback,
      void_callback, get_acl_callback;
    destruct (error_code_from_raw rc =? error_code.ok); cbn [negb]; try done.
  by destruct (error_code_from_raw rc =? error_code.no_entry).
Qed.

Lemma watch_contract w c v rc p out taken :
  watch_kind_of c = Some (w_kind v) -> watch_outcome v rc p = Some (out, taken) ->
  (taken = true -> waiting w (w_event_promise v)) -> contract w c rc p out.
Proof.
  intros Hk Ho Hw. unfold watch_outcome in Ho. unfold contract.
  destruct c; try discriminate Hk; injection Hk as Hk; rewrite <- Hk in Ho; destruct p; try discriminate Ho;
    injection Ho as Ho; destruct (ok_rc rc); cbn [reports_absence andb is_commit answered];
    try (destruct (error_code_from_raw rc =? error_code.no_entry)); injection Ho as <- <-; cbn; eauto.
Qed.

Lemma commit_contract w txn rc rs out :
  length rs = length txn -> deliver_outcome txn (error_code_from_raw rc) rs = Some out ->
  contract w (CCommit txn) rc (PMulti rs) out.
Proof.
  intros Hlen Ho. unfold contract, ok_rc, deliver_outcome in *. destruct (_ =? error_code.ok); cbn.
  - destruct (collect_parts_ok txn rs Hlen) as (ps & E & HF). rewrite E in Ho. injection Ho as <-. eauto.
  - injection Ho as <-. eauto.
Qed.

Lemma completed c a o rc p w P :
  inv (Sys w P) -> a ∈ P -> heap w !! a = Some o -> context_of c o -> answer_fits c p = true ->
  exists out w2, on_completion a rc p w = (MOk tt, w2) /\
    futs w2 !! data_promise o = Some (SState (Some out) true) /\ contract w2 c rc p out /\
    (is_Some (watch_kind_of c) -> a ∈ watches w2) /\ (watch_kind_of c = None -> heap w2 !! a = None).
Proof.
  intros Hinv HP Ha Hc Hp. pose proof (answer_payload c o p Hp Hc) as Hok.
  pose proof (inv_obj _ Hinv _ _ Ha) as Ho. cbn in Ho. destruct o as [k f|v|cc]; cbn in Hc.
  - destruct Ho as [_ Hf]. destruct (payload_ok_outcome _ rc p Hok) as [out Hout]. cbn in Hout.
    exists out. eexists. split_and!; [by eapply promise_completion_run|by cbn; rewrite lookup_insert_eq
      |by eapply promise_contract| |by cbn; rewrite lookup_delete_eq].
    by destruct c; try discriminate Hc; intros [? ?].
  - destruct Ho as (Hw & He & Hne & Ho), Hc as [Hk Hd]. rewrite Hd in Ho. destruct Ho as (_ & Hdp & Hev).
    destruct (payload_ok_outcome _ rc p Hok) as [out Hout]. cbn in Hout.
    destruct (watch_outcome v rc p) as [[out' taken]|] eqn:Eo; [|done]. injection Hout as ->.
    exists out. eexists. split_and!; [by eapply watcher_completion_run|by cbn; rewrite lookup_insert_eq| |done|by rewrite Hk].
    eapply watch_contract; [done|done|]. intros ->. unfold waiting. cbn.
    by rewrite lookup_insert_ne, lookup_insert_eq.
  - subst c. destruct Ho as [_ Hf]. destruct p as [| | | | | |rs]; try discriminate Hp.
    apply bool_decide_eq_true in Hp. destruct (payload_ok_outcome _ rc _ Hok) as [out Hout]. cbn in Hout.
    exists out. eexists. split_and!; [by eapply commit_completion_run|by cbn; rewrite lookup_insert_eq
      |by apply commit_contract|by intros [? ?]|by cbn; rewrite lookup_delete_eq].
Qed.

(** ** The documented exceptions *)

Lemma code_kept z : codes_apart -> z ∈ throw_error_cases.*1 -> error_code_from_raw z = z.
Proof.
  intros [_ Hap] Hz. apply switch_not_in. cbn. intros Hin. by apply (Hap z Hin).
Qed.

Lemma acl_code : codes_apart -> error_code_from_raw ZINVALIDACL = error_code.invalid_arguments.
Proof.
  intros [(_ & Hb & _ & Hnd & _) _]. rewrite <- Hb. apply switch_in; [exact Hnd|]. cbn. by do 2 right; left.
Qed.

Lemma throw_error_cause code : cause (throw_error code) = code.
Proof.
  revert code. apply (throw_error_ind (fun code e => cause e = code)).
  - vm_decide.
  - done.
Qed.

(** Each documented code, converted, is an error that becomes the documented class. *)
Lemma documented_class c raw cls :
  codes_apart -> (raw, cls) ∈ documented_throws c ->
  ok_rc raw = false /\ reports_absence c = false /\
  if is_commit c then cls = transaction_failed
  else err_class (throw_error (error_code_from_raw raw)) = cls.
Proof.
  intros Hap Hin. unfold ok_rc.
  destruct c; cbn in Hin; repeat (apply elem_of_cons in Hin as [[= -> ->]|Hin]); try by apply elem_of_nil in Hin.
  all: try rewrite acl_code by done; try rewrite code_kept by (done || vm_decide); done.
Qed.

(** What the future of a call holds after a documented code. *)
Lemma contract_documented w c raw cls p out :
  codes_apart -> (raw, cls) ∈ documented_throws c -> contract w c raw p out ->
  throws cls (error_code_from_raw raw) out.
Proof.
  intros Hap Hin Hcon. destruct (documented_class c raw cls Hap Hin) as (Hk & Hx & Hc).
  unfold contract in Hcon. rewrite Hk, Hx in Hcon. cbn [andb] in Hcon.
  destruct (is_commit c).
  - destruct Hcon as [idx ->]. rewrite Hc. by eexists.
  - eexists. split_and!; [exact Hcon|done|apply throw_error_cause].
Qed.

(** ** Properties *)


End contract.

(** ** Runs *)

Section example.
#[local] Existing Instance zookeeper_3_5.

Lemma codes_apart_3_5 : codes_apart.
Proof.
  split; [|apply list.Forall_forall; vm_decide].
  unfold zoo_documented. split_and!; try reflexivity; try vm_decide.
Qed.


End example.
