(* ===== verification/BuildConfig.v ===== *)
(** * BuildConfig: the types a build chooses

    The backing types of [buffer], [future], [promise] and [exception_ptr], chosen by the
    preprocessor in config.hpp, buffer.hpp, future.hpp, exceptions.hpp and exceptions.cpp
    from macros, which cmake/modules/ConfigurationSetting.cmake and CMakeLists.txt define.
    Headers are programs on the state of the preprocessor. CMakeLists.txt compiles with
    -Werror, so that a warning of the preprocessor is an error: a macro that is defined
    again with another body ends the compilation. What the compiler knows of the type a
    build takes for [buffer] is a parameter, the operands of the static assertions of
    buffer.hpp. *)

From S2P Require Import Prelude.
From Stdlib Require Import String.
Local Open Scope string_scope.

(** ** The preprocessor *)

(** The body of a macro: the operand of an [#if], or other tokens. *)
Inductive body := Int (n : Z) | Tokens (s : string).

(** The macros that are defined, the headers included, and what the declarations of [zk]
    stand for. *)
Record pp := Pp {
  defs : string -> option body;
  included : list string;
  declared : string -> option string }.

Definition directive := pp -> string + pp.

Definition upd {A} (x : string) (v : A) (m : string -> option A) : string -> option A :=
  fun y => if String.eqb x y then Some v else m y.

#[global] Instance body_eq_dec : EqDecision body.
Proof. solve_decision. Defined.

Definition skip : directive := inr.

Definition seq (d e : directive) : directive := fun st =>
  match d st with inl msg => inl msg | inr st' => e st' end.

Declare Scope pp_scope.
Delimit Scope pp_scope with pp.
Local Open Scope pp_scope.
Notation "d ;;; e" := (seq d e) (at level 100, right associativity) : pp_scope.

Definition pp_error (msg : string) : directive := fun _ => inl msg.

(** Defining a macro again with the same body has no effect. *)
Definition agree (d : string -> option body) (x : string) (b : body) : bool :=
  match d x with Some b' => bool_decide (b = b') | None => true end.

Definition define (x : string) (b : body) : directive := fun st =>
  if agree (defs st) x b
  then inr (Pp (upd x b (defs st)) (included st) (declared st))
  else inl (x ++ " redefined").

(** A macro in the condition of an [#if]: 0 if it is not defined. *)
Definition operand (x : string) (st : pp) : string + bool :=
  match defs st x with
  | None => inr false
  | Some (Int n) => inr (negb (Z.eqb n 0))
  | Some (Tokens _) => inl "not an integer"
  end.

Fixpoint any_operand (xs : list string) (st : pp) : string + bool :=
  match xs with
  | [] => inr false
  | x :: xs =>
      match operand x st, any_operand xs st with
      | inr b, inr b' => inr (b || b')%bool
      | inl msg, _ | _, inl msg => inl msg
      end
  end.

(** [#if X1 || X2 ... #else ... #endif]; an [#elif] is an [#if] in the other branch. *)
Definition pp_if (xs : list string) (yes no : directive) : directive := fun st =>
  match any_operand xs st with
  | inl msg => inl msg
  | inr true => yes st
  | inr false => no st
  end.

Definition ifdef (x : string) (yes : directive) : directive := fun st =>
  match defs st x with Some _ => yes st | None => inr st end.

Definition ifndef (x : string) (yes : directive) : directive := fun st =>
  match defs st x with Some _ => inr st | None => yes st end.

(** [#if !defined X1 || !defined X2 ...] around an [#error]. *)
Fixpoint require_defined (xs : list string) (msg : string) : directive :=
  match xs with
  | [] => skip
  | x :: xs => ifndef x (pp_error msg) ;;; require_defined xs msg
  end.

Definition include (h : string) : directive := fun st =>
  inr (Pp (defs st) (app (included st) [h]) (declared st)).

(** [#include X] for a macro [X]. *)
Definition include_macro (x : string) : directive := fun st =>
  match defs st x with
  | Some (Tokens h) => include h st
  | _ => inl "#include expects a header name"
  end.

Definition declare (name what : string) : directive := fun st =>
  inr (Pp (defs st) (included st) (upd name what (declared st))).

(** A declaration by a macro; the name of a macro that is not defined names nothing. *)
Definition declare_macro (name x : string) : directive := fun st =>
  match defs st x with
  | Some (Tokens t) => declare name t st
  | _ => inl ("not declared: " ++ x)
  end.

(** ** The headers *)

(** What the static assertions of buffer.hpp ask about a type. *)
Record type_traits := TypeTraits {
  value_size : Z;                      (* sizeof(value_type) *)
  size_type_is_size_t : bool;
  from_two_pointers : bool;            (* is_constructible from two pointers *)
  move_constructible : bool;
  nothrow_move_constructible : bool;
  nothrow_move_assignable : bool;
  size_returns_size_type : bool;
  data_returns_pointer : bool }.

Section headers.
(** The file ZKPP_USER_CONFIG names, if it is defined, and the types there are. *)
Context (user_config : directive) (traits : string -> type_traits).

Definition config_hpp : directive :=
  ifdef "ZKPP_USER_CONFIG" user_config ;;;
  define "ZKPP_VERSION_MAJOR" (Int 0) ;;;
  define "ZKPP_VERSION_MINOR" (Int 2) ;;;
  define "ZKPP_VERSION_PATCH" (Int 3) ;;;
  ifndef "ZKPP_DEBUG" (define "ZKPP_DEBUG" (Int 0)).

Definition buffer_switches : directive :=
  ifndef "ZKPP_BUFFER_USE_STD_STRING" (define "ZKPP_BUFFER_USE_STD_STRING" (Int 0)) ;;;
  ifndef "ZKPP_BUFFER_USE_CUSTOM" (define "ZKPP_BUFFER_USE_CUSTOM" (Int 0)) ;;;
  ifndef "ZKPP_BUFFER_USE_STD_VECTOR"
    (pp_if ["ZKPP_BUFFER_USE_STD_STRING"; "ZKPP_BUFFER_USE_CUSTOM"]
      (define "ZKPP_BUFFER_USE_STD_VECTOR" (Int 0))
      (define "ZKPP_BUFFER_USE_STD_VECTOR" (Int 1))).

Definition buffer_types : directive :=
  pp_if ["ZKPP_BUFFER_USE_STD_VECTOR"]
    (define "ZKPP_BUFFER_INCLUDE" (Tokens "<vector>") ;;;
     define "ZKPP_BUFFER_TYPE" (Tokens "std::vector<char>"))
  (pp_if ["ZKPP_BUFFER_USE_STD_STRING"]
    (define "ZKPP_BUFFER_INCLUDE" (Tokens "<string>") ;;;
     define "ZKPP_BUFFER_TYPE" (Tokens "std::string"))
  (pp_if ["ZKPP_BUFFER_USE_CUSTOM"]
    (require_defined ["ZKPP_BUFFER_INCLUDE"; "ZKPP_BUFFER_TYPE"]
      "When ZKPP_BUFFER_USE_CUSTOM is set, you must also define ZKPP_BUFFER_INCLUDE and ZKPP_BUFFER_TYPE")
    (pp_error "Unknown type to use for zk::buffer"))).

Definition static_assert (check : type_traits -> bool) (msg : string) : directive := fun st =>
  match declared st "buffer" with
  | Some t => if check (traits t) then inr st else inl msg
  | None => inl "not declared: buffer"
  end.

Definition buffer_asserts : directive :=
  static_assert (fun t => Z.eqb (value_size t) 1) "buffer::value_type must be single-byte elements" ;;;
  static_assert size_type_is_size_t "buffer::size_type must be std::size_t" ;;;
  static_assert from_two_pointers "buffer must be constructible with two pointers" ;;;
  static_assert move_constructible "buffer must be move-constructible" ;;;
  static_assert nothrow_move_constructible "buffer must be nothrow move-constructible" ;;;
  static_assert nothrow_move_assignable "buffer must be nothrow move-assignable" ;;;
  static_assert size_returns_size_type "buffer::size() must return buffer::size_type" ;;;
  static_assert data_returns_pointer "buffer::data() must return ptr<const buffer::value_type>".

Definition buffer_hpp : directive :=
  buffer_switches ;;; buffer_types ;;;
  include_macro "ZKPP_BUFFER_INCLUDE" ;;;
  declare_macro "buffer" "ZKPP_BUFFER_TYPE" ;;;
  buffer_asserts.

Definition future_switches : directive :=
  ifndef "ZKPP_FUTURE_USE_STD_EXPERIMENTAL" (define "ZKPP_FUTURE_USE_STD_EXPERIMENTAL" (Int 0)) ;;;
  ifndef "ZKPP_FUTURE_USE_BOOST" (define "ZKPP_FUTURE_USE_BOOST" (Int 0)) ;;;
  ifndef "ZKPP_FUTURE_USE_CUSTOM" (define "ZKPP_FUTURE_USE_CUSTOM" (Int 0)) ;;;
  ifndef "ZKPP_FUTURE_USE_STD"
    (pp_if ["ZKPP_FUTURE_USE_BOOST"; "ZKPP_FUTURE_USE_STD_EXPERIMENTAL"; "ZKPP_FUTURE_USE_CUSTOM"]
      (define "ZKPP_FUTURE_USE_STD" (Int 0))
      (define "ZKPP_FUTURE_USE_STD" (Int 1))).

Definition define_future (header future promise async launch : string) : directive :=
  define "ZKPP_FUTURE_INCLUDE" (Tokens header) ;;;
  define "ZKPP_FUTURE_TEMPLATE" (Tokens future) ;;;
  define "ZKPP_PROMISE_TEMPLATE" (Tokens promise) ;;;
  define "ZKPP_ASYNC_TEMPLATE" (Tokens async) ;;;
  define "ZKPP_LAUNCH_ENUM" (Tokens launch).

Definition future_types : directive :=
  pp_if ["ZKPP_FUTURE_USE_STD"]
    (define_future "<future>" "std::future" "std::promise" "std::async" "std::launch")
  (pp_if ["ZKPP_FUTURE_USE_STD_EXPERIMENTAL"]
    (define_future "<experimental/future>" "std::experimental::future" "std::experimental::promise"
       "std::async" "std::launch")
  (pp_if ["ZKPP_FUTURE_USE_BOOST"]
    (define "BOOST_THREAD_PROVIDES_FUTURE" (Tokens "") ;;;
     define "BOOST_THREAD_PROVIDES_FUTURE_CONTINUATION" (Tokens "") ;;;
     define "BOOST_THREAD_PROVIDES_FUTURE_WHEN_ALL_WHEN_ANY" (Tokens "") ;;;
     define_future "<boost/thread/future.hpp>" "boost::future" "boost::promise" "boost::async" "boost::launch")
  (pp_if ["ZKPP_FUTURE_USE_CUSTOM"]
    (require_defined ["ZKPP_FUTURE_TEMPLATE"; "ZKPP_PROMISE_TEMPLATE"; "ZKPP_FUTURE_INCLUDE"]
      "When ZKPP_FUTURE_USE_CUSTOM is set, you must also define ZKPP_FUTURE_TEMPLATE, ZKPP_PROMISE_TEMPLATE,")
    (pp_error "Unknown type to use for zk::future and zk::promise")))).

Definition future_hpp : directive :=
  future_switches ;;; future_types ;;;
  include_macro "ZKPP_FUTURE_INCLUDE" ;;;
  declare_macro "future" "ZKPP_FUTURE_TEMPLATE" ;;;
  declare_macro "promise" "ZKPP_PROMISE_TEMPLATE" ;;;
  declare_macro "launch" "ZKPP_LAUNCH_ENUM" ;;;
  declare_macro "async" "ZKPP_ASYNC_TEMPLATE".

Definition exceptions_hpp : directive :=
  pp_if ["ZKPP_FUTURE_USE_BOOST"] (include "<boost/exception_ptr.hpp>") (include "<exception>") ;;;
  pp_if ["ZKPP_FUTURE_USE_BOOST"]
    (declare "exception_ptr" "boost::exception_ptr" ;;;
     declare "throw_exception" "throw boost::enable_current_exception(e)")
    (declare "exception_ptr" "std::exception_ptr" ;;;
     declare "throw_exception" "throw e").

Definition exceptions_cpp : directive :=
  pp_if ["ZKPP_FUTURE_USE_BOOST"]
    (declare "current_exception" "boost::current_exception")
    (declare "current_exception" "std::current_exception").

(** The headers, each once ([#pragma once]), and the one definition of exceptions.cpp. *)
Definition zk_headers : directive :=
  config_hpp ;;; future_hpp ;;; exceptions_hpp ;;; exceptions_cpp ;;; buffer_hpp.

(** ** The build *)

(** One [-D] per entry, in order. *)
Definition define_flags (flags : list (string * body)) : directive :=
  foldr (fun '(x, b) d => define x b ;;; d) skip flags.

Definition nothing : pp := Pp (fun _ => None) [] (fun _ => None).

Definition compile (flags : list (string * body)) : string + pp :=
  (define_flags flags ;;; zk_headers) nothing.

(** The value of a setting, from the cache or its default, and the flag for it. *)
Definition configuration_setting (name dflt : string) (arg_set : option string) (options : list string)
    (cache : option string) (flags : list (string * body)) : string + list (string * body) :=
  let arg_set := default dflt arg_set in
  let setting := default arg_set cache in
  if negb (existsb (String.eqb setting) options)
  then inl ("Invalid setting for " ++ name ++ ": " ++ setting)
  else if negb (String.eqb setting dflt)
  then inr (app flags [("ZKPP_" ++ name ++ "_USE_" ++ setting, Int 1)])
  else inr flags.

Definition buffer_options : list string := ["STD_VECTOR"; "STD_STRING"; "CUSTOM"].
Definition future_options : list string := ["STD"; "STD_EXPERIMENTAL"; "BOOST"; "CUSTOM"].

(** CMakeLists.txt: the flags of the user, those of the two settings and of the debug
    configuration. *)
Definition cmake_flags (debug : bool) (buffer future : option string)
    (user : list (string * body)) : string + list (string * body) :=
  match configuration_setting "BUFFER" "STD_VECTOR" None buffer_options buffer user with
  | inl msg => inl msg
  | inr flags =>
      match configuration_setting "FUTURE" "STD" None future_options future flags with
      | inl msg => inl msg
      | inr flags => inr (app flags (if debug then [("ZKPP_DEBUG", Int 1)] else []))
      end
  end.

Definition cmake_build (debug : bool) (buffer future : option string)
    (user : list (string * body)) : string + pp :=
  match cmake_flags debug buffer future user with
  | inl msg => inl msg
  | inr flags => compile flags
  end.

End headers.

(** ** What a build declares *)

Section selection.
(** The macros defined before a header. *)
Context (d : string -> option body).

(** A switch that is set. *)
Definition on (x : string) : bool :=
  match d x with Some (Int n) => negb (Z.eqb n 0) | _ => false end.

Definition is_def (x : string) : bool := match d x with Some _ => true | None => false end.

Definition text (x : string) : option string :=
  match d x with Some (Tokens t) => Some t | _ => None end.

(** Switches are integers, if they are defined. *)
Definition integer (x : string) : bool :=
  match d x with Some (Tokens _) => false | _ => true end.

(** The default of a choice is what is set if no other is, unless it is switched off. *)
Definition default_on (x : string) (others : list string) : bool :=
  if is_def x then on x else negb (existsb on others).

(** The header and the type of [buffer]. *)
Definition buffer_given : option (string * string) :=
  if default_on "ZKPP_BUFFER_USE_STD_VECTOR" ["ZKPP_BUFFER_USE_STD_STRING"; "ZKPP_BUFFER_USE_CUSTOM"]
  then Some ("<vector>", "std::vector<char>")
  else if on "ZKPP_BUFFER_USE_STD_STRING" then Some ("<string>", "std::string")
  else if on "ZKPP_BUFFER_USE_CUSTOM" then
    h ← text "ZKPP_BUFFER_INCLUDE"; t ← text "ZKPP_BUFFER_TYPE"; Some (h, t)
  else None.

(** The five macros of a choice of futures. *)
Definition future_texts : option (string * string * string * string * string) :=
  h ← text "ZKPP_FUTURE_INCLUDE"; f ← text "ZKPP_FUTURE_TEMPLATE"; p ← text "ZKPP_PROMISE_TEMPLATE";
  l ← text "ZKPP_LAUNCH_ENUM"; a ← text "ZKPP_ASYNC_TEMPLATE"; Some (h, f, p, a, l).

(** The header, and what [future], [promise], [async] and [launch] are. *)
Definition future_given : option (string * string * string * string * string) :=
  if default_on "ZKPP_FUTURE_USE_STD"
       ["ZKPP_FUTURE_USE_BOOST"; "ZKPP_FUTURE_USE_STD_EXPERIMENTAL"; "ZKPP_FUTURE_USE_CUSTOM"]
  then Some ("<future>", "std::future", "std::promise", "std::async", "std::launch")
  else if on "ZKPP_FUTURE_USE_STD_EXPERIMENTAL" then
    Some ("<experimental/future>", "std::experimental::future", "std::experimental::promise",
      "std::async", "std::launch")
  else if on "ZKPP_FUTURE_USE_BOOST" then
    Some ("<boost/thread/future.hpp>", "boost::future", "boost::promise", "boost::async", "boost::launch")
  else if on "ZKPP_FUTURE_USE_CUSTOM" then
    future_texts
  else None.

(** The macros future.hpp and buffer.hpp define for these choices. *)
Definition choice_table (g : string * string * string * string * string) : list (string * body) :=
  let '(h, f, p, y, l) := g in
  [("ZKPP_FUTURE_INCLUDE", Tokens h); ("ZKPP_FUTURE_TEMPLATE", Tokens f);
   ("ZKPP_PROMISE_TEMPLATE", Tokens p); ("ZKPP_ASYNC_TEMPLATE", Tokens y);
   ("ZKPP_LAUNCH_ENUM", Tokens l)].

Definition boost_table : list (string * body) :=
  [("BOOST_THREAD_PROVIDES_FUTURE", Tokens "");
   ("BOOST_THREAD_PROVIDES_FUTURE_CONTINUATION", Tokens "");
   ("BOOST_THREAD_PROVIDES_FUTURE_WHEN_ALL_WHEN_ANY", Tokens "")].

Definition future_table : list (string * body) :=
  if default_on "ZKPP_FUTURE_USE_STD"
       ["ZKPP_FUTURE_USE_BOOST"; "ZKPP_FUTURE_USE_STD_EXPERIMENTAL"; "ZKPP_FUTURE_USE_CUSTOM"]
  then choice_table ("<future>", "std::future", "std::promise", "std::async", "std::launch")
  else if on "ZKPP_FUTURE_USE_STD_EXPERIMENTAL" then
    choice_table ("<experimental/future>", "std::experimental::future", "std::experimental::promise",
      "std::async", "std::launch")
  else if on "ZKPP_FUTURE_USE_BOOST" then
    app boost_table (choice_table ("<boost/thread/future.hpp>", "boost::future", "boost::promise",
      "boost::async", "boost::launch"))
  else [].

Definition buffer_table : list (string * body) :=
  if default_on "ZKPP_BUFFER_USE_STD_VECTOR" ["ZKPP_BUFFER_USE_STD_STRING"; "ZKPP_BUFFER_USE_CUSTOM"]
  then [("ZKPP_BUFFER_INCLUDE", Tokens "<vector>"); ("ZKPP_BUFFER_TYPE", Tokens "std::vector<char>")]
  else if on "ZKPP_BUFFER_USE_STD_STRING" then
    [("ZKPP_BUFFER_INCLUDE", Tokens "<string>"); ("ZKPP_BUFFER_TYPE", Tokens "std::string")]
  else [].

(** None of them is defined otherwise. *)
Definition agrees (l : list (string * body)) : bool := forallb (fun '(x, b) => agree d x b) l.

End selection.

Definition config_table : list (string * body) :=
  [("ZKPP_VERSION_MAJOR", Int 0); ("ZKPP_VERSION_MINOR", Int 2); ("ZKPP_VERSION_PATCH", Int 3)].

(** What buffer.hpp asks of the type of a buffer. *)
Definition buffer_fits (t : type_traits) : bool :=
  (Z.eqb (value_size t) 1 && size_type_is_size_t t && from_two_pointers t && move_constructible t &&
   nothrow_move_constructible t && nothrow_move_assignable t && size_returns_size_type t &&
   data_returns_pointer t)%bool.

(** The macros of a list of definitions, and whether they go through one after the other. *)
Definition macros (flags : list (string * body)) (d : string -> option body) : string -> option body :=
  foldl (fun d '(x, b) => upd x b d) d flags.

Fixpoint consistent (l : list (string * body)) (d : string -> option body) : bool :=
  match l with
  | [] => true
  | (x, b) :: l => agree d x b && consistent l (upd x b d)
  end.

Definition buffer_names : list string :=
  ["ZKPP_BUFFER_USE_STD_VECTOR"; "ZKPP_BUFFER_USE_STD_STRING"; "ZKPP_BUFFER_USE_CUSTOM"].

Definition future_names : list string :=
  ["ZKPP_FUTURE_USE_STD"; "ZKPP_FUTURE_USE_STD_EXPERIMENTAL"; "ZKPP_FUTURE_USE_BOOST";
   "ZKPP_FUTURE_USE_CUSTOM"].

(** A macro that is given a value if it has none. *)
Definition fill (x : string) (b : body) (d : string -> option body) : string -> option body :=
  match d x with Some _ => d | None => upd x b d end.

Lemma fill_lookup x b d y :
  fill x b d y = match d y with Some v => Some v | None => if String.eqb x y then Some b else None end.
Proof.
  unfold fill. destruct (d x) eqn:E; unfold upd; destruct (String.eqb_spec x y) as [->|];
    rewrite ?E; destruct (d y); done.
Qed.

Lemma on_fill_0 x d y : on (fill x (Int 0) d) y = on d y.
Proof. unfold on. rewrite fill_lookup. destruct (d y); [done|]. by destruct (String.eqb x y). Qed.

Lemma on_fill_ne x b d y : x <> y -> on (fill x b d) y = on d y.
Proof. intros H. unfold on. rewrite fill_lookup. destruct (d y); [done|]. by apply String.eqb_neq in H as ->. Qed.

Lemma on_fill_eq x n d : on (fill x (Int n) d) x = if is_def d x then on d x else negb (Z.eqb n 0).
Proof. unfold on, is_def. rewrite fill_lookup, String.eqb_refl. by destruct (d x). Qed.

Lemma is_def_fill_ne x b d y : x <> y -> is_def (fill x b d) y = is_def d y.
Proof. intros H. unfold is_def. rewrite fill_lookup. destruct (d y); [done|]. by apply String.eqb_neq in H as ->. Qed.

Lemma integer_fill x n d y : integer d y = true -> integer (fill x (Int n) d) y = true.
Proof. unfold integer. rewrite fill_lookup. destruct (d y); [done|]. by destruct (String.eqb x y). Qed.

Lemma ifndef_define x b d i a :
  ifndef x (define x b) (Pp d i a) = inr (Pp (fill x b d) i a).
Proof. unfold ifndef, define, agree, fill. cbn. by destruct (d x) eqn:E; rewrite ?E. Qed.

Lemma operand_on x st : integer (defs st) x = true -> operand x st = inr (on (defs st) x).
Proof. unfold integer, operand, on. by destruct (defs st x) as [[]|]. Qed.

Lemma any_operand_on xs st :
  forallb (integer (defs st)) xs = true -> any_operand xs st = inr (existsb (on (defs st)) xs).
Proof.
  induction xs as [|x xs IH]; [done|]. intros [H1 H2]%andb_prop. cbn. by rewrite operand_on, IH.
Qed.

Lemma pp_if_on xs yes no st :
  forallb (integer (defs st)) xs = true ->
  pp_if xs yes no st = if existsb (on (defs st)) xs then yes st else no st.
Proof. intros H. unfold pp_if. rewrite any_operand_on by done. by destruct (existsb _ xs). Qed.

Lemma pp_if_1 x yes no st :
  integer (defs st) x = true -> pp_if [x] yes no st = if on (defs st) x then yes st else no st.
Proof. intros H. rewrite pp_if_on; cbn; by rewrite ?orb_false_r, ?H. Qed.

Lemma seq_pp_if x yes no e st :
  integer (defs st) x = true ->
  (pp_if [x] yes no ;;; e) st = if on (defs st) x then (yes ;;; e) st else (no ;;; e) st.
Proof. intros H. unfold seq. rewrite pp_if_1 by done. by destruct (on _ x). Qed.

Lemma forallb_fill x n d ys : forallb (integer d) ys = true -> forallb (integer (fill x (Int n) d)) ys = true.
Proof. induction ys as [|y ys IH]; [done|]. intros [H1 H2]%andb_prop. cbn. by rewrite integer_fill, IH. Qed.

(** The switch that is the default of a choice. *)
Definition fill_default (x : string) (others : list string) (d : string -> option body) :=
  fill x (Int (if existsb (on d) others then 0 else 1)) d.

Lemma ifndef_default x others d i a :
  forallb (integer d) others = true ->
  ifndef x (pp_if others (define x (Int 0)) (define x (Int 1))) (Pp d i a) =
    inr (Pp (fill_default x others d) i a).
Proof.
  intros H. unfold ifndef, fill_default, fill. cbn. destruct (d x) eqn:E; [done|].
  rewrite pp_if_on by done. unfold define, agree. cbn. rewrite E. by destruct (existsb _ others).
Qed.

Lemma on_fill_default x others d :
  on (fill_default x others d) x = default_on d x others.
Proof. unfold fill_default, default_on. rewrite on_fill_eq. by destruct (existsb _ others). Qed.

Definition buffer_filled (d : string -> option body) : string -> option body :=
  fill_default "ZKPP_BUFFER_USE_STD_VECTOR" ["ZKPP_BUFFER_USE_STD_STRING"; "ZKPP_BUFFER_USE_CUSTOM"]
    (fill "ZKPP_BUFFER_USE_CUSTOM" (Int 0) (fill "ZKPP_BUFFER_USE_STD_STRING" (Int 0) d)).

Definition future_filled (d : string -> option body) : string -> option body :=
  fill_default "ZKPP_FUTURE_USE_STD"
      ["ZKPP_FUTURE_USE_BOOST"; "ZKPP_FUTURE_USE_STD_EXPERIMENTAL"; "ZKPP_FUTURE_USE_CUSTOM"]
    (fill "ZKPP_FUTURE_USE_CUSTOM" (Int 0) (fill "ZKPP_FUTURE_USE_BOOST" (Int 0)
      (fill "ZKPP_FUTURE_USE_STD_EXPERIMENTAL" (Int 0) d))).

Arguments buffer_filled : simpl never.
Arguments future_filled : simpl never.

Lemma seq_ok d e st st' : d st = inr st' -> seq d e st = e st'.
Proof. unfold seq. by intros ->. Qed.

Lemma seq_assoc d e f st : ((d ;;; e) ;;; f) st = (d ;;; e ;;; f) st.
Proof. unfold seq. by destruct (d st). Qed.

Lemma agree_upd d x b y c : x <> y -> agree (upd x b d) y c = agree d y c.
Proof. intros H. unfold agree, upd. by apply String.eqb_neq in H as ->. Qed.

Lemma agrees_ext d d' l : Forall (fun p => d' p.1 = d p.1) l -> agrees d' l = agrees d l.
Proof.
  unfold agrees. induction 1 as [|[x b] l H _ IH]; [done|]. cbn in *. unfold agree at 1 3. by rewrite H, IH.
Qed.

(** A list that names each macro once. *)
Lemma consistent_agrees l d : NoDup l.*1 -> consistent l d = agrees d l.
Proof.
  revert d. induction l as [|[x b] l IH]; intros d; [done|]. cbn [fmap list_fmap consistent].
  intros [Hx Hl]%NoDup_cons. rewrite IH by done. unfold agrees at 2. cbn [forallb]. fold (agrees d l). f_equal. apply agrees_ext. apply Forall_forall. intros [y c] Hy. cbn. unfold upd.
  destruct (String.eqb_spec x y) as [->|]; [|done]. destruct Hx. apply list_elem_of_fmap. by exists (y, c).
Qed.

Lemma define_flags_run l d i a :
  match define_flags l (Pp d i a) with
  | inr st => consistent l d = true /\ st = Pp (macros l d) i a
  | inl _ => consistent l d = false
  end.
Proof.
  revert d. induction l as [|[x b] l IH]; intros d; [done|]. cbn [define_flags foldr consistent].
  unfold seq, define. cbn [defs included declared]. destruct (agree d x b); [|done]. apply IH.
Qed.

(** A sequence of definitions is the table of them. *)
Lemma as_table_run l dir e st :
  (forall st, dir st = define_flags l st) -> (dir ;;; e) st = (define_flags l ;;; e) st.
Proof. intros H. unfold seq. by rewrite H. Qed.

Ltac table_tac :=
  cbn [define_flags foldr app choice_table boost_table]; unfold seq, skip;
  repeat match goal with |- context [define ?x ?b ?st] => destruct (define x b st); try done end.

(** A table is defined, and [e] goes on. *)
Lemma define_table_run l e d i a :
  NoDup l.*1 ->
  if agrees d l then (define_flags l ;;; e) (Pp d i a) = e (Pp (macros l d) i a)
  else exists msg, (define_flags l ;;; e) (Pp d i a) = inl msg.
Proof.
  intros Hl. pose proof (define_flags_run l d i a) as H. rewrite <- consistent_agrees by done.
  unfold seq. destruct (define_flags l _) as [msg|st].
  - rewrite H. by exists msg.
  - destruct H as [-> ->]. done.
Qed.

Lemma forallb_sub d xs ys :
  forallb (fun x => existsb (String.eqb x) ys) xs = true -> forallb (integer d) ys = true ->
  forallb (integer d) xs = true.
Proof.
  rewrite !forallb_forall. intros H1 H2 x Hx. apply H2. specialize (H1 x Hx).
  apply existsb_exists in H1 as (y & Hy & ->%String.eqb_eq). done.
Qed.

Lemma buffer_switches_run d i a :
  forallb (integer d) buffer_names = true ->
  buffer_switches (Pp d i a) = inr (Pp (buffer_filled d) i a).
Proof.
  intros H. unfold buffer_switches. erewrite !seq_ok by apply ifndef_define.
  apply ifndef_default, forallb_fill, forallb_fill. by eapply forallb_sub; [|exact H].
Qed.

Lemma future_switches_run d i a :
  forallb (integer d) future_names = true ->
  future_switches (Pp d i a) = inr (Pp (future_filled d) i a).
Proof.
  intros H. unfold future_switches. erewrite !seq_ok by apply ifndef_define.
  apply ifndef_default, forallb_fill, forallb_fill, forallb_fill. by eapply forallb_sub; [|exact H].
Qed.

Lemma existsb_fill_0 x d ys : existsb (on (fill x (Int 0) d)) ys = existsb (on d) ys.
Proof. induction ys as [|y ys IH]; [done|]. cbn. by rewrite on_fill_0, IH. Qed.

Lemma default_on_fill_0 x y others d :
  x <> y -> default_on (fill x (Int 0) d) y others = default_on d y others.
Proof. intros H. unfold default_on. by rewrite is_def_fill_ne, on_fill_0, existsb_fill_0. Qed.

(** Switches keep their values, and other macros are as they were. *)
Ltac filled :=
  repeat first
    [ rewrite on_fill_default | rewrite default_on_fill_0 by done | rewrite on_fill_0
    | unfold fill_default; rewrite on_fill_ne by done ].

Lemma buffer_filled_on d :
  on (buffer_filled d) "ZKPP_BUFFER_USE_STD_VECTOR" =
    default_on d "ZKPP_BUFFER_USE_STD_VECTOR" ["ZKPP_BUFFER_USE_STD_STRING"; "ZKPP_BUFFER_USE_CUSTOM"] /\
  on (buffer_filled d) "ZKPP_BUFFER_USE_STD_STRING" = on d "ZKPP_BUFFER_USE_STD_STRING" /\
  on (buffer_filled d) "ZKPP_BUFFER_USE_CUSTOM" = on d "ZKPP_BUFFER_USE_CUSTOM".
Proof. unfold buffer_filled. split_and!; by filled. Qed.

Lemma future_filled_on d :
  on (future_filled d) "ZKPP_FUTURE_USE_STD" =
    default_on d "ZKPP_FUTURE_USE_STD"
      ["ZKPP_FUTURE_USE_BOOST"; "ZKPP_FUTURE_USE_STD_EXPERIMENTAL"; "ZKPP_FUTURE_USE_CUSTOM"] /\
  on (future_filled d) "ZKPP_FUTURE_USE_STD_EXPERIMENTAL" = on d "ZKPP_FUTURE_USE_STD_EXPERIMENTAL" /\
  on (future_filled d) "ZKPP_FUTURE_USE_BOOST" = on d "ZKPP_FUTURE_USE_BOOST" /\
  on (future_filled d) "ZKPP_FUTURE_USE_CUSTOM" = on d "ZKPP_FUTURE_USE_CUSTOM".
Proof. unfold future_filled. split_and!; by filled. Qed.

Lemma fill_other x b d y : String.eqb x y = false -> fill x b d y = d y.
Proof. intros H. rewrite fill_lookup, H. by destruct (d y). Qed.

Lemma buffer_filled_other d x :
  existsb (String.eqb x) buffer_names = false -> buffer_filled d x = d x.
Proof.
  cbn. rewrite !orb_false_iff. intros (H1 & H2 & H3 & _). unfold buffer_filled, fill_default.
  by rewrite !fill_other by (by rewrite String.eqb_sym).
Qed.

Lemma future_filled_other d x :
  existsb (String.eqb x) future_names = false -> future_filled d x = d x.
Proof.
  cbn. rewrite !orb_false_iff. intros (H1 & H2 & H3 & H4 & _). unfold future_filled, fill_default.
  by rewrite !fill_other by (by rewrite String.eqb_sym).
Qed.

Lemma integer_filled d xs :
  forallb (integer d) xs = true ->
  forallb (integer (buffer_filled d)) xs = true /\ forallb (integer (future_filled d)) xs = true.
Proof. intros H. unfold buffer_filled, future_filled, fill_default. split; by repeat apply forallb_fill. Qed.

(** ** The headers against what they are to select *)

Lemma require_defined_run xs msg st :
  require_defined xs msg st = if forallb (is_def (defs st)) xs then inr st else inl msg.
Proof.
  induction xs as [|x xs IH]; [done|]. cbn. unfold seq, ifndef, is_def in *. by destruct (defs st x).
Qed.

Lemma include_macro_run x st :
  include_macro x st =
    match text (defs st) x with Some h => include h st | None => inl "#include expects a header name" end.
Proof. unfold include_macro, text. by destruct (defs st x) as [[]|]. Qed.

Lemma declare_macro_run name x st :
  declare_macro name x st =
    match text (defs st) x with Some t => declare name t st | None => inl ("not declared: " ++ x) end.
Proof. unfold declare_macro, text. by destruct (defs st x) as [[]|]. Qed.

Lemma text_buffer d x :
  existsb (String.eqb x) buffer_names = false -> text (buffer_filled d) x = text d x.
Proof. intros H. unfold text. by rewrite buffer_filled_other. Qed.

Lemma text_future d x :
  existsb (String.eqb x) future_names = false -> text (future_filled d) x = text d x.
Proof. intros H. unfold text. by rewrite future_filled_other. Qed.

Lemma text_def d x t : text d x = Some t -> is_def d x = true.
Proof. unfold text, is_def. by destruct (d x). Qed.

Lemma static_assert_run traits check msg t st :
  declared st "buffer" = Some t ->
  static_assert traits check msg st = if check (traits t) then inr st else inl msg.
Proof. unfold static_assert. by intros ->. Qed.

Lemma buffer_asserts_run traits t st :
  declared st "buffer" = Some t ->
  match buffer_asserts traits st with
  | inr st' => st' = st /\ buffer_fits (traits t) = true
  | inl _ => buffer_fits (traits t) = false
  end.
Proof.
  intros H. unfold buffer_asserts, buffer_fits, seq.
  do 8 (rewrite (static_assert_run _ _ _ t) by done;
    match goal with |- context [if ?c then inr st else _] => destruct c end; cbn [andb]; [|done]).
  done.
Qed.

(** The declaration of [buffer], with the macros there are then. *)
Lemma buffer_declared_run traits d i a h t :
  text d "ZKPP_BUFFER_INCLUDE" = Some h -> text d "ZKPP_BUFFER_TYPE" = Some t ->
  match (include_macro "ZKPP_BUFFER_INCLUDE" ;;; declare_macro "buffer" "ZKPP_BUFFER_TYPE" ;;;
         buffer_asserts traits) (Pp d i a) with
  | inr st => buffer_fits (traits t) = true /\ declared st = upd "buffer" t a /\ included st = app i [h]
  | inl _ => buffer_fits (traits t) = false
  end.
Proof.
  intros Hh Ht. unfold seq. rewrite include_macro_run. cbn [defs]. rewrite Hh. cbn [include defs].
  rewrite declare_macro_run. cbn [defs]. rewrite Ht. cbn [declare defs included declared].
  pose proof (buffer_asserts_run traits t (Pp d (app i [h]) (upd "buffer" t a)) eq_refl) as H.
  destruct (buffer_asserts _ _); [done|]. by destruct H as [-> ?].
Qed.

Definition buffer_result (traits : string -> type_traits) (d : string -> option body) (i : list string)
    (a : string -> option string) (res : string + pp) : Prop :=
  match res with
  | inl _ => buffer_given d = None \/ agrees d (buffer_table d) = false \/
      exists h t, buffer_given d = Some (h, t) /\ buffer_fits (traits t) = false
  | inr st => exists h t, buffer_given d = Some (h, t) /\ agrees d (buffer_table d) = true /\
      buffer_fits (traits t) = true /\ declared st = upd "buffer" t a /\ included st = app i [h]
  end.

(** One of the two types of the standard library was chosen. *)
Lemma buffer_chosen traits d d0 i a h t :
  let l := [("ZKPP_BUFFER_INCLUDE", Tokens h); ("ZKPP_BUFFER_TYPE", Tokens t)] in
  agrees d0 l = agrees d l -> buffer_given d = Some (h, t) -> buffer_table d = l ->
  buffer_result traits d i a
    (((define "ZKPP_BUFFER_INCLUDE" (Tokens h) ;;; define "ZKPP_BUFFER_TYPE" (Tokens t)) ;;;
      include_macro "ZKPP_BUFFER_INCLUDE" ;;; declare_macro "buffer" "ZKPP_BUFFER_TYPE" ;;;
      buffer_asserts traits) (Pp d0 i a)).
Proof.
  intros l Hl Hg Ht.
  rewrite (as_table_run l) by (intros st; unfold l; table_tac).
  pose proof (define_table_run l (include_macro "ZKPP_BUFFER_INCLUDE" ;;;
    declare_macro "buffer" "ZKPP_BUFFER_TYPE" ;;; buffer_asserts traits) d0 i a ltac:(vm_decide)) as H.
  rewrite Hl in H. unfold buffer_result. rewrite Hg, Ht. destruct (agrees d l); [|destruct H as [msg ->]; auto].
  rewrite H. pose proof (buffer_declared_run traits (macros l d0) i a h t eq_refl eq_refl) as Hd.
  destruct (seq (include_macro _) _ _) as [msg|st]; [by eauto 10|]. exists h, t. by destruct Hd as (? & ? & ?).
Qed.

Lemma buffer_hpp_run traits d i a :
  forallb (integer d) buffer_names = true ->
  buffer_result traits d i a (buffer_hpp traits (Pp d i a)).
Proof.
  intros H. unfold buffer_hpp. erewrite seq_ok by (by apply buffer_switches_run).
  destruct (buffer_filled_on d) as (E1 & E2 & E3), (integer_filled d _ H) as [Hi _].
  cbn in Hi. repeat apply andb_prop in Hi as [? Hi].
  unfold buffer_types. rewrite !seq_pp_if by done. cbn [defs]. rewrite E1, E2, E3.
  assert (forall l, Forall (fun p => existsb (String.eqb p.1) buffer_names = false) l ->
    agrees (buffer_filled d) l = agrees d l) as Hag.
  { intros l Hl. apply agrees_ext. eapply Forall_impl; [exact Hl|]. intros p. apply buffer_filled_other. }
  destruct (default_on d "ZKPP_BUFFER_USE_STD_VECTOR" _) eqn:D1.
  { apply buffer_chosen; [by apply Hag; repeat constructor|unfold buffer_given|unfold buffer_table]; by rewrite D1. }
  destruct (on d "ZKPP_BUFFER_USE_STD_STRING") eqn:D2.
  { apply buffer_chosen; [by apply Hag; repeat constructor|unfold buffer_given|unfold buffer_table]; by rewrite D1, D2. }
  destruct (on d "ZKPP_BUFFER_USE_CUSTOM") eqn:D3; [|left; unfold buffer_given; by rewrite D1, D2, D3].
  unfold buffer_result, buffer_given, buffer_table. rewrite D1, D2, D3.
  unfold seq at 1. rewrite require_defined_run. cbn [defs forallb].
  destruct (text d "ZKPP_BUFFER_INCLUDE") as [h|] eqn:F1; rewrite <- text_buffer in F1 by done.
  2: { destruct (_ && _)%bool; [|by left]. unfold seq. rewrite include_macro_run. cbn [defs]. rewrite F1. by left. }
  destruct (text d "ZKPP_BUFFER_TYPE") as [t|] eqn:F2; rewrite <- text_buffer in F2 by done.
  2: { destruct (_ && _)%bool; [|by left]. unfold seq. rewrite include_macro_run. cbn [defs]. rewrite F1.
    cbn [include defs]. rewrite declare_macro_run. cbn [defs]. rewrite F2. by left. }
  rewrite (text_def _ _ _ F1), (text_def _ _ _ F2). cbn [andb].
  pose proof (buffer_declared_run traits (buffer_filled d) i a h t F1 F2) as Hd.
  destruct (seq (include_macro _) _ _) as [msg|st]; cbn [mbind option_bind].
  - right; right. by exists h, t.
  - exists h, t. by destruct Hd as (? & ? & ?).
Qed.

Definition buffer_macros : list string := app buffer_names ["ZKPP_BUFFER_INCLUDE"; "ZKPP_BUFFER_TYPE"].

Definition future_selected (d : string -> option body) (i : list string) (a : string -> option string)
    (st : pp) : Prop :=
  exists h f p y l, future_given d = Some (h, f, p, y, l) /\
    declared st = upd "async" y (upd "launch" l (upd "promise" p (upd "future" f a))) /\
    included st = app i [h] /\ integer (defs st) "ZKPP_FUTURE_USE_BOOST" = true /\
    on (defs st) "ZKPP_FUTURE_USE_BOOST" = on d "ZKPP_FUTURE_USE_BOOST" /\
    Forall (fun x => defs st x = d x) buffer_macros.

Definition future_declarations : directive :=
  include_macro "ZKPP_FUTURE_INCLUDE" ;;;
  declare_macro "future" "ZKPP_FUTURE_TEMPLATE" ;;;
  declare_macro "promise" "ZKPP_PROMISE_TEMPLATE" ;;;
  declare_macro "launch" "ZKPP_LAUNCH_ENUM" ;;;
  declare_macro "async" "ZKPP_ASYNC_TEMPLATE".

Lemma future_declarations_run d i a :
  match future_texts d with
  | Some (h, f, p, y, l) =>
      future_declarations (Pp d i a) =
        inr (Pp d (app i [h]) (upd "async" y (upd "launch" l (upd "promise" p (upd "future" f a)))))
  | None => exists msg, future_declarations (Pp d i a) = inl msg
  end.
Proof.
  unfold future_texts, future_declarations, seq. rewrite include_macro_run.
  do 5 (cbn -[declare_macro]; rewrite ?declare_macro_run; cbn -[declare_macro];
    match goal with |- match text d ?x ≫= _ with _ => _ end => destruct (text d x) end; [|cbn; by eauto]).
  done.
Qed.

Definition future_result (d : string -> option body) (i : list string) (a : string -> option string)
    (res : string + pp) : Prop :=
  match res with
  | inl _ => future_given d = None \/ agrees d (future_table d) = false
  | inr st => future_selected d i a st /\ agrees d (future_table d) = true
  end.

(** The macros that future.hpp has when it chooses, [d] being those it started with. *)
Definition future_ready (d d0 : string -> option body) : Prop :=
  integer d0 "ZKPP_FUTURE_USE_BOOST" = true /\
  on d0 "ZKPP_FUTURE_USE_BOOST" = on d "ZKPP_FUTURE_USE_BOOST" /\
  Forall (fun x => d0 x = d x) buffer_macros.

Lemma future_ready_upd d d0 x b :
  existsb (String.eqb x) ("ZKPP_FUTURE_USE_BOOST" :: buffer_macros) = false ->
  future_ready d d0 -> future_ready d (upd x b d0).
Proof.
  cbn [existsb]. intros [H1 H2]%orb_false_iff (Hi & Hon & Ho). unfold future_ready, integer, on, upd in *.
  rewrite H1. split_and!; [done..|]. rewrite Forall_forall in *. intros y Hy.
  destruct (String.eqb_spec x y) as [->|]; [|by apply Ho].
  apply not_true_iff_false in H2. destruct H2. apply existsb_exists. exists y.
  split; [by apply list_elem_of_In|apply String.eqb_refl].
Qed.

Lemma future_declared d d' i a g :
  future_ready d d' -> future_given d = Some g -> future_texts d' = Some g ->
  agrees d (future_table d) = true ->
  future_result d i a (future_declarations (Pp d' i a)).
Proof.
  intros (Hi & Hon & Ho) Hg Ht Ha. pose proof (future_declarations_run d' i a) as H.
  rewrite Ht in H. destruct g as [[[[h f] p] y] l]. rewrite H. split; [|done]. by exists h, f, p, y, l.
Qed.

(** One of the three libraries was chosen, and its table [l] is defined. *)
Lemma future_chosen d d0 i a dir g l :
  (forall st, dir st = define_flags l st) -> NoDup l.*1 ->
  agrees d0 l = agrees d l -> future_table d = l -> future_given d = Some g ->
  future_ready d (macros l d0) -> future_texts (macros l d0) = Some g ->
  future_result d i a ((dir ;;; future_declarations) (Pp d0 i a)).
Proof.
  intros Hdir Hl Hag Ht Hg Hr Htx. rewrite (as_table_run l) by done.
  pose proof (define_table_run l future_declarations d0 i a Hl) as H. rewrite Hag in H.
  destruct (agrees d l) eqn:E.
  - rewrite H. eapply future_declared; [done..|]. by rewrite Ht.
  - destruct H as [msg ->]. right. by rewrite Ht.
Qed.

Lemma future_texts_filled d : future_texts (future_filled d) = future_texts d.
Proof. unfold future_texts. by rewrite !text_future by done. Qed.

Lemma undefined_texts d :
  forallb (is_def d) ["ZKPP_FUTURE_TEMPLATE"; "ZKPP_PROMISE_TEMPLATE"; "ZKPP_FUTURE_INCLUDE"] = false ->
  future_texts d = None.
Proof.
  unfold is_def, future_texts, text. cbn. intros H.
  destruct (d "ZKPP_FUTURE_INCLUDE") as [[]|], (d "ZKPP_FUTURE_TEMPLATE") as [[]|],
    (d "ZKPP_PROMISE_TEMPLATE") as [[]|]; done.
Qed.

(** The definitions of future.hpp for one library, with the facts on the macros before. *)
Ltac library Hag Hr l :=
  eapply (future_chosen _ _ _ _ _ _ l);
  [ intros ?; unfold define_future; table_tac
  | vm_decide
  | apply Hag; by repeat constructor
  | unfold future_table
  | unfold future_given
  | unfold macros; cbn [foldl choice_table boost_table app]; by repeat (apply future_ready_upd; [done|])
  | reflexivity ].

Lemma future_hpp_run d i a :
  forallb (integer d) future_names = true -> future_result d i a (future_hpp (Pp d i a)).
Proof.
  intros H. change future_hpp with (future_switches ;;; future_types ;;; future_declarations).
  erewrite seq_ok by (by apply future_switches_run).
  destruct (future_filled_on d) as (E1 & E2 & E3 & E4), (integer_filled d _ H) as [_ Hi].
  cbn in Hi. repeat apply andb_prop in Hi as [? Hi].
  assert (future_ready d (future_filled d)) as Hr
    by (split_and!; [done..|repeat constructor; by apply future_filled_other]).
  unfold future_types. rewrite !seq_pp_if by done. cbn [defs]. rewrite E1, E2, E3, E4.
  assert (forall l, Forall (fun p => existsb (String.eqb p.1) future_names = false) l ->
    agrees (future_filled d) l = agrees d l) as Hag.
  { intros l Hl. apply agrees_ext. eapply Forall_impl; [exact Hl|]. intros p. apply future_filled_other. }
  destruct (default_on d "ZKPP_FUTURE_USE_STD" _) eqn:D1.
  { library Hag Hr (choice_table ("<future>", "std::future", "std::promise", "std::async", "std::launch"));
    by rewrite D1. }
  destruct (on d "ZKPP_FUTURE_USE_STD_EXPERIMENTAL") eqn:D2.
  { library Hag Hr (choice_table ("<experimental/future>", "std::experimental::future",
      "std::experimental::promise", "std::async", "std::launch")); by rewrite D1, D2. }
  destruct (on d "ZKPP_FUTURE_USE_BOOST") eqn:D3.
  { library Hag Hr (app boost_table (choice_table ("<boost/thread/future.hpp>", "boost::future",
      "boost::promise", "boost::async", "boost::launch"))); by rewrite D1, D2, D3. }
  assert (agrees d (future_table d) = true) as Hc by (unfold future_table; by rewrite D1, D2, D3).
  assert (future_given d = if on d "ZKPP_FUTURE_USE_CUSTOM" then future_texts d else None) as Hg
    by (unfold future_given; by rewrite D1, D2, D3).
  destruct (on d "ZKPP_FUTURE_USE_CUSTOM"); [|by left].
  unfold seq. rewrite require_defined_run. cbn [defs]. destruct (forallb (is_def _) _) eqn:Ed; cbv beta iota.
  - pose proof (future_declarations_run (future_filled d) i a) as Hd.
    rewrite (future_texts_filled d), <- Hg in Hd.
    destruct (future_given d) as [g|] eqn:Eg; [|destruct Hd as [msg ->]; by left].
    eapply future_declared; [exact Hr|exact Eg| |done]. by rewrite future_texts_filled.
  - left. rewrite Hg, <- future_texts_filled. by eapply undefined_texts.
Qed.

(** ** A compilation *)

Lemma upd_ne {A} x (v : A) m y : String.eqb x y = false -> upd x v m y = m y.
Proof. unfold upd. by intros ->. Qed.

Definition config_names : list string :=
  ["ZKPP_VERSION_MAJOR"; "ZKPP_VERSION_MINOR"; "ZKPP_VERSION_PATCH"; "ZKPP_DEBUG"].

Lemma config_hpp_run user_config d i a :
  d "ZKPP_USER_CONFIG" = None ->
  if agrees d config_table
  then exists d', config_hpp user_config (Pp d i a) = inr (Pp d' i a) /\
    forall x, existsb (String.eqb x) config_names = false -> d' x = d x
  else exists msg, config_hpp user_config (Pp d i a) = inl msg.
Proof.
  intros H. unfold config_hpp. rewrite (seq_ok _ _ _ (Pp d i a)) by (unfold ifdef; cbn; by rewrite H).
  pose proof (define_table_run config_table (ifndef "ZKPP_DEBUG" (define "ZKPP_DEBUG" (Int 0))) d i a
    ltac:(vm_decide)) as Ht.
  assert (forall e st, (define "ZKPP_VERSION_MAJOR" (Int 0) ;;; define "ZKPP_VERSION_MINOR" (Int 2) ;;;
    define "ZKPP_VERSION_PATCH" (Int 3) ;;; e) st = (define_flags config_table ;;; e) st) as ->
    by (intros; unfold config_table; table_tac).
  destruct (agrees d config_table); [|done]. rewrite Ht, ifndef_define. eexists. split; [done|].
  intros y. cbn. rewrite !orb_false_iff. intros (H1 & H2 & H3 & H4 & _).
  rewrite fill_other by (by rewrite String.eqb_sym). unfold macros; cbn [foldl config_table].
  by rewrite !upd_ne by (by rewrite String.eqb_sym).
Qed.

(** What a build of the library declares. *)
Definition selected (d : string -> option body) (st : pp) : Prop :=
  exists h f p y l hb t, future_given d = Some (h, f, p, y, l) /\ buffer_given d = Some (hb, t) /\
    declared st "future" = Some f /\ declared st "promise" = Some p /\ declared st "async" = Some y /\
    declared st "launch" = Some l /\ declared st "buffer" = Some t /\ h ∈ included st /\ hb ∈ included st /\
    let lib := if on d "ZKPP_FUTURE_USE_BOOST" then "boost" else "std" in
    declared st "exception_ptr" = Some (lib ++ "::exception_ptr") /\
    declared st "current_exception" = Some (lib ++ "::current_exception").

Lemma exceptions_run st :
  integer (defs st) "ZKPP_FUTURE_USE_BOOST" = true ->
  exists st', (exceptions_hpp ;;; exceptions_cpp) st = inr st' /\ defs st' = defs st /\
    (let lib := if on (defs st) "ZKPP_FUTURE_USE_BOOST" then "boost" else "std" in
     declared st' "exception_ptr" = Some (lib ++ "::exception_ptr") /\
     declared st' "current_exception" = Some (lib ++ "::current_exception")) /\
    (forall x, existsb (String.eqb x) ["exception_ptr"; "current_exception"; "throw_exception"] = false ->
       declared st' x = declared st x) /\
    included st ⊆ included st'.
Proof.
  intros H. unfold exceptions_hpp, exceptions_cpp. destruct (on (defs st) "ZKPP_FUTURE_USE_BOOST") eqn:E.
  all: eexists; split_and!;
    [rewrite seq_assoc, seq_pp_if, E by done; erewrite seq_ok by reflexivity;
     rewrite seq_pp_if by done; cbn [defs]; rewrite E; rewrite seq_assoc; do 2 erewrite seq_ok by reflexivity;
     rewrite pp_if_1 by done; cbn [defs]; rewrite E; reflexivity|..];
    try reflexivity; [|set_solver].
  all: cbn; intros x; rewrite !orb_false_iff; intros (H1 & H2 & H3 & _).
  all: rewrite !upd_ne by (by rewrite String.eqb_sym); done.
Qed.

(** Macros that agree on the names the choices look at give the same choices. *)
Lemma future_given_ext d d' :
  (forall x, existsb (String.eqb x) config_names = false -> d' x = d x) ->
  future_given d' = future_given d /\ agrees d' (future_table d') = agrees d (future_table d) /\
  on d' "ZKPP_FUTURE_USE_BOOST" = on d "ZKPP_FUTURE_USE_BOOST" /\
  (forall xs, existsb (fun x => existsb (String.eqb x) config_names) xs = false ->
     forallb (integer d') xs = forallb (integer d) xs).
Proof.
  intros H. split_and!.
  - unfold future_given, default_on, future_texts, is_def, on, text. cbn [existsb]. by rewrite !H by done.
  - assert (future_table d' = future_table d) as ->
      by (unfold future_table, default_on, is_def, on; cbn [existsb]; by rewrite !H by done).
    apply agrees_ext. unfold future_table. repeat case_match; repeat constructor; by apply H.
  - unfold on. by rewrite H.
  - induction xs as [|x xs IH]; [done|]. cbn [existsb forallb]. intros [H1 H2]%orb_false_iff.
    unfold integer at 1 3. by rewrite H, IH.
Qed.

Lemma buffer_given_ext d d' :
  Forall (fun x => d' x = d x) buffer_macros ->
  buffer_given d' = buffer_given d /\ agrees d' (buffer_table d') = agrees d (buffer_table d) /\
  forallb (integer d') buffer_names = forallb (integer d) buffer_names.
Proof.
  intros H. repeat (apply Forall_cons_1 in H as [? H]).
  assert (agrees d' (buffer_table d) = agrees d (buffer_table d)) as <-
    by (apply agrees_ext; unfold buffer_table; repeat case_match; by repeat constructor).
  unfold buffer_given, buffer_table, default_on, is_def, on, text, integer. cbn [existsb forallb buffer_names].
  by repeat match goal with E : d' _ = d _ |- _ => rewrite E; clear E end.
Qed.

(** The macros the headers define are not defined otherwise, and the type of a buffer
    fits. *)
Definition headers_agree (d : string -> option body) : bool :=
  agrees d config_table && agrees d (future_table d) && agrees d (buffer_table d).

Lemma zk_headers_run user_config traits d i a :
  d "ZKPP_USER_CONFIG" = None -> forallb (integer d) future_names = true ->
  forallb (integer d) buffer_names = true ->
  match zk_headers user_config traits (Pp d i a) with
  | inl _ => future_given d = None \/ buffer_given d = None \/ headers_agree d = false \/
      exists h t, buffer_given d = Some (h, t) /\ buffer_fits (traits t) = false
  | inr st => selected d st /\ headers_agree d = true /\
      forall h t, buffer_given d = Some (h, t) -> buffer_fits (traits t) = true
  end.
Proof.
  intros Hu Hf Hb. pose proof (config_hpp_run user_config d i a Hu) as Hc.
  unfold zk_headers, headers_agree. destruct (agrees d config_table).
  2: { destruct Hc as [msg E]. unfold seq at 1. rewrite E. auto. }
  destruct Hc as (d1 & E1 & H1).
  rewrite (seq_ok _ _ _ _ E1). destruct (future_given_ext d d1 H1) as (Hg & Hgt & Hon & Hint).
  pose proof (future_hpp_run d1 i a ltac:(by rewrite Hint)) as Hrun. unfold seq at 1.
  destruct (future_hpp _) as [msg|st2]; cbn [future_result] in Hrun; rewrite Hgt in Hrun.
  { rewrite Hg in Hrun. destruct Hrun as [|Hrun]; [by left|]. rewrite Hrun. auto. }
  destruct Hrun as ((h & f & p & y & l & Hg1 & Hd2 & Hi2 & Hb2 & Hon2 & Hm2) & Ha2). rewrite Ha2.
  destruct (exceptions_run st2 Hb2) as (st3 & E3 & Hdef3 & Hex3 & Hd3 & Hi3).
  rewrite <- seq_assoc, (seq_ok _ _ _ _ E3). destruct st3 as [d3 i3 a3]. cbn in *. subst d3.
  assert (Forall (fun x => defs st2 x = d x) buffer_macros) as Hm.
  { rewrite Forall_forall in *. intros x Hx. rewrite Hm2 by done. apply H1.
    revert x Hx. apply Forall_forall. by repeat constructor. }
  destruct (buffer_given_ext d _ Hm) as (Hbg & Hbt & Hbi).
  pose proof (buffer_hpp_run traits (defs st2) i3 a3 ltac:(by rewrite Hbi)) as Hrun.
  unfold buffer_result in Hrun. rewrite Hbg, Hbt in Hrun.
  destruct (buffer_hpp _ _) as [msg|st4]; [by right; destruct Hrun as [|[|]]; auto|].
  destruct Hrun as (hb & t & Hgb & Ha4 & Hft & Hd4 & Hi4). rewrite Hon2, Hon in Hex3. rewrite Hd2 in Hd3.
  split_and!; [|done|by intros h' t'; rewrite Hgb; intros [= <- <-]].
  exists h, f, p, y, l, hb, t. rewrite Hd4, Hi4, <- Hg. unfold upd at 1 2 3 4 5 6 7. cbn -[upd].
  rewrite !Hd3 by done. split_and!; try reflexivity; [exact Hg1|exact Hgb| | |apply Hex3..].
  - apply elem_of_app. left. apply Hi3. rewrite Hi2. apply elem_of_app. right. left.
  - apply elem_of_app. right. left.
Qed.

(** ** The settings of the build *)

(** The types each setting names; for CUSTOM those the user defines. *)
Definition buffer_of (user : string -> option body) (b : string) : option string :=
  if String.eqb b "STD_VECTOR" then Some "std::vector<char>"
  else if String.eqb b "STD_STRING" then Some "std::string"
  else text user "ZKPP_BUFFER_INCLUDE" ≫= fun _ => text user "ZKPP_BUFFER_TYPE".

Definition futures_of (user : string -> option body) (f : string) :
    option (string * string * string * string) :=
  if String.eqb f "STD" then Some ("std::future", "std::promise", "std::async", "std::launch")
  else if String.eqb f "STD_EXPERIMENTAL" then
    Some ("std::experimental::future", "std::experimental::promise", "std::async", "std::launch")
  else if String.eqb f "BOOST" then Some ("boost::future", "boost::promise", "boost::async", "boost::launch")
  else '(_, f, p, y, l) ← future_texts user; Some (f, p, y, l).

(** The macros the headers define for each setting are not defined otherwise. *)
Definition setting_agrees (b f : string) (m : string -> option body) : bool :=
  agrees m config_table &&
  agrees m
    (if String.eqb f "STD" then
       choice_table ("<future>", "std::future", "std::promise", "std::async", "std::launch")
     else if String.eqb f "STD_EXPERIMENTAL" then
       choice_table ("<experimental/future>", "std::experimental::future", "std::experimental::promise",
         "std::async", "std::launch")
     else if String.eqb f "BOOST" then
       app boost_table (choice_table ("<boost/thread/future.hpp>", "boost::future", "boost::promise",
         "boost::async", "boost::launch"))
     else []) &&
  agrees m
    (if String.eqb b "STD_VECTOR" then
       [("ZKPP_BUFFER_INCLUDE", Tokens "<vector>"); ("ZKPP_BUFFER_TYPE", Tokens "std::vector<char>")]
     else if String.eqb b "STD_STRING" then
       [("ZKPP_BUFFER_INCLUDE", Tokens "<string>"); ("ZKPP_BUFFER_TYPE", Tokens "std::string")]
     else []).

(** The macros a build starts with. *)
Definition set_flag (name dflt v : string) : list (string * body) :=
  if String.eqb v dflt then [] else [("ZKPP_" ++ name ++ "_USE_" ++ v, Int 1)].

Lemma configuration_setting_run name dflt options cache flags :
  configuration_setting name dflt None options cache flags =
    if decide (default dflt cache ∈ options) then inr (app flags (set_flag name dflt (default dflt cache)))
    else inl ("Invalid setting for " ++ name ++ ": " ++ default dflt cache).
Proof.
  unfold configuration_setting, set_flag. cbn [default from_option].
  change (from_option id dflt cache) with (default dflt cache).
  destruct (existsb _ options) eqn:E; cbn [negb].
  - apply existsb_exists in E as (x & Hx%list_elem_of_In & ->%String.eqb_eq).
    rewrite decide_True by done. destruct (String.eqb x dflt); cbn [negb]; by rewrite ?app_nil_r.
  - rewrite decide_False; [done|]. intros Hin%list_elem_of_In. apply not_true_iff_false in E. destruct E.
    apply existsb_exists. eexists. split; [exact Hin|apply String.eqb_refl].
Qed.

Lemma cmake_flags_run debug bo fo user :
  match cmake_flags debug bo fo user with
  | inr flags => default "STD_VECTOR" bo ∈ buffer_options /\ default "STD" fo ∈ future_options /\
      flags = app user (app (set_flag "BUFFER" "STD_VECTOR" (default "STD_VECTOR" bo))
        (app (set_flag "FUTURE" "STD" (default "STD" fo)) (if debug then [("ZKPP_DEBUG", Int 1)] else [])))
  | inl _ => default "STD_VECTOR" bo ∉ buffer_options \/ default "STD" fo ∉ future_options
  end.
Proof.
  unfold cmake_flags. rewrite !configuration_setting_run. destruct (decide _) as [Hb|Hb]; [|by left].
  rewrite configuration_setting_run. destruct (decide _) as [Hf|Hf]; [|by right].
  split_and!; [done..|]. by rewrite <- !app_assoc.
Qed.

(** The flags of the compiler, and whether one of the macros is defined in two ways, on the
    command line or there and in a header. *)
Definition compiler_flags (debug : bool) (b f : string) (user : list (string * body)) : list (string * body) :=
  app user (app (set_flag "BUFFER" "STD_VECTOR" b)
    (app (set_flag "FUTURE" "STD" f) (if debug then [("ZKPP_DEBUG", Int 1)] else []))).

Definition clash (debug : bool) (b f : string) (user : list (string * body)) : bool :=
  negb (consistent (compiler_flags debug b f user) (fun _ => None) &&
        setting_agrees b f (macros user (fun _ => None))).

(** The choices made from the flags of the settings. *)
Lemma flags_given debug b f m :
  b ∈ buffer_options -> f ∈ future_options ->
  Forall (fun x => m x = None) ("ZKPP_USER_CONFIG" :: app future_names buffer_names) ->
  let d := macros (app (set_flag "BUFFER" "STD_VECTOR" b)
             (app (set_flag "FUTURE" "STD" f) (if debug : bool then [("ZKPP_DEBUG", Int 1)] else []))) m in
  d "ZKPP_USER_CONFIG" = None /\ forallb (integer d) future_names = true /\
  forallb (integer d) buffer_names = true /\ buffer_given d ≫= (fun g => Some g.2) = buffer_of m b /\
  future_given d ≫= (fun '(_, f, p, y, l) => Some (f, p, y, l)) = futures_of m f /\
  on d "ZKPP_FUTURE_USE_BOOST" = String.eqb f "BOOST" /\ headers_agree d = setting_agrees b f m.
Proof.
  intros Hb Hf H. repeat (apply Forall_cons_1 in H as [? H]).
  unfold buffer_options, future_options in *. set_unfold in Hb. set_unfold in Hf.
  cbv zeta. unfold headers_agree, setting_agrees, future_table, buffer_table.
  unfold forallb, integer, buffer_given, future_given, default_on, is_def, on, existsb, buffer_of, futures_of,
    future_texts, text.
  destruct Hb as [->|[->|[->|[]]]], Hf as [->|[->|[->|[->|[]]]]], debug.
  all: repeat match goal with |- context [set_flag ?n ?d ?v] =>
    let l := eval vm_compute in (set_flag n d v) in change (set_flag n d v) with l end; cbn.
  all: repeat match goal with E : ?m _ = None |- _ => rewrite E; clear E end; cbn.
  all: split_and!; try reflexivity.
  all: repeat match goal with |- context [match ?m ?x with _ => _ end] => destruct (m x) as [[]|]; try reflexivity end.
Qed.

(** Only CUSTOM needs macros of the user. *)
Lemma custom_future m f : f ∈ future_options -> futures_of m f = None -> f = "CUSTOM".
Proof. unfold future_options. set_unfold. by intros [->|[->|[->|[->|[]]]]]. Qed.

Lemma custom_buffer m b : b ∈ buffer_options -> buffer_of m b = None -> b = "CUSTOM".
Proof. unfold buffer_options. set_unfold. by intros [->|[->|[->|[]]]]. Qed.

(** The types of the standard library fit. *)
Lemma custom_unfit m b t (fits : string -> bool) :
  b ∈ buffer_options -> fits "std::vector<char>" = true -> fits "std::string" = true ->
  buffer_of m b = Some t -> fits t = false -> b = "CUSTOM".
Proof.
  unfold buffer_options. set_unfold. intros [->|[->|[->|[]]]] Hv Hs; [..|done]; intros [= <-]; congruence.
Qed.

(** ** Properties *)


(** The types of the standard library meet the assertions, other types need not. *)
Definition std_traits (t : string) : type_traits :=
  let std := (String.eqb t "std::vector<char>" || String.eqb t "std::string")%bool in
  TypeTraits 1 std std std std std std std.


(** A custom buffer that fails one of the assertions, and a macro with two definitions. *)
Example custom_buffer_unfit :
  compile skip std_traits [("ZKPP_BUFFER_USE_CUSTOM", Int 1); ("ZKPP_BUFFER_INCLUDE", Tokens "<list>");
    ("ZKPP_BUFFER_TYPE", Tokens "std::list<char>")] = inl "buffer::size_type must be std::size_t".
Proof. reflexivity. Qed.

Example type_without_custom :
  cmake_build skip std_traits false None None [("ZKPP_BUFFER_TYPE", Tokens "std::string")] =
    inl "ZKPP_BUFFER_TYPE redefined".
Proof. reflexivity. Qed.

(** Two switches at once, without the build files: the futures of one library and the
    exceptions of the other. *)
Example mixed_libraries :
  match compile skip std_traits [("ZKPP_FUTURE_USE_STD", Int 1); ("ZKPP_FUTURE_USE_BOOST", Int 1)] with
  | inr st => declared st "future" = Some "std::future" /\ declared st "exception_ptr" = Some "boost::exception_ptr"
  | inl _ => False
  end.
Proof. vm_compute. by split. Qed.

(** A custom future with the three macros future.hpp asks for passes its check, and fails
    at the fourth. *)
Example custom_future_incomplete :
  compile skip std_traits [("ZKPP_FUTURE_USE_CUSTOM", Int 1); ("ZKPP_FUTURE_TEMPLATE", Tokens "my::future");
    ("ZKPP_PROMISE_TEMPLATE", Tokens "my::promise"); ("ZKPP_FUTURE_INCLUDE", Tokens "<my/future.hpp>")] =
  inl "not declared: ZKPP_LAUNCH_ENUM".
Proof. reflexivity. Qed.
