(* ===== verification/Pipe.v ===== *)
(** * Pipe: src/zk/server/detail/pipe.cpp, close.cpp and event_handle.cpp

    The file descriptors behind a child process. The system calls are parameters that
    act on a kernel state [K]; a call answers with a value or an [errno]. What POSIX
    promises of them is the class [PipeKernel] (for one pipe, seen from either end) and
    the eventfd counter. Allocation of the string that is read is taken to succeed. *)

From S2P Require Import Prelude Error.

(** ** System calls *)

Inductive sysres (A : Type) :=
| SysOk (a : A)
| SysErr (errno : Z).
Arguments SysOk {A} a.
Arguments SysErr {A} errno.

Definition ESRCH : Z := 3.
Definition EINTR : Z := 4.
Definition EIO : Z := 5.
Definition EAGAIN : Z := 11.
Definition EPIPE : Z := 32.

Inductive on_exec := exec_close | exec_keep_open.

Definition O_CLOEXEC : Z := 524288.

Definition on_exec_flags (exec : on_exec) : Z :=
  match exec with exec_close => O_CLOEXEC | exec_keep_open => 0 end.

(** The calls a pipe makes; [sys_pipe2] takes the flags of [on_exec]. *)
Record calls (K : Type) := Calls {
  sys_pipe2 : Z -> K -> sysres (Z * Z) * K;
  sys_close : Z -> K -> sysres unit * K;
  sys_read : Z -> nat -> K -> sysres str * K;
  sys_write : Z -> str -> K -> sysres nat * K;
  sys_dup3 : Z -> Z -> Z -> K -> sysres Z * K;
}.
Arguments sys_pipe2 {K}.
Arguments sys_close {K}.
Arguments sys_read {K}.
Arguments sys_write {K}.
Arguments sys_dup3 {K}.

Record pipe := Pipe { read_fd : Z; write_fd : Z }.

(** The size of [read_buf]. *)
Definition read_buf_size : nat := 4096.

Section pipe.
Context {K : Type} (sys : calls K).

(** [detail::close] *)
Definition close_fd (fd : Z) (k : K) : res unit * K :=
  match sys_close sys fd k with
  | (SysOk _, k') => (Ok tt, k')
  | (SysErr e, k') =>
      ((if (e =? EINTR)%Z then Ok tt
        else if (e =? EIO)%Z then Throw (SystemError e "I/O error on close()")
        else Throw (SystemError e "System error on close()")), k')
  end.

Definition make_pipe (exec : on_exec) (k : K) : res pipe * K :=
  match sys_pipe2 sys (on_exec_flags exec) k with
  | (SysOk (r, w), k') => (Ok (Pipe r w), k')
  | (SysErr e, k') => (Throw (SystemError e "Could not create pipe"), k')
  end.

(** The descriptor afterwards. *)
Definition close_if_open (fd : Z) (k : K) : res Z * K :=
  if (fd =? -1)%Z then (Ok fd, k)
  else match close_fd fd k with
       | (Ok _, k') => (Ok (-1)%Z, k')
       | (Throw e, k') => (Throw e, k')
       end.

Definition close_read (p : pipe) (k : K) : res unit * pipe * K :=
  match close_if_open (read_fd p) k with
  | (Ok fd, k') => (Ok tt, Pipe fd (write_fd p), k')
  | (Throw e, k') => (Throw e, p, k')
  end.

Definition close_write (p : pipe) (k : K) : res unit * pipe * K :=
  match close_if_open (write_fd p) k with
  | (Ok fd, k') => (Ok tt, Pipe (read_fd p) fd, k')
  | (Throw e, k') => (Throw e, p, k')
  end.

Definition close (p : pipe) (k : K) : res unit * pipe * K :=
  match close_write p k with
  | (Ok _, p', k') => close_read p' k'
  | (Throw e, p', k') => (Throw e, p', k')
  end.

(** The loop of [read]; [None] when the fuel is used up. *)
Fixpoint read_loop (fuel : nat) (fd : Z) (out : str) (k : K) : option (res str * K) :=
  match fuel with
  | O => None
  | S fuel' =>
      match sys_read sys fd read_buf_size k with
      | (SysErr e, k') =>
          if (e =? EAGAIN)%Z then Some (Ok out, k')
          else if (e =? EINTR)%Z then read_loop fuel' fd out k'
          else match out with
               | [] => Some (Throw (SystemError e "Failed to read from pipe"), k')
               | _ => Some (Ok out, k')
               end
      | (SysOk [], k') => Some (Ok out, k')
      | (SysOk d, k') => read_loop fuel' fd (out ++ d) k'
      end
  end.

(** [max] only reserves memory. *)
Definition read (fuel : nat) (p : pipe) (max : option nat) (k : K) : option (res str * K) :=
  if (read_fd p =? -1)%Z then Some (Throw PipeClosed, k)
  else read_loop fuel (read_fd p) [] k.

(** The loop of [write]; [rest] is what lies between [write_ptr] and the end. *)
Fixpoint write_loop (fuel : nat) (fd : Z) (rest : str) (k : K) : option (res unit * K) :=
  match rest with
  | [] => Some (Ok tt, k)
  | _ =>
    match fuel with
    | O => None
    | S fuel' =>
        match sys_write sys fd rest k with
        | (SysErr e, k') =>
            if (e =? EAGAIN)%Z then write_loop fuel' fd rest k'
            else if (e =? EINTR)%Z then write_loop fuel' fd rest k'
            else if (e =? EPIPE)%Z then Some (Throw PipeClosed, k')
            else Some (Throw (SystemError e "Failed to write to pipe"), k')
        | (SysOk n, k') => write_loop fuel' fd (drop n rest) k'
        end
    end
  end.

Definition write (fuel : nat) (p : pipe) (contents : str) (k : K) : option (res unit * K) :=
  if (write_fd p =? -1)%Z then Some (Throw PipeClosed, k)
  else write_loop fuel (write_fd p) contents k.

Fixpoint dup3 (fuel : nat) (src redir : Z) (exec : on_exec) (k : K) : option (res Z * K) :=
  match fuel with
  | O => None
  | S fuel' =>
      match sys_dup3 sys src redir (on_exec_flags exec) k with
      | (SysOk fd, k') => Some (Ok fd, k')
      | (SysErr e, k') =>
          if (e =? EINTR)%Z then dup3 fuel' src redir exec k'
          else Some (Throw (SystemError e []), k')
      end
  end.

Definition subsume_read (fuel : nat) (p : pipe) (fd : Z) (exec : on_exec) (k : K)
    : option (res unit * pipe * K) :=
  match dup3 fuel (read_fd p) fd exec k with
  | Some (Ok _, k') => Some (close_read p k')
  | Some (Throw e, k') => Some (Throw e, p, k')
  | None => None
  end.

Definition subsume_write (fuel : nat) (p : pipe) (fd : Z) (exec : on_exec) (k : K)
    : option (res unit * pipe * K) :=
  match dup3 fuel (write_fd p) fd exec k with
  | Some (Ok _, k') => Some (close_write p k')
  | Some (Throw e, k') => Some (Throw e, p, k')
  | None => None
  end.

(** ** What the kernel promises

    [written] and [consumed] are all the bytes that ever went into the write end and
    came out of the read end. The other end may be used by another process between any
    two calls: a write says nothing of [consumed] but that it stays a prefix. A full pipe
    refuses with [EAGAIN] for as long as nobody reads. *)
Class PipeKernel (p : pipe) := {
  written : K -> str;
  consumed : K -> str;
  write_law : forall s k, s <> [] ->
    match sys_write sys (write_fd p) s k with
    | (SysOk n, k') => 0 < n <= length s /\ written k' = written k ++ take n s
    | (SysErr e, k') => written k' = written k
    end;
  read_law : forall n k, 0 < n ->
    match sys_read sys (read_fd p) n k with
    | (SysOk d, k') =>
        length d <= n /\ consumed k' = consumed k ++ d /\ (d = [] -> consumed k' = written k')
    | (SysErr e, k') =>
        consumed k' = consumed k /\ (e = EAGAIN -> consumed k' = written k')
    end;
}.

(** A pipe whose writer comes to an end: [supply] bounds the bytes and interruptions a
    reader may still see. *)
Class PipeSupply (p : pipe) := {
  supply : K -> nat;
  supply_law : forall n k, 0 < n ->
    match sys_read sys (read_fd p) n k with
    | (SysOk d, k') => length d + supply k' <= supply k
    | (SysErr e, k') => supply k' <= supply k /\ (e = EINTR -> supply k' < supply k)
    end;
}.

(** The calls of the loop of [write] that were refused with [EAGAIN] or [EINTR]. *)
Fixpoint refused_writes (fuel : nat) (fd : Z) (rest : str) (k : K) : nat :=
  match rest, fuel with
  | [], _ | _, O => 0
  | _, S fuel' =>
      match sys_write sys fd rest k with
      | (SysErr e, k') =>
          if (e =? EAGAIN)%Z || (e =? EINTR)%Z then S (refused_writes fuel' fd rest k') else 0
      | (SysOk n, k') => refused_writes fuel' fd (drop n rest) k'
      end
  end.

(** The bytes and interruptions the loop of [read] meets. *)
Fixpoint met_by_read (fuel : nat) (fd : Z) (k : K) : nat :=
  match fuel with
  | O => 0
  | S fuel' =>
      match sys_read sys fd read_buf_size k with
      | (SysErr e, k') => if (e =? EINTR)%Z then S (met_by_read fuel' fd k') else 0
      | (SysOk [], k') => 0
      | (SysOk d, k') => length d + met_by_read fuel' fd k'
      end
  end.

Context (p : pipe) {KP : PipeKernel p}.

Lemma write_loop_correct fuel rest k :
  match write_loop fuel (write_fd p) rest k with
  | Some (r, k') => exists done todo,
      rest = done ++ todo /\ written k' = written k ++ done /\ (r = Ok tt <-> todo = [])
  | None => fuel < length rest + refused_writes fuel (write_fd p) rest k
  end.
Proof.
  revert rest k. induction fuel as [|fuel IH]; intros [|c rest] k; cbn [write_loop refused_writes].
  1,3: exists [], []; by rewrite !app_nil_r.
  { cbn. lia. }
  pose proof (write_law (c :: rest) k ltac:(done)) as L.
  destruct (sys_write sys (write_fd p) (c :: rest) k) as [[n|e] k'].
  - destruct L as (Hn & Hw). specialize (IH (drop n (c :: rest)) k'). rewrite length_drop in IH.
    destruct (write_loop fuel _ _ k') as [[r k2]|]; [|lia].
    destruct IH as (d & t & Ed & Ew & Er). exists (take n (c :: rest) ++ d), t. split_and!.
    + by rewrite <- app_assoc, <- Ed, take_drop.
    + by rewrite Ew, Hw, app_assoc.
    + done.
  - specialize (IH (c :: rest) k'). rewrite L in IH.
    assert (Stop : forall ex : exn, exists d t, c :: rest = d ++ t /\ written k' = written k ++ d /\
        (Throw ex = Ok tt <-> t = [])) by (intros ex; exists [], (c :: rest); by rewrite app_nil_r).
    destruct (e =? EAGAIN)%Z eqn:E1; [|destruct (e =? EINTR)%Z eqn:E2]; cbn [orb].
    + destruct (write_loop fuel _ _ k') as [[r k2]|]; [done|lia].
    + destruct (write_loop fuel _ _ k') as [[r k2]|]; [done|lia].
    + destruct (e =? EPIPE)%Z; auto.
Qed.

(** What one or more reads did. *)
Definition has_read (out : str) (k : K) (r : res str) (k' : K) : Prop :=
  match r with
  | Ok s => (exists d, s = out ++ d /\ consumed k' = consumed k ++ d) /\ (s = [] -> consumed k' = written k')
  | Throw _ => out = [] /\ consumed k' = consumed k
  end.

Lemma read_loop_correct fuel out k :
  match read_loop fuel (read_fd p) out k with
  | Some (r, k') => has_read out k r k'
  | None => fuel <= met_by_read fuel (read_fd p) k
  end.
Proof.
  revert out k. induction fuel as [|fuel IH]; intros out k; cbn [read_loop met_by_read]; [lia|].
  pose proof (read_law read_buf_size k ltac:(unfold read_buf_size; lia)) as L.
  destruct (sys_read sys (read_fd p) read_buf_size k) as [[[|c d]|e] k'].
  - destruct L as (_ & Hc & Hd). split; [|auto]. exists []. by rewrite app_nil_r.
  - destruct L as (_ & Hc & _). specialize (IH (out ++ c :: d) k').
    destruct (read_loop fuel _ _ k') as [[[s|ex] k2]|]; [| |cbn [length]; lia].
    + destruct IH as ((d' & -> & Hc') & Hn). split; [|done].
      exists ((c :: d) ++ d'). by rewrite Hc', Hc, !app_assoc.
    + by destruct IH as [[_ ?]%app_eq_nil _].
  - destruct L as (Hc & Hd).
    assert (Done : exists d, out = out ++ d /\ consumed k' = consumed k ++ d)
      by (exists []; by rewrite !app_nil_r).
    destruct (e =? EAGAIN)%Z eqn:E1; bool_prop; [split; auto|].
    destruct (e =? EINTR)%Z eqn:E2; bool_prop.
    + specialize (IH out k'). destruct (read_loop fuel _ _ k') as [[r k2]|]; [|lia].
      unfold has_read in *. by rewrite Hc in IH.
    + destruct out; by split.
Qed.

Lemma met_by_read_supply {KS : PipeSupply p} fuel k : met_by_read fuel (read_fd p) k <= supply k.
Proof.
  revert k. induction fuel as [|fuel IH]; intros k; cbn [met_by_read]; [lia|].
  pose proof (supply_law read_buf_size k ltac:(unfold read_buf_size; lia)) as L.
  destruct (sys_read sys (read_fd p) read_buf_size k) as [[[|c d]|e] k']; [lia| |].
  - specialize (IH k'). lia.
  - destruct (e =? EINTR)%Z eqn:E; bool_prop; [|lia]. specialize (IH k'). destruct L as [_ L].
    specialize (L E). lia.
Qed.

(** A loop of reads leaves what a single read leaves. *)
Lemma read_loop_frame {A} (f : K -> A) (R : A -> A -> Prop) `{!PreOrder R} fuel fd out k r k' :
  (forall n k1 x k2, sys_read sys fd n k1 = (x, k2) -> R (f k2) (f k1)) ->
  read_loop fuel fd out k = Some (r, k') -> R (f k') (f k).
Proof.
  intros Hf. revert out k. induction fuel as [|fuel IH]; intros out k E; cbn [read_loop] in E; [done|].
  destruct (sys_read sys fd read_buf_size k) as [x k1] eqn:Er. pose proof (Hf _ _ _ _ Er) as H1.
  assert (forall o, read_loop fuel fd o k1 = Some (r, k') -> R (f k') (f k)) as Hloop
    by (intros o Ho; etrans; [by eapply IH|done]).
  destruct x as [[|c d]|e]; [by simplify_eq|by eapply Hloop|].
  repeat case_hyp E; simplify_eq; try done; by eapply Hloop.
Qed.

(** A reader of a pipe whose writer comes to an end. *)
Lemma read_loop_supply {KS : PipeSupply p} fuel out k :
  supply k < fuel ->
  exists r k', read_loop fuel (read_fd p) out k = Some (r, k') /\ supply k' <= supply k /\
    match r with
    | Ok s => (exists d, s = out ++ d /\ consumed k' = consumed k ++ d /\
                         length d + supply k' <= supply k) /\
              (s = [] -> consumed k' = written k')
    | Throw _ => out = [] /\ consumed k' = consumed k
    end.
Proof.
  revert out k. induction fuel as [|fuel IH]; intros out k Hf; cbn [read_loop]; [lia|].
  pose proof (read_law read_buf_size k ltac:(unfold read_buf_size; lia)) as L.
  pose proof (supply_law read_buf_size k ltac:(unfold read_buf_size; lia)) as L'.
  destruct (sys_read sys (read_fd p) read_buf_size k) as [[[|c d]|e] k'].
  - destruct L as (_ & Hc & Hd). cbn in L'. eexists _, _; split; [done|]. split; [lia|].
    split; [|auto]. exists []. by rewrite app_nil_r.
  - destruct L as (_ & Hc & _). cbn in L'.
    destruct (IH (out ++ c :: d) k') as (r & k2 & E & Hle & Hr); [lia|].
    exists r, k2. split; [done|]. split; [lia|]. destruct r as [s|ex].
    + destruct Hr as ((d' & -> & Hc' & Hl) & Hn). split; [|done].
      exists ((c :: d) ++ d'). rewrite Hc', Hc, !app_assoc. split; [done|]. split; [done|].
      rewrite length_app. cbn. lia.
    + by destruct Hr as [[_ ?]%app_eq_nil _].
  - destruct L as (Hc & Hd), L' as (Hle & Hs).
    assert (Done : exists d, out = out ++ d /\ consumed k' = consumed k ++ d /\
                             length d + supply k' <= supply k)
      by (exists []; by rewrite !app_nil_r).
    destruct (e =? EAGAIN)%Z eqn:E1; bool_prop; [eexists _, _; split; [done|]; split; [done|]; split; auto|].
    destruct (e =? EINTR)%Z eqn:E2; bool_prop.
    + destruct (IH out k') as (r & k2 & E & Hle' & Hr); [specialize (Hs E2); lia|].
      exists r, k2. split; [done|]. split; [lia|]. rewrite <- Hc. destruct r; [|done].
      destruct Hr as ((d & ? & ? & ?) & ?). split; [|done]. exists d. split_and!; [done|done|lia].
    + destruct out; eexists _, _; (split; [done|]); (split; [done|]); by split.
Qed.

(** A pipe that is full and has no reader. *)
Lemma write_loop_spins (full : K -> Prop) fd :
  (forall s k, full k -> exists k', sys_write sys fd s k = (SysErr EAGAIN, k') /\ full k') ->
  forall fuel rest k, rest <> [] -> full k -> write_loop fuel fd rest k = None.
Proof.
  intros H fuel. induction fuel as [|fuel IH]; intros [|c rest] k Hr Hk; try done. cbn [write_loop].
  destruct (H (c :: rest) k Hk) as (k' & -> & Hk'). cbn. by apply IH.
Qed.

End pipe.

(** ** event_handle *)

(** The calls on an eventfd: write adds to the counter, read takes it. *)
Record event_calls (K : Type) := EventCalls {
  ev_close : Z -> K -> sysres unit * K;
  ev_write : Z -> Z -> K -> sysres unit * K;
  ev_read : Z -> K -> sysres Z * K;
}.
Arguments ev_close {K}.
Arguments ev_write {K}.
Arguments ev_read {K}.

Section event_handle.
Context {K : Type} (sys : event_calls K).

(** The constructor: what [eventfd] returns is the descriptor, -1 included. *)
Definition make_event_handle (sys_eventfd : K -> sysres Z * K) (k : K) : Z * K :=
  match sys_eventfd k with
  | (SysOk fd, k') => (fd, k')
  | (SysErr _, k') => ((-1)%Z, k')
  end.

Definition notify_one (fd : Z) (k : K) : res unit * K :=
  match ev_write sys fd 1 k with
  | (SysOk _, k') => (Ok tt, k')
  | (SysErr e, k') =>
      ((if (e =? EAGAIN)%Z then Ok tt
        else Throw (SystemError e "event_handle::notify_one()")), k')
  end.

Definition try_wait (fd : Z) (k : K) : res bool * K :=
  match ev_read sys fd k with
  | (SysOk _, k') => (Ok true, k')
  | (SysErr e, k') =>
      ((if (e =? EAGAIN)%Z then Ok false
        else Throw (SystemError e "event_handle::try_wait()")), k')
  end.

(** [close], the descriptor afterwards; an exception would end the program, since the
    function is [noexcept]. *)
Definition event_close (fd : Z) (k : K) : res Z * K :=
  if (fd =? -1)%Z then (Ok fd, k)
  else match ev_close sys fd k with
       | (SysErr e, k') =>
           if (e =? EINTR)%Z then (Ok (-1)%Z, k')
           else if (e =? EIO)%Z then (Throw (SystemError e "I/O error on close()"), k')
           else (Throw (SystemError e "System error on close()"), k')
       | (SysOk _, k') => (Ok (-1)%Z, k')
       end.

(** What eventfd(2) says of a non-blocking descriptor without [EFD_SEMAPHORE]. *)
Definition counter_max : Z := 18446744073709551614.

Class EventKernel (fd : Z) := {
  counter : K -> Z;
  ev_write_law : forall v k,
    if (counter k + v <=? counter_max)%Z
    then exists k', ev_write sys fd v k = (SysOk tt, k') /\ counter k' = (counter k + v)%Z
    else exists k', ev_write sys fd v k = (SysErr EAGAIN, k') /\ counter k' = counter k;
  ev_read_law : forall k,
    if (0 <? counter k)%Z
    then exists k', ev_read sys fd k = (SysOk (counter k), k') /\ counter k' = 0%Z
    else exists k', ev_read sys fd k = (SysErr EAGAIN, k') /\ counter k' = counter k;
}.

Context (fd : Z) {KE : EventKernel fd}.

Fixpoint notify_many (n : nat) (k : K) : res unit * K :=
  match n with
  | O => (Ok tt, k)
  | S n' => match notify_one fd k with
            | (Ok _, k') => notify_many n' k'
            | r => r
            end
  end.

Lemma notify_one_ok k :
  (0 <= counter k <= counter_max)%Z ->
  exists k', notify_one fd k = (Ok tt, k') /\ (0 < counter k' <= counter_max)%Z.
Proof.
  intros Hc. unfold notify_one. pose proof (ev_write_law 1 k) as L.
  destruct (counter k + 1 <=? counter_max)%Z eqn:E; bool_prop;
    destruct L as (k' & -> & Hk'); exists k'; (split; [done|]); unfold counter_max in *; lia.
Qed.

Lemma notify_many_ok n k :
  (0 <= counter k <= counter_max)%Z ->
  exists k', notify_many n k = (Ok tt, k') /\ (0 <= counter k' <= counter_max)%Z /\
             (0 < n \/ (0 < counter k)%Z -> (0 < counter k')%Z).
Proof.
  revert k; induction n as [|n IH]; intros k Hc; cbn.
  - exists k. split; [done|]. split; [done|]. by intros [?|?]; [lia|].
  - destruct (notify_one_ok k Hc) as (k1 & -> & H1).
    destruct (IH k1) as (k2 & -> & H2 & H3); [lia|]. exists k2. split; [done|]. split; [done|].
    intros _. apply H3. right. lia.
Qed.

Lemma try_wait_once k :
  exists k', try_wait fd k = (Ok (0 <? counter k)%Z, k') /\ (counter k' <= 0)%Z.
Proof.
  unfold try_wait. pose proof (ev_read_law k) as L.
  destruct (0 <? counter k)%Z eqn:E; bool_prop;
    destruct L as (k' & -> & Hk'); exists k'; (split; [done|]); lia.
Qed.

(** A failed [eventfd] goes unnoticed until the first notification, which throws. *)
Lemma event_handle_unchecked sys_eventfd k e k1 e' k2 :
  sys_eventfd k = (SysErr e, k1) -> ev_write sys (-1) 1 k1 = (SysErr e', k2) -> e' <> EAGAIN ->
  let '(fd, k') := make_event_handle sys_eventfd k in
  notify_one fd k' = (Throw (SystemError e' "event_handle::notify_one()"), k2).
Proof.
  unfold make_event_handle, notify_one. intros -> -> He. by rewrite (proj2 (Z.eqb_neq _ _) He).
Qed.

End event_handle.

(** ** Closing *)

Lemma close_if_open_fd {K} (sys : calls K) fd k fd' k' :
  close_if_open sys fd k = (Ok fd', k') -> fd' = (-1)%Z.
Proof.
  unfold close_if_open. destruct (fd =? -1)%Z eqn:E; bool_prop; [congruence|].
  destruct (close_fd sys fd k) as [[]]; congruence.
Qed.

(** After [close] nothing but [PipeClosed] comes of the pipe, and the kernel is not
    asked again. *)
Lemma closed_pipe {K} (sys : calls K) p k p' k' :
  close sys p k = (Ok tt, p', k') ->
  p' = Pipe (-1) (-1) /\
  close sys p' k' = (Ok tt, p', k') /\
  (forall fuel max, read sys fuel p' max k' = Some (Throw PipeClosed, k')) /\
  (forall fuel s, write sys fuel p' s k' = Some (Throw PipeClosed, k')).
Proof.
  intros E. assert (p' = Pipe (-1) (-1)) as ->; [|done].
  unfold close, close_write in E.
  destruct (close_if_open sys (write_fd p) k) as [[w|e] k1] eqn:E1; [|done].
  unfold close_read in E. cbn in E.
  destruct (close_if_open sys (read_fd p) k1) as [[r|e] k2] eqn:E2; [|done].
  apply close_if_open_fd in E1, E2. by simplify_eq.
Qed.

(** ** Properties *)

(** C31: over any kernel whose calls keep their promises, an open pipe loses, repeats
    and reorders nothing. [write] appends to the pipe a prefix of its argument, and returns
    normally exactly when that is all of it; it makes at most one call for each byte and
    one for each refusal with [EAGAIN] or [EINTR], so it returns if the kernel does not
    refuse for ever, and never returns from a pipe that stays full, since it does not wait.
    [read] returns exactly the bytes that left the pipe, whatever [max] is, throws only when
    none did, and returns nothing only when the pipe was drained; it makes at most one call
    for each byte and each interruption, and one more. *)
Theorem pipe_transfer {K} (sys : calls K) (p : pipe) {KP : PipeKernel sys p} :
  write_fd p <> (-1)%Z -> read_fd p <> (-1)%Z ->
  (forall fuel contents k,
    match write sys fuel p contents k with
    | Some (r, k') => exists done todo, contents = done ++ todo /\
        written sys k' = written sys k ++ done /\ (r = Ok tt <-> todo = [])
    | None => fuel < length contents + refused_writes sys fuel (write_fd p) contents k
    end) /\
  (forall fuel contents k bound,
    (forall n, refused_writes sys n (write_fd p) contents k <= bound) ->
    length contents + bound <= fuel -> is_Some (write sys fuel p contents k)) /\
  (forall full : K -> Prop,
    (forall s k, full k -> exists k', sys_write sys (write_fd p) s k = (SysErr EAGAIN, k') /\ full k') ->
    forall fuel contents k, contents <> [] -> full k -> write sys fuel p contents k = None) /\
  (forall fuel max k,
    match read sys fuel p max k with
    | Some (Ok s, k') => consumed sys k' = consumed sys k ++ s /\
        (s = [] -> consumed sys k' = written sys k')
    | Some (Throw _, k') => consumed sys k' = consumed sys k
    | None => fuel <= met_by_read sys fuel (read_fd p) k
    end) /\
  (forall fuel max k bound,
    (forall n, met_by_read sys n (read_fd p) k <= bound) -> bound < fuel ->
    is_Some (read sys fuel p max k)).
Proof.
  intros Hw Hr. apply Z.eqb_neq in Hw, Hr. unfold write, read. rewrite Hw, Hr.
  pose proof (write_loop_correct sys p) as W. pose proof (read_loop_correct sys p) as R. split_and!.
  - apply W.
  - intros fuel contents k bound Hb Hf. specialize (W fuel contents k). specialize (Hb fuel).
    destruct (write_loop _ _ _ _ _); [by eexists|lia].
  - intros full Hfull fuel contents k. by eapply write_loop_spins.
  - intros fuel max k. specialize (R fuel [] k). destruct (read_loop _ _ _ _ _) as [[[s|e] k']|]; [| |done].
    + destruct R as ((d & -> & Hc) & Hn). by split.
    + by destruct R.
  - intros fuel max k bound Hb Hf. specialize (R fuel [] k). specialize (Hb fuel).
    destruct (read_loop _ _ _ _ _); [by eexists|lia].
Qed.

(** ** A kernel *)

(** A pipe that takes two bytes and gives three at a time, after some interruptions. *)
Record stream := Stream { sw : str; sc : nat; hiccups : nat }.

Definition stream_calls : calls stream := Calls stream
  (fun _ k => (SysOk (3, 4)%Z, k))
  (fun _ k => (SysOk tt, k))
  (fun _ n k =>
     match hiccups k with
     | S h => (SysErr EINTR, Stream (sw k) (sc k) h)
     | O => match take (n `min` 3) (drop (sc k) (sw k)) with
            | [] => (SysErr EAGAIN, k)
            | d => (SysOk d, Stream (sw k) (sc k + length d) 0)
            end
     end)
  (fun _ s k =>
     match hiccups k with
     | S h => (SysErr EAGAIN, Stream (sw k) (sc k) h)
     | O => (SysOk (length (take 2 s)), Stream (sw k ++ take 2 s) (sc k) 0)
     end)
  (fun _ fd _ k => (SysOk fd, k)).

Lemma drop_take_drop (l : str) n m : take n l ++ take m (drop n l) = take (n + m) l.
Proof. revert l; induction n as [|n IH]; intros [|c l]; cbn; rewrite ?IH, ?take_nil; done. Qed.

(** Taking up to [m] of the bytes of [w] after the first [c]. *)
Lemma chunk_law (w : str) c m :
  0 < m ->
  let d := take m (drop c w) in
  (d = [] -> take c w = w) /\ length d <= m /\ take (c + length d) w = take c w ++ d /\
  length d + length (drop (c + length d) w) <= length (drop c w).
Proof.
  intros Hm d. assert (length d = m `min` length (drop c w)) as Hl by apply length_take.
  split_and!.
  - intros E. assert (drop c w = []) as Hd.
    { unfold d in E. destruct (drop c w), m; done || lia. }
    rewrite <- (take_drop c w) at 2. by rewrite Hd, app_nil_r.
  - lia.
  - rewrite <- drop_take_drop. f_equal. rewrite <- (take_drop m (drop c w)). fold d.
    apply take_app_length.
  - rewrite !length_drop in *. lia.
Qed.

#[global, program] Instance stream_kernel : PipeKernel stream_calls (Pipe 3 4) := {
  written := sw;
  consumed := fun k => take (sc k) (sw k);
}.
Next Obligation.
  intros s [w c [|h]] Hs; cbn [sys_write stream_calls hiccups]; cbn; [|done].
  destruct s as [|a [|b s]]; cbn; rewrite ?take_0; cbn; [done|split_and!; done || lia..].
Qed.
Next Obligation.
  intros n [w c [|h]] Hn; cbn [sys_read stream_calls hiccups sw sc]; [|done].
  destruct (chunk_law w c (n `min` 3) ltac:(lia)) as (C1 & C2 & C3 & C4).
  destruct (take (n `min` 3) (drop c w)) as [|a d]; cbn [consumed sw sc hiccups] in *.
  - by split_and!; auto.
  - split_and!; [lia|done|done].
Qed.

#[global, program] Instance stream_supply : PipeSupply stream_calls (Pipe 3 4) := {
  supply := fun k => hiccups k + length (drop (sc k) (sw k));
}.
Next Obligation.
  intros n [w c [|h]] Hn; cbn [sys_read stream_calls hiccups sw sc]; [|cbn; split; lia].
  destruct (chunk_law w c (n `min` 3) ltac:(lia)) as (C1 & C2 & C3 & C4).
  destruct (take (n `min` 3) (drop c w)) as [|a d]; cbn [sw sc hiccups] in *; cbn -[length] in *; [done|lia].
Qed.

Lemma stream_refuses n contents k : refused_writes stream_calls n 4 contents k <= hiccups k.
Proof.
  revert contents k. induction n as [|n IH]; intros [|c rest] [w m [|h]]; cbn [refused_writes]; try (cbn; lia);
    cbn [sys_write stream_calls hiccups sw sc].
  - etransitivity; [apply IH|done].
  - cbn. specialize (IH (c :: rest) (Stream w m h)). cbn in IH. lia.
Qed.

Lemma pipe_transfer_witness :
  is_Some (write stream_calls 30 (Pipe 3 4) "hello" (Stream "ab" 1 2)) /\
  is_Some (read stream_calls 30 (Pipe 3 4) None (Stream "abhello" 1 2)).
Proof.
  destruct (pipe_transfer stream_calls (Pipe 3 4) ltac:(done) ltac:(done)) as (_ & Hw & _ & _ & Hr). split.
  - apply (Hw 30 "hello" (Stream "ab" 1 2) 2); [|cbn; lia]. intros n. apply stream_refuses.
  - apply (Hr 30 None (Stream "abhello" 1 2) 8); [|lia]. intros n.
    exact (met_by_read_supply stream_calls (Pipe 3 4) n (Stream "abhello" 1 2)).
Defined.
