(* ===== verification/Subprocess.v ===== *)
(** * Subprocess: src/zk/server/detail/subprocess.cpp

    Starting a child process with its three pipes, signalling it and seeing it off. The
    system calls are parameters, as in Pipe.v; [ProcKernel] and [FdKernel] state what
    POSIX promises of them. *)

From S2P Require Import Prelude Error Pipe.

Definition SIGABRT : Z := 6.
Definition SIGTERM : Z := 15.

Record subprocess := Subprocess {
  program_name : str;
  proc_id : Z;
  p_stdin : pipe;
  p_stdout : pipe;
  p_stderr : pipe;
}.

(** ** Starting *)

(** How the child's side of [create_subproc] ends: the program runs in its place, the
    child exits because [execvp] came back, or an exception leaves the function. *)
Inductive child_end :=
| Replaced (file : str) (argv : list str)
| Exited (code : Z)
| ChildThrew (e : exn).

Section subprocess.
Context {K : Type} (sys : calls K).

(** Close the rest of the pipe after one end was put in place. *)
Definition then_close (r : option (res unit * pipe * K)) : option (res unit * K) :=
  match r with
  | Some (Ok _, p, k) => let '(x, _, k') := close sys p k in Some (x, k')
  | Some (Throw e, _, k) => Some (Throw e, k)
  | None => None
  end.

Definition and_then {A} (r : option (res unit * K)) (threw : exn -> A)
    (next : K -> option (A * K)) : option (A * K) :=
  match r with
  | Some (Ok _, k) => next k
  | Some (Throw e, k) => Some (threw e, k)
  | None => None
  end.

(** [execvp file argv] says whether the call succeeds, and so does not come back. *)
Definition child_process (execvp : str -> list str -> bool) (fuel : nat) (si so se : pipe)
    (prog : str) (args : list str) (k : K) : option (child_end * K) :=
  and_then (then_close (subsume_read sys fuel si 0 exec_keep_open k)) ChildThrew (fun k =>
  and_then (then_close (subsume_write sys fuel so 1 exec_keep_open k)) ChildThrew (fun k =>
  and_then (then_close (subsume_write sys fuel se 2 exec_keep_open k)) ChildThrew (fun k =>
  Some (if execvp prog (prog :: args) then Replaced prog (prog :: args) else Exited 1, k)))).

(** The parent's side, with the pipes as they are afterwards. *)
Definition parent_process (si so se : pipe) (k : K) : res unit * (pipe * pipe * pipe) * K :=
  match close_read sys si k with
  | (Throw e, si', k1) => (Throw e, (si', so, se), k1)
  | (Ok _, si', k1) =>
      match close_write sys so k1 with
      | (Throw e, so', k2) => (Throw e, (si', so', se), k2)
      | (Ok _, so', k2) =>
          let '(r, se', k3) := close_write sys se k2 in (r, (si', so', se'), k3)
      end
  end.

(** Members already constructed are destroyed, last first, when a constructor throws. *)
Fixpoint destroy (pipes : list pipe) (k : K) : K :=
  match pipes with
  | [] => k
  | p :: rest => destroy rest (close sys p k).2
  end.

(** The constructor in the parent: three pipes, [fork], the ends of the child closed.
    [sys_fork] is given the arguments of the child and also stands for what happens
    there. A failed [fork] gives -1, which
    is stored like a process. [dont_leak] sets close-on-exec flags and nothing else. *)
Definition make_subprocess (sys_fork : str -> list str -> K -> Z * K) (sys_fcntl : Z -> K -> K)
    (program_name : str) (args : list str) (k : K) : res subprocess * K :=
  let dont_leak (p : pipe) k :=
    let k' := if (read_fd p =? -1)%Z then k else sys_fcntl (read_fd p) k in
    if (write_fd p =? -1)%Z then k' else sys_fcntl (write_fd p) k' in
  match make_pipe sys exec_keep_open k with
  | (Throw e, k1) => (Throw e, k1)
  | (Ok si, k1) =>
    match make_pipe sys exec_keep_open k1 with
    | (Throw e, k2) => (Throw e, destroy [si] k2)
    | (Ok so, k2) =>
      match make_pipe sys exec_keep_open k2 with
      | (Throw e, k3) => (Throw e, destroy [so; si] k3)
      | (Ok se, k3) =>
        let '(pid, k4) := sys_fork program_name args k3 in
        match parent_process si so se k4 with
        | (Throw e, (si', so', se'), k5) => (Throw e, destroy [se'; so'; si'] k5)
        | (Ok _, (si', so', se'), k5) =>
            (Ok (Subprocess program_name pid si' so' se'),
             dont_leak se' (dont_leak so' (dont_leak si' k5)))
        end
      end
    end
  end.

(** ** Signals and termination *)

Context (sys_kill : Z -> Z -> K -> sysres unit * K)
        (sys_sigalrm : Z -> K -> Z * K)
        (sys_alarm : Z -> K -> K)
        (sys_waitpid : Z -> K -> Z * K).

Definition signal (s : subprocess) (sig_val : Z) (k : K) : res bool * K :=
  if (proc_id s =? -1)%Z then (Ok false, k)
  else match sys_kill (proc_id s) sig_val k with
       | (SysErr e, k') =>
           ((if (e =? ESRCH)%Z then Ok false else Throw (SystemError e [])), k')
       | (SysOk _, k') => (Ok true, k')
       end.

(** [alarm_time], of a number of seconds. *)
Definition alarm_time (time_to_abort : Z) : Z :=
  if (time_to_abort <=? 0)%Z then 1
  else if (300 <? time_to_abort)%Z then 300
  else time_to_abort.

Definition reaped (s : subprocess) : subprocess :=
  Subprocess (program_name s) (-1) (p_stdin s) (p_stdout s) (p_stderr s).

(** The handler of [SIGALRM] that does nothing. *)
Definition idle_handler : Z := 1000.

(** The loop of [terminate]. [sys_sigalrm] installs a handler and gives the one it
    replaces. An exception from [signal] ends the program, since the function is
    [noexcept]. *)
Fixpoint terminate_loop (fuel : nat) (alarm attempt : Z) (s : subprocess) (k : K)
    : option (res subprocess * K) :=
  if (proc_id s =? -1)%Z then Some (Ok s, k)
  else match fuel with
       | O => None
       | S fuel' =>
           let '(old_sig_handler, k0) := sys_sigalrm idle_handler k in
           match signal s (if (attempt =? 1)%Z then SIGTERM else SIGABRT) k0 with
           | (Throw e, k1) => Some (Throw e, k1)
           | (Ok _, k1) =>
               let '(rc, k2) := sys_waitpid (proc_id s) (sys_alarm alarm k1) in
               terminate_loop fuel' alarm (u32 (attempt + 1))
                 (if (0 <? rc)%Z then reaped s else s)
                 (sys_sigalrm old_sig_handler (sys_alarm 0 k2)).2
           end
       end.

Definition terminate (fuel : nat) (time_to_abort : Z) (s : subprocess) (k : K)
    : option (res subprocess * K) :=
  terminate_loop fuel (alarm_time time_to_abort) 1 s k.

(** What is promised of a child [pid] of ours: it can be signalled (unless it is gone
    already); a wait under an alarm ends, with the child or without it; and only
    [stubborn] more waits end without it. [signals] are the signals of the calls of [kill]
    so far, [alarms] the alarms set. *)
Class ProcKernel (pid : Z) := {
  signals : K -> list Z;
  alarms : K -> list Z;
  handler : K -> Z;
  stubborn : K -> nat;
  kill_law : forall sig k,
    match sys_kill pid sig k with
    | (r, k') =>
        match r with SysErr e => e = ESRCH | SysOk _ => True end /\
        signals k' = signals k ++ [sig] /\ alarms k' = alarms k /\ handler k' = handler k /\
        stubborn k' <= stubborn k
    end;
  alarm_law : forall n k,
    signals (sys_alarm n k) = signals k /\ alarms (sys_alarm n k) = alarms k ++ [n] /\
    handler (sys_alarm n k) = handler k /\ stubborn (sys_alarm n k) <= stubborn k;
  sigalrm_law : forall h k,
    exists k', sys_sigalrm h k = (handler k, k') /\ signals k' = signals k /\
      alarms k' = alarms k /\ handler k' = h /\ stubborn k' <= stubborn k;
  wait_law : forall k rc k', sys_waitpid pid k = (rc, k') ->
    signals k' = signals k /\ alarms k' = alarms k /\ handler k' = handler k /\
    stubborn k' <= stubborn k /\ ((0 < rc)%Z \/ stubborn k' < stubborn k);
}.

(** ** Termination *)

Section terminate.
Context (s : subprocess) {KP : ProcKernel (proc_id s)} (Hp : proc_id s <> (-1)%Z).

(** What a sequence of calls leaves in the kernel: the signals and alarms it added, and
    the handler as it was. *)
Definition left_by (sigs als : list Z) (k k' : K) : Prop :=
  signals k' = signals k ++ sigs /\ alarms k' = alarms k ++ als /\ handler k' = handler k /\
  stubborn k' <= stubborn k.

Lemma left_by_trans sigs als sigs' als' k k1 k2 :
  left_by sigs als k k1 -> left_by sigs' als' k1 k2 -> left_by (sigs ++ sigs') (als ++ als') k k2.
Proof.
  intros (S1 & A1 & H1 & L1) (S2 & A2 & H2 & L2). unfold left_by.
  rewrite S2, S1, A2, A1, !app_assoc. split_and!; [done|done|congruence|lia].
Qed.

Lemma signal_runs sg k :
  exists b k1, signal s sg k = (Ok b, k1) /\ left_by [sg] [] k k1.
Proof.
  unfold signal, left_by. rewrite (proj2 (Z.eqb_neq _ _) Hp). pose proof (kill_law sg k) as L.
  destruct (sys_kill (proc_id s) sg k) as [[u|e] k1]; destruct L as (He & L);
    rewrite app_nil_r; [by eauto|]. subst e. eauto.
Qed.

(** One round of the loop: the child is gone, or it held out once more. *)
Lemma terminate_round fuel alarm attempt k :
  exists k1,
    (terminate_loop (S fuel) alarm attempt s k = Some (Ok (reaped s), k1) \/
     (terminate_loop (S fuel) alarm attempt s k =
        terminate_loop fuel alarm (u32 (attempt + 1)) s k1 /\ stubborn k1 < stubborn k)) /\
    left_by [if (attempt =? 1)%Z then SIGTERM else SIGABRT] [alarm; 0%Z] k k1.
Proof.
  cbn [terminate_loop]. rewrite (proj2 (Z.eqb_neq _ _) Hp).
  set (sg := if (attempt =? 1)%Z then SIGTERM else SIGABRT).
  destruct (sigalrm_law idle_handler k) as (k0 & -> & S0 & A0 & H0 & L0).
  destruct (signal_runs sg k0) as (b & k1 & -> & S1 & A1 & H1 & L1).
  destruct (alarm_law alarm k1) as (S2 & A2 & H2 & L2).
  destruct (sys_waitpid (proc_id s) (sys_alarm alarm k1)) as [rc k2] eqn:W.
  destruct (wait_law _ _ _ W) as (S3 & A3 & H3 & L3 & L3').
  destruct (alarm_law 0 k2) as (S4 & A4 & H4 & L4).
  destruct (sigalrm_law (handler k) (sys_alarm 0 k2)) as (k3 & -> & S5 & A5 & H5 & L5).
  exists k3. cbn [snd]. split.
  - destruct (0 <? rc)%Z eqn:R; bool_prop.
    + left. by destruct fuel.
    + right. split; [done|]. destruct L3'; lia.
  - unfold left_by. rewrite S5, S4, S3, S2, S1, S0, A5, A4, A3, A2, A1, A0, H5, app_nil_r, <- app_assoc.
    split_and!; [done|done|done|lia].
Qed.

(** From the second attempt on, only [SIGABRT] is sent. *)
Lemma terminate_abort fuel alarm attempt k :
  stubborn k < fuel -> (1 < attempt)%Z -> (attempt + Z.of_nat (stubborn k) < 2 ^ 32)%Z ->
  exists k' n, terminate_loop fuel alarm attempt s k = Some (Ok (reaped s), k') /\
    n <= stubborn k /\ left_by (repeat SIGABRT (S n)) (concat (repeat [alarm; 0%Z] (S n))) k k'.
Proof.
  revert attempt k. induction fuel as [|fuel IH]; intros attempt k Hf Ha Hb; [lia|].
  destruct (terminate_round fuel alarm attempt k) as (k1 & [E|[E L]] & B);
    rewrite (proj2 (Z.eqb_neq attempt 1)) in B by lia; rewrite E.
  - exists k1, 0. split; [done|]. split; [lia|exact B].
  - assert (u32 (attempt + 1) = (attempt + 1)%Z) as -> by (apply wrap_u_small; lia).
    destruct (IH (attempt + 1)%Z k1) as (k' & n & E' & Ln & B'); [lia..|].
    exists k', (S n). split; [done|]. split; [lia|]. exact (left_by_trans _ _ _ _ _ _ _ B B').
Qed.

Lemma alarm_time_range t : (1 <= alarm_time t <= 300)%Z.
Proof. unfold alarm_time. repeat case_goal; bool_prop; lia. Qed.

Lemma terminate_correct fuel t k :
  stubborn k < fuel -> (1 + Z.of_nat (stubborn k) < 2 ^ 32)%Z ->
  exists k' n, terminate fuel t s k = Some (Ok (reaped s), k') /\ n <= stubborn k /\
    left_by (SIGTERM :: repeat SIGABRT n) (concat (repeat [alarm_time t; 0%Z] (S n))) k k'.
Proof.
  intros Hf Hb. unfold terminate. destruct fuel as [|fuel]; [lia|].
  destruct (terminate_round fuel (alarm_time t) 1 k) as (k1 & [E|[E L]] & B);
    cbn [Z.eqb Pos.eqb] in B; rewrite E.
  - exists k1, 0. split; [done|]. split; [lia|exact B].
  - assert (u32 (1 + 1) = 2%Z) as -> by done.
    destruct (terminate_abort fuel (alarm_time t) 2 k1) as (k' & n & E' & Ln & B'); [lia..|].
    exists k', (S n). split; [done|]. split; [lia|]. exact (left_by_trans _ _ _ _ _ _ _ B B').
Qed.

End terminate.
End subprocess.

(** ** Descriptors *)

(** The descriptor table of a process: what [dup3] and [close] do to it. *)
Class FdKernel {K : Type} (sys : calls K) (F : Type) := {
  table : K -> gmap Z F;
  dup_law : forall src dst flags k f, src <> dst -> table k !! src = Some f ->
    exists k', sys_dup3 sys src dst flags k = (SysOk dst, k') /\ table k' = <[dst := f]> (table k);
  close_law : forall fd k, is_Some (table k !! fd) ->
    exists k', sys_close sys fd k = (SysOk tt, k') /\ table k' = delete fd (table k);
}.

Section wiring.
Context {K F : Type} (sys : calls K) {FK : FdKernel sys F}.

Lemma close_if_open_run fd k :
  fd <> (-1)%Z -> is_Some (table k !! fd) ->
  exists k', close_if_open sys fd k = (Ok (-1)%Z, k') /\ table k' = delete fd (table k).
Proof.
  intros Hfd Ho. unfold close_if_open, close_fd. rewrite (proj2 (Z.eqb_neq _ _) Hfd).
  destruct (close_law fd k Ho) as (k' & -> & Ht). eauto.
Qed.

Lemma dup3_run fuel src dst exec k f :
  src <> dst -> table k !! src = Some f ->
  exists k', dup3 sys (S fuel) src dst exec k = Some (Ok dst, k') /\
             table k' = <[dst := f]> (table k).
Proof.
  intros Hne Hf. cbn. destruct (dup_law src dst (on_exec_flags exec) k f Hne Hf) as (k' & -> & Ht).
  eauto.
Qed.

(** An open pipe above the standard descriptors. *)
Definition open_pipe (p : pipe) (k : K) : Prop :=
  (2 < read_fd p)%Z /\ (2 < write_fd p)%Z /\ read_fd p <> write_fd p /\
  is_Some (table k !! read_fd p) /\ is_Some (table k !! write_fd p).

Definition fds (p : pipe) : list Z := [read_fd p; write_fd p].

(** The table after one end of a pipe replaced [fd] and both its own are closed. *)
Definition wired (p : pipe) (fd : Z) (f : F) (m : gmap Z F) : gmap Z F :=
  delete (read_fd p) (delete (write_fd p) (<[fd := f]> m)).

Lemma subsume_read_run fuel p fd exec k f :
  (fd <= 2)%Z -> open_pipe p k -> table k !! read_fd p = Some f ->
  exists k', then_close sys (subsume_read sys (S fuel) p fd exec k) = Some (Ok tt, k') /\
             table k' = wired p fd f (table k).
Proof.
  intros Hfd (R & W & Hne & Ro & Wo) Hf. unfold subsume_read.
  destruct (dup3_run fuel (read_fd p) fd exec k f) as (k1 & -> & T1); [lia|done|].
  unfold close_read. destruct (close_if_open_run (read_fd p) k1) as (k2 & -> & T2); [lia| |].
  { rewrite T1, lookup_insert_ne by lia. done. }
  unfold then_close, close, close_write. cbn [write_fd].
  destruct (close_if_open_run (write_fd p) k2) as (k3 & -> & T3); [lia| |].
  { rewrite T2, lookup_delete_ne, T1, lookup_insert_ne by lia. done. }
  exists k3. split; [done|]. unfold wired. rewrite T3, T2, T1. apply delete_delete.
Qed.

Lemma subsume_write_run fuel p fd exec k f :
  (fd <= 2)%Z -> open_pipe p k -> table k !! write_fd p = Some f ->
  exists k', then_close sys (subsume_write sys (S fuel) p fd exec k) = Some (Ok tt, k') /\
             table k' = wired p fd f (table k).
Proof.
  intros Hfd (R & W & Hne & Ro & Wo) Hf. unfold subsume_write.
  destruct (dup3_run fuel (write_fd p) fd exec k f) as (k1 & -> & T1); [lia|done|].
  unfold close_write. destruct (close_if_open_run (write_fd p) k1) as (k2 & -> & T2); [lia| |].
  { rewrite T1, lookup_insert_ne by lia. done. }
  unfold then_close, close, close_write, close_if_open at 1. cbn [write_fd].
  unfold close_read. cbn [read_fd].
  destruct (close_if_open_run (read_fd p) k2) as (k3 & E & T3); [lia| |].
  { rewrite T2, lookup_delete_ne, T1, lookup_insert_ne by lia. done. }
  exists k3. cbn [Z.eqb]. unfold wired. rewrite T3, T2, T1. split; [|done]. cbn. by rewrite E.
Qed.

(** Other pipes are not touched. *)
Lemma wired_other p fd f m x : x <> fd -> x ∉ fds p -> wired p fd f m !! x = m !! x.
Proof.
  intros Hfd [H1 [H2 _]%not_elem_of_cons]%not_elem_of_cons. unfold wired.
  by rewrite !lookup_delete_ne, lookup_insert_ne by done.
Qed.

Lemma wired_here p fd f m : fd ∉ fds p -> wired p fd f m !! fd = Some f.
Proof.
  intros [H1 [H2 _]%not_elem_of_cons]%not_elem_of_cons. unfold wired.
  by rewrite !lookup_delete_ne, lookup_insert_eq by done.
Qed.

Lemma wired_gone p fd f m x : x ∈ fds p -> wired p fd f m !! x = None.
Proof.
  intros H. unfold wired, fds in *. apply elem_of_cons in H as [->|H]; [by rewrite lookup_delete_eq|].
  apply list_elem_of_singleton in H as ->.
  destruct (decide (read_fd p = write_fd p)) as [->|Hne]; [by rewrite lookup_delete_eq|].
  by rewrite lookup_delete_ne, lookup_delete_eq.
Qed.

Lemma open_pipe_wired p q fd f k k' :
  table k' = wired q fd f (table k) -> (fd <= 2)%Z -> fds q ## fds p -> open_pipe p k ->
  open_pipe p k' /\ table k' !! read_fd p = table k !! read_fd p /\
  table k' !! write_fd p = table k !! write_fd p.
Proof.
  intros T Hfd D (R & W & Hne & Ro & Wo).
  assert (Er : table k' !! read_fd p = table k !! read_fd p).
  { rewrite T. apply wired_other; [lia|]. intros Hin. by apply (D (read_fd p)); [|left]. }
  assert (Ew : table k' !! write_fd p = table k !! write_fd p).
  { rewrite T. apply wired_other; [lia|]. intros Hin. by apply (D (write_fd p)); [|right; left]. }
  split; [|done]. unfold open_pipe. by rewrite Er, Ew.
Qed.

Lemma child_table execvp fuel si so se prog args k fi fo fe :
  open_pipe si k -> open_pipe so k -> open_pipe se k ->
  fds si ## fds so -> fds si ## fds se -> fds so ## fds se ->
  table k !! read_fd si = Some fi -> table k !! write_fd so = Some fo ->
  table k !! write_fd se = Some fe ->
  exists k', child_process sys execvp (S fuel) si so se prog args k =
               Some (if execvp prog (prog :: args) then Replaced prog (prog :: args) else Exited 1,
                     k') /\
             table k' = wired se 2 fe (wired so 1 fo (wired si 0 fi (table k))).
Proof.
  intros Oi Oo Oe D1 D2 D3 Hi Ho He. unfold child_process.
  destruct (subsume_read_run fuel si 0 exec_keep_open k fi) as (k1 & -> & T1); [lia|done|done|].
  destruct (open_pipe_wired so si 0 fi k k1 T1) as (Oo1 & _ & Wo1); [lia|done|done|].
  destruct (open_pipe_wired se si 0 fi k k1 T1) as (Oe1 & _ & We1); [lia|done|done|]. cbn [and_then].
  destruct (subsume_write_run fuel so 1 exec_keep_open k1 fo) as (k2 & -> & T2);
    [lia|done|congruence|].
  destruct (open_pipe_wired se so 1 fo k1 k2 T2) as (Oe2 & _ & We2); [lia|done|done|]. cbn [and_then].
  destruct (subsume_write_run fuel se 2 exec_keep_open k2 fe) as (k3 & -> & T3);
    [lia|done|congruence|].
  exists k3. cbn [and_then]. by rewrite T3, T2, T1.
Qed.

Lemma parent_table si so se k :
  open_pipe si k -> open_pipe so k -> open_pipe se k ->
  fds si ## fds so -> fds si ## fds se -> fds so ## fds se ->
  exists k', parent_process sys si so se k =
    (Ok tt, (Pipe (-1) (write_fd si), Pipe (read_fd so) (-1), Pipe (read_fd se) (-1)), k') /\
    table k' = delete (write_fd se) (delete (write_fd so) (delete (read_fd si) (table k))).
Proof.
  intros (Ri & Wi & _ & Oi & _) (Ro & Wo & _ & _ & Oo) (Re & We & _ & _ & Oe) D1 D2 D3.
  assert (read_fd si <> write_fd so) by (intros E; apply (D1 (read_fd si)); unfold fds; set_solver).
  assert (read_fd si <> write_fd se) by (intros E; apply (D2 (read_fd si)); unfold fds; set_solver).
  assert (write_fd so <> write_fd se) by (intros E; apply (D3 (write_fd so)); unfold fds; set_solver).
  unfold parent_process, close_read.
  destruct (close_if_open_run (read_fd si) k) as (k1 & -> & T1); [lia|done|].
  unfold close_write.
  destruct (close_if_open_run (write_fd so) k1) as (k2 & -> & T2); [lia| |].
  { by rewrite T1, lookup_delete_ne. }
  destruct (close_if_open_run (write_fd se) k2) as (k3 & -> & T3); [lia| |].
  { by rewrite T2, lookup_delete_ne, T1, lookup_delete_ne. }
  exists k3. split; [done|]. by rewrite T3, T2, T1.
Qed.

End wiring.

(** ** Properties *)

(** C32: a child process is started with exactly the right descriptors. In the child,
    [execvp] is reached with the program as its own first argument and the child exits
    with 1 if it comes back; descriptors 0, 1 and
    2 are the read end of the first pipe and the write ends of the other two, all six
    descriptors of the pipes are closed, and every other descriptor is as it was. In the
    parent, the child's three ends are closed, and nothing else is. *)
Theorem subprocess_wiring {K F} (sys : calls K) {FK : FdKernel sys F}
    execvp fuel si so se prog args k fi fo fe :
  open_pipe sys si k -> open_pipe sys so k -> open_pipe sys se k ->
  fds si ## fds so -> fds si ## fds se -> fds so ## fds se ->
  table k !! read_fd si = Some fi -> table k !! write_fd so = Some fo ->
  table k !! write_fd se = Some fe ->
  (exists k', child_process sys execvp (S fuel) si so se prog args k =
                Some (if execvp prog (prog :: args) then Replaced prog (prog :: args) else Exited 1,
                      k') /\
     table k' !! 0%Z = Some fi /\ table k' !! 1%Z = Some fo /\ table k' !! 2%Z = Some fe /\
     (forall x, x ∈ fds si ++ fds so ++ fds se -> table k' !! x = None) /\
     (forall x, x ∉ [0; 1; 2]%Z -> x ∉ fds si ++ fds so ++ fds se -> table k' !! x = table k !! x)) /\
  (exists k', parent_process sys si so se k =
     (Ok tt, (Pipe (-1) (write_fd si), Pipe (read_fd so) (-1), Pipe (read_fd se) (-1)), k') /\
     forall x, table k' !! x =
       if bool_decide (x ∈ [read_fd si; write_fd so; write_fd se]) then None else table k !! x).
Proof.
  intros Oi Oo Oe D1 D2 D3 Hi Ho He. split.
  - destruct (child_table sys execvp fuel si so se prog args k fi fo fe) as (k' & E & T); [done..|].
    assert (forall p, open_pipe sys p k -> forall x, x ∈ fds p -> (2 < x)%Z) as Big.
    { intros p (R & W & _) x [->|[->|[]%not_elem_of_nil]%elem_of_cons]%elem_of_cons; done. }
    assert (forall p x, open_pipe sys p k -> (x <= 2)%Z -> x ∉ fds p) as Low.
    { intros p x O Hx Hin. specialize (Big p O x Hin). lia. }
    exists k'. split; [done|]. rewrite T. split_and!.
    + rewrite wired_other, wired_other, wired_here by (done || by apply Low). done.
    + rewrite wired_other, wired_here by (done || by apply Low). done.
    + rewrite wired_here by by apply Low. done.
    + intros x [Hx|[Hx|Hx]%elem_of_app]%elem_of_app.
      * pose proof (Big _ Oi _ Hx).
        rewrite wired_other, wired_other by (lia || (intros ?; by apply (D1 x)) || (intros ?; by apply (D2 x))).
        by apply wired_gone.
      * pose proof (Big _ Oo _ Hx).
        rewrite wired_other by (lia || (intros ?; by apply (D3 x))). by apply wired_gone.
      * by apply wired_gone.
    + intros x H1 H2. rewrite !not_elem_of_cons in H1. rewrite !not_elem_of_app in H2.
      by rewrite !wired_other by naive_solver.
  - destruct (parent_table sys si so se k) as (k' & E & T); [done..|].
    exists k'. split; [done|]. intros x. rewrite T.
    destruct (bool_decide_reflect (x ∈ [read_fd si; write_fd so; write_fd se])) as [H|H].
    + rewrite !elem_of_cons, elem_of_nil in H. rewrite !lookup_delete_None. intuition auto.
    + rewrite !not_elem_of_cons in H. destruct H as (H1 & H2 & H3 & _).
      by rewrite !lookup_delete_ne by done.
Qed.

(** C33: [terminate] on a child of ours ends, however often the child holds out (here:
    fewer times than the attempt counter can count): afterwards the child has been
    waited for, it was sent one SIGTERM and then only SIGABRTs, one per wait, and each wait
    was bounded by an alarm of 1 to 300 seconds that was switched off again; the handler
    of SIGALRM is the one it was. Called once more, nothing happens. *)
Theorem subprocess_terminates {K} (sys_kill : Z -> Z -> K -> sysres unit * K)
    (sys_sigalrm : Z -> K -> Z * K) (sys_alarm : Z -> K -> K) (sys_waitpid : Z -> K -> Z * K)
    (s : subprocess) {KP : ProcKernel sys_kill sys_sigalrm sys_alarm sys_waitpid (proc_id s)} fuel t k :
  let term := terminate sys_kill sys_sigalrm sys_alarm sys_waitpid in
  proc_id s <> (-1)%Z -> stubborn _ _ _ _ k < fuel ->
  (1 + Z.of_nat (stubborn sys_kill sys_sigalrm sys_alarm sys_waitpid k) < 2 ^ 32)%Z ->
  exists s' k' n a, term fuel t s k = Some (Ok s', k') /\
    proc_id s' = (-1)%Z /\ n <= stubborn _ _ _ _ k /\ (1 <= a <= 300)%Z /\
    signals _ _ _ _ k' = signals _ _ _ _ k ++ SIGTERM :: repeat SIGABRT n /\
    alarms _ _ _ _ k' = alarms _ _ _ _ k ++ concat (repeat [a; 0%Z] (S n)) /\
    handler _ _ _ _ k' = handler _ _ _ _ k /\
    (forall fuel' t' k2, term fuel' t' s' k2 = Some (Ok s', k2)).
Proof.
  intros term Hp Hf Hb.
  destruct (terminate_correct sys_kill sys_sigalrm sys_alarm sys_waitpid s Hp fuel t k Hf Hb)
    as (k' & n & E & Hn & S' & A' & H' & _).
  exists (reaped s), k', n, (alarm_time t). split_and!; try done; try apply alarm_time_range.
  intros [|fuel'] t' k2; done.
Qed.

(** ** Kernels *)

(** A descriptor table, with the ends of pipes numbered. *)
Definition table_calls : calls (gmap Z nat) := Calls (gmap Z nat)
  (fun _ k => (SysErr 24, k))
  (fun fd k => (SysOk tt, delete fd k))
  (fun _ _ k => (SysErr EAGAIN, k))
  (fun _ s k => (SysOk (length s), k))
  (fun src dst _ k => match k !! src with
                      | Some f => (SysOk dst, <[dst := f]> k)
                      | None => (SysErr 9, k)
                      end).

#[global, program] Instance table_kernel : FdKernel table_calls nat := { table := fun k => k }.
Next Obligation. intros src dst flags k f _ E. cbn. rewrite E. eauto. Qed.
Next Obligation. intros fd k _. cbn. eauto. Qed.

Definition sample_fds : gmap Z nat :=
  list_to_map [(0, 90%nat); (1, 91%nat); (2, 92%nat); (3, 30%nat); (4, 31%nat); (5, 40%nat);
               (6, 41%nat); (7, 50%nat); (8, 51%nat); (9, 99%nat)]%Z.

Lemma subprocess_wiring_witness :
  (exists k', child_process table_calls (fun _ _ => true) 1 (Pipe 3 4) (Pipe 5 6) (Pipe 7 8)
                "java" ["-cp" : str] sample_fds =
                Some (Replaced "java" ["java" : str; "-cp"], k') /\
     k' !! 0%Z = Some 30 /\ k' !! 1%Z = Some 41 /\ k' !! 2%Z = Some 51 /\
     (forall x, x ∈ [3; 4; 5; 6; 7; 8]%Z -> k' !! x = None) /\
     (forall x, x ∉ [0; 1; 2]%Z -> x ∉ [3; 4; 5; 6; 7; 8]%Z -> k' !! x = sample_fds !! x)) /\
  (exists k', parent_process table_calls (Pipe 3 4) (Pipe 5 6) (Pipe 7 8) sample_fds =
     (Ok tt, (Pipe (-1) 4, Pipe 5 (-1), Pipe 7 (-1)), k') /\
     forall x, k' !! x =
       if bool_decide (x ∈ [3; 6; 8]%Z) then None else sample_fds !! x).
Proof.
  refine (subprocess_wiring table_calls (fun _ _ => true) 0 (Pipe 3 4) (Pipe 5 6) (Pipe 7 8) "java" ["-cp" : str]
           sample_fds 30 41 51 _ _ _ _ _ _ _ _ _);
    try reflexivity; try (unfold open_pipe; vm_compute; split_and!; eauto; done);
    intros x; unfold fds; rewrite !elem_of_cons, !elem_of_nil; cbn; lia.
Defined.

(** A child that holds out some times. *)
Record child := Child { got : list Z; timers : list Z; on_alarm : Z; holds_out : nat }.

Definition child_kill (pid sig : Z) (k : child) : sysres unit * child :=
  (SysOk tt, Child (got k ++ [sig]) (timers k) (on_alarm k) (holds_out k)).
Definition child_sigalrm (h : Z) (k : child) : Z * child :=
  (on_alarm k, Child (got k) (timers k) h (holds_out k)).
Definition child_alarm (n : Z) (k : child) : child :=
  Child (got k) (timers k ++ [n]) (on_alarm k) (holds_out k).
Definition child_wait (pid : Z) (k : child) : Z * child :=
  match holds_out k with
  | O => (pid, k)
  | S h => ((-1)%Z, Child (got k) (timers k) (on_alarm k) h)
  end.

#[global, program] Instance child_kernel :
  ProcKernel child_kill child_sigalrm child_alarm child_wait 77 :=
  { signals := got; alarms := timers; handler := on_alarm; stubborn := holds_out }.
Next Obligation. intros sig k. cbn. auto. Qed.
Next Obligation. intros n k. cbn. auto. Qed.
Next Obligation. intros h k. eexists. split; [reflexivity|]. cbn. auto. Qed.
Next Obligation.
  intros [g a o [|h]] rc k' E; cbn in E; injection E as <- <-; cbn; split_and!; auto.
  left. lia.
Qed.

Definition sample_process : subprocess :=
  Subprocess "java" 77 (Pipe (-1) 4) (Pipe 5 (-1)) (Pipe 7 (-1)).

Lemma subprocess_terminates_witness :
  exists s' k' n a,
    terminate child_kill child_sigalrm child_alarm child_wait 5 1 sample_process (Child [] [] 9 2)
    = Some (Ok s', k') /\
    proc_id s' = (-1)%Z /\ n <= 2 /\ (1 <= a <= 300)%Z /\
    got k' = SIGTERM :: repeat SIGABRT n /\ timers k' = concat (repeat [a; 0%Z] (S n)) /\
    on_alarm k' = 9%Z /\
    (forall fuel' t' k2,
       terminate child_kill child_sigalrm child_alarm child_wait fuel' t' s' k2 = Some (Ok s', k2)).
Proof.
  apply (subprocess_terminates child_kill child_sigalrm child_alarm child_wait sample_process
           (KP := child_kernel) 5 1 (Child [] [] 9 2)); cbn; lia.
Defined.
