(* ===== verification/Descriptors.v ===== *)
(** * Descriptors: what a subprocess leaves open

    A [subprocess] (src/zk/server/detail/subprocess.cpp) over its whole life in the parent:
    the constructor, with a failure at any of its steps, and the destructor, which sees the
    child off and closes what is left of the three pipes. *)

From S2P Require Import Prelude Error Pipe Subprocess.
Local Open Scope Z_scope.

Section life.
Context {K F : Type} (sys : calls K) {FK : FdKernel sys F}.
Context (sys_fork : str -> list str -> K -> Z * K) (sys_fcntl : Z -> K -> K).
Context (sys_kill : Z -> Z -> K -> sysres unit * K) (sys_sigalrm : Z -> K -> Z * K)
        (sys_alarm : Z -> K -> K) (sys_waitpid : Z -> K -> Z * K).

(** [~subprocess]: [terminate] with its default of one second, then the members, last
    first. *)
Definition destroy_subprocess (fuel : nat) (s : subprocess) (k : K) : option (res unit * K) :=
  match terminate sys_kill sys_sigalrm sys_alarm sys_waitpid fuel 1 s k with
  | Some (Ok s', k') => Some (Ok tt, destroy sys [p_stderr s'; p_stdout s'; p_stdin s'] k')
  | Some (Throw e, k') => Some (Throw e, k')
  | None => None
  end.

(** A new pipe takes two descriptors that were free, or none; the calls about processes do
    not touch the table. *)
Class SpawnKernel := {
  pipe2_law : forall flags k,
    match sys_pipe2 sys flags k with
    | (SysOk (r, w), k') =>
        r <> -1 /\ w <> -1 /\ r <> w /\ table k !! r = None /\ table k !! w = None /\
        exists f g, table k' = <[r := f]> (<[w := g]> (table k))
    | (SysErr _, k') => table k' = table k
    end;
  fork_aside : forall prog args k, table (sys_fork prog args k).2 = table k;
  fcntl_aside : forall fd k, table (sys_fcntl fd k) = table k;
  kill_table : forall pid sig k, table (sys_kill pid sig k).2 = table k;
  sigalrm_table : forall h k, table (sys_sigalrm h k).2 = table k;
  alarm_table : forall n k, table (sys_alarm n k) = table k;
  wait_table : forall pid k, table (sys_waitpid pid k).2 = table k;
}.

Context {SK : SpawnKernel}.

(** ** Closing *)

Definition shut (fd : Z) (m : gmap Z F) : gmap Z F := if decide (fd = -1) then m else delete fd m.

Definition closable (fd : Z) (m : gmap Z F) : Prop := fd = -1 \/ is_Some (m !! fd).

Lemma close_end fd k :
  closable fd (table k) ->
  exists k', close_if_open sys fd k = (Ok (-1), k') /\ table k' = shut fd (table k).
Proof.
  intros H. unfold shut. destruct (decide (fd = -1)) as [->|Hne]; [by exists k|].
  destruct H as [?|H]; [done|]. by apply close_if_open_run.
Qed.

Lemma closable_shut fd fd' m : (fd = -1 \/ fd <> fd') -> closable fd m -> closable fd (shut fd' m).
Proof.
  unfold closable, shut. intros [E|Hne] [E'|Hs]; auto. case_decide; [by right|].
  right. by rewrite lookup_delete_ne.
Qed.

Lemma close_pipe_run p k :
  closable (read_fd p) (table k) -> closable (write_fd p) (table k) ->
  (read_fd p = -1 \/ read_fd p <> write_fd p) ->
  exists k', close sys p k = (Ok tt, Pipe (-1) (-1), k') /\
    table k' = shut (read_fd p) (shut (write_fd p) (table k)).
Proof.
  intros Hr Hw Hne. unfold close, close_write, close_read.
  destruct (close_end (write_fd p) k Hw) as (k1 & -> & T1). cbn [read_fd].
  destruct (close_end (read_fd p) k1) as (k2 & -> & T2); [rewrite T1; by apply closable_shut|].
  exists k2. by rewrite T2, T1.
Qed.

(** The descriptors [l] of [m] closed. *)
Definition shut_all (l : list Z) (m : gmap Z F) : gmap Z F := foldr shut m l.

Lemma shut_all_lookup l m x : x <> -1 -> shut_all l m !! x = if decide (x ∈ l) then None else m !! x.
Proof.
  intros Hx. induction l as [|fd l IH]; [done|].
  change (shut_all (fd :: l) m) with (shut fd (shut_all l m)). unfold shut.
  destruct (decide (fd = -1)) as [->|E].
  - rewrite IH. destruct (decide (x ∈ l)), (decide (x ∈ -1 :: l)); set_solver.
  - destruct (decide (x = fd)) as [->|Hne].
    + rewrite lookup_delete_eq, decide_True by (by left). done.
    + rewrite lookup_delete_ne, IH by done. destruct (decide (x ∈ l)), (decide (x ∈ fd :: l)); set_solver.
Qed.

Lemma shut_all_none l m : shut_all l m !! (-1) = m !! (-1).
Proof.
  induction l as [|fd l IH]; [done|]. change (shut_all (fd :: l) m) with (shut fd (shut_all l m)). unfold shut.
  case_decide; [done|]. by rewrite lookup_delete_ne.
Qed.

(** Everything that [m'] has beyond [m] is in [l]: closing [l] gives [m] back. *)
Lemma shut_all_back l m m' :
  (forall x, x ∈ l -> x <> -1 -> m !! x = None) -> (forall x, x ∉ l \/ x = -1 -> m' !! x = m !! x) ->
  shut_all l m' = m.
Proof.
  intros H1 H2. apply map_eq. intros x. destruct (decide (x = -1)) as [->|Hx].
  - rewrite shut_all_none. apply H2. by right.
  - rewrite shut_all_lookup by done. destruct (decide (x ∈ l)); [|by apply H2; left].
    symmetry. by apply H1.
Qed.

Lemma shut_all_app l l' m : shut_all (l ++ l') m = shut_all l (shut_all l' m).
Proof. unfold shut_all. apply foldr_app. Qed.

(** The descriptors of pipes that are destroyed in this order. *)
Fixpoint ends (ps : list pipe) : list Z :=
  match ps with
  | [] => []
  | p :: rest => ends rest ++ [read_fd p; write_fd p]
  end.

Definition is_fd (x : Z) : Prop := x <> -1.
#[local] Instance is_fd_dec x : Decision (is_fd x).
Proof. unfold is_fd. apply _. Defined.

Lemma destroy_table ps k :
  (forall x, x ∈ ends ps -> closable x (table k)) -> NoDup (filter is_fd (ends ps)) ->
  table (destroy sys ps k) = shut_all (ends ps) (table k).
Proof.
  revert k. induction ps as [|p ps IH]; intros k Hc Hnd; [done|]. cbn [ends] in *.
  rewrite filter_app in Hnd. apply NoDup_app in Hnd as (Hnd & Hdis & Hp).
  assert (forall x fd, x ∈ ends ps -> fd ∈ [read_fd p; write_fd p] -> x = -1 \/ x <> fd) as Hne.
  { intros x fd Hx Hfd. destruct (decide (x = -1)) as [?|Hx1]; [by left|right]. intros ->.
    by apply (Hdis fd); apply list_elem_of_filter. }
  destruct (close_pipe_run p k) as (k' & E & T).
  - apply Hc. set_solver.
  - apply Hc. set_solver.
  - destruct (decide (read_fd p = -1)) as [?|Hr]; [by left|right]. intros Hrw.
    rewrite !filter_cons, <- Hrw, !decide_True in Hp by done. by apply NoDup_cons in Hp as [? _]; set_solver.
  - cbn [destroy]. rewrite E. cbn [snd]. rewrite IH; [|intros x Hx; rewrite T|done].
    + rewrite shut_all_app. by rewrite T.
    + repeat (apply closable_shut; [apply Hne; [done|set_solver]|]). apply Hc. set_solver.
Qed.

(** ** Opening *)

(** [m'] has the new descriptors [l] and is otherwise [m]. *)
Record grew (l : list Z) (m m' : gmap Z F) : Prop := Grew {
  gr_nodup : NoDup l;
  gr_fd : forall x, x ∈ l -> x <> -1 /\ m !! x = None /\ is_Some (m' !! x);
  gr_rest : forall x, x ∉ l -> m' !! x = m !! x;
}.

Lemma make_pipe_grows exec l m k :
  grew l m (table k) ->
  match make_pipe sys exec k with
  | (Ok p, k') => grew (read_fd p :: write_fd p :: l) m (table k')
  | (Throw _, k') => table k' = table k
  end.
Proof.
  intros [Hnd Hl Hr]. unfold make_pipe. pose proof (pipe2_law (on_exec_flags exec) k) as L.
  destruct (sys_pipe2 sys (on_exec_flags exec) k) as [[[r w]|e] k']; [|done].
  destruct L as (Hr1 & Hw1 & Hne & Hrn & Hwn & f & g & T). cbn.
  assert (r ∉ l) as Nr by (intros Hin; destruct (Hl _ Hin) as (_ & _ & [? ?]); congruence).
  assert (w ∉ l) as Nw by (intros Hin; destruct (Hl _ Hin) as (_ & _ & [? ?]); congruence).
  split.
  - rewrite !NoDup_cons. set_solver.
  - rewrite T. intros x [->|[->|Hx]%elem_of_cons]%elem_of_cons.
    + rewrite <- Hr, lookup_insert_eq by done. eauto.
    + rewrite <- Hr, lookup_insert_ne, lookup_insert_eq by done. eauto.
    + destruct (Hl x Hx) as (H1 & H2 & H3). split_and!; [done|done|].
      rewrite !lookup_insert_ne by (by intros ->). done.
  - intros x [H1 [H2 H3]%not_elem_of_cons]%not_elem_of_cons.
    rewrite T, !lookup_insert_ne by done. by apply Hr.
Qed.

Lemma grew_perm l l' m m' : l ≡ₚ l' -> grew l m m' -> grew l' m m'.
Proof.
  intros Hp [Hnd Hl Hr]. split; [by rewrite <- Hp|intros x; rewrite <- Hp; apply Hl|intros x; rewrite <- Hp; apply Hr].
Qed.

Lemma grew_nil m : grew [] m m.
Proof. split; [apply NoDup_nil_2|by intros x []%not_elem_of_nil|done]. Qed.

(** Closing what was opened. *)
Lemma grew_shut l l' m m' :
  grew l m m' -> (forall x, x <> -1 -> x ∈ l' <-> x ∈ l) -> shut_all l' m' = m.
Proof.
  intros [Hnd Hl Hr] Hiff. apply shut_all_back.
  - intros x Hx Hne. apply Hiff in Hx; [|done]. by apply Hl.
  - intros x [Hx| ->]; apply Hr.
    + destruct (decide (x = -1)) as [->|Hne]; [|by rewrite <- Hiff].
      intros Hin. by destruct (Hl _ Hin).
    + intros Hin. by destruct (Hl _ Hin).
Qed.

Lemma filter_all (l : list Z) : Forall is_fd l -> filter is_fd l = l.
Proof. induction 1 as [|x l Hx _ IH]; [done|]. by rewrite filter_cons, decide_True, IH. Qed.

Lemma destroy_grown ps m k :
  grew (ends ps) m (table k) -> table (destroy sys ps k) = m.
Proof.
  intros G. pose proof G as [Hnd Hl _]. rewrite destroy_table.
  - by apply (grew_shut (ends ps)).
  - intros x Hx. right. by apply Hl.
  - rewrite filter_all; [done|]. apply Forall_forall. intros x Hx. by apply Hl.
Qed.

(** The parent's side closes three of the six ends. *)
Lemma parent_closes m si so se k :
  grew (ends [se; so; si]) m (table k) ->
  exists k', parent_process sys si so se k =
    (Ok tt, (Pipe (-1) (write_fd si), Pipe (read_fd so) (-1), Pipe (read_fd se) (-1)), k') /\
    grew [write_fd si; read_fd so; read_fd se] m (table k').
Proof.
  intros [Hnd Hl Hr]. cbn in Hnd, Hl, Hr.
  set (six := [read_fd si; write_fd si; read_fd so; write_fd so; read_fd se; write_fd se]) in *.
  assert (forall x, x ∈ six -> closable x (table k)) as Hc by (intros x Hx; right; by apply Hl).
  assert (forall x, x ∈ [write_fd si; read_fd so; read_fd se] -> x ∈ six) as Hkept by (unfold six; set_solver).
  assert (forall x, x ∈ [write_fd se; write_fd so; read_fd si] -> x ∈ six) as Hshut by (unfold six; set_solver).
  assert (forall x, x ∈ six -> x ∈ [write_fd se; write_fd so; read_fd si] \/
    x ∈ [write_fd si; read_fd so; read_fd se]) as Hsix by (unfold six; set_solver).
  unfold six in Hnd. clearbody six. rewrite !NoDup_cons, !not_elem_of_cons in Hnd. destruct_and! Hnd.
  unfold parent_process, close_read, close_write.
  destruct (close_end (read_fd si) k) as (k1 & -> & T1); [apply Hc, Hshut; by do 2 right; left|].
  destruct (close_end (write_fd so) k1) as (k2 & -> & T2).
  { rewrite T1. apply closable_shut; [right; congruence|]. apply Hc, Hshut. by right; left. }
  destruct (close_end (write_fd se) k2) as (k3 & -> & T3).
  { rewrite T2, T1. do 2 (apply closable_shut; [right; congruence|]). apply Hc, Hshut. by left. }
  exists k3. split; [done|].
  assert (table k3 = shut_all [write_fd se; write_fd so; read_fd si] (table k)) as T by (cbn; congruence).
  split.
  - rewrite !NoDup_cons, !not_elem_of_cons. split_and!; try apply NoDup_nil_2; try apply not_elem_of_nil; done.
  - intros x Hx. destruct (Hl x (Hkept x Hx)) as (Hx1 & Hx2 & Hx3). split_and!; [done|done|].
    rewrite T, shut_all_lookup by done. rewrite decide_False; [done|].
    rewrite !not_elem_of_cons. rewrite !elem_of_cons, elem_of_nil in Hx.
    destruct Hx as [->|[->|[->|[]]]]; split_and!; try apply not_elem_of_nil; congruence.
  - intros x Hx. destruct (decide (x = -1)) as [->|Hne].
    + rewrite T, shut_all_none. apply Hr. intros Hin. by destruct (Hl _ Hin).
    + rewrite T, shut_all_lookup by done. case_decide as Hin; [by destruct (Hl x (Hshut x Hin)) as (_ & -> & _)|].
      apply Hr. intros Hx6. by destruct (Hsix x Hx6).
Qed.

(** ** The constructor *)

Definition remaining (s : subprocess) : list Z :=
  [write_fd (p_stdin s); read_fd (p_stdout s); read_fd (p_stderr s)].

Lemma make_subprocess_table prog args k r k' :
  make_subprocess sys sys_fork sys_fcntl prog args k = (r, k') ->
  match r with
  | Throw _ => table k' = table k
  | Ok s => read_fd (p_stdin s) = -1 /\ write_fd (p_stdout s) = -1 /\ write_fd (p_stderr s) = -1 /\
            grew (remaining s) (table k) (table k')
  end.
Proof.
  unfold make_subprocess. intros E.
  pose proof (make_pipe_grows exec_keep_open [] (table k) k (grew_nil _)) as G1.
  destruct (make_pipe sys exec_keep_open k) as [[si|e] k1]; [|by simplify_eq].
  pose proof (make_pipe_grows exec_keep_open _ _ k1 G1) as G2.
  destruct (make_pipe sys exec_keep_open k1) as [[so|e] k2].
  2: { simplify_eq. apply destroy_grown. by rewrite G2. }
  pose proof (make_pipe_grows exec_keep_open _ _ k2 G2) as G3.
  destruct (make_pipe sys exec_keep_open k2) as [[se|e] k3].
  2: { simplify_eq. apply destroy_grown. rewrite G3. eapply grew_perm; [|exact G2]. cbn. solve_Permutation. }
  pose proof (fork_aside prog args k3) as Tf. destruct (sys_fork prog args k3) as [pid k4]. cbn in Tf.
  destruct (parent_closes (table k) si so se k4) as (k5 & Ep & G5).
  { rewrite Tf. eapply grew_perm; [|exact G3]. cbn. solve_Permutation. }
  rewrite Ep in E. simplify_eq. cbn. split_and!; [done..|].
  assert (forall fd k0, table (if fd =? -1 then k0 else sys_fcntl fd k0) = table k0) as Tl.
  { intros fd k0. destruct (fd =? -1); [done|apply fcntl_aside]. }
  by rewrite !Tl.
Qed.

(** ** The destructor *)

Definition same_pipes (s s' : subprocess) : Prop :=
  p_stdin s' = p_stdin s /\ p_stdout s' = p_stdout s /\ p_stderr s' = p_stderr s.

Lemma terminate_table fuel alarm attempt s k r k' :
  terminate_loop sys_kill sys_sigalrm sys_alarm sys_waitpid fuel alarm attempt s k = Some (r, k') ->
  table k' = table k /\ forall s', r = Ok s' -> same_pipes s s'.
Proof.
  revert attempt s k. induction fuel as [|fuel IH]; intros attempt s k; cbn [terminate_loop];
    destruct (proc_id s =? -1) eqn:Hp.
  - by intros [= <- <-]; split; [|intros s' [= ->]].
  - done.
  - by intros [= <- <-]; split; [|intros s' [= ->]].
  - pose proof (sigalrm_table idle_handler k) as T0. destruct (sys_sigalrm idle_handler k) as [old k0].
    unfold signal. rewrite Hp. set (sg := if attempt =? 1 then SIGTERM else SIGABRT).
    pose proof (kill_table (proc_id s) sg k0) as T1. destruct (sys_kill (proc_id s) sg k0) as [x k1].
    cbn in T0, T1.
    assert (forall rest, table rest = table k -> table k1 = table k) as T by (intros; congruence).
    destruct (match x with SysErr e => _ | SysOk _ => _ end) as [[b|e'] k1'] eqn:Ex.
    all: assert (k1' = k1) as -> by (destruct x; by simplify_eq).
    2: { intros [= <- <-]. split; [congruence|done]. }
    pose proof (wait_table (proc_id s) (sys_alarm alarm k1)) as T2.
    destruct (sys_waitpid (proc_id s) (sys_alarm alarm k1)) as [rc k2]. cbn in T2. rewrite alarm_table in T2.
    intros (T3 & Hs)%IH. rewrite sigalrm_table, alarm_table in T3. split; [congruence|].
    intros s' Hr. specialize (Hs s' Hr). by destruct (0 <? rc).
Qed.

Lemma destroy_subprocess_table fuel s k k' m :
  read_fd (p_stdin s) = -1 -> write_fd (p_stdout s) = -1 -> write_fd (p_stderr s) = -1 ->
  grew (remaining s) m (table k) -> destroy_subprocess fuel s k = Some (Ok tt, k') -> table k' = m.
Proof.
  intros Hi Ho He G. unfold destroy_subprocess, terminate.
  destruct (terminate_loop _ _ _ _ _ _ _ _ _) as [[[s'|e] k1]|] eqn:E; try done. intros Ek.
  assert (k' = destroy sys [p_stderr s'; p_stdout s'; p_stdin s'] k1) as -> by congruence.
  apply terminate_table in E as (T & Hs). destruct (Hs s' eq_refl) as (E1 & E2 & E3). rewrite E1, E2, E3.
  rewrite <- T in G. pose proof G as [Hnd Hl Hr]. unfold remaining in *. rewrite destroy_table; cbn [ends app]; rewrite Hi, Ho, He.
  - eapply (grew_shut _ _ _ _ G). clear. set_solver.
  - intros x Hx. destruct (decide (x = -1)) as [->|Hne]; [by left|right]. apply Hl. clear -Hx Hne. set_solver.
  - assert (Forall is_fd [write_fd (p_stdin s); read_fd (p_stdout s); read_fd (p_stderr s)]) as Hf.
    { apply Forall_forall. intros x Hx. by apply Hl. }
    rewrite !filter_cons. rewrite !Forall_cons in Hf. destruct Hf as (F1 & F2 & F3 & _).
    by rewrite !(decide_False (P := is_fd (-1))), !decide_True, filter_nil by (done || by intros []).
Qed.

End life.

(** ** Properties *)

(** C34: a subprocess leaks no descriptor. If its constructor throws, at whichever pipe, the
    descriptors of the program are those from before; if it returns there are exactly three
    more, the parent's ends of the pipes. Its destructor returns, however often the child
    holds out, with the child waited for, and if nobody else opened or closed any in
    between, the descriptors are again those from before. *)
Theorem subprocess_no_leak {K F} (sys : calls K) {FK : FdKernel sys F}
    sys_fork sys_fcntl sys_kill sys_sigalrm sys_alarm sys_waitpid
    {SK : SpawnKernel sys sys_fork sys_fcntl sys_kill sys_sigalrm sys_alarm sys_waitpid}
    prog args k r k1 :
  make_subprocess sys sys_fork sys_fcntl prog args k = (r, k1) ->
  match r with
  | Throw _ => table k1 = table k
  | Ok s =>
      NoDup (remaining s) /\ dom (table k1) = dom (table k) ∪ list_to_set (remaining s) /\
      (forall x, x ∈ remaining s -> table k !! x = None) /\
      forall (KP : ProcKernel sys_kill sys_sigalrm sys_alarm sys_waitpid (proc_id s)) fuel k2,
        proc_id s <> -1 -> (stubborn _ _ _ _ k2 < fuel)%nat -> 1 + Z.of_nat (stubborn _ _ _ _ k2) < 2 ^ 32 ->
        exists k3,
          destroy_subprocess sys sys_kill sys_sigalrm sys_alarm sys_waitpid fuel s k2 = Some (Ok tt, k3) /\
          (table k2 = table k1 -> table k3 = table k)
  end.
Proof.
  intros E%(make_subprocess_table sys sys_fork sys_fcntl sys_kill sys_sigalrm sys_alarm sys_waitpid).
  destruct r as [s|e]; [|done]. destruct E as (Hi & Ho & He & G). pose proof G as [Hnd Hl Hr].
  split_and!; [done| |intros x Hx; by apply Hl|].
  - apply set_eq. intros x. rewrite elem_of_union, elem_of_list_to_set, !elem_of_dom.
    destruct (decide (x ∈ remaining s)) as [Hx|Hx].
    + destruct (Hl x Hx) as (_ & _ & Hs). naive_solver.
    + rewrite (Hr x Hx). naive_solver.
  - intros KP fuel k2 Hp Hf Hb. unfold destroy_subprocess.
    destruct (terminate_correct sys_kill sys_sigalrm sys_alarm sys_waitpid s Hp fuel 1 k2 Hf Hb)
      as (k' & n & E & _). eexists. rewrite E. split; [reflexivity|]. intros T.
    eapply (destroy_subprocess_table sys sys_fork sys_fcntl sys_kill sys_sigalrm sys_alarm sys_waitpid fuel s k2);
      [done|done|done|by rewrite T|]. unfold destroy_subprocess. by rewrite E.
Qed.

(** ** A kernel *)

(** A descriptor table and a child. *)
Definition machine : Type := gmap Z nat * child.

Definition free_fd (m : gmap Z nat) : Z := 1 + foldr Z.max 0 (elements (dom m)).

Lemma free_fd_spec m x : is_Some (m !! x) -> x < free_fd m.
Proof.
  intros Hx%elem_of_dom%elem_of_elements. unfold free_fd. induction (elements (dom m)) as [|y l IH]; cbn in *.
  - by apply elem_of_nil in Hx.
  - apply elem_of_cons in Hx as [->|Hx]; [lia|]. specialize (IH Hx). lia.
Qed.

Lemma free_fd_pos m : 0 < free_fd m.
Proof. unfold free_fd. assert (0 <= foldr Z.max 0 (elements (dom m))); [|lia]. induction (elements (dom m)); cbn; lia. Qed.

Definition machine_calls : calls machine := Calls machine
  (fun _ '(m, c) => let r := free_fd m in (SysOk (r, r + 1), (<[r := 0%nat]> (<[r + 1 := 1%nat]> m), c)))
  (fun fd '(m, c) => (SysOk tt, (delete fd m, c)))
  (fun _ _ k => (SysErr EAGAIN, k))
  (fun _ s k => (SysOk (length s), k))
  (fun src dst _ '(m, c) => match m !! src with
                            | Some f => (SysOk dst, (<[dst := f]> m, c))
                            | None => (SysErr 9, (m, c))
                            end).

#[global, program] Instance machine_fds : FdKernel machine_calls nat := { table := fun k => k.1 }.
Next Obligation. intros src dst flags [m c] f _ E. cbn in *. rewrite E. eauto. Qed.
Next Obligation. intros fd [m c] _. cbn. eauto. Qed.

Definition machine_fork (_ : str) (_ : list str) (k : machine) : Z * machine := (77, k).
Definition machine_fcntl (_ : Z) (k : machine) : machine := k.
Definition machine_kill (pid sig : Z) (k : machine) : sysres unit * machine :=
  let '(r, c) := child_kill pid sig k.2 in (r, (k.1, c)).
Definition machine_sigalrm (h : Z) (k : machine) : Z * machine :=
  let '(r, c) := child_sigalrm h k.2 in (r, (k.1, c)).
Definition machine_alarm (n : Z) (k : machine) : machine := (k.1, child_alarm n k.2).
Definition machine_wait (pid : Z) (k : machine) : Z * machine :=
  let '(rc, c) := child_wait pid k.2 in (rc, (k.1, c)).

#[global, program] Instance machine_spawn :
  SpawnKernel machine_calls machine_fork machine_fcntl machine_kill machine_sigalrm machine_alarm machine_wait := {}.
Next Obligation.
  intros flags [m c]. cbn. pose proof (free_fd_pos m).
  split_and!; [lia|lia|lia|..|eauto]; apply eq_None_not_Some; intros Hs%free_fd_spec; lia.
Qed.
Next Obligation. done. Qed.
Next Obligation. done. Qed.
Next Obligation. intros pid sig [m c]. by destruct c. Qed.
Next Obligation. intros h [m c]. by destruct c. Qed.
Next Obligation. done. Qed.
Next Obligation. intros pid [m [g a o [|h]]]; done. Qed.

#[global, program] Instance machine_proc :
  ProcKernel machine_kill machine_sigalrm machine_alarm machine_wait 77 := {
  signals := fun k => got k.2; alarms := fun k => timers k.2;
  handler := fun k => on_alarm k.2; stubborn := fun k => holds_out k.2 }.
Next Obligation. intros sig k. cbn. auto. Qed.
Next Obligation. intros n k. cbn. auto. Qed.
Next Obligation. intros h k. eexists. split; [reflexivity|]. cbn. auto. Qed.
Next Obligation.
  intros [m [g a o [|h]]] rc k' E; cbn in E; injection E as <- <-; cbn; split_and!; auto. left. lia.
Qed.

Definition sample_machine : machine := ({[0 := 90%nat; 1 := 91%nat; 2 := 92%nat]}, Child [] [] 9 2).

(** A subprocess made and destroyed, whose child holds out twice. *)
Lemma subprocess_no_leak_witness :
  exists s k1 k3,
    make_subprocess machine_calls machine_fork machine_fcntl "java" [] sample_machine = (Ok s, k1) /\
    remaining s = [4; 5; 7] /\
    destroy_subprocess machine_calls machine_kill machine_sigalrm machine_alarm machine_wait 3 s k1
      = Some (Ok tt, k3) /\ k3.1 = sample_machine.1.
Proof.
  destruct (make_subprocess machine_calls machine_fork machine_fcntl "java" [] sample_machine) as [r k1] eqn:E.
  pose proof (subprocess_no_leak machine_calls machine_fork machine_fcntl machine_kill machine_sigalrm
    machine_alarm machine_wait "java" [] sample_machine r k1 E) as H.
  assert (holds_out k1.2 = 2%nat) as Hk by (vm_compute in E; by injection E as <- <-).
  assert (exists s, r = Ok s /\ proc_id s = 77 /\ remaining s = [4; 5; 7]) as (s & -> & Hp & Hrem)
    by (vm_compute in E; injection E as <- <-; eexists; split_and!; reflexivity).
  destruct H as (_ & _ & _ & H). rewrite Hp in H.
  destruct (H machine_proc 3%nat k1) as (k3 & E3 & T3); [done|cbn; lia|cbn; lia|].
  exists s, k1, k3. split_and!; [done|exact Hrem|exact E3|]. by apply T3.
Defined.
