(* ===== verification/ServerLoop.v ===== *)
(** * ServerLoop: the worker thread of src/zk/server/server.cpp

    [run_process] runs in a thread of its own: it waits for output of the child or for
    the shutdown event, copies the output, and sees the child off once [_running] is
    lowered. [shutdown] is called from other threads, the destructor's among them. The
    threads share [_running], the eventfd counter and the [std::thread] object. *)

From S2P Require Import Prelude Error Pipe Server.

(** ** Copying the output *)

(** [drain_pipes]: rounds until neither pipe gives anything. [cout] and [cerr] are what
    was printed so far; [rfuel] is the fuel of each [read]. *)
Fixpoint drain_pipes {K} (sys : calls K) (fuel rfuel : nat) (so se : pipe) (cout cerr : str)
    (k : K) : option (res (str * str) * K) :=
  match fuel with
  | O => None
  | S fuel' =>
      match read sys rfuel so None k with
      | None => None
      | Some (Throw e, k1) => Some (Throw e, k1)
      | Some (Ok out, k1) =>
          match read sys rfuel se None k1 with
          | None => None
          | Some (Throw e, k2) => Some (Throw e, k2)
          | Some (Ok err, k2) =>
              let '(to_out, to_err, again) := drain_round out err in
              if again then drain_pipes sys fuel' rfuel so se (cout ++ to_out) (cerr ++ to_err) k2
              else Some (Ok (cout ++ to_out, cerr ++ to_err), k2)
          end
      end
  end.

(** ** The threads *)

(** The worker: at the loop condition; in [select]; in a round of [drain_pipes], reading
    the standard output or the standard error; in [terminate]; returned; ended by an
    exception. [last] is the copying after [terminate], [got] says that this call of [read]
    has bytes already, [any] that the round has read from the standard output. *)
Inductive worker_pc :=
| WCheck
| WSelect
| WReadOut (last got : bool)
| WReadErr (last any got : bool)
| WTerminate
| WDone
| WThrown.

#[global] Instance worker_pc_eq_dec : EqDecision worker_pc.
Proof. solve_decision. Defined.

(** A call of [shutdown]: about to lower [_running], to notify, to ask whether the thread
    is joinable; in [join]; returned. *)
Inductive caller_pc := SStore | SNotify | SJoinable | SJoin | SDone.

#[global] Instance caller_pc_eq_dec : EqDecision caller_pc.
Proof. solve_decision. Defined.

Record caller := Caller { wait_for_stop : bool; cpc : caller_pc }.

Record server_state := ServerState {
  running : bool;
  event_count : Z;      (** the counter behind [_shutdown_event] *)
  out_bytes : nat;      (** in the pipe of the child's standard output *)
  err_bytes : nat;      (** and of its standard error *)
  alive : bool;         (** the child has not ended *)
  reaped_child : bool;  (** the child was waited for *)
  joinable : bool;      (** of [_worker] *)
  wpc : worker_pc;
}.

Definition worker_at (pc : worker_pc) (s : server_state) : server_state :=
  ServerState (running s) (event_count s) (out_bytes s) (err_bytes s) (alive s) (reaped_child s)
    (joinable s) pc.

Definition with_out (n : nat) (s : server_state) : server_state :=
  ServerState (running s) (event_count s) n (err_bytes s) (alive s) (reaped_child s) (joinable s) (wpc s).
Definition with_err (n : nat) (s : server_state) : server_state :=
  ServerState (running s) (event_count s) (out_bytes s) n (alive s) (reaped_child s) (joinable s) (wpc s).

(** How the next system call of the worker ends: it does what it is for, with [EINTR], with
    another error, a read takes [n] bytes, or the child holds out against a signal of
    [terminate]. *)
Inductive wevent := EvGo | EvIntr | EvFail | EvTake (n : nat) | EvHold.

#[global] Instance wevent_eq_dec : EqDecision wevent.
Proof. solve_decision. Defined.

(** [select] returns at once: the event is set, a pipe has bytes or is at its end. *)
Definition ready (s : server_state) : bool :=
  (0 <? event_count s)%Z || (0 <? out_bytes s) || (0 <? err_bytes s) || negb (alive s).

Definition can_take (n have : nat) : bool := (0 <? n) && (n <=? have) && (n <=? read_buf_size).

(** The end of a round of [drain_pipes]. *)
Definition round_end (last anything : bool) : worker_pc :=
  if anything then WReadOut last false else if last then WDone else WCheck.

(** One action of the worker; [None] while it blocks or when its calls cannot end so. A
    [read] that fails returns the bytes it has, and throws if there are none; an exception
    of [select] or [read] leaves the function of the thread, and one of [kill] the
    [noexcept] function [terminate]. *)
Definition worker_step (e : wevent) (s : server_state) : option server_state :=
  match wpc s, e with
  | WCheck, EvGo => Some (worker_at (if running s then WSelect else WTerminate) s)
  | WSelect, EvGo => if ready s then Some (worker_at (WReadOut false false) s) else None
  | WSelect, EvIntr => Some (worker_at (WReadOut false false) s)
  | WSelect, EvFail => Some (worker_at WThrown s)
  | WReadOut last got, EvTake n =>
      if can_take n (out_bytes s)
      then Some (worker_at (WReadOut last true) (with_out (out_bytes s - n) s)) else None
  | WReadOut last got, EvGo =>
      if out_bytes s =? 0 then Some (worker_at (WReadErr last got false) s) else None
  | WReadOut _ _, EvIntr => Some s
  | WReadOut last got, EvFail =>
      Some (worker_at (if got then WReadErr last got false else WThrown) s)
  | WReadErr last any got, EvTake n =>
      if can_take n (err_bytes s)
      then Some (worker_at (WReadErr last any true) (with_err (err_bytes s - n) s)) else None
  | WReadErr last any got, EvGo =>
      if err_bytes s =? 0 then Some (worker_at (round_end last (any || got)) s) else None
  | WReadErr _ _ _, EvIntr => Some s
  | WReadErr last any got, EvFail =>
      Some (worker_at (if got then round_end last (any || got) else WThrown) s)
  | WTerminate, EvGo =>
      if alive s then None
      else Some (ServerState (running s) (event_count s) (out_bytes s) (err_bytes s) false true
                   (joinable s) (WReadOut true false))
  | WTerminate, EvHold => if alive s then Some s else None
  | WTerminate, EvFail => Some (worker_at WThrown s)
  | _, _ => None
  end.

(** [notify_one] on the counter, which stays at its maximum once there. *)
Definition notified (c : Z) : Z := if (c + 1 <=? counter_max)%Z then (c + 1)%Z else c.

(** One action of a call of [shutdown]; [join] blocks until the worker has returned, and
    leaves a thread that cannot be joined. *)
Definition caller_step (c : caller) (s : server_state) : option (caller * server_state) :=
  let c' pc := Caller (wait_for_stop c) pc in
  match cpc c with
  | SStore =>
      Some (c' SNotify, ServerState false (event_count s) (out_bytes s) (err_bytes s) (alive s)
              (reaped_child s) (joinable s) (wpc s))
  | SNotify =>
      Some (c' (if wait_for_stop c then SJoinable else SDone),
            ServerState (running s) (notified (event_count s)) (out_bytes s) (err_bytes s) (alive s)
              (reaped_child s) (joinable s) (wpc s))
  | SJoinable => Some (c' (if joinable s then SJoin else SDone), s)
  | SJoin =>
      match wpc s with
      | WDone => Some (c' SDone, ServerState (running s) (event_count s) (out_bytes s) (err_bytes s)
                                   (alive s) (reaped_child s) false (wpc s))
      | _ => None
      end
  | SDone => None
  end.

(** The child prints while it lives, and ends. *)
Inductive child_act := PrintsOut (n : nat) | PrintsErr (n : nat) | Ends.

Definition child_step (a : child_act) (s : server_state) : option server_state :=
  if alive s then
    Some (match a with
          | PrintsOut n => with_out (out_bytes s + n) s
          | PrintsErr n => with_err (err_bytes s + n) s
          | Ends => ServerState (running s) (event_count s) (out_bytes s) (err_bytes s) false
                      (reaped_child s) (joinable s) (wpc s)
          end)
  else None.

Inductive actor := Worker (e : wevent) | ShutdownCall (i : nat) | Child (a : child_act).

(** An exception that leaves the worker ends the program. *)
Definition server_step (a : actor) (x : server_state * list caller)
    : option (server_state * list caller) :=
  let '(s, cs) := x in
  if decide (wpc s = WThrown) then None else
  match a with
  | Worker e => match worker_step e s with Some s' => Some (s', cs) | None => None end
  | ShutdownCall i =>
      match cs !! i with
      | Some c => match caller_step c s with
                  | Some (c', s') => Some (s', <[i := c']> cs)
                  | None => None
                  end
      | None => None
      end
  | Child a => match child_step a s with Some s' => Some (s', cs) | None => None end
  end.

Fixpoint server_run (acts : list actor) (x : server_state * list caller)
    : option (server_state * list caller) :=
  match acts with
  | [] => Some x
  | a :: rest => match server_step a x with Some x' => server_run rest x' | None => None end
  end.

(** A [std::thread] is not to be used by two threads at once: a call that asks whether
    [_worker] is joinable while another is in [join] is a data race. *)
Definition racing (a : actor) (x : server_state * list caller) : bool :=
  match a with
  | ShutdownCall i =>
      bool_decide (cpc <$> x.2 !! i = Some SJoinable) &&
      existsb (fun j => negb (j =? i) && bool_decide (cpc <$> x.2 !! j = Some SJoin)) (seq 0 (length x.2))
  | _ => false
  end.

Fixpoint race_free (acts : list actor) (x : server_state * list caller) : bool :=
  match acts with
  | [] => true
  | a :: rest =>
      negb (racing a x) && match server_step a x with Some x' => race_free rest x' | None => true end
  end.

(** The constructor starts the worker; the calls of [shutdown] are all to come. *)
Definition server_start : server_state := ServerState true 0 0 0 true false true WCheck.

(** ** The invariant *)

Definition over (pc : worker_pc) : bool :=
  match pc with WReadOut last _ | WReadErr last _ _ => last | WDone => true | _ => false end.
Definition leaving (pc : worker_pc) : bool := bool_decide (pc = WTerminate) || over pc.

Definition has_notified (c : caller) : bool :=
  match cpc c with SJoinable | SJoin | SDone => true | _ => false end.

Definition caller_ok (s : server_state) (c : caller) : Prop :=
  match cpc c with
  | SStore => True
  | SNotify => running s = false
  | SJoinable => running s = false /\ (0 < event_count s)%Z /\ wait_for_stop c = true
  | SJoin => running s = false /\ (0 < event_count s)%Z /\ wait_for_stop c = true /\ joinable s = true
  | SDone => running s = false /\ (0 < event_count s)%Z /\ (wait_for_stop c = true -> wpc s = WDone)
  end.

(** What the last copying has left in the pipes. *)
Definition drained (s : server_state) : Prop :=
  match wpc s with
  | WReadErr true false _ => out_bytes s = 0
  | WDone => out_bytes s = 0 /\ err_bytes s = 0
  | _ => True
  end.

Record server_inv (s : server_state) (cs : list caller) : Prop := ServerInv {
  si_count : (0 <= event_count s <= counter_max)%Z;
  si_leaving : leaving (wpc s) = true -> running s = false;
  si_reaped : wpc s <> WThrown -> reaped_child s = over (wpc s);
  si_alive : over (wpc s) = true -> alive s = false;
  si_drained : drained s;
  si_joined : joinable s = false -> wpc s = WDone;
  si_callers : Forall (caller_ok s) cs;
  si_join : forall i j ci cj, cs !! i = Some ci -> cs !! j = Some cj -> cpc ci = SJoin -> cpc cj = SJoin -> i = j;
}.
(** How many actions the worker is from its end, once [_running] is lowered, if nothing
    more is printed: every byte may cost another round. *)
Definition position (pc : worker_pc) : nat :=
  match pc with
  | WDone | WThrown => 0
  | WReadErr last any got => (if last then 0 else 6) + (if any || got then 3 else 1)
  | WReadOut last got => (if last then 0 else 6) + (if got then 4 else 2)
  | WTerminate => 5
  | WCheck => 6
  | WSelect => 11
  end.

Definition weight (s : server_state) : nat := 3 * (out_bytes s + err_bytes s) + position (wpc s).

(** The actions of the worker in a run, interrupted calls and waiting for a child that
    holds out apart, and the bytes the child prints. *)
Definition worker_acts (acts : list actor) : nat :=
  sum_list ((fun a => match a with Worker EvIntr | Worker EvHold => 0 | Worker _ => 1 | _ => 0 end) <$> acts).

Definition printed (acts : list actor) : nat :=
  sum_list ((fun a => match a with Child (PrintsOut n) | Child (PrintsErr n) => n | _ => 0 end) <$> acts).

(** ** Lemmas *)

Lemma notified_range c : (0 <= c <= counter_max)%Z -> (0 < notified c <= counter_max)%Z.
Proof. unfold notified, counter_max. intros H. case_goal; bool_prop; lia. Qed.

Lemma can_take_inv n have : can_take n have = true -> 0 < n <= have.
Proof. unfold can_take. rewrite !andb_true_iff, Nat.ltb_lt, !Nat.leb_le. lia. Qed.

(** Where an action of the worker leads. *)
Inductive worker_moves (s : server_state) : wevent -> server_state -> Prop :=
| moves_check : wpc s = WCheck ->
    worker_moves s EvGo (worker_at (if running s then WSelect else WTerminate) s)
| moves_select e : wpc s = WSelect -> e = EvGo \/ e = EvIntr ->
    worker_moves s e (worker_at (WReadOut false false) s)
| moves_thrown pc : wpc s = pc -> pc <> WDone -> pc <> WThrown -> worker_moves s EvFail (worker_at WThrown s)
| moves_take_out last got n : wpc s = WReadOut last got -> 0 < n <= out_bytes s ->
    worker_moves s (EvTake n) (worker_at (WReadOut last true) (with_out (out_bytes s - n) s))
| moves_out last got e : wpc s = WReadOut last got -> (e = EvGo /\ out_bytes s = 0) \/ (e = EvFail /\ got = true) ->
    worker_moves s e (worker_at (WReadErr last got false) s)
| moves_take_err last any got n : wpc s = WReadErr last any got -> 0 < n <= err_bytes s ->
    worker_moves s (EvTake n) (worker_at (WReadErr last any true) (with_err (err_bytes s - n) s))
| moves_err last any got e : wpc s = WReadErr last any got ->
    (e = EvGo /\ err_bytes s = 0) \/ (e = EvFail /\ got = true) ->
    worker_moves s e (worker_at (round_end last (any || got)) s)
| moves_reap : wpc s = WTerminate -> alive s = false ->
    worker_moves s EvGo (ServerState (running s) (event_count s) (out_bytes s) (err_bytes s) false true
                           (joinable s) (WReadOut true false))
| moves_stay e : e = EvIntr \/ e = EvHold -> worker_moves s e s.

Lemma worker_step_moves e s s' : worker_step e s = Some s' -> worker_moves s e s'.
Proof.
  unfold worker_step. intros E. destruct (wpc s) as [| |l g|l a g| | |] eqn:P, e; try discriminate E.
  all: repeat match type of E with
    | (if ?b then _ else _) = _ => let K := fresh "K" in destruct b eqn:K; try discriminate E
    end; injection E as <-.
  all: try (by constructor; auto).
  all: try (apply can_take_inv in K).
  all: try (apply Nat.eqb_eq in K).
  all: try (by econstructor; eauto).
  all: try (destruct g; [by econstructor; eauto|by eapply moves_thrown]).
  all: by eapply moves_thrown.
Qed.

Lemma callers_kept s s' cs :
  running s' = running s -> event_count s' = event_count s -> joinable s' = joinable s ->
  (wpc s = WDone -> wpc s' = WDone) -> Forall (caller_ok s) cs -> Forall (caller_ok s') cs.
Proof.
  intros H1 H2 H3 H4 H. eapply Forall_impl; [exact H|]. intros [w []]; unfold caller_ok; cbn;
    rewrite ?H1, ?H2, ?H3; naive_solver.
Qed.

Lemma worker_inv e s s' cs : server_inv s cs -> wpc s <> WThrown -> worker_step e s = Some s' -> server_inv s' cs.
Proof.
  intros [I1 I2 I3 I4 I5 I6 I7 I8] Hw E%worker_step_moves. unfold drained in I5.
  assert (wpc s = WDone -> s' = s) as Hd.
  { intros D. destruct E; try congruence; try done. }
  assert (joinable s = true \/ s' = s) as Hj.
  { destruct (joinable s) eqn:J; [by left|]. right. auto. }
  destruct Hj as [Hj| ->]; [|by split].
  assert (wpc s = WDone -> wpc s' = WDone) as Hd' by (intros D; by rewrite (Hd D)).
  destruct E; (split; [..|eapply callers_kept; [..|exact I7]|exact I8]); unfold drained; cbn;
    try done; try (by intros; congruence).
  all: try (rewrite H in * ); cbn in *; try done.
  all: repeat match goal with b : bool |- _ => destruct b end; destruct (running s); cbn in *; naive_solver.
Qed.

Lemma not_racing i x ci :
  racing (ShutdownCall i) x = false -> x.2 !! i = Some ci -> cpc ci = SJoinable ->
  forall j cj, x.2 !! j = Some cj -> cpc cj = SJoin -> j = i.
Proof.
  unfold racing. intros H Hi Hc j cj Hj Hcj. rewrite Hi in H. cbn in H. rewrite Hc in H.
  rewrite bool_decide_true in H by done. cbn in H. destruct (decide (j = i)) as [|Hne]; [done|].
  apply not_true_iff_false in H. destruct H. apply existsb_exists. exists j. split.
  - apply in_seq. apply lookup_lt_Some in Hj. lia.
  - apply Nat.eqb_neq in Hne. rewrite Hne, Hj. cbn. rewrite bool_decide_true; [done|]. by rewrite Hcj.
Qed.

Lemma caller_inv i c c' s s' cs :
  server_inv s cs -> wpc s <> WThrown -> cs !! i = Some c -> racing (ShutdownCall i) (s, cs) = false ->
  caller_step c s = Some (c', s') -> server_inv s' (<[i := c']> cs).
Proof.
  intros [I1 I2 I3 I4 I5 I6 I7 I8] Hw Hi Hrace E.
  pose proof (Forall_lookup_1 _ _ _ _ I7 Hi) as K. pose proof (notified_range _ I1) as N.
  assert (cpc c' = SJoin -> cpc c = SJoinable /\ joinable s = true) as Hj.
  { destruct c as [w []]; cbn in E; repeat case_hyp E; simplify_eq; cbn; naive_solver. }
  assert (forall j k cj ck, <[i := c']> cs !! j = Some cj -> <[i := c']> cs !! k = Some ck ->
    cpc cj = SJoin -> cpc ck = SJoin -> j = k) as I8'.
  { intros j k cj ck Hcj Hck Ej Ek.
    apply list_lookup_insert_Some in Hcj as [(<- & <- & _)|[Hne1 Hcj]],
      Hck as [(<- & <- & _)|[Hne2 Hck]]; [done| | |by eapply I8].
    - destruct (Hj Ej) as [Hjj _]. symmetry. by eapply (not_racing i (s, cs)).
    - destruct (Hj Ek) as [Hjj _]. by eapply (not_racing i (s, cs)). }
  assert (forall P : caller -> Prop, P c' -> (forall j cj, j <> i -> cs !! j = Some cj -> P cj) ->
    Forall P (<[i := c']> cs)) as HF.
  { intros P Hc' Hothers. apply Forall_lookup. intros j cj [(<- & <- & _)|[Hne Hcj]]%list_lookup_insert_Some; eauto. }
  assert (forall j cj, j <> i -> cs !! j = Some cj -> caller_ok s cj) as Hok
    by (intros j cj _ Hcj; by eapply Forall_lookup_1 in Hcj).
  destruct s as [r n o er al rp jo pc], c as [w []]; cbn in *; repeat case_hyp E; simplify_eq;
    (split; cbn in *; [lia|by auto|by auto|by auto|done|by auto| |exact I8']).
  all: apply HF; [cbn; try destruct w; cbn; naive_solver lia|].
  all: intros j [wj pj] Hne Hcj; specialize (Hok j _ Hne Hcj); destruct pj; cbn in *; try naive_solver lia.
Qed.

Lemma child_inv a s s' cs : server_inv s cs -> child_step a s = Some s' -> server_inv s' cs.
Proof.
  intros [I1 I2 I3 I4 I5 I6 I7 I8] E. unfold child_step in E. destruct (alive s) eqn:A; [|done].
  assert (over (wpc s) = false) as Ho by (destruct (over (wpc s)); [by specialize (I4 eq_refl)|done]).
  unfold drained in *. destruct a; simplify_eq; split; cbn; try done; try (by auto);
    try (by rewrite Ho); try (by eapply callers_kept; [..|exact I7]).
  all: unfold drained; cbn; destruct (wpc s) as [| | |[] [] ?| | |]; done.
Qed.

Lemma step_inv a s cs s' cs' :
  server_inv s cs -> racing a (s, cs) = false -> server_step a (s, cs) = Some (s', cs') -> server_inv s' cs'.
Proof.
  intros I Hr E. unfold server_step in E. destruct (decide (wpc s = WThrown)); [done|].
  destruct a as [e|i|a]; cbn in E.
  - destruct (worker_step e s) eqn:W; simplify_eq. by eapply worker_inv.
  - destruct (cs !! i) as [c|] eqn:Hi; [|done].
    destruct (caller_step c s) as [[c' s1]|] eqn:C; simplify_eq. by eapply caller_inv.
  - destruct (child_step a s) eqn:C; simplify_eq. by eapply child_inv.
Qed.

Lemma run_inv acts s cs s' cs' :
  server_inv s cs -> race_free acts (s, cs) = true ->
  server_run acts (s, cs) = Some (s', cs') -> server_inv s' cs'.
Proof.
  revert s cs; induction acts as [|a acts IH]; intros s cs I Hf E; cbn [server_run race_free] in *.
  - by simplify_eq.
  - apply andb_prop in Hf as [Hr Hf]. apply negb_true_iff in Hr.
    destruct (server_step a (s, cs)) as [[s1 cs1]|] eqn:S1; [|done].
    eapply IH; [by eapply step_inv|done|done].
Qed.

(** What [notify_one] does to the counter of any kernel that keeps eventfd's promises. *)
Lemma notify_one_notified {K} (sys : event_calls K) fd {KE : EventKernel sys fd} k :
  exists k', notify_one sys fd k = (Ok tt, k') /\
             counter sys (EventKernel := KE) k' = notified (counter sys (EventKernel := KE) k).
Proof.
  unfold notify_one, notified. pose proof (ev_write_law sys 1 k) as L.
  case_goal; destruct L as (k' & -> & Hk'); eauto.
Qed.

Lemma knows_lowered s cs :
  server_inv s cs -> Exists has_notified cs -> running s = false /\ (0 < event_count s)%Z.
Proof.
  intros I X. apply list.Exists_exists in X as (c & Hin & Hc). pose proof (si_callers _ _ I) as F.
  rewrite Forall_forall in F. specialize (F c Hin).
  destruct c as [w []]; cbn in *; try done; naive_solver.
Qed.

(** *** Progress *)

(** Once [_running] is lowered, the worker comes nearer its end by each of its actions. *)
Lemma worker_lighter e s s' :
  running s = false -> worker_step e s = Some s' ->
  match e with EvIntr | EvHold => 0 | _ => 1 end + weight s' <= weight s.
Proof.
  intros Hr E%worker_step_moves. unfold weight.
  destruct E; cbn; try rewrite H; rewrite ?Hr; cbn.
  all: repeat match goal with H : _ \/ _ |- _ => destruct H as [H|H] | H : _ /\ _ |- _ => destruct H end; subst; cbn.
  all: repeat match goal with b : bool |- _ => destruct b end; cbn; try lia.
  assert (0 < position (wpc s)); [|lia]. destruct (wpc s) as [| |[] []|[] [] []| | |]; cbn; done || lia.
Qed.

(** No other action takes it further away, but for what the child prints. *)
Lemma others_weight a s cs s' cs' :
  server_step a (s, cs) = Some (s', cs') -> match a with Worker _ => False | _ => True end ->
  weight s' = weight s + 3 * printed [a] /\ (running s = false -> running s' = false).
Proof.
  intros E Ha. unfold server_step in E. destruct (decide _); [done|]. unfold weight, printed.
  destruct a as [e|i|a]; [done| |].
  - destruct (cs !! i) as [[w pc]|]; [|done]. destruct pc; cbn in E; simplify_eq; cbn; try (split; done || lia).
    destruct (wpc s) eqn:Ew; simplify_eq; cbn. split; done || lia.
  - unfold child_step in E. destruct (alive s); [|done]. destruct a; simplify_eq; cbn; split; done || lia.
Qed.

Lemma run_weight acts s cs s' cs' :
  running s = false -> server_run acts (s, cs) = Some (s', cs') ->
  worker_acts acts + weight s' <= weight s + 3 * printed acts.
Proof.
  revert s cs. induction acts as [|a acts IH]; intros s cs Hr E; cbn [server_run] in E; [simplify_eq; cbn; lia|].
  destruct (server_step a (s, cs)) as [[s1 cs1]|] eqn:S1; [|done].
  assert (printed (a :: acts) = printed [a] + printed acts) as -> by (unfold printed; cbn; lia).
  assert (worker_acts (a :: acts) = worker_acts [a] + worker_acts acts) as -> by (unfold worker_acts; cbn; lia).
  destruct a as [e|i|a].
  - cbn in S1. destruct (decide _); [done|]. destruct (worker_step e s) as [s2|] eqn:W; simplify_eq.
    pose proof (worker_lighter e s s1 Hr W) as L.
    assert (running s1 = false) as Hr1 by (apply worker_step_moves in W; destruct W; cbn; done).
    specialize (IH s1 cs1 Hr1 E). unfold worker_acts, printed in *. cbn in *.
    destruct e; cbn in *; lia.
  - destruct (others_weight _ _ _ _ _ S1 I) as [Hw Hr1]. specialize (IH s1 cs1 (Hr1 Hr) E). cbn in *. lia.
  - destruct (others_weight _ _ _ _ _ S1 I) as [Hw Hr1]. specialize (IH s1 cs1 (Hr1 Hr) E).
    unfold worker_acts at 1. cbn in *. lia.
Qed.

(** After a notification the worker only ever waits for a child that is being ended. *)
Definition waits_for_child (s : server_state) : Prop := wpc s = WTerminate /\ alive s = true.

Lemma worker_enabled s :
  (0 < event_count s)%Z -> wpc s <> WDone -> wpc s <> WThrown ->
  waits_for_child s \/ exists e s', worker_step e s = Some s' /\ e <> EvIntr /\ e <> EvHold /\ e <> EvFail.
Proof.
  intros Hc Hd Ht. unfold waits_for_child, worker_step, ready. apply Z.ltb_lt in Hc. rewrite Hc.
  destruct (wpc s) as [| |l g|l a g| | |]; try done.
  - right. by exists EvGo; eexists.
  - right. by exists EvGo; eexists.
  - right. destruct (out_bytes s) as [|n] eqn:En; [by exists EvGo; eexists|].
    exists (EvTake 1). by eexists.
  - right. destruct (err_bytes s) as [|n] eqn:En; [by exists EvGo; eexists|].
    exists (EvTake 1). by eexists.
  - destruct (alive s); [by left|]. right. by exists EvGo; eexists.
Qed.

(** *** Races on the thread object *)

Lemma waiters_kept a s cs s' cs' :
  server_step a (s, cs) = Some (s', cs') -> (fun c => wait_for_stop c) <$> cs' = (fun c => wait_for_stop c) <$> cs.
Proof.
  intros E. unfold server_step in E. destruct (decide _); [done|]. destruct a as [e|i|a]; cbn in E.
  - destruct (worker_step e s); by simplify_eq.
  - destruct (cs !! i) as [c|] eqn:Hi; [|done].
    destruct (caller_step c s) as [[c' s1]|] eqn:C; simplify_eq.
    rewrite list_fmap_insert. apply list_insert_id. rewrite list_lookup_fmap, Hi. cbn. f_equal.
    destruct c as [w []]; cbn in C; repeat case_hyp C; by simplify_eq.
  - destruct (child_step a s); by simplify_eq.
Qed.

(** A single call that waits races with nobody. *)
Lemma one_waiter_race_free acts s cs :
  server_inv s cs ->
  (forall i j ci cj, cs !! i = Some ci -> cs !! j = Some cj -> wait_for_stop ci = true ->
     wait_for_stop cj = true -> i = j) ->
  race_free acts (s, cs) = true.
Proof.
  revert s cs. induction acts as [|a acts IH]; intros s cs I H; [done|]. cbn [race_free].
  assert (racing a (s, cs) = false) as Hr.
  { destruct a as [|i|]; [done| |done]. unfold racing. cbn [snd].
    destruct (cs !! i) as [ci|] eqn:Hi; [|done]. cbn. case_bool_decide as Hc; [|done]. cbn.
    apply not_true_iff_false. intros (j & _ & Hj)%existsb_exists. apply andb_prop in Hj as [Hne Hj].
    destruct (cs !! j) as [cj|] eqn:Hcj; [|done]. cbn in Hj. case_bool_decide as Hpc; [|done].
    pose proof (Forall_lookup_1 _ _ _ _ (si_callers _ _ I) Hi) as K1.
    pose proof (Forall_lookup_1 _ _ _ _ (si_callers _ _ I) Hcj) as K2.
    destruct ci as [wi pi], cj as [wj pj]. cbn in *. simplify_eq. cbn in K1, K2.
    destruct K1 as (_ & _ & ->), K2 as (_ & _ & -> & _).
    rewrite (H j i _ _ Hcj Hi eq_refl eq_refl), Nat.eqb_refl in Hne. done. }
  rewrite Hr. cbn [negb andb]. destruct (server_step a (s, cs)) as [[s1 cs1]|] eqn:S1; [|done].
  apply IH; [by eapply step_inv|]. pose proof (waiters_kept _ _ _ _ _ S1) as Hk.
  intros i j ci cj Hi Hj Hwi Hwj.
  assert (forall k ck, cs1 !! k = Some ck -> wait_for_stop ck = true ->
    exists ck', cs !! k = Some ck' /\ wait_for_stop ck' = true) as Hback.
  { intros k ck Hk1 Hw. apply (f_equal (fun l => l !! k)) in Hk. rewrite !list_lookup_fmap, Hk1 in Hk. cbn in Hk.
    destruct (cs !! k) as [ck'|]; [|done]. injection Hk as Hk. exists ck'. by rewrite <- Hk. }
  destruct (Hback i ci Hi Hwi) as (? & ? & ?), (Hback j cj Hj Hwj) as (? & ? & ?). by eapply H.
Qed.

Lemma start_inv cs0 : Forall (fun c => cpc c = SStore) cs0 -> server_inv server_start cs0.
Proof.
  intros F. split; try done.
  - eapply Forall_impl; [exact F|]. intros [w pc] H; cbn in H; by subst.
  - intros i j ci cj Hi _ Hci _. by rewrite (Forall_lookup_1 _ _ _ _ F Hi) in Hci.
Qed.

(** ** Properties *)

(** C9: shutting a server down works whatever the interleaving of the worker, any number
    of calls of [shutdown] (the destructor's among them) and the child, as long as no call
    uses the thread object while another is joining it. The child is only terminated once a
    shutdown was asked for; a call that waits returns only when the worker has returned, the
    child was waited for and nothing is left in its pipes; after the first notification the
    actions of the worker are bounded by three for each byte that is in the pipes or is
    still printed and a constant, interrupted calls and the signals the child holds out
    against apart, and it blocks for nothing but a child it is ending; and until an
    exception of the worker ends the program, no call of [shutdown] is stuck: it can act,
    the worker can, or the child is still to end. *)
Theorem server_shutdown cs0 acts s cs :
  Forall (fun c => cpc c = SStore) cs0 ->
  server_run acts (server_start, cs0) = Some (s, cs) -> race_free acts (server_start, cs0) = true ->
  (wpc s = WTerminate \/ reaped_child s = true -> wpc s <> WThrown -> running s = false) /\
  (forall c, c ∈ cs -> wait_for_stop c = true -> cpc c = SDone ->
     wpc s = WDone /\ reaped_child s = true /\ out_bytes s = 0 /\ err_bytes s = 0) /\
  (Exists has_notified cs ->
     (forall acts' s' cs', server_run acts' (s, cs) = Some (s', cs') ->
        worker_acts acts' + weight s' <= 3 * (out_bytes s + err_bytes s + printed acts') + 11) /\
     (wpc s <> WDone -> wpc s <> WThrown -> waits_for_child s \/
        exists e s', worker_step e s = Some s' /\ e <> EvIntr /\ e <> EvHold /\ e <> EvFail)) /\
  (forall i c, cs !! i = Some c -> cpc c <> SDone -> wpc s <> WThrown ->
     is_Some (server_step (ShutdownCall i) (s, cs)) \/
     (exists e, is_Some (server_step (Worker e) (s, cs))) \/ waits_for_child s).
Proof.
  intros F R Hrace. pose proof (run_inv _ _ _ _ _ (start_inv cs0 F) Hrace R) as I.
  pose proof I as [I1 I2 I3 I4 I5 I6 I7 I8]. split_and!.
  - intros [H|H] Ht; apply I2; unfold leaving; [by rewrite H|]. rewrite <- I3 by done.
    by rewrite H, orb_true_r.
  - intros c Hin Hw Hd. rewrite Forall_forall in I7. specialize (I7 c Hin).
    destruct c as [w pc]; cbn in *; subst. destruct I7 as (_ & _ & E). specialize (E eq_refl).
    unfold drained in I5. rewrite E in *. by rewrite I3.
  - intros X. destruct (knows_lowered s cs I X) as [Hr Hc]. split; [|by apply worker_enabled].
    intros acts' s' cs' E. pose proof (run_weight _ _ _ _ _ Hr E) as L. unfold weight in L at 2.
    assert (position (wpc s) <= 11); [|lia]. destruct (wpc s) as [| |[] []|[] [] []| | |]; cbn; lia.
  - intros i c Hi Hd Ht. cbn. rewrite decide_False, Hi by done.
    pose proof (Forall_lookup_1 _ _ _ _ I7 Hi) as K.
    destruct c as [w []]; cbn in *; [by left; eauto|by left; eauto|by left; eauto| |done].
    destruct K as (Hr & Hc & _). destruct (decide (wpc s = WDone)) as [D|D]; [left; rewrite D; eauto|].
    right. destruct (worker_enabled s Hc D Ht) as [?|(e & s' & E & _)]; [by right|].
    left. exists e. rewrite E, decide_False by done. eauto.
Qed.

(** Output arrives and is copied; [shutdown] lowers the flag while the worker is in
    [select], and wakes it; the child holds out once and prints its last words. *)
Definition shutdown_race : list actor :=
  [Worker EvGo; Child (PrintsOut 5); Worker EvGo; Worker (EvTake 5); Worker EvGo; Worker EvGo;
   Worker EvGo; Worker EvGo; Worker EvGo; ShutdownCall 0; ShutdownCall 0; Worker EvGo;
   Worker EvGo; Worker EvGo; Worker EvGo; ShutdownCall 0; Worker EvHold; Child (PrintsErr 3);
   Child Ends; Worker EvGo; Worker EvGo; Worker (EvTake 3); Worker EvGo; Worker EvGo; Worker EvGo;
   ShutdownCall 0].

Lemma server_shutdown_witness :
  exists s cs,
    server_run shutdown_race (server_start, [Caller true SStore]) = Some (s, cs) /\
    cs = [Caller true SDone] /\
    wpc s = WDone /\ reaped_child s = true /\ out_bytes s = 0 /\ err_bytes s = 0.
Proof.
  eexists _, _. split; [vm_compute; reflexivity|]. split; [reflexivity|].
  eapply (server_shutdown [Caller true SStore] shutdown_race);
    [by repeat constructor|vm_compute; reflexivity|vm_compute; reflexivity|left|done|done].
Defined.

(** Two calls that wait use the thread object at once. *)
Example two_waiters_race :
  race_free [ShutdownCall 0; ShutdownCall 0; ShutdownCall 0; ShutdownCall 1; ShutdownCall 1; ShutdownCall 1]
    (server_start, [Caller true SStore; Caller true SStore]) = false.
Proof. reflexivity. Qed.

(** A call that waits after another has returned finds nothing to join. *)
Example second_waiter :
  exists s, server_run (shutdown_race ++ [ShutdownCall 1; ShutdownCall 1; ShutdownCall 1])
    (server_start, [Caller true SStore; Caller true SStore]) =
  Some (s, [Caller true SDone; Caller true SDone]) /\ joinable s = false.
Proof. eexists. split; vm_compute; reflexivity. Qed.

(** ** What reaches the standard error stream *)

(** Text from the child's standard error alone is dropped: a round prints the standard
    output on both streams. *)
Lemma stderr_not_copied err : err <> [] -> drain_round [] err = ([], [], true).
Proof. by destruct err. Qed.
