(* ===== verification/ServerProcess.v ===== *)
(** * ServerProcess: [run_process] of src/zk/server/server.cpp as a whole

    The worker thread's function put together from the parts: the arguments of
    Server.v, the child of Subprocess.v, the pipes of Pipe.v and the copying of
    ServerLoop.v, over one kernel. An exception that leaves it ends the program. *)

From S2P Require Import Prelude Text Error Configuration ConfigurationTheory Registry Server.
From S2P Require Import Pipe Subprocess ServerLoop.

Section run.
Context {K : Type} (sys : calls K).
Context (sys_running : K -> bool * K) (sys_select : list Z -> K -> sysres unit * K).
Context (sys_kill : Z -> Z -> K -> sysres unit * K) (sys_sigalrm : Z -> K -> Z * K)
        (sys_alarm : Z -> K -> K) (sys_waitpid : Z -> K -> Z * K).

Definition wait_for_event (fd1 fd2 fd3 : Z) (k : K) : res unit * K :=
  match sys_select [fd1; fd2; fd3] k with
  | (SysOk _, k') => (Ok tt, k')
  | (SysErr e, k') =>
      ((if (e =? EINTR)%Z then Ok tt else Throw (SystemError e "select")), k')
  end.

(** The loop: [sys_running] loads [_running]. [fuel] bounds its rounds, [dfuel] the
    rounds of each [drain_pipes] and [rfuel] the calls of each [read]. *)
Fixpoint serve_loop (fuel dfuel rfuel : nat) (s : subprocess) (event_fd : Z) (cout cerr : str)
    (k : K) : option (res (str * str) * K) :=
  match fuel with
  | O => None
  | S fuel' =>
      let '(running, k1) := sys_running k in
      if running then
        match wait_for_event (read_fd (p_stdout s)) (read_fd (p_stderr s)) event_fd k1 with
        | (Throw e, k2) => Some (Throw e, k2)
        | (Ok _, k2) =>
            match drain_pipes sys dfuel rfuel (p_stdout s) (p_stderr s) cout cerr k2 with
            | Some (Ok (cout', cerr'), k3) => serve_loop fuel' dfuel rfuel s event_fd cout' cerr' k3
            | r => r
            end
        end
      else Some (Ok (cout, cerr), k1)
  end.

(** What [run_process] does once the child runs: the loop, [terminate] with its default
    of one second, and the last copying. *)
Definition serve (fuel dfuel rfuel tfuel : nat) (s : subprocess) (event_fd : Z) (cout cerr : str)
    (k : K) : option (res (subprocess * str * str) * K) :=
  match serve_loop fuel dfuel rfuel s event_fd cout cerr k with
  | Some (Ok (cout1, cerr1), k1) =>
      match terminate sys_kill sys_sigalrm sys_alarm sys_waitpid tfuel 1 s k1 with
      | Some (Ok s', k2) =>
          match drain_pipes sys dfuel rfuel (p_stdout s') (p_stderr s') cout1 cerr1 k2 with
          | Some (Ok (cout2, cerr2), k3) => Some (Ok (s', cout2, cerr2), k3)
          | Some (Throw e, k3) => Some (Throw e, k3)
          | None => None
          end
      | Some (Throw e, k2) => Some (Throw e, k2)
      | None => None
      end
  | Some (Throw e, k1) => Some (Throw e, k1)
  | None => None
  end.

Definition run_process (sys_fork : str -> list str -> K -> Z * K) (sys_fcntl : Z -> K -> K)
    (fuel dfuel rfuel tfuel : nat) (packages : classpath) (settings : configuration)
    (event_fd : Z) (cout cerr : str) (k : K) : option (res (subprocess * str * str) * K) :=
  match process_args packages settings with
  | Throw e => Some (Throw e, k)
  | Ok args =>
      match make_subprocess sys sys_fork sys_fcntl "java" args k with
      | (Throw e, k1) => Some (Throw e, k1)
      | (Ok s, k1) => serve fuel dfuel rfuel tfuel s event_fd cout cerr k1
      end
  end.

(** ** What the kernel promises of a running child *)

Section serve.
Context (s : subprocess) {KO : PipeKernel sys (p_stdout s)} {KE : PipeKernel sys (p_stderr s)}
        {SO : PipeSupply sys (p_stdout s)} {SE : PipeSupply sys (p_stderr s)}
        {KP : ProcKernel sys_kill sys_sigalrm sys_alarm sys_waitpid (proc_id s)}.

Definition out_read (k : K) : str := consumed sys (PipeKernel := KO) k.
Definition out_written (k : K) : str := written sys (PipeKernel := KO) k.
Definition out_left (k : K) : nat := supply sys (PipeSupply := SO) k.
Definition err_left (k : K) : nat := supply sys (PipeSupply := SE) k.
Definition resists (k : K) : nat := stubborn sys_kill sys_sigalrm sys_alarm sys_waitpid (ProcKernel := KP) k.

(** Beyond the laws of its output pipes and of the process: calls keep out of each
    other's way; [select] fails only when interrupted and a read only when interrupted or
    empty; [_running] is seen lowered after at most [patience] more loads; and a child
    that was waited for prints nothing more. *)
Class ServeKernel := {
  patience : K -> nat;
  dead : K -> Prop;
  (** what every call leaves as it was or brings nearer to its end *)
  onward (k k' : K) : Prop :=
    err_left k' <= err_left k /\ resists k' <= resists k /\ patience k' <= patience k /\
    (dead k -> dead k' /\ out_written k' = out_written k);
  (** the same, with [d] read from the standard output of the child *)
  shown (k : K) (d : str) (k' : K) : Prop :=
    out_read k' = out_read k ++ d /\ length d + out_left k' <= out_left k /\ onward k k';
  running_law : forall k b k', sys_running k = (b, k') ->
    shown k [] k' /\ (b = true -> patience k' < patience k);
  select_law : forall fds k r k', sys_select fds k = (r, k') ->
    shown k [] k' /\ match r with SysErr e => e = EINTR | SysOk _ => True end;
  kill_aside : forall sig k r k', sys_kill (proc_id s) sig k = (r, k') -> shown k [] k';
  sigalrm_aside : forall h k, shown k [] (sys_sigalrm h k).2;
  alarm_aside : forall n k, shown k [] (sys_alarm n k);
  wait_aside : forall k rc k', sys_waitpid (proc_id s) k = (rc, k') ->
    shown k [] k' /\ ((0 < rc)%Z -> dead k');
  read_err_aside : forall n k r k', sys_read sys (read_fd (p_stderr s)) n k = (r, k') ->
    shown k [] k' /\ match r with SysErr e => e = EAGAIN \/ e = EINTR | SysOk _ => True end;
  read_out_law : forall n k r k', sys_read sys (read_fd (p_stdout s)) n k = (r, k') ->
    onward k k' /\
    match r with SysErr e => e = EAGAIN \/ e = EINTR | SysOk _ => True end;
}.

Context {SK : ServeKernel}.

#[local] Instance onward_preorder : PreOrder (fun k' k => onward k k').
Proof.
  split.
  - intros k. unfold onward. split_and!; done || auto.
  - intros k3 k2 k1 (B1 & B2 & B3 & B4) (A1 & A2 & A3 & A4). unfold onward. split_and!; [lia..|].
    intros D. destruct (A4 D) as [D1 E1]. destruct (B4 D1) as [D2 E2]. split; [done|congruence].
Qed.

Lemma shown_trans k1 k2 k3 d1 d2 : shown k1 d1 k2 -> shown k2 d2 k3 -> shown k1 (d1 ++ d2) k3.
Proof.
  intros (A1 & A2 & A3) (B1 & B2 & B3). unfold shown. rewrite length_app, app_assoc.
  split_and!; [congruence|lia|].
  exact (PreOrder_Transitive (R := fun k' k => onward k k') k3 k2 k1 B3 A3).
Qed.

#[local] Instance shown_nothing_preorder : PreOrder (fun k' k => shown k [] k').
Proof.
  split.
  - intros k. unfold shown. rewrite app_nil_r. split_and!; [done|done|].
    exact (PreOrder_Reflexive (R := fun k' k => onward k k') k).
  - intros k3 k2 k1 H H'. exact (shown_trans k1 k2 k3 [] [] H' H).
Qed.

(** A read that is only ever interrupted or finds nothing does not throw. *)
Lemma read_loop_ok fd fuel out k r k' :
  (forall n k1 x k2, sys_read sys fd n k1 = (x, k2) ->
     match x with SysErr e => e = EAGAIN \/ e = EINTR | SysOk _ => True end) ->
  read_loop sys fuel fd out k = Some (r, k') -> exists o, r = Ok o.
Proof.
  intros L. revert out k. induction fuel as [|fuel IH]; intros out k E; cbn [read_loop] in E; [done|].
  destruct (sys_read sys fd read_buf_size k) as [x k1] eqn:Er. specialize (L _ _ _ _ Er).
  destruct x as [[|c d]|e]; [simplify_eq; eauto|eauto|].
  destruct L as [->| ->]; cbn in E; [simplify_eq; eauto|eauto].
Qed.

Context (Ho : read_fd (p_stdout s) <> (-1)%Z) (He : read_fd (p_stderr s) <> (-1)%Z).

Lemma read_out rfuel k :
  out_left k < rfuel ->
  exists d k', read sys rfuel (p_stdout s) None k = Some (Ok d, k') /\ shown k d k' /\
    (d = [] -> out_read k' = out_written k').
Proof.
  intros Hf. unfold read. rewrite (proj2 (Z.eqb_neq _ _) Ho).
  destruct (read_loop_supply sys (p_stdout s) rfuel [] k Hf) as (r & k' & E & _ & H).
  destruct (read_loop_ok (read_fd (p_stdout s)) rfuel [] k r k') as [d ->]; [|exact E|].
  { intros n k1 x k2 Er. by apply read_out_law in Er as [_ ?]. }
  destruct H as ((d' & -> & Hc & Hl) & Hn). exists d', k'. split; [exact E|]. split; [|exact Hn].
  split; [exact Hc|]. split; [exact Hl|].
  apply (read_loop_frame sys (fun k => k) (fun k' k => onward k k')
           rfuel (read_fd (p_stdout s)) [] k (Ok d') k'); [|exact E].
  intros n k1 x k2 Er. by apply read_out_law in Er as [? _].
Qed.

Lemma read_err rfuel k :
  err_left k < rfuel ->
  exists d k', read sys rfuel (p_stderr s) None k = Some (Ok d, k') /\ shown k [] k' /\
    length d + err_left k' <= err_left k.
Proof.
  intros Hf. unfold read. rewrite (proj2 (Z.eqb_neq _ _) He).
  destruct (read_loop_supply sys (p_stderr s) rfuel [] k Hf) as (r & k' & E & _ & H).
  destruct (read_loop_ok (read_fd (p_stderr s)) rfuel [] k r k') as [d ->]; [|exact E|].
  { intros n k1 x k2 Er. by apply read_err_aside in Er as [_ ?]. }
  destruct H as ((d' & -> & Hc & Hl) & Hn). exists d', k'. split; [exact E|]. split; [|exact Hl].
  apply (read_loop_frame sys (fun k => k) (fun k' k => shown k [] k')
           rfuel (read_fd (p_stderr s)) [] k (Ok d') k'); [|exact E].
  intros n k1 x k2 Er. by apply read_err_aside in Er as [? _].
Qed.

(** Copying the output shows what was read, and leaves nothing a dead child wrote. *)
Lemma drain_shows fuel rfuel cout cerr k :
  out_left k + err_left k < fuel -> out_left k < rfuel -> err_left k < rfuel ->
  exists d cerr' k',
    drain_pipes sys fuel rfuel (p_stdout s) (p_stderr s) cout cerr k
    = Some (Ok (cout ++ d, cerr'), k') /\ shown k d k' /\
    (dead k -> out_read k' = out_written k').
Proof.
  revert cout cerr k. induction fuel as [|fuel IH]; intros cout cerr k Hf H1 H2; [lia|].
  cbn [drain_pipes]. destruct (read_out rfuel k H1) as (d & k1 & -> & S1 & Hn).
  pose proof S1 as (_ & L1 & N1). destruct N1 as (L1' & _ & _ & D1).
  destruct (read_err rfuel k1) as (e & k2 & -> & S2 & L2); [lia|].
  pose proof (shown_trans _ _ _ _ _ S1 S2) as S12. rewrite app_nil_r in S12.
  destruct (drain_round d e) as [[o x] again] eqn:Er.
  assert (o = d /\ (again = false -> d = []) /\ (again = true -> 0 < length d + length e)) as (-> & Hq & Hp).
  { unfold drain_round in Er. destruct d, e; injection Er as <- <- <-; cbn; split_and!; done || lia. }
  destruct S2 as (C2 & L2' & N2). destruct N2 as (_ & _ & _ & D2). destruct again.
  - destruct (IH (cout ++ d) (cerr ++ x) k2) as (d' & ce & k' & E & S3 & Hd); [cbn in *; specialize (Hp eq_refl); lia..|].
    exists (d ++ d'), ce, k'. rewrite app_assoc. split; [exact E|].
    split; [by eapply shown_trans|]. intros D. apply Hd. by apply D2, D1.
  - specialize (Hq eq_refl) as ->. exists [], (cerr ++ x), k2. split; [done|]. split; [exact S12|].
    intros D. destruct (D1 D) as [D' _]. destruct (D2 D') as [_ E2].
    rewrite C2, app_nil_r, E2. by apply Hn.
Qed.

Lemma shown_nil_trans k1 k2 k3 : shown k1 [] k2 -> shown k2 [] k3 -> shown k1 [] k3.
Proof. intros H H'. exact (shown_trans _ _ _ [] [] H H'). Qed.

Lemma shown_dead k d k' : shown k d k' -> dead k -> dead k'.
Proof. intros (_ & _ & _ & _ & _ & D) Hd. by apply D. Qed.

Lemma shown_le k d k' : shown k d k' ->
  out_left k' <= out_left k /\ err_left k' <= err_left k /\ resists k' <= resists k /\
  patience k' <= patience k.
Proof. intros (_ & L & L1 & L2 & L3 & _). split_and!; lia. Qed.

Lemma wait_shown fd1 fd2 fd3 k : exists k', wait_for_event fd1 fd2 fd3 k = (Ok tt, k') /\ shown k [] k'.
Proof.
  unfold wait_for_event. destruct (sys_select [fd1; fd2; fd3] k) as [x k'] eqn:Es.
  apply select_law in Es as [S Hx]. exists k'. split; [|done]. by destruct x; [|subst].
Qed.

(** [terminate] takes no output, and after it the child is dead. *)
Lemma terminate_shown fuel alarm attempt k s' k' :
  proc_id s <> (-1)%Z ->
  terminate_loop sys_kill sys_sigalrm sys_alarm sys_waitpid fuel alarm attempt s k = Some (Ok s', k') ->
  shown k [] k' /\ dead k'.
Proof.
  intros Hp. revert attempt k. induction fuel as [|fuel IH]; intros attempt k E; cbn [terminate_loop] in E;
    rewrite (proj2 (Z.eqb_neq _ _) Hp) in E; [done|].
  pose proof (sigalrm_aside idle_handler k) as S0.
  destruct (sys_sigalrm idle_handler k) as [old k0]. cbn [snd] in S0. unfold signal in E.
  rewrite (proj2 (Z.eqb_neq _ _) Hp) in E.
  destruct (sys_kill (proc_id s) _ k0) as [x k1] eqn:Ek. apply kill_aside in Ek.
  assert (exists k2 rc k3, sys_waitpid (proc_id s) k2 = (rc, k3) /\ shown k [] k2 /\
    terminate_loop sys_kill sys_sigalrm sys_alarm sys_waitpid fuel alarm (u32 (attempt + 1))
      (if (0 <? rc)%Z then reaped s else s) (sys_sigalrm old (sys_alarm 0 k3)).2 = Some (Ok s', k'))
    as (k2 & rc & k3 & W & S2 & E2).
  { pose proof (alarm_aside alarm k1) as S1.
    destruct x as [u|e]; [|destruct (e =? ESRCH)%Z; [|done]];
      destruct (sys_waitpid (proc_id s) (sys_alarm alarm k1)) as [rc k3] eqn:W;
      exists (sys_alarm alarm k1), rc, k3; eauto using shown_nil_trans. }
  apply wait_aside in W as [S3 D3].
  pose proof (alarm_aside 0 k3) as S4. pose proof (sigalrm_aside old (sys_alarm 0 k3)) as S5.
  set (k4 := (sys_sigalrm old (sys_alarm 0 k3)).2) in *.
  assert (shown k3 [] k4) as S6 by eauto using shown_nil_trans.
  assert (shown k [] k4) as S7 by eauto using shown_nil_trans.
  destruct (0 <? rc)%Z eqn:R; bool_prop.
  - assert (k' = k4) as -> by (destruct fuel; cbn in E2; congruence).
    split; [done|]. apply (shown_dead _ _ _ S6), D3, R.
  - destruct (IH _ _ E2) as [S8 D8]. split; [by eapply shown_nil_trans|done].
Qed.

Lemma serve_loop_shows fuel dfuel rfuel event_fd cout cerr k :
  patience k < fuel -> out_left k + err_left k < dfuel ->
  out_left k < rfuel -> err_left k < rfuel ->
  exists d cerr' k', serve_loop fuel dfuel rfuel s event_fd cout cerr k
                     = Some (Ok (cout ++ d, cerr'), k') /\ shown k d k'.
Proof.
  revert cout cerr k. induction fuel as [|fuel IH]; intros cout cerr k Hp Hd H1 H2; [lia|].
  cbn [serve_loop]. destruct (sys_running k) as [b k1] eqn:Er.
  apply running_law in Er as [S1 P1]. destruct b.
  2: { exists [], cerr, k1. by rewrite app_nil_r. }
  destruct (wait_shown (read_fd (p_stdout s)) (read_fd (p_stderr s)) event_fd k1) as (k2 & -> & S2).
  pose proof (shown_nil_trans _ _ _ S1 S2) as S12.
  apply shown_le in S2 as (_ & _ & _ & P2). specialize (P1 eq_refl).
  destruct (shown_le _ _ _ S12) as (L1 & L2 & _ & _).
  destruct (drain_shows dfuel rfuel cout cerr k2) as (d & ce & k3 & -> & S3 & _); [lia..|].
  destruct (shown_le _ _ _ S3) as (L3 & L4 & _ & P3).
  destruct (IH (cout ++ d) ce k3) as (d' & ce' & k' & -> & S4); [lia..|].
  exists (d ++ d'), ce', k'. rewrite app_assoc. split; [done|].
  eapply shown_trans; [|exact S4]. exact (shown_trans k k2 k3 [] d S12 S3).
Qed.

(** From the start of the child to the last copying. *)
Lemma serve_shows fuel dfuel rfuel tfuel event_fd cout cerr k :
  proc_id s <> (-1)%Z -> patience k < fuel -> out_left k + err_left k < dfuel ->
  out_left k < rfuel -> err_left k < rfuel ->
  resists k < tfuel -> (1 + Z.of_nat (resists k) < 2 ^ 32)%Z ->
  exists d cerr' k', serve fuel dfuel rfuel tfuel s event_fd cout cerr k
                     = Some (Ok (reaped s, cout ++ d, cerr'), k') /\
    shown k d k' /\ out_read k' = out_written k'.
Proof.
  intros Hp Hf Hd H1 H2 Ht Hb. unfold serve.
  destruct (serve_loop_shows fuel dfuel rfuel event_fd cout cerr k) as (d & ce & k1 & -> & S1); [lia..|].
  destruct (shown_le _ _ _ S1) as (L1 & L2 & L3 & _).
  destruct (terminate_correct sys_kill sys_sigalrm sys_alarm sys_waitpid s Hp tfuel 1 k1)
    as (k2 & n & E & _); [unfold resists in *; lia..|].
  destruct (terminate_shown _ _ _ _ _ _ Hp E) as [S2 D2]. rewrite E.
  destruct (shown_le _ _ _ S2) as (L4 & L5 & _ & _). cbn [reaped p_stdout p_stderr].
  destruct (drain_shows dfuel rfuel (cout ++ d) ce k2) as (d' & ce' & k3 & -> & S3 & Hc); [lia..|].
  exists (d ++ d'), ce', k3. rewrite app_assoc. split; [done|]. split; [|by apply Hc].
  eapply shown_trans; [|exact S3]. pose proof (shown_trans _ _ _ _ _ S1 S2) as S12.
  by rewrite app_nil_r in S12.
Qed.

End serve.
End run.

(** ** Properties *)

(** C17: the worker of a server, run to its end. If the arguments can be formed and the
    child started, then once [_running] was lowered [run_process] returns, without an
    exception, with the child waited for; it has copied to [cout] exactly the bytes it read
    from the standard output of the child, in their order, and when it returns that is
    everything the child ever printed there. *)
Theorem server_output_complete {K} (sys : calls K) sys_running sys_select sys_kill sys_sigalrm
    sys_alarm sys_waitpid sys_fork sys_fcntl packages settings args (s : subprocess)
    {KO : PipeKernel sys (p_stdout s)} {KE : PipeKernel sys (p_stderr s)}
    {SO : PipeSupply sys (p_stdout s)} {SE : PipeSupply sys (p_stderr s)}
    {KP : ProcKernel sys_kill sys_sigalrm sys_alarm sys_waitpid (proc_id s)}
    {SK : ServeKernel sys sys_running sys_select sys_kill sys_sigalrm sys_alarm sys_waitpid s}
    fuel dfuel rfuel tfuel event_fd cout cerr k k1 :
  process_args packages settings = Ok args ->
  make_subprocess sys sys_fork sys_fcntl "java" args k = (Ok s, k1) ->
  read_fd (p_stdout s) <> (-1)%Z -> read_fd (p_stderr s) <> (-1)%Z -> proc_id s <> (-1)%Z ->
  patience sys sys_running sys_select sys_kill sys_sigalrm sys_alarm sys_waitpid s k1 < fuel ->
  out_left sys s k1 + err_left sys s k1 < dfuel -> out_left sys s k1 < rfuel ->
  err_left sys s k1 < rfuel -> resists sys_kill sys_sigalrm sys_alarm sys_waitpid s k1 < tfuel ->
  (1 + Z.of_nat (resists sys_kill sys_sigalrm sys_alarm sys_waitpid s k1) < 2 ^ 32)%Z ->
  exists d cerr' k',
    run_process sys sys_running sys_select sys_kill sys_sigalrm sys_alarm sys_waitpid sys_fork
      sys_fcntl fuel dfuel rfuel tfuel packages settings event_fd cout cerr k
    = Some (Ok (reaped s, cout ++ d, cerr'), k') /\
    out_read sys s k' = out_read sys s k1 ++ d /\ out_read sys s k' = out_written sys s k'.
Proof.
  intros Ha Hm Ho He Hp Hf Hd H1 H2 Ht Hb. unfold run_process. rewrite Ha, Hm.
  destruct (serve_shows sys sys_running sys_select sys_kill sys_sigalrm sys_alarm sys_waitpid s
              Ho He fuel dfuel rfuel tfuel event_fd cout cerr k1 Hp Hf Hd H1 H2 Ht Hb)
    as (d & ce & k' & E & (S' & _) & C). eauto 6.
Qed.

(** ** A kernel *)

(** A child with its output: read, in the pipe and still to be printed. It prints two
    bytes whenever the server waits, and nothing more when it is gone. *)
Record host := Host {
  o_done : str; o_pipe : str; o_coming : str;
  e_done : str; e_pipe : str;
  turns : nat;
  the_child : child;
  next_fd : Z;
}.

Definition host_read (fd : Z) (n : nat) (k : host) : sysres str * host :=
  if (fd =? 5)%Z then
    match take n (o_pipe k) with
    | [] => (SysErr EAGAIN, k)
    | d => (SysOk d, Host (o_done k ++ d) (drop n (o_pipe k)) (o_coming k) (e_done k) (e_pipe k)
                          (turns k) (the_child k) (next_fd k))
    end
  else
    match take n (e_pipe k) with
    | [] => (SysErr EAGAIN, k)
    | d => (SysOk d, Host (o_done k) (o_pipe k) (o_coming k) (e_done k ++ d) (drop n (e_pipe k))
                          (turns k) (the_child k) (next_fd k))
    end.

Definition host_calls : calls host := Calls host
  (fun _ k => (SysOk (next_fd k, next_fd k + 1)%Z,
               Host (o_done k) (o_pipe k) (o_coming k) (e_done k) (e_pipe k) (turns k) (the_child k)
                    (next_fd k + 2)))
  (fun _ k => (SysOk tt, k))
  host_read
  (fun _ _ k => (SysErr 32, k))
  (fun _ fd _ k => (SysOk fd, k)).

Definition with_turns (n : nat) (k : host) : host :=
  Host (o_done k) (o_pipe k) (o_coming k) (e_done k) (e_pipe k) n (the_child k) (next_fd k).
Definition with_child (c : child) (k : host) : host :=
  Host (o_done k) (o_pipe k) (o_coming k) (e_done k) (e_pipe k) (turns k) c (next_fd k).

Definition host_running (k : host) : bool * host :=
  match turns k with O => (false, k) | S n => (true, with_turns n k) end.
Definition host_select (_ : list Z) (k : host) : sysres unit * host :=
  (SysErr EINTR, Host (o_done k) (o_pipe k ++ take 2 (o_coming k)) (drop 2 (o_coming k)) (e_done k)
                      (e_pipe k) (turns k) (the_child k) (next_fd k)).
Definition host_kill (pid sig : Z) (k : host) : sysres unit * host :=
  let '(r, c) := child_kill pid sig (the_child k) in (r, with_child c k).
Definition host_sigalrm (h : Z) (k : host) : Z * host :=
  let '(r, c) := child_sigalrm h (the_child k) in (r, with_child c k).
Definition host_alarm (n : Z) (k : host) : host := with_child (child_alarm n (the_child k)) k.
Definition host_wait (pid : Z) (k : host) : Z * host :=
  let '(rc, c) := child_wait pid (the_child k) in
  (rc, Host (o_done k) (o_pipe k) (if (0 <? rc)%Z then [] else o_coming k) (e_done k) (e_pipe k)
            (turns k) c (next_fd k)).
Definition host_fork (_ : str) (_ : list str) (k : host) : Z * host := (77%Z, k).
Definition host_fcntl (_ : Z) (k : host) : host := k.

Lemma take_nonempty (l : str) n c d :
  take n l = c :: d -> length (c :: d) <= n /\ length (c :: d) + length (drop n l) = length l.
Proof.
  intros E. rewrite <- E, length_take, length_drop. lia.
Qed.

Lemma take_empty (l : str) n : 0 < n -> take n l = [] -> l = [].
Proof. by destruct n, l; intros; (lia || done). Qed.

#[global, program] Instance host_out : PipeKernel host_calls (Pipe 5 (-1)) := {
  written := fun k => o_done k ++ o_pipe k; consumed := o_done }.
Next Obligation. done. Qed.
Next Obligation.
  intros n k Hn. cbn. destruct (take n (o_pipe k)) as [|c d] eqn:E; cbn.
  - apply take_empty in E as ->; [|done]. by rewrite app_nil_r.
  - apply take_nonempty in E as H. cbn in *. split_and!; done || lia.
Qed.

#[global, program] Instance host_out_supply : PipeSupply host_calls (Pipe 5 (-1)) := {
  supply := fun k => length (o_pipe k) + length (o_coming k) }.
Next Obligation.
  intros n k Hn. cbn. destruct (take n (o_pipe k)) as [|c d] eqn:E; cbn; [by split|].
  apply take_nonempty in E as H. cbn in *. lia.
Qed.

#[global, program] Instance host_err : PipeKernel host_calls (Pipe 7 (-1)) := {
  written := fun k => e_done k ++ e_pipe k; consumed := e_done }.
Next Obligation. done. Qed.
Next Obligation.
  intros n k Hn. cbn. destruct (take n (e_pipe k)) as [|c d] eqn:E; cbn.
  - apply take_empty in E as ->; [|done]. by rewrite app_nil_r.
  - apply take_nonempty in E as H. cbn in *. split_and!; done || lia.
Qed.

#[global, program] Instance host_err_supply : PipeSupply host_calls (Pipe 7 (-1)) := {
  supply := fun k => length (e_pipe k) }.
Next Obligation.
  intros n k Hn. cbn. destruct (take n (e_pipe k)) as [|c d] eqn:E; cbn; [by split|].
  apply take_nonempty in E as H. cbn in *. lia.
Qed.

#[global, program] Instance host_proc : ProcKernel host_kill host_sigalrm host_alarm host_wait 77 := {
  signals := fun k => got (the_child k); alarms := fun k => timers (the_child k);
  handler := fun k => on_alarm (the_child k); stubborn := fun k => holds_out (the_child k) }.
Next Obligation. intros sig k. cbn. auto. Qed.
Next Obligation. intros n k. cbn. auto. Qed.
Next Obligation. intros h k. eexists. split; [reflexivity|]. cbn. auto. Qed.
Next Obligation.
  intros [o1 o2 o3 e1 e2 t [g a o [|h]] f] rc k' E; cbn in E; injection E as <- <-; cbn;
    split_and!; auto. left. lia.
Qed.

#[global, program] Instance host_serve :
    ServeKernel host_calls host_running host_select host_kill host_sigalrm host_alarm host_wait
      sample_process := { patience := turns; dead := fun k => o_coming k = [] }.
Next Obligation.
  intros [o1 o2 o3 e1 e2 [|t] c f] b k' E; cbn in E; injection E as <- <-;
    cbv [out_read out_written out_left err_left resists]; cbn; rewrite app_nil_r;
    split_and!; auto; done || lia.
Qed.
Next Obligation.
  intros fds [o1 o2 o3 e1 e2 t c f] r k' E; cbn in E; injection E as <- <-;
    cbv [out_read out_written out_left err_left resists]; cbn [o_done o_pipe o_coming e_done e_pipe
      the_child turns consumed written supply stubborn host_out host_err host_out_supply host_err_supply host_proc].
  rewrite length_app, length_take, length_drop, !app_nil_r. cbn -[Nat.min take drop].
  split_and!; auto; [lia|]. intros ->. by rewrite app_nil_r.
Qed.
Next Obligation.
  intros sig k r k' E; cbn in E; injection E as <- <-;
    cbv [out_read out_written out_left err_left resists]; cbn; rewrite app_nil_r; split_and!; auto.
Qed.
Next Obligation.
  intros h k; cbv [out_read out_written out_left err_left resists]; cbn; rewrite app_nil_r; split_and!; auto.
Qed.
Next Obligation.
  intros n k; cbv [out_read out_written out_left err_left resists]; cbn; rewrite app_nil_r; split_and!; auto.
Qed.
Next Obligation.
  intros [o1 o2 o3 e1 e2 t [g a o [|h]] f] rc k' E; cbn in E; injection E as <- <-;
    cbv [out_read out_written out_left err_left resists]; cbn; rewrite app_nil_r;
    split_and!; auto; done || lia.
Qed.
Next Obligation.
  intros n k r k' E; cbn in E; destruct (take n (e_pipe k)) as [|x d] eqn:T; injection E as <- <-;
    try (apply take_nonempty in T as H; cbn in H);
    cbv [out_read out_written out_left err_left resists]; cbn; rewrite app_nil_r;
    split_and!; auto; done || lia.
Qed.
Next Obligation.
  intros n k r k' E; cbn in E; destruct (take n (o_pipe k)) as [|x d] eqn:T; injection E as <- <-;
    cbv [out_read out_written out_left err_left resists]; cbn; [split_and!; auto|].
  split_and!; auto. intros C. split; [done|]. by rewrite <- app_assoc, <- T, take_drop.
Qed.

(** Eight bytes, six of them printed before the child is told to stop, and one line on
    its standard error; it holds out twice. *)
Definition sample_host : host := Host [] "ab" "cdefgh" [] "oops" 2 (Subprocess.Child [] [] 9 2) 3.

Definition sample_args : list str :=
  ["-cp" : str; "zk.jar"; "org.apache.zookeeper.server.quorum.QuorumPeerMain"; "2181"; "/data"].

Lemma server_output_complete_witness :
  exists d cerr' k',
    run_process host_calls host_running host_select host_kill host_sigalrm host_alarm host_wait
      host_fork host_fcntl 3 13 9 3 (Classpath ["zk.jar" : str]) minimal 9 "> " [] sample_host
    = Some (Ok (reaped sample_process, "> " ++ d, cerr'), k') /\
    o_done k' = d /\ o_done k' = o_done k' ++ o_pipe k'.
Proof.
  exact (server_output_complete host_calls host_running host_select host_kill host_sigalrm host_alarm
           host_wait host_fork host_fcntl (Classpath ["zk.jar" : str]) minimal sample_args sample_process
           (KO := host_out) (KE := host_err) (KP := host_proc) (SK := host_serve)
           3 13 9 3 9 "> " [] sample_host
           (Host [] "ab" "cdefgh" [] "oops" 2 (Subprocess.Child [] [] 9 2) 9)
           ltac:(vm_compute; reflexivity) ltac:(vm_compute; reflexivity) ltac:(done) ltac:(done)
           ltac:(done) ltac:(cbn; lia) ltac:(cbn; lia) ltac:(cbn; lia) ltac:(cbn; lia)
           ltac:(cbn; lia) ltac:(cbn; lia)).
Defined.

(** The bytes themselves. *)
Example sample_run_shows :
  match run_process host_calls host_running host_select host_kill host_sigalrm host_alarm host_wait
          host_fork host_fcntl 3 13 9 3 (Classpath ["zk.jar" : str]) minimal 9 "> " [] sample_host with
  | Some (Ok (s', out, err), k') => proc_id s' = (-1)%Z /\ out = "> abcdef" /\ err = "abcd"
  | _ => False
  end.
Proof. vm_compute. auto. Qed.
